(* ===== verification/_CoqProject ===== *)
-Q . S2P
Prelude.v
PyDict.v
Json.v
JsonText.v
DeadLetter.v
QueueManager.v
QueueInvariant.v
TaskConservation.v
TaskLifecycle.v
RetryPolicy.v
QueueOrder.v
WorkerRegistry.v
Eviction.v
LoadShedder.v
AdmissionControl.v
WalStore.v
Durability.v
StoreFile.v
Metrics.v
Observability.v
Server.v
Frames.v
Requests.v
Recovery.v
CrashSafety.v
Replies.v
ControlPlane.v
EventLoop.v
Serving.v
Supervision.v
Leases.v
Atomicity.v
Ledger.v
Limits.v
Wire.v
WireProtocol.v
Producer.v
Session.v
ServerLife.v
EndToEnd.v
Worker.v
Coroutines.v
Connection.v
Conversation.v
LoadGen.v
WorkerDrain.v
Fleet.v
FleetInvariant.v
Shutdown.v
FleetDrain.v
Loaders.v
LoadTest.v
PyString.v
Http.v
HttpSafety.v
TaskExecutor.v
Deployment.v
Restart.v
