(* ===== verification/Prelude.v ===== *)
(** * DistroSync: a verification library

DistroSync is a task queue.  Producers send tasks to a broker over TCP;
workers register with the broker, fetch tasks, execute them and report
success (ACK) or failure (NACK).  The broker retries failed tasks, buries
those that exhaust their retry budget in a dead letter queue, takes tasks
back from workers whose heartbeats stop, sheds load per queue with an
adaptive token bucket, and writes every change of a task to an SQLite
database from which it rebuilds its queues after a crash.

** Parts of the program and where they are modelled

Data and language:
- [Prelude]: Python's comparison, [min]/[max], [round] and truthiness on
  the types used, the tactics, the hint and rewrite databases, and the
  lemmas on lists, options and rationals that the components share.
- [PyDict]: the insertion-ordered [dict] and the bounded [deque].
- [Json], [JsonText]: JSON values, the interface [JsonCodec] of their text
  form, and an instance of it.

Broker components:
- [DeadLetter]: [broker/dead_letter.py] and the [Task] dataclass.
- [QueueManager]: [broker/queue_manager.py].
- [WorkerRegistry]: [broker/worker_registry.py].
- [LoadShedder]: [broker/load_shedder.py].
- [Metrics]: [broker/metrics_collector.py].
- [WalStore], [Durability], [StoreFile]: [persistence/wal_store.py], as
  functions on the committed database, as SQL statements with faults and
  crashes, and as a cached connection to a file.
- [Server]: [broker/server.py], the command handlers, the dashboard
  actions, start-up recovery and the eviction sweep, over one [Broker]
  record that owns the components; [Frames] has the rules for the parts of
  the record a handler leaves alone; [ServerLife] has [start] and [stop].
- [Wire]: the framing of [broker/server.py], [producer/client.py] and
  [worker/base_worker.py], and the broker's connection loop.
- [Http]: [broker/http_api.py]; [PyString] has the string and path
  functions it uses.
- [CrashSafety]: the store calls each command and start-up make, in order.
- [ControlPlane]: what each event does to the queue manager and the
  registry alone.
- [EventLoop]: coroutines, [asyncio.Lock] and the loop that runs them;
  [Serving]: the broker's handlers once more, with every lock they take
  and every point where they suspend, as tasks of that loop.

Clients:
- [Producer]: [producer/backoff.py] and the requests of
  [producer/client.py]; [Session]: its connection, and the operating
  system's table of open handles ([Os]).
- [Worker]: the loop of [worker/base_worker.py]; [Coroutines]: the same
  loop and the heartbeat loop from [await] to [await]; [Connection]: the
  two of them inside [_send], with the connection lock.
- [TaskExecutor]: the task functions of [worker/task_executor.py].
- [Deployment]: the worker with its socket, the worker with a process pool
  and the launcher [run_worker.py].
- [LoadGen]: one producer of each of [run_load.py],
  [benchmarks/raw_throughput.py] and [tests/load/load_simulator.py];
  [Loaders]: the same producers as coroutines.
- [Fleet]: any number of workers, which may crash, be shut down, lose
  their connections, with a reply or between two requests, by the
  dashboard's crash button, too, and be started again, against one broker;
  [LoadTest]: the load tests, with producers, workers and a broker, and the
  wait for the queue to drain.

A component keeps its state in a record [t] with the attributes of the
Python class as fields, and each method is a definition of the same name
from the state to its result and the new state.  Components meet at type
classes: the dead letter queue gives tasks back through [RequeueTarget],
the registry through [TaskReassigner] (the queue manager implements both),
the load shedder reads its two signals through [LoadSignals], and the
store and the wire are written against [JsonCodec].  The clients are
written against a peer, a function from a message to a reply; [TypedPeer]
says what they need of it and the broker is an instance.  The producers
of the load generators note their results down on a [Board], with one
instance for each generator.

** What the theorems show

- One task, one place: [QueueInvariant] (representation invariant, and
  each operation moves, adds or discards one known task),
  [TaskConservation] (no interleaving of critical sections loses or
  duplicates a task), [TaskLifecycle] (refinement of an abstract task life
  cycle whose transitions are labelled with the operation and its answer;
  an acknowledged task is never delivered again).
- Retries and order: [RetryPolicy], [QueueOrder].
- Dead workers: [Eviction] (which workers a sweep removes, that their
  tasks go back to the queue, and how soon), [Supervision] and [Leases]
  (over all histories of events: no task is orphaned, a punctual worker is
  never evicted and keeps its tasks, and the case the program misses).
- Statistics: [Ledger] (the counters of the queue manager, the registry
  and the dead letter queue add up).
- Load: [AdmissionControl] (rate bounds, admission bound, no starvation,
  sufficiency of the retry hint).
- Storage: [Durability] (every store call is all or nothing; a crash
  leaves a prefix of the calls), [Recovery] (memory and disk agree at all
  times, and a restart rebuilds exactly the live tasks, in histories
  without the dashboard's replay of all dead letters, which does not write
  to the store), [CrashSafety] (the same when the process dies in the
  middle of a request or of start-up, and the one command that is not
  safe), [StoreFile] (reopening loses nothing; what a refused write leaves
  on the connection), [Limits] (where the two copies of a dead letter
  part, and what that replay loses).
- Requests: [Requests] (what a reply says about the state), [Replies]
  (every command is answered with a reply of its type, but for a
  [DLQ_LIST] whose limit does not fit into 64 bits), [Conversation] (so the
  clients, which send no such limit, never fail on a reply),
  [WireProtocol] (framing round trip, replies in order, every connection
  ends).
- Event loop: [Atomicity] (no lock is ever contended, and any number of
  connections, dashboard requests and sweeps have the effect of whole
  handlers, and of the counting of connections, one after another).
- Observation: [Observability] (the rates and percentiles against the
  plain event history).
- HTTP: [HttpSafety] (reads are safe, files are confined to the dashboard
  directory, a reset leaves nothing behind).
- Tasks: [TaskExecutor] (what the built-in task functions compute).
- Interleavings of clients: [Connection] (the lock makes [_send] atomic),
  [FleetInvariant] (workers, crashes, shutdowns, lost connections and
  replies, sweeps and other clients in any order: who holds which task, and
  that the counters agree but for the lost replies, as long as no sweep
  finds a connected worker overdue), [Restart] (on the same condition, the
  launcher's pause is long enough for the sweeps to take back what a worker
  had when it was cut off), [Shutdown] (a shutdown that loses a long task
  to another worker),
  [FleetDrain] (workers that keep getting turns empty their queue),
  [LoadTest] (the figures of a load test are right; its producers get
  through, and the wait for the queue to drain ends).  The
  coroutines are tied to the loops of [Worker] and [LoadGen] by [work_turns],
  [beat_turns], [flood_turns], [bench_turns] and [simulate_turns].
- Connections: [Session] ([async with] leaks nothing but what a [connect]
  inside the block overwrites), [ServerLife] (start and stop),
  [Deployment] (which sockets a restarted worker leaves open).
- Whole system: [EndToEnd] (the producer's retry loop terminates and gets
  its task in), [WorkerDrain] (a worker empties its queue and settles
  every task), [LoadGen] ([produce] submits exactly once; what a generator
  reports as accepted was enqueued).

** Modelling decisions

- Numbers: Python integers are [Z]; floats are the exact rationals [Q]
  they stand for, so rounding of floating point arithmetic is not
  modelled.  The only machine-width quantity is the four-byte length of
  the framing, which is kept at its width.
- Clocks, [uuid4] and [random] readings are arguments.  At the level of
  one request all readings of one clock are the same ([Server.Env]).
- Order: dictionaries keep insertion order; the iteration order of a
  [set] is a parameter constrained to enumerate it; [ORDER BY] is a stable
  sort.
- Sharing: a [Task] object is owned by one container at a time, so a
  value per container stands for the shared object.
- Concurrency: the event loop switches only where a coroutine suspends.
  Each critical section of the queue manager is one step in
  [TaskConservation]; a command handler is one step of the broker
  elsewhere, which [handlers_are_atomic] justifies.  Clients are coroutines that run from one [await]
  to the next ([Coroutines], [Loaders]); a schedule is a list of moves.
- Errors: an exception that leaves a handler is [None] of its monad; a
  refused SQL statement, one whose transaction SQLite rolls back by itself,
  and a crash are outcomes in [Durability].  A connection may end or be
  reset: asyncio closes the socket itself after a reset, but not at the end
  of the stream ([Session], [Deployment]).  Finalizers, which may close a
  socket the program has forgotten, are not modelled.  A wire message whose known
  fields have an unexpected JSON type ends in the explicit result
  [OutOfModel].
- Strings are UTF-8 text; JSON strings with lone surrogates, which have no
  such form, are not modelled.
- SQLite's own guarantee, that a COMMIT is atomic and durable, is the
  meaning of the commit step in [Durability].

** Fuel

[Wire.serve] consumes at least four bytes per round, and
[handle_connection] runs it with one more than the length of the stream;
[every_connection_ends] shows that this is enough.  [Client.produce] runs
its loop [max_retries + 1] times, the number of requests the backoff
allows; [produce_is_bounded] shows that this is enough.  [Executor.fib] runs with
one more than the ceiling of its argument; [fib_terminates] shows that
this is enough.  The endless loops
of the worker and of the eviction task are indexed by a number of rounds;
in [FleetDrain] twice [work_left] rounds are shown to be enough to empty a
queue, and so are as many naps for [LoadTest.wait_drained].

** Not modelled

Signals, argument parsing, environment variables, banners and logging; the
PRAGMAs of SQLite's connection set-up and connections of further threads;
the dashboard page; how the process pool schedules its processes (a call of
it returns the function's result); symbolic links below the dashboard
directory; the cancellation of a task in the middle of a request, and with
it the shutdown at the end of a load test.  In [Fleet] a connection is lost
between two requests, or with the reply to a request of the consume loop,
but not with the reply to a heartbeat; in [LoadTest] between two requests
only.

** Still to be done

A printer and parser for JSON text itself instead of an abstract codec. *)

From stdpp Require Export prelude strings gmap list sorting pretty.
From Stdlib Require Export QArith Qround Qminmax Lqa.
From AAC_tactics Require Import AAC.
From AAC_tactics Require Instances.

#[global] Open Scope string_scope.
#[global] Open Scope list_scope.
#[global] Open Scope nat_scope.

(** ** Python's ordering primitives on exact rationals

[a <= b], [a < b], [min(a, b)] and [max(a, b)] with CPython's choice of
operand on ties. *)

Definition Qltb (a b : Q) : bool := negb (Qle_bool b a).

Definition py_min (a b : Q) : Q := if Qltb b a then b else a.

Definition py_max (a b : Q) : Q := if Qltb a b then b else a.

Declare Scope py_scope.
Delimit Scope py_scope with py.
Notation "a <=? b" := (Qle_bool a b) : py_scope.
Notation "a <? b" := (Qltb a b) : py_scope.
Notation "a >=? b" := (Qle_bool b a) (only parsing) : py_scope.
Notation "a >? b" := (Qltb b a) (only parsing) : py_scope.

(** [round(q, d)]: to the nearest multiple of [10^-d], ties to even. *)
Definition round_half_even (q : Q) : Z :=
  let f := Qfloor q in
  match (q - inject_Z f ?= 1 # 2)%Q with
  | Lt => f
  | Gt => (f + 1)%Z
  | Eq => if Z.even f then f else (f + 1)%Z
  end.

Definition py_round (d : nat) (q : Q) : Q :=
  let scale := inject_Z (10 ^ Z.of_nat d) in
  (inject_Z (round_half_even (q * scale)) / scale)%Q.

(** Python truthiness of a [str]: only the empty string is falsy. *)
Definition truthy_str (s : string) : bool := negb (bool_decide (s = "")).

(** [d.get(k)] followed by [if not x]: a missing or empty string is falsy. *)
Definition truthy_ostr (o : option string) : bool :=
  match o with Some s => truthy_str s | None => false end.

(** ** Reflection lemmas and tactics *)

Lemma Qltb_lt (a b : Q) : Qltb a b = true ↔ (a < b)%Q.
Proof.
  unfold Qltb. rewrite negb_true_iff. split.
  - intros H. apply Qnot_le_lt. intros Hle. apply Qle_bool_iff in Hle. congruence.
  - intros H. destruct (Qle_bool b a) eqn:E; [|done].
    apply Qle_bool_iff in E. exfalso. by apply (Qlt_not_le _ _ H).
Qed.

Lemma Qltb_ge (a b : Q) : Qltb a b = false ↔ (b <= a)%Q.
Proof. unfold Qltb. rewrite negb_false_iff. apply Qle_bool_iff. Qed.

Lemma Qle_bool_gt (a b : Q) : Qle_bool a b = false ↔ (b < a)%Q.
Proof.
  split.
  - intros H. apply Qltb_lt. unfold Qltb. by rewrite H.
  - intros H. apply Qltb_lt in H. unfold Qltb in H. by apply negb_true_iff in H.
Qed.

(** Turn every boolean comparison of rationals in the context into the
    proposition it decides. *)
Ltac qreflect :=
  repeat match goal with
  | H : Qltb _ _ = true |- _ => apply Qltb_lt in H
  | H : Qltb _ _ = false |- _ => apply Qltb_ge in H
  | H : Qle_bool _ _ = true |- _ => apply Qle_bool_iff in H
  | H : Qle_bool _ _ = false |- _ => apply Qle_bool_gt in H
  end.

(** Split on every rational comparison of the goal. *)
Ltac qcases :=
  repeat match goal with
  | |- context [if Qltb ?a ?b then _ else _] => destruct (Qltb a b) eqn:?
  | |- context [if Qle_bool ?a ?b then _ else _] => destruct (Qle_bool a b) eqn:?
  end; qreflect.

Lemma py_min_le_l a b : (py_min a b <= a)%Q.
Proof. unfold py_min; qcases; lra. Qed.

Lemma py_min_le_r a b : (py_min a b <= b)%Q.
Proof. unfold py_min; qcases; lra. Qed.

Lemma py_min_glb a b c : (c <= a)%Q → (c <= b)%Q → (c <= py_min a b)%Q.
Proof. unfold py_min; qcases; lra. Qed.

Lemma py_max_ge_l a b : (a <= py_max a b)%Q.
Proof. unfold py_max; qcases; lra. Qed.

Lemma py_max_ge_r a b : (b <= py_max a b)%Q.
Proof. unfold py_max; qcases; lra. Qed.

Lemma py_max_lub a b c : (a <= c)%Q → (b <= c)%Q → (py_max a b <= c)%Q.
Proof. unfold py_max; qcases; lra. Qed.

Lemma py_max_mono a b c : (b <= c)%Q → (py_max a b <= py_max a c)%Q.
Proof. unfold py_max; qcases; lra. Qed.

Lemma py_min_mono a b c : (b <= c)%Q → (py_min a b <= py_min a c)%Q.
Proof. unfold py_min; qcases; lra. Qed.

(** [round(q, d)] is within half a unit of the last digit. *)
Lemma round_half_even_near q :
  (inject_Z (round_half_even q) - (1 # 2) <= q <= inject_Z (round_half_even q) + (1 # 2))%Q.
Proof.
  unfold round_half_even. pose proof (Qfloor_le q) as H1. pose proof (Qlt_floor q) as H2.
  rewrite inject_Z_plus in H2. change (inject_Z 1) with 1%Q in H2.
  destruct (q - inject_Z (Qfloor q) ?= 1 # 2)%Q eqn:E.
  - apply Qeq_alt in E. destruct (Z.even (Qfloor q)); rewrite ?inject_Z_plus;
      change (inject_Z 1) with 1%Q; lra.
  - apply Qlt_alt in E. lra.
  - apply Qgt_alt in E. rewrite inject_Z_plus. change (inject_Z 1) with 1%Q. lra.
Qed.

Lemma truthy_str_true s : truthy_str s = true ↔ s ≠ "".
Proof. unfold truthy_str. rewrite negb_true_iff, bool_decide_eq_false. done. Qed.

Create HintDb distrosync.
Create Rewrite HintDb distrosync.
#[export] Hint Resolve py_min_le_l py_min_le_r py_min_glb
  py_max_ge_l py_max_ge_r py_max_lub py_max_mono py_min_mono : distrosync.

(** Close a decidable closed goal by evaluating its decision procedure. *)
Ltac decide_by_compute :=
  refine (bool_decide_unpack _ _); vm_compute; exact I.

(** ** Lists *)

Section list_lemmas.
  Context {A B : Type}.

Lemma NoDup_app_comm (l k : list A) : NoDup (l ++ k) → NoDup (k ++ l).
Proof. intros H. by rewrite Permutation_app_comm. Qed.

Lemma concat_perm_app (l k : list (list A)) (x : list A) :
  concat (l ++ x :: k) ≡ₚ x ++ concat (l ++ k).
Proof.
  rewrite !concat_app. cbn. rewrite !app_assoc.
  by rewrite (Permutation_app_comm (concat l) x).
Qed.
End list_lemmas.

(** ** Permutations

Lists up to permutation form a commutative monoid under [++]; goals that
only rearrange, after hypotheses have been rewritten in, are closed by
normalisation. *)

#[export] Instance permutation_aac_lift {A} : AAC_lift (@Permutation A) (@Permutation A).
Proof. constructor; apply _. Defined.

#[export] Instance permutation_app_assoc {A} : Associative (@Permutation A) (@app A).
Proof. intros l1 l2 l3. by rewrite app_assoc. Defined.

#[export] Instance permutation_app_comm {A} : Commutative (@Permutation A) (@app A).
Proof. intros l1 l2. apply Permutation_app_comm. Defined.

Ltac cons_to_app :=
  repeat match goal with
  | |- context [?x :: ?l] =>
      lazymatch l with
      | [] => fail
      | _ => change (x :: l) with ([x] ++ l)
      end
  end.

Ltac perm_solve :=
  rewrite ?fmap_app, ?fmap_cons, ?app_nil_r; cons_to_app;
  first [reflexivity | aac_reflexivity].
