(* ===== verification/PyDict.v ===== *)
(** * Python containers: insertion-ordered [dict] and bounded [deque]

Since Python 3.7 a [dict] iterates in insertion order: assigning to an
existing key keeps the key's position, a new key goes last, and deleting
a key removes it.  The broker depends on this order (the wildcard consume,
the eviction sweep and the dead letter listing all iterate a [dict]), so a
dictionary is an association list with exactly these updates, and not an
unordered finite map.  [collections.deque] is a list whose head is the left
end; [deque(maxlen=n)] drops from the left when it overflows. *)

From S2P Require Import Prelude.

Abbreviation dict K V := (list (K * V)).

Section dict.
  Context {K V : Type} `{!EqDecision K}.
  Implicit Types (d : dict K V) (k : K) (v : V).

(** [d.get(k)] *)
Fixpoint dget (k : K) (d : dict K V) : option V :=
  match d with
  | [] => None
  | (k', v) :: d' => if decide (k = k') then Some v else dget k d'
  end.

(** [d[k] = v] *)
Fixpoint dset (k : K) (v : V) (d : dict K V) : dict K V :=
  match d with
  | [] => [(k, v)]
  | (k', v') :: d' => if decide (k = k') then (k, v) :: d' else (k', v') :: dset k v d'
  end.

(** [del d[k]], and what [d.pop(k, None)] leaves behind *)
Fixpoint ddel (k : K) (d : dict K V) : dict K V :=
  match d with
  | [] => []
  | (k', v') :: d' => if decide (k = k') then d' else (k', v') :: ddel k d'
  end.

Definition dkeys (d : dict K V) : list K := d.*1.
Definition dvalues (d : dict K V) : list V := d.*2.

(** A [dict] never holds a key twice. *)
Definition dict_wf (d : dict K V) : Prop := NoDup (dkeys d).

Lemma dget_Some_in d k v : dget k d = Some v → (k, v) ∈ d.
Proof.
  induction d as [|[k' v'] d IH]; cbn; [done|].
  case_decide; [intros [= ->]; subst; left | intros Hg; right; auto].
Qed.

Lemma dget_None d k : dget k d = None ↔ k ∉ dkeys d.
Proof.
  induction d as [|[k' v'] d IH]; cbn; [split; [intros _; by apply not_elem_of_nil | done]|].
  rewrite not_elem_of_cons. case_decide as E; [split; naive_solver|].
  rewrite IH. unfold dkeys. naive_solver.
Qed.

Lemma dget_is_Some d k : is_Some (dget k d) ↔ k ∈ dkeys d.
Proof.
  rewrite <- not_eq_None_Some, dget_None. split; [|tauto].
  intros H. by destruct (decide (k ∈ dkeys d)).
Qed.

Lemma dget_in d k v : dict_wf d → (k, v) ∈ d → dget k d = Some v.
Proof.
  unfold dict_wf. induction d as [|[k' v'] d IH]; cbn.
  { intros _ H; by apply not_elem_of_nil in H. }
  rewrite NoDup_cons, elem_of_cons. intros [Hk Hd] [[= -> ->]|Hin].
  - by rewrite decide_True.
  - rewrite decide_False; [by apply IH|]. intros ->. apply Hk.
    apply list_elem_of_fmap. by exists (k', v).
Qed.

Lemma dset_new d k v : dget k d = None → dset k v d = d ++ [(k, v)].
Proof.
  induction d as [|[k' v'] d IH]; cbn; [done|].
  case_decide; [done|]. intros Hg. by rewrite IH.
Qed.

Lemma dget_dset_eq d k v : dget k (dset k v d) = Some v.
Proof.
  induction d as [|[k' v'] d IH]; cbn; [by rewrite decide_True|].
  case_decide; cbn; [by rewrite decide_True | by rewrite decide_False].
Qed.

Lemma dget_dset_ne d k k' v : k ≠ k' → dget k' (dset k v d) = dget k' d.
Proof.
  intros Hne. induction d as [|[j w] d IH]; cbn; [by rewrite decide_False|].
  case_decide; cbn; subst; [by rewrite !decide_False by done|].
  case_decide; done.
Qed.

Lemma ddel_notin d k : k ∉ dkeys d → ddel k d = d.
Proof.
  induction d as [|[k' v'] d IH]; cbn; [done|].
  rewrite not_elem_of_cons. intros [Hk Hd].
  rewrite decide_False by done. by rewrite IH.
Qed.

Lemma dkeys_dset_existing d k v :
  k ∈ dkeys d → dkeys (dset k v d) = dkeys d.
Proof.
  induction d as [|[k' v'] d IH]; cbn; [by intros ?%not_elem_of_nil|].
  rewrite elem_of_cons. case_decide as E; cbn; [by subst|].
  intros [?|Hd]; [done|]. f_equal. by apply IH.
Qed.

Lemma dset_wf d k v : dict_wf d → dict_wf (dset k v d).
Proof.
  intros H. unfold dict_wf. destruct (dget k d) eqn:E.
  - rewrite dkeys_dset_existing; [done|]. apply dget_is_Some; eauto.
  - rewrite dset_new by done. unfold dkeys. rewrite fmap_app.
    apply NoDup_app_comm. cbn. apply NoDup_cons. split; [|done].
    by apply dget_None.
Qed.

(** Reading a present key splits the dictionary around it. *)
Lemma dget_split d k v :
  dget k d = Some v →
  ∃ d1 d2, d = d1 ++ (k, v) :: d2 ∧ ddel k d = d1 ++ d2 ∧
    (∀ v', dset k v' d = d1 ++ (k, v') :: d2).
Proof.
  induction d as [|[k' v'] d IH]; cbn; [done|].
  case_decide; subst.
  - intros [= ->]. by exists [], d.
  - intros (d1 & d2 & -> & -> & Hset)%IH.
    exists ((k', v') :: d1), d2. split_and!; cbn; [done..|].
    intros w. by rewrite Hset.
Qed.

Lemma ddel_perm d k v : dget k d = Some v → d ≡ₚ (k, v) :: ddel k d.
Proof.
  intros (d1 & d2 & -> & -> & _)%dget_split.
  by rewrite Permutation_middle.
Qed.

Lemma dset_existing_perm d k v v' :
  dget k d = Some v → dset k v' d ≡ₚ (k, v') :: ddel k d.
Proof.
  intros (d1 & d2 & -> & -> & ->)%dget_split.
  by rewrite Permutation_middle.
Qed.

Lemma ddel_wf d k : dict_wf d → dict_wf (ddel k d).
Proof.
  intros H. destruct (dget k d) eqn:E.
  - apply dget_split in E as (d1 & d2 & -> & -> & _).
    unfold dict_wf, dkeys in *. rewrite fmap_app in *. cbn in H.
    apply NoDup_app in H as (?&Hd&Hn). apply NoDup_cons in Hn as [??].
    apply NoDup_app; split_and!; [done| |done].
    intros x Hx Hx2. apply (Hd x Hx). by right.
  - rewrite ddel_notin; [done|]. by apply dget_None.
Qed.

Lemma dget_ddel_eq d k : dict_wf d → dget k (ddel k d) = None.
Proof.
  intros H. apply dget_None. destruct (dget k d) eqn:E.
  - apply dget_split in E as (d1 & d2 & -> & -> & _).
    unfold dict_wf, dkeys in *. rewrite fmap_app in *. cbn in H.
    apply NoDup_app in H as (?&Hd&Hn). apply NoDup_cons in Hn as [??].
    rewrite elem_of_app. intros [Hx|Hx]; [|done]. apply (Hd k Hx). by left.
  - rewrite ddel_notin; by apply dget_None.
Qed.

Lemma dget_ddel_ne d k k' : k ≠ k' → dget k' (ddel k d) = dget k' d.
Proof.
  intros Hne. induction d as [|[j w] d IH]; cbn; [done|].
  case_decide; cbn; subst; [by rewrite decide_False|].
  case_decide; done.
Qed.

Lemma ddel_subseteq d k x : x ∈ ddel k d → x ∈ d.
Proof.
  destruct (dget k d) eqn:E.
  - apply dget_split in E as (d1 & d2 & -> & -> & _).
    rewrite !elem_of_app, elem_of_cons. naive_solver.
  - rewrite ddel_notin; [done|]. by apply dget_None.
Qed.

(** An entry of [d[k] = v] is the new one or an old one. *)
Lemma dset_elem d k v x : x ∈ dset k v d → x = (k, v) ∨ x ∈ d.
Proof.
  induction d as [|[k' v'] d IH]; cbn; [rewrite list_elem_of_singleton; auto|].
  case_decide; rewrite !elem_of_cons; naive_solver.
Qed.

Lemma dvalues_dset_new d k v :
  dget k d = None → dvalues (dset k v d) = dvalues d ++ [v].
Proof. intros H. unfold dvalues. by rewrite dset_new, fmap_app. Qed.

Lemma dvalues_ddel d k v :
  dget k d = Some v → dvalues d ≡ₚ v :: dvalues (ddel k d).
Proof. intros H%ddel_perm. unfold dvalues. by rewrite H at 1. Qed.

Lemma dvalues_ddel_notin d k : dget k d = None → dvalues (ddel k d) = dvalues d.
Proof. intros H. by rewrite ddel_notin by (by apply dget_None). Qed.

Lemma length_ddel d k v : dget k d = Some v → length d = S (length (ddel k d)).
Proof. intros H%ddel_perm. by rewrite H at 1. Qed.

Lemma length_dset d k v :
  length (dset k v d) = match dget k d with Some _ => length d | None => S (length d) end.
Proof.
  destruct (dget k d) eqn:E.
  - rewrite (dset_existing_perm _ _ _ _ E), (length_ddel _ _ _ E). done.
  - rewrite dset_new, length_app by done. cbn. lia.
Qed.
End dict.

#[global] Arguments dkeys : simpl never.
#[global] Arguments dvalues : simpl never.

#[export] Hint Resolve dset_wf ddel_wf : distrosync.

#[global] Instance dict_wf_dec {K V} `{!EqDecision K} (d : dict K V) : Decision (dict_wf d).
Proof. unfold dict_wf. apply _. Defined.

(** ** [deque(maxlen=n)] *)

Definition deque_append_max {A} (maxlen : nat) (q : list A) (x : A) : list A :=
  let q' := q ++ [x] in drop (length q' - maxlen) q'.

Lemma deque_append_max_length {A} n (q : list A) x :
  length (deque_append_max n q x) ≤ n.
Proof. unfold deque_append_max. rewrite length_drop, length_app. cbn. lia. Qed.

Lemma deque_append_max_last {A} n (q : list A) x :
  0 < n → last (deque_append_max n q x) = Some x.
Proof.
  intros Hn. unfold deque_append_max. rewrite drop_app_le.
  - by rewrite last_snoc.
  - rewrite length_app. cbn. lia.
Qed.

Lemma deque_append_max_elem {A} n (q : list A) x y :
  y ∈ deque_append_max n q x → y = x ∨ y ∈ q.
Proof.
  unfold deque_append_max. intros H.
  apply (list_elem_of_In _ _) in H. apply (list_elem_of_In) in H.
  assert (y ∈ q ++ [x]) as Hin.
  { rewrite <- (take_drop (length (q ++ [x]) - n) (q ++ [x])).
    apply elem_of_app. by right. }
  rewrite elem_of_app, list_elem_of_singleton in Hin. naive_solver.
Qed.
