(* ===== verification/Json.v ===== *)
(** * JSON values

The values that [json.loads] produces and [json.dumps] consumes, which are
the task payloads, the wire messages and the responses of the broker; the
Python truthiness and [dict.get] the handlers use on them; and the
interface [JsonCodec] of the text form, which the persistence layer and
the wire protocol are written against.

Python floats are represented by the exact rational they denote. *)

From S2P Require Import Prelude PyDict.

Inductive Json : Type :=
  | JNull
  | JBool (b : bool)
  | JInt (z : Z)
  | JFloat (q : Q)
  | JStr (s : string)
  | JArr (l : list Json)
  | JObj (o : list (string * Json)).

(** ** Structural induction through the nested lists *)

Section json_ind.
  Variable P : Json → Prop.
  Hypothesis (Hnull : P JNull) (Hbool : ∀ b, P (JBool b)) (Hint : ∀ z, P (JInt z))
    (Hfloat : ∀ q, P (JFloat q)) (Hstr : ∀ s, P (JStr s))
    (Harr : ∀ l, Forall P l → P (JArr l))
    (Hobj : ∀ o, Forall (λ p, P p.2) o → P (JObj o)).

Fixpoint json_nested_ind (j : Json) : P j :=
  match j with
  | JNull => Hnull
  | JBool b => Hbool b
  | JInt z => Hint z
  | JFloat q => Hfloat q
  | JStr s => Hstr s
  | JArr l => Harr l
      ((fix go (l : list Json) : Forall P l :=
          match l with
          | [] => Forall_nil_2 _
          | x :: l => Forall_cons_2 _ _ _ (json_nested_ind x) (go l)
          end) l)
  | JObj o => Hobj o
      ((fix go (o : list (string * Json)) : Forall (λ p, P p.2) o :=
          match o with
          | [] => Forall_nil_2 _
          | x :: o => Forall_cons_2 _ _ _ (json_nested_ind x.2) (go o)
          end) o)
  end.
End json_ind.

(** ** Decidable equality *)

#[global] Instance Q_eq_dec : EqDecision Q.
Proof. solve_decision. Defined.

Fixpoint json_eqb (a b : Json) : bool :=
  match a, b with
  | JNull, JNull => true
  | JBool x, JBool y => bool_decide (x = y)
  | JInt x, JInt y => bool_decide (x = y)
  | JFloat x, JFloat y => bool_decide (x = y)
  | JStr x, JStr y => bool_decide (x = y)
  | JArr x, JArr y =>
      (fix go (x y : list Json) : bool :=
         match x, y with
         | [], [] => true
         | u :: x, v :: y => json_eqb u v && go x y
         | _, _ => false
         end) x y
  | JObj x, JObj y =>
      (fix go (x y : list (string * Json)) : bool :=
         match x, y with
         | [], [] => true
         | u :: x, v :: y => bool_decide (u.1 = v.1) && json_eqb u.2 v.2 && go x y
         | _, _ => false
         end) x y
  | _, _ => false
  end.

Lemma json_eqb_eq a b : json_eqb a b = true ↔ a = b.
Proof.
  revert b. induction a as [|x|x|x|x|l IH|o IH] using json_nested_ind;
    intros [|y|y|y|y|k|k]; cbn; try (split; congruence);
    try (rewrite bool_decide_eq_true; split; congruence).
  - transitivity (l = k); [|split; congruence].
    revert k. induction IH as [|u l Hu _ IHl]; intros [|v k]; try (split; congruence).
    rewrite andb_true_iff, Hu, IHl. split; [intros [-> ->]; done|]. intros [= -> ->]; done.
  - transitivity (o = k); [|split; congruence].
    revert k. induction IH as [|[u1 u2] l Hu _ IHl]; intros [|[v1 v2] k]; try (split; congruence).
    cbn in *. rewrite !andb_true_iff, Hu, IHl, bool_decide_eq_true.
    split; [intros [[-> ->] ->]; done|]. intros [= -> -> ->]; done.
Qed.

#[global] Instance json_eq_dec : EqDecision Json.
Proof.
  intros a b. destruct (json_eqb a b) eqn:E.
  - left. by apply json_eqb_eq.
  - right. intros H%json_eqb_eq. congruence.
Defined.

(** ** Python operations on decoded values *)

(** [bool(v)]: [None], [False], zeroes and empty containers are falsy. *)
Definition truthy (j : Json) : bool :=
  match j with
  | JNull => false
  | JBool b => b
  | JInt z => negb (bool_decide (z = 0%Z))
  | JFloat q => negb (Qeq_bool q 0)
  | JStr s => truthy_str s
  | JArr l => negb (bool_decide (l = []))
  | JObj o => negb (bool_decide (o = []))
  end.

(** [obj.get(k)]; [None] also stands for the [AttributeError] of a receiver
    that is not an object, which the callers test separately. *)
Definition obj_get (k : string) (j : Json) : option Json :=
  match j with JObj o => dget k o | _ => None end.

Definition json_opt_str (o : option string) : Json :=
  match o with Some s => JStr s | None => JNull end.

Definition json_opt_float (o : option Q) : Json :=
  match o with Some q => JFloat q | None => JNull end.

(** ** The text form

[loads] fails with [json.JSONDecodeError], modelled by [None]. *)

Class JsonCodec := {
  dumps : Json → string;
  loads : string → option Json;
  loads_dumps : ∀ j, loads (dumps j) = Some j;
}.

Lemma dumps_inj `{JsonCodec} (a b : Json) : dumps a = dumps b → a = b.
Proof. intros E%(f_equal loads). rewrite !loads_dumps in E. congruence. Qed.
