(* ===== verification/JsonText.v ===== *)
(** * A concrete text form for JSON values

An instance of [JsonCodec], so that everything proved against the
interface can also be run on concrete inputs.  Values are written as
token trees and the trees as binary digits; what matters to the clients is
only that reading a written value gives it back. *)

From Stdlib Require Import Ascii.
From stdpp Require Import countable.
From S2P Require Import Prelude PyDict Json.

Module JsonText.

(** ** Values as trees *)

Definition Leaf : Type := bool + (Z + ((Z * positive) + string)).

Definition leaf_bool (b : bool) : Leaf := inl b.
Definition leaf_int (z : Z) : Leaf := inr (inl z).
Definition leaf_float (q : Q) : Leaf := inr (inr (inl (Qnum q, Qden q))).
Definition leaf_str (s : string) : Leaf := inr (inr (inr s)).

Fixpoint to_tree (j : Json) : gen_tree Leaf :=
  match j with
  | JNull => GenNode 0 []
  | JBool b => GenLeaf (leaf_bool b)
  | JInt z => GenLeaf (leaf_int z)
  | JFloat q => GenLeaf (leaf_float q)
  | JStr s => GenLeaf (leaf_str s)
  | JArr l => GenNode 1 (to_tree <$> l)
  | JObj o => GenNode 2 ((λ p, GenNode 3 [GenLeaf (leaf_str p.1); to_tree p.2]) <$> o)
  end.

Fixpoint of_tree (t : gen_tree Leaf) : option Json :=
  match t with
  | GenLeaf (inl b) => Some (JBool b)
  | GenLeaf (inr (inl z)) => Some (JInt z)
  | GenLeaf (inr (inr (inl (n, d)))) => Some (JFloat (Qmake n d))
  | GenLeaf (inr (inr (inr s))) => Some (JStr s)
  | GenNode 0 [] => Some JNull
  | GenNode 1 ts => JArr <$> mapM of_tree ts
  | GenNode 2 ts =>
      JObj <$> mapM (λ t, match t with
                          | GenNode 3 [GenLeaf (inr (inr (inr k))); v] =>
                              (λ v, (k, v)) <$> of_tree v
                          | _ => None
                          end) ts
  | _ => None
  end.

Lemma of_to_tree j : of_tree (to_tree j) = Some j.
Proof.
  induction j as [| | |[n d]| |l IH|o IH] using json_nested_ind; cbn; try done.
  - apply fmap_Some. exists l. split; [|done].
    induction IH as [|x l Hx _ IHl]; [done|]. cbn. rewrite Hx. cbn. by rewrite IHl.
  - apply fmap_Some. exists o. split; [|done].
    induction IH as [|[k v] o Hx _ IHo]; [done|]. cbn in *. rewrite Hx. cbn. by rewrite IHo.
Qed.

(** ** Trees as text *)

Fixpoint bits (p : positive) : string :=
  match p with
  | xH => ""
  | xO p => String "0"%char (bits p)
  | xI p => String "1"%char (bits p)
  end.

Fixpoint of_bits (s : string) : option positive :=
  match s with
  | EmptyString => Some xH
  | String c s =>
      if bool_decide (c = "0"%char) then xO <$> of_bits s
      else if bool_decide (c = "1"%char) then xI <$> of_bits s
      else None
  end.

Lemma of_bits_bits p : of_bits (bits p) = Some p.
Proof. induction p as [p IH|p IH|]; cbn; rewrite ?IH; done. Qed.

Definition write (j : Json) : string := bits (encode (to_tree j)).

Definition read (s : string) : option Json :=
  p ← of_bits s; t ← decode p; of_tree t.

Lemma read_write j : read (write j) = Some j.
Proof.
  unfold read, write. rewrite of_bits_bits. cbn. rewrite decode_encode. cbn. apply of_to_tree.
Qed.

#[export] Instance codec : JsonCodec := {| loads_dumps := read_write |}.
End JsonText.
