(* ===== verification/DeadLetter.v ===== *)
(** * Dead letter queue ([broker/dead_letter.py])

The [Task] dataclass of [broker/queue_manager.py] and the in-memory dead
letter queue.  [retry] hands the task to the queue manager through the
interface [RequeueTarget], which [QueueManager.v] implements, so that
what [retry] guarantees is proved here once against the interface. *)

From S2P Require Import Prelude PyDict Json.

(** ** The task dataclass

[dead_lettered_at] is the attribute that [DeadLetterQueue.add] attaches to
the object; [None] before that. *)
Record Task := mkTask {
task_id : string;
queue_name : string;
payload : Json;
status : string;
created_at : Q;
assigned_worker : option string;
attempts : Z;
dead_lettered_at : option Q;
}.

(** [Task(task_id=.., queue_name=.., payload=..)] with the dataclass defaults. *)
Definition new_task (tid qn : string) (p : Json) (now : Q) : Task :=
  mkTask tid qn p "pending" now None 0 None.

Definition set_status (s : string) (t : Task) : Task :=
  mkTask (task_id t) (queue_name t) (payload t) s (created_at t)
    (assigned_worker t) (attempts t) (dead_lettered_at t).

Definition set_worker (w : option string) (t : Task) : Task :=
  mkTask (task_id t) (queue_name t) (payload t) (status t) (created_at t)
    w (attempts t) (dead_lettered_at t).

Definition set_attempts (n : Z) (t : Task) : Task :=
  mkTask (task_id t) (queue_name t) (payload t) (status t) (created_at t)
    (assigned_worker t) n (dead_lettered_at t).

Definition set_dead_at (q : Q) (t : Task) : Task :=
  mkTask (task_id t) (queue_name t) (payload t) (status t) (created_at t)
    (assigned_worker t) (attempts t) (Some q).

(** [task.status = "pending"; task.assigned_worker = None] *)
Definition mark_pending (t : Task) : Task := set_worker None (set_status "pending" t).

(** Python's [l[:n]]: a negative bound counts from the end. *)
Definition py_slice_to {A} (n : Z) (l : list A) : list A :=
  if (0 <=? n)%Z then take (Z.to_nat n) l
  else take (Z.to_nat (Z.of_nat (length l) + n)) l.

(** What the dead letter queue needs of the queue manager. *)
Class RequeueTarget (QS : Type) := {
  requeue_task : Task → bool → QS → QS;
  target_pending : QS → list Task;
  requeue_task_pending : ∀ t front s,
    target_pending (requeue_task t front s) ≡ₚ mark_pending t :: target_pending s;
}.

Module DLQ.

Record t := mk {
  _tasks : dict string Task;
  _total_received : Z;
  _total_retried : Z;
  _total_purged : Z;
}.

Definition init : t := mk [] 0 0 0.

(** The dict [peek] builds for one task. *)
Record Summary := mkSummary {
  s_task_id : string;
  s_queue_name : string;
  s_payload : Json;
  s_attempts : Z;
  s_status : string;
  s_dead_lettered_at : option Q;
}.

Definition summarize (x : Task) : Summary :=
  mkSummary (task_id x) (queue_name x) (payload x) (attempts x) (status x)
    (dead_lettered_at x).

Definition summary_json (s : Summary) : Json :=
  JObj [("task_id", JStr (s_task_id s)); ("queue_name", JStr (s_queue_name s));
        ("payload", s_payload s); ("attempts", JInt (s_attempts s));
        ("status", JStr (s_status s));
        ("dead_lettered_at", json_opt_float (s_dead_lettered_at s))].

(** The task as [add] leaves it. *)
Definition dead_task (now : Q) (x : Task) : Task :=
  set_dead_at now (set_status "dead_lettered" x).

Definition add (x : Task) (now : Q) (d : t) : t :=
  mk (dset (task_id x) (dead_task now x) (_tasks d))
     (_total_received d + 1) (_total_retried d) (_total_purged d).

Definition peek (limit : Z) (d : t) : list Summary :=
  summarize <$> py_slice_to limit (dvalues (_tasks d)).

Definition remove (tid : string) (d : t) : bool * t :=
  match dget tid (_tasks d) with
  | None => (false, d)
  | Some _ =>
      (true, mk (ddel tid (_tasks d)) (_total_received d) (_total_retried d) (_total_purged d))
  end.

(** The first critical section of [retry]: [self._tasks.pop(task_id, None)]. *)
Definition retry_take (tid : string) (d : t) : option Task * t :=
  (dget tid (_tasks d),
   mk (ddel tid (_tasks d)) (_total_received d) (_total_retried d) (_total_purged d)).

(** [task.status = "pending"; task.attempts = 0; task.assigned_worker = None] *)
Definition retry_reset (x : Task) : Task := set_worker None (set_attempts 0 (set_status "pending" x)).

Definition retry {QS} `{!RequeueTarget QS} (tid : string) (d : t) (qm : QS) : bool * t * QS :=
  match retry_take tid d with
  | (None, d) => (false, d, qm)
  | (Some x, d) =>
      let qm := requeue_task (retry_reset x) false qm in
      (true, mk (_tasks d) (_total_received d) (_total_retried d + 1) (_total_purged d), qm)
  end.

Definition purge (d : t) : nat * t :=
  let count := length (_tasks d) in
  (count, mk [] (_total_received d) (_total_retried d) (_total_purged d + Z.of_nat count)).

Definition count (d : t) : nat := length (_tasks d).

Definition get_stats (d : t) : Json :=
  JObj [("current_size", JInt (Z.of_nat (length (_tasks d))));
        ("total_received", JInt (_total_received d));
        ("total_retried", JInt (_total_retried d));
        ("total_purged", JInt (_total_purged d))].

(** Entries are filed under their own id and marked dead-lettered. *)
Definition wf (d : t) : Prop :=
  dict_wf (_tasks d) ∧
  Forall (λ p, p.1 = task_id p.2 ∧ status p.2 = "dead_lettered" ∧
               is_Some (dead_lettered_at p.2)) (_tasks d).

#[global] Instance wf_dec d : Decision (wf d).
Proof. unfold wf. apply _. Defined.

(** ** Lemmas *)

Lemma add_wf x now d : wf d → wf (add x now d).
Proof.
  intros [Hw Hf]. split; cbn; [by apply dset_wf|].
  apply Forall_forall. intros p [->|Hp]%dset_elem; cbn; [eauto|].
  by apply (proj1 (Forall_forall _ _) Hf).
Qed.

Lemma ddel_entries_wf tid d c1 c2 c3 : wf d → wf (mk (ddel tid (_tasks d)) c1 c2 c3).
Proof.
  intros [Hw Hf]. split; cbn; [by apply ddel_wf|].
  apply Forall_forall. intros p Hp%ddel_subseteq.
  by apply (proj1 (Forall_forall _ _) Hf).
Qed.

Lemma remove_wf tid d : wf d → wf (remove tid d).2.
Proof. intros H. unfold remove. destruct (dget _ _); [by apply ddel_entries_wf|done]. Qed.

Lemma retry_take_wf tid d : wf d → wf (retry_take tid d).2.
Proof. intros H. by apply ddel_entries_wf. Qed.

Lemma purge_wf d : wf (purge d).2.
Proof. split; cbn; [apply NoDup_nil_2 | done]. Qed.

#[export] Hint Resolve add_wf remove_wf retry_take_wf purge_wf : distrosync.

(** A fresh task goes last, so the listing is oldest first. *)
Lemma add_fresh x now d :
  dget (task_id x) (_tasks d) = None →
  dvalues (_tasks (add x now d)) = dvalues (_tasks d) ++ [dead_task now x].
Proof. intros H. unfold dvalues. cbn. by rewrite dset_new, fmap_app. Qed.

Section retry.
  Context {QS : Type} `{!RequeueTarget QS}.

Lemma retry_missing tid d (qm : QS) :
  dget tid (_tasks d) = None → retry tid d qm = (false, d, qm).
Proof.
  intros E. unfold retry, retry_take. rewrite E.
  rewrite ddel_notin by (by apply dget_None). by destruct d.
Qed.

(** [retry] moves the task: it leaves the dead letter queue and joins the
    target's pending tasks, reset for a fresh cycle. *)
Lemma retry_moves tid d (qm : QS) x :
  dget tid (_tasks d) = Some x →
  ∃ d' qm', retry tid d qm = (true, d', qm') ∧
    _tasks d ≡ₚ (tid, x) :: _tasks d' ∧
    target_pending qm' ≡ₚ retry_reset x :: target_pending qm.
Proof.
  intros E. unfold retry, retry_take. rewrite E. eexists _, _.
  split_and!; [done|cbn; by apply ddel_perm|].
  by rewrite requeue_task_pending.
Qed.
End retry.
End DLQ.
