(* ===== verification/QueueManager.v ===== *)
(** * Queue manager ([broker/queue_manager.py]): state and operations

The in-memory data plane of the broker.  Each [async] method is a function
from the state (and the readings of the clock and of [uuid4] it makes) to
its result and the new state.  A [Task] object is owned by exactly one of
the containers at a time, or by the local variable of the coroutine that
moves it, so a value per container is the same as the shared object.

[negative_acknowledge] releases the lock between taking the task out of
the in-flight registry and putting it in its next place: the two halves
are [nack_take] and [nack_route]. *)

From S2P Require Import Prelude PyDict Json DeadLetter.

Module QM.

Record t := mk {
  _queues : dict string (list Task);
  _in_flight : dict string Task;
  _completed : dict string Task;
  dead_letter_queue : DLQ.t;
  max_retries : Z;
  _total_enqueued : Z;
  _total_dequeued : Z;
  _total_acked : Z;
  _total_nacked : Z;
  _total_dead_lettered : Z;
}.

(** ** Field updates *)

Definition with_queues (f : dict string (list Task) → dict string (list Task)) (s : t) : t :=
  mk (f (_queues s)) (_in_flight s) (_completed s) (dead_letter_queue s) (max_retries s)
     (_total_enqueued s) (_total_dequeued s) (_total_acked s) (_total_nacked s)
     (_total_dead_lettered s).

Definition with_in_flight (f : dict string Task → dict string Task) (s : t) : t :=
  mk (_queues s) (f (_in_flight s)) (_completed s) (dead_letter_queue s) (max_retries s)
     (_total_enqueued s) (_total_dequeued s) (_total_acked s) (_total_nacked s)
     (_total_dead_lettered s).

Definition with_completed (f : dict string Task → dict string Task) (s : t) : t :=
  mk (_queues s) (_in_flight s) (f (_completed s)) (dead_letter_queue s) (max_retries s)
     (_total_enqueued s) (_total_dequeued s) (_total_acked s) (_total_nacked s)
     (_total_dead_lettered s).

Definition with_dlq (d : DLQ.t) (s : t) : t :=
  mk (_queues s) (_in_flight s) (_completed s) d (max_retries s)
     (_total_enqueued s) (_total_dequeued s) (_total_acked s) (_total_nacked s)
     (_total_dead_lettered s).

(** Add to the five statistics counters. *)
Definition bump (e d a n l : Z) (s : t) : t :=
  mk (_queues s) (_in_flight s) (_completed s) (dead_letter_queue s) (max_retries s)
     (_total_enqueued s + e) (_total_dequeued s + d) (_total_acked s + a)
     (_total_nacked s + n) (_total_dead_lettered s + l).

(** ** Construction and reset *)

Definition init (retries : Z) : t := mk [] [] [] DLQ.init retries 0 0 0 0 0.

(** The constructor's default [max_retries]. *)
Definition default_max_retries : Z := 3.

(** The dead letter queue keeps its own counters across a reset. *)
Definition reset (s : t) : t :=
  let d := dead_letter_queue s in
  mk [] [] []
     (DLQ.mk [] (DLQ._total_received d) (DLQ._total_retried d) (DLQ._total_purged d))
     (max_retries s) 0 0 0 0 0.

(** ** Queues *)

Definition _ensure_queue (qn : string) (s : t) : t :=
  match dget qn (_queues s) with
  | Some _ => s
  | None => with_queues (dset qn []) s
  end.

(** [self._queues[qn]] as a list; an absent queue reads as empty. *)
Definition queue_of (qn : string) (s : t) : list Task := default [] (dget qn (_queues s)).

(** [self._queues[qn].append(x)] and [.appendleft(x)] *)
Definition queue_append (qn : string) (x : Task) (s : t) : t :=
  with_queues (dset qn (queue_of qn s ++ [x])) s.

Definition queue_appendleft (qn : string) (x : Task) (s : t) : t :=
  with_queues (dset qn (x :: queue_of qn s)) s.

Definition enqueue (qn : string) (p : Json) (uuid : string) (now : Q) (s : t) : string * t :=
  let x := new_task uuid qn p now in
  let s := _ensure_queue qn s in
  let s := queue_append qn x s in
  (uuid, bump 1 0 0 0 0 s).

Definition enqueue_recovered (qn tid : string) (p : Json) (n : Z) (now : Q) (s : t) : string * t :=
  let x := set_attempts n (new_task tid qn p now) in
  let s := _ensure_queue qn s in
  let s := queue_append qn x s in
  (tid, bump 1 0 0 0 0 s).

(** ** Delivery *)

(** The dict [dequeue] returns. *)
Record Delivery := mkDelivery {
  d_task_id : string;
  d_queue_name : string;
  d_payload : Json;
  d_attempts : Z;
}.

Definition delivery (x : Task) : Delivery :=
  mkDelivery (task_id x) (queue_name x) (payload x) (attempts x).

Definition delivery_json (d : Delivery) : Json :=
  JObj [("task_id", JStr (d_task_id d)); ("queue_name", JStr (d_queue_name d));
        ("payload", d_payload d); ("attempts", JInt (d_attempts d))].

(** The wildcard scan: the first queue, in creation order, that is not empty. *)
Fixpoint first_nonempty (d : dict string (list Task)) : option string :=
  match d with
  | [] => None
  | (q, dq) :: d => if bool_decide (dq = []) then first_nonempty d else Some q
  end.

(** The queue [dequeue] will pop from, or [None] for the early returns.
    [if not target_q] also rejects a queue whose name is empty. *)
Definition dequeue_target (qn : string) (s : t) : option string * t :=
  if bool_decide (qn = "*") then
    (match first_nonempty (_queues s) with
     | Some q => if truthy_str q then Some q else None
     | None => None
     end, s)
  else
    let s := _ensure_queue qn s in
    (if bool_decide (queue_of qn s = []) then None else Some qn, s).

(** The task as delivered to a worker. *)
Definition deliver (w : string) (x : Task) : Task :=
  set_attempts (attempts x + 1) (set_worker (Some w) (set_status "in_flight" x)).

(** The last branch is never taken: [dequeue_target] names a non-empty queue. *)
Definition dequeue (qn w : string) (s : t) : option Delivery * t :=
  match dequeue_target qn s with
  | (None, s) => (None, s)
  | (Some q, s) =>
      match queue_of q s with
      | x :: rest =>
          let s := with_queues (dset q rest) s in
          let x := deliver w x in
          let s := with_in_flight (dset (task_id x) x) s in
          (Some (delivery x), bump 0 1 0 0 0 s)
      | [] => (None, s)
      end
  end.

(** ** Resolution *)

Definition acknowledge (tid : string) (s : t) : bool * t :=
  match dget tid (_in_flight s) with
  | None => (false, s)
  | Some x =>
      let s := with_in_flight (ddel tid) s in
      let s := with_completed (dset tid (set_status "done" x)) s in
      (true, bump 0 0 1 0 0 s)
  end.

(** The dict [negative_acknowledge] returns; ["max_retries"] is only present
    in the ["requeued"] one. *)
Record NackResult := mkNack {
  n_action : string;
  n_task_id : string;
  n_attempts : Z;
  n_max_retries : option Z;
  n_queue_name : string;
}.

(** First critical section: take the task and decide its fate. *)
Definition nack_take (tid : string) (s : t) : option Task * t :=
  match dget tid (_in_flight s) with
  | None => (None, s)
  | Some x =>
      let s := bump 0 0 0 1 0 (with_in_flight (ddel tid) s) in
      if (attempts x >=? max_retries s)%Z
      then (Some (set_status "dead_lettered" x), bump 0 0 0 0 1 s)
      else (Some x, s)
  end.

(** After the lock is released: dead letter queue, or front of the queue. *)
Definition nack_route (x : Task) (now : Q) (s : t) : NackResult * t :=
  if bool_decide (status x = "dead_lettered") then
    (mkNack "dead_lettered" (task_id x) (attempts x) None (queue_name x),
     with_dlq (DLQ.add x now (dead_letter_queue s)) s)
  else
    let x := mark_pending x in
    let s := _ensure_queue (queue_name x) s in
    (mkNack "requeued" (task_id x) (attempts x) (Some (max_retries s)) (queue_name x),
     queue_appendleft (queue_name x) x s).

Definition negative_acknowledge (tid : string) (now : Q) (s : t) : option NackResult * t :=
  match nack_take tid s with
  | (None, s) => (None, s)
  | (Some x, s) => let '(r, s) := nack_route x now s in (Some r, s)
  end.

Definition requeue (x : Task) (front : bool) (s : t) : t :=
  let s := _ensure_queue (queue_name x) s in
  let x := mark_pending x in
  if front then queue_appendleft (queue_name x) x s
  else queue_append (queue_name x) x s.

Definition requeue_by_id (tid : string) (s : t) : bool * t :=
  match dget tid (_in_flight s) with
  | None => (false, s)
  | Some x =>
      let s := with_in_flight (ddel tid) s in
      let x := mark_pending x in
      let s := _ensure_queue (queue_name x) s in
      (true, queue_appendleft (queue_name x) x s)
  end.

(** ** Inspection *)

Definition queue_depth (qn : string) (s : t) : nat := length (queue_of qn s).

Definition get_all_queue_names (s : t) : list string := dkeys (_queues s).

Definition in_flight_count (s : t) : nat := length (_in_flight s).

Definition get_in_flight_tasks (s : t) : dict string Task := _in_flight s.

Definition get_stats (s : t) : Json :=
  JObj [("total_enqueued", JInt (_total_enqueued s));
        ("total_dequeued", JInt (_total_dequeued s));
        ("total_acked", JInt (_total_acked s));
        ("total_nacked", JInt (_total_nacked s));
        ("total_dead_lettered", JInt (_total_dead_lettered s));
        ("in_flight", JInt (Z.of_nat (length (_in_flight s))));
        ("max_retries", JInt (max_retries s));
        ("queues", JObj ((λ p, (p.1, JInt (Z.of_nat (length p.2)))) <$> _queues s));
        ("dlq", DLQ.get_stats (dead_letter_queue s))].

(** Every task waiting in some queue. *)
Definition pending (s : t) : list Task := concat (dvalues (_queues s)).

(** Every task the manager holds. *)
Definition all_tasks (s : t) : list Task :=
  pending s ++ dvalues (_in_flight s) ++ dvalues (_completed s)
    ++ dvalues (DLQ._tasks (dead_letter_queue s)).

Definition ids (s : t) : list string := task_id <$> all_tasks s.

#[global] Arguments requeue : simpl never.

(** ** How a queue update changes the pending tasks *)

Lemma pending_split (qn : string) (d : dict string (list Task)) :
  concat (dvalues d) ≡ₚ default [] (dget qn d) ++ concat (dvalues (ddel qn d)).
Proof.
  destruct (dget qn d) as [l|] eqn:E; cbn.
  - apply dget_split in E as (d1 & d2 & -> & -> & _).
    unfold dvalues. rewrite !fmap_app. cbn. apply concat_perm_app.
  - by rewrite ddel_notin by (by apply dget_None).
Qed.

Lemma pending_dset (qn : string) (l : list Task) (d : dict string (list Task)) :
  concat (dvalues (dset qn l d)) ≡ₚ l ++ concat (dvalues (ddel qn d)).
Proof.
  destruct (dget qn d) as [k|] eqn:E; cbn.
  - apply dget_split in E as (d1 & d2 & -> & -> & Hset). rewrite Hset.
    unfold dvalues. rewrite !fmap_app. cbn. apply concat_perm_app.
  - rewrite dset_new, ddel_notin by first [done | by apply dget_None].
    unfold dvalues. rewrite fmap_app, concat_app. cbn. rewrite app_nil_r.
    apply Permutation_app_comm.
Qed.

Lemma ensure_queue_pending qn s : pending (_ensure_queue qn s) ≡ₚ pending s.
Proof.
  unfold _ensure_queue. destruct (dget qn (_queues s)) eqn:E; [done|].
  unfold pending. rewrite (pending_split qn (_queues s)), E. apply pending_dset.
Qed.

Lemma queue_of_ensure qn s : queue_of qn (_ensure_queue qn s) = queue_of qn s.
Proof.
  unfold _ensure_queue, queue_of. destruct (dget qn (_queues s)) eqn:E; [by rewrite E|].
  cbn. by rewrite dget_dset_eq.
Qed.

Lemma queue_of_ensure_ne qn q s : queue_of q (_ensure_queue qn s) = queue_of q s.
Proof.
  destruct (decide (qn = q)) as [->|Hne]; [apply queue_of_ensure|].
  unfold _ensure_queue, queue_of. destruct (dget qn (_queues s)); [done|].
  cbn. by rewrite dget_dset_ne.
Qed.

Lemma queue_append_pending qn x s : pending (queue_append qn x s) ≡ₚ x :: pending s.
Proof.
  unfold pending, queue_append. cbn.
  rewrite pending_dset, (pending_split qn (_queues s)).
  unfold queue_of. rewrite <- app_assoc. symmetry. apply Permutation_middle.
Qed.

Lemma queue_appendleft_pending qn x s :
  pending (queue_appendleft qn x s) ≡ₚ x :: pending s.
Proof.
  unfold pending, queue_appendleft. cbn.
  by rewrite pending_dset, (pending_split qn (_queues s)).
Qed.

Lemma queue_popleft_pending qn x rest s :
  queue_of qn s = x :: rest →
  pending s ≡ₚ x :: pending (with_queues (dset qn rest) s).
Proof.
  intros E. unfold pending. cbn. rewrite pending_dset, (pending_split qn (_queues s)).
  unfold queue_of in E. by rewrite E.
Qed.

Lemma queue_of_dset qn l s : queue_of qn (with_queues (dset qn l) s) = l.
Proof. unfold queue_of. cbn. by rewrite dget_dset_eq. Qed.

Lemma queue_of_dset_ne qn q l s :
  qn ≠ q → queue_of q (with_queues (dset qn l) s) = queue_of q s.
Proof. intros ?. unfold queue_of. cbn. by rewrite dget_dset_ne. Qed.

#[export] Hint Rewrite queue_of_ensure_ne queue_of_dset : distrosync.

(** The queue manager is what the dead letter queue requeues into. *)
Lemma requeue_pending x front s : pending (requeue x front s) ≡ₚ mark_pending x :: pending s.
Proof.
  unfold requeue. destruct front;
    rewrite ?queue_append_pending, ?queue_appendleft_pending; by rewrite ensure_queue_pending.
Qed.

#[export] Instance requeue_target : RequeueTarget t := {|
  requeue_task := requeue;
  target_pending := pending;
  requeue_task_pending := requeue_pending;
|}.

(** [self.dead_letter_queue.retry(tid, self)] and the other operations of the
    dead letter queue, applied to the one the manager owns. *)
Definition dlq_retry (tid : string) (s : t) : bool * t :=
  let '(ok, d, s) := DLQ.retry tid (dead_letter_queue s) s in (ok, with_dlq d s).

Definition dlq_remove (tid : string) (s : t) : bool * t :=
  let '(ok, d) := DLQ.remove tid (dead_letter_queue s) in (ok, with_dlq d s).

Definition dlq_purge (s : t) : nat * t :=
  let '(n, d) := DLQ.purge (dead_letter_queue s) in (n, with_dlq d s).

End QM.
