(* ===== verification/QueueInvariant.v ===== *)
(** * Queue manager: well-formedness and conservation of tasks

[shape] is the representation invariant of the queue manager (each
container holds tasks filed under the right key with the status that
container implies), preserved by every operation.  Each operation is then
shown to move, add or discard a known task and to leave all others where
they are; conservation, uniqueness of identifiers and the refinement of
the task life cycle (file [TaskLifecycle.v]) are all consequences. *)

From S2P Require Import Prelude PyDict Json DeadLetter QueueManager.

Import QM.

(** ** Dictionaries of tasks keyed by task id *)

Section entries.
  Context (P : Task → Prop).

Definition entries_ok (d : dict string Task) : Prop :=
  Forall (λ p, p.1 = task_id p.2 ∧ P p.2) d.

Lemma entries_ok_get d k x : entries_ok d → dget k d = Some x → k = task_id x ∧ P x.
Proof.
  intros Hd Hx%dget_Some_in. exact (proj1 (Forall_forall _ _) Hd _ Hx).
Qed.

Lemma entries_ok_dset d x : entries_ok d → P x → entries_ok (dset (task_id x) x d).
Proof.
  intros Hd Hx. apply Forall_forall. intros p [->|Hp]%dset_elem; [done|].
  exact (proj1 (Forall_forall _ _) Hd _ Hp).
Qed.

Lemma entries_ok_ddel d k : entries_ok d → entries_ok (ddel k d).
Proof.
  intros Hd. apply Forall_forall. intros p Hp%ddel_subseteq.
  exact (proj1 (Forall_forall _ _) Hd _ Hp).
Qed.

Lemma entries_ok_keys d : entries_ok d → dkeys d = task_id <$> dvalues d.
Proof.
  unfold dkeys, dvalues. induction 1 as [|[k x] d [Hk _] _ IH]; [done|].
  cbn in *. by rewrite Hk, IH.
Qed.

Lemma entries_ok_fresh d k : entries_ok d → k ∉ task_id <$> dvalues d → dget k d = None.
Proof. intros Hd Hk. apply dget_None. by rewrite entries_ok_keys. Qed.
End entries.

#[export] Hint Resolve entries_ok_dset entries_ok_ddel : distrosync.

(** ** The representation invariant *)

Definition pending_ok (qn : string) (x : Task) : Prop :=
  queue_name x = qn ∧ status x = "pending" ∧ assigned_worker x = None ∧ (0 <= attempts x)%Z.

Definition flight_ok (x : Task) : Prop :=
  status x = "in_flight" ∧ is_Some (assigned_worker x) ∧ (1 <= attempts x)%Z.

Definition done_ok (x : Task) : Prop := status x = "done".

Definition dead_ok (x : Task) : Prop :=
  status x = "dead_lettered" ∧ is_Some (dead_lettered_at x) ∧ (0 <= attempts x)%Z.

Definition shape (s : t) : Prop :=
  dict_wf (_queues s) ∧ dict_wf (_in_flight s) ∧ dict_wf (_completed s) ∧
  dict_wf (DLQ._tasks (dead_letter_queue s)) ∧
  Forall (λ p, Forall (pending_ok p.1) p.2) (_queues s) ∧
  entries_ok flight_ok (_in_flight s) ∧
  entries_ok done_ok (_completed s) ∧
  entries_ok dead_ok (DLQ._tasks (dead_letter_queue s)).

Definition wf (s : t) : Prop := shape s ∧ NoDup (ids s).

#[global] Instance pending_ok_dec qn x : Decision (pending_ok qn x).
Proof. unfold pending_ok. apply _. Defined.
#[global] Instance flight_ok_dec x : Decision (flight_ok x).
Proof. unfold flight_ok. apply _. Defined.
#[global] Instance done_ok_dec x : Decision (done_ok x).
Proof. unfold done_ok. apply _. Defined.
#[global] Instance dead_ok_dec x : Decision (dead_ok x).
Proof. unfold dead_ok. apply _. Defined.
#[global] Instance entries_ok_dec P `{!∀ x, Decision (P x)} d : Decision (entries_ok P d).
Proof. unfold entries_ok. apply _. Defined.
#[global] Typeclasses Opaque pending_ok flight_ok done_ok dead_ok entries_ok.
#[global] Instance shape_dec s : Decision (shape s).
Proof. unfold shape. apply _. Defined.
#[global] Instance wf_dec s : Decision (wf s).
Proof. unfold wf. apply _. Defined.

#[global] Typeclasses Opaque shape wf.

Lemma init_wf n : wf (init n).
Proof. split; [|apply NoDup_nil_2]. split_and!; constructor. Qed.

Lemma reset_wf s : wf (reset s).
Proof. split; [|apply NoDup_nil_2]. split_and!; constructor. Qed.

(** ** Preservation of the shape *)

Lemma shape_queue_in s qn x : shape s → x ∈ queue_of qn s → pending_ok qn x.
Proof.
  intros (_&_&_&_&Hq&_) Hx. unfold queue_of in Hx.
  destruct (dget qn (_queues s)) as [l|] eqn:E; [|by apply not_elem_of_nil in Hx].
  apply dget_Some_in in E. cbn in Hx.
  exact (proj1 (Forall_forall _ _) (proj1 (Forall_forall _ _) Hq _ E) _ Hx).
Qed.

Lemma shape_set_queue s qn l :
  shape s → Forall (pending_ok qn) l → shape (with_queues (dset qn l) s).
Proof.
  intros (?&?&?&?&Hq&?&?&?) Hl. split_and!; cbn; try done; [by apply dset_wf|].
  apply Forall_forall. intros p [->|Hp]%dset_elem; [done|].
  exact (proj1 (Forall_forall _ _) Hq _ Hp).
Qed.

Lemma shape_bump s e d a n l : shape s → shape (bump e d a n l s).
Proof. done. Qed.

Lemma shape_ensure s qn : shape s → shape (_ensure_queue qn s).
Proof.
  intros H. unfold _ensure_queue. destruct (dget _ _); [done|].
  by apply shape_set_queue.
Qed.

Lemma shape_append s qn x : shape s → pending_ok qn x → shape (queue_append qn x s).
Proof.
  intros H Hx. apply shape_set_queue; [done|]. apply Forall_app. split; [|by constructor].
  apply Forall_forall. intros y. by apply shape_queue_in.
Qed.

Lemma shape_appendleft s qn x : shape s → pending_ok qn x → shape (queue_appendleft qn x s).
Proof.
  intros H Hx. apply shape_set_queue; [done|]. constructor; [done|].
  apply Forall_forall. intros y. by apply shape_queue_in.
Qed.

Lemma shape_set_flight s x :
  shape s → flight_ok x → shape (with_in_flight (dset (task_id x) x) s).
Proof.
  intros (?&?&?&?&?&?&?&?) Hx. split_and!; cbn; try done; auto with distrosync.
Qed.

Lemma shape_del_flight s tid : shape s → shape (with_in_flight (ddel tid) s).
Proof. intros (?&?&?&?&?&?&?&?). split_and!; cbn; try done; auto with distrosync. Qed.

Lemma shape_set_completed s x :
  shape s → done_ok x → shape (with_completed (dset (task_id x) x) s).
Proof. intros (?&?&?&?&?&?&?&?) Hx. split_and!; cbn; try done; auto with distrosync. Qed.

Lemma shape_with_dlq s d :
  shape s → dict_wf (DLQ._tasks d) → entries_ok dead_ok (DLQ._tasks d) → shape (with_dlq d s).
Proof. intros (?&?&?&?&?&?&?&?) Hd He. split_and!; cbn; done. Qed.

Lemma shape_flight_get s tid x :
  shape s → dget tid (_in_flight s) = Some x → tid = task_id x ∧ flight_ok x.
Proof. intros (_&_&_&_&_&Hf&_). by apply entries_ok_get. Qed.

Lemma shape_dead_get s tid x :
  shape s → dget tid (DLQ._tasks (dead_letter_queue s)) = Some x → tid = task_id x ∧ dead_ok x.
Proof. intros (_&_&_&_&_&_&_&Hd). by apply entries_ok_get. Qed.

Lemma mark_pending_ok x :
  (0 <= attempts x)%Z → pending_ok (queue_name (mark_pending x)) (mark_pending x).
Proof. done. Qed.

#[export] Hint Resolve shape_bump shape_ensure shape_append shape_appendleft shape_set_flight
  shape_del_flight shape_set_completed mark_pending_ok : distrosync.

(** ** Where the tasks are, update by update *)

Lemma tasks_ensure qn s : all_tasks (_ensure_queue qn s) ≡ₚ all_tasks s.
Proof.
  unfold all_tasks. rewrite ensure_queue_pending.
  unfold _ensure_queue. by destruct (dget qn (_queues s)).
Qed.

Lemma tasks_append qn x s : all_tasks (queue_append qn x s) ≡ₚ x :: all_tasks s.
Proof. unfold all_tasks. by rewrite queue_append_pending. Qed.

Lemma tasks_appendleft qn x s : all_tasks (queue_appendleft qn x s) ≡ₚ x :: all_tasks s.
Proof. unfold all_tasks. by rewrite queue_appendleft_pending. Qed.

Lemma tasks_popleft qn x rest s :
  queue_of qn s = x :: rest → all_tasks s ≡ₚ x :: all_tasks (with_queues (dset qn rest) s).
Proof. intros E. unfold all_tasks at 1. by rewrite (queue_popleft_pending _ _ _ _ E). Qed.

Lemma tasks_set_flight x s :
  dget (task_id x) (_in_flight s) = None →
  all_tasks (with_in_flight (dset (task_id x) x) s) ≡ₚ x :: all_tasks s.
Proof. intros E. unfold all_tasks, pending. cbn. rewrite dvalues_dset_new by done. perm_solve. Qed.

Lemma tasks_del_flight tid x s :
  dget tid (_in_flight s) = Some x →
  all_tasks s ≡ₚ x :: all_tasks (with_in_flight (ddel tid) s).
Proof. intros E. unfold all_tasks, pending. cbn. rewrite (dvalues_ddel _ _ _ E). perm_solve. Qed.

Lemma tasks_set_completed x s :
  dget (task_id x) (_completed s) = None →
  all_tasks (with_completed (dset (task_id x) x) s) ≡ₚ x :: all_tasks s.
Proof. intros E. unfold all_tasks, pending. cbn. rewrite dvalues_dset_new by done. perm_solve. Qed.

Lemma tasks_dlq_add x now s :
  dget (task_id x) (DLQ._tasks (dead_letter_queue s)) = None →
  all_tasks (with_dlq (DLQ.add x now (dead_letter_queue s)) s) ≡ₚ DLQ.dead_task now x :: all_tasks s.
Proof. intros E. unfold all_tasks, pending. cbn. rewrite dvalues_dset_new by done. perm_solve. Qed.

(** A task id that no held task carries is in no container. *)
Lemma fresh_everywhere s tid :
  shape s → tid ∉ ids s →
  dget tid (_in_flight s) = None ∧ dget tid (_completed s) = None ∧
  dget tid (DLQ._tasks (dead_letter_queue s)) = None.
Proof.
  intros (_&_&_&_&_&Hf&Hc&Hd) Hn.
  unfold ids, all_tasks in Hn. rewrite !fmap_app, !not_elem_of_app in Hn.
  destruct Hn as (_&?&?&?). split_and!; by eapply entries_ok_fresh.
Qed.

(** Two tasks held by a state with distinct ids: taking one out makes its id fresh. *)
Lemma taken_fresh s s1 x :
  NoDup (ids s) → all_tasks s ≡ₚ x :: all_tasks s1 → task_id x ∉ ids s1.
Proof.
  unfold ids. intros Hn E. rewrite E in Hn. cbn in Hn. by apply NoDup_cons in Hn as [? _].
Qed.

(** ** The operations *)

Lemma enqueue_shape qn p uuid now s : shape s → shape (enqueue qn p uuid now s).2.
Proof. intros H. unfold enqueue. cbn [snd]. apply shape_bump, shape_append; auto with distrosync. done. Qed.

Lemma enqueue_adds qn p uuid now s :
  all_tasks (enqueue qn p uuid now s).2 ≡ₚ new_task uuid qn p now :: all_tasks s.
Proof.
  transitivity (all_tasks (queue_append qn (new_task uuid qn p now) (_ensure_queue qn s))); [done|].
  by rewrite tasks_append, tasks_ensure.
Qed.

Lemma enqueue_recovered_shape qn tid p n now s :
  (0 <= n)%Z → shape s → shape (enqueue_recovered qn tid p n now s).2.
Proof.
  intros Hn H. unfold enqueue_recovered. cbn [snd].
  apply shape_bump, shape_append; auto with distrosync. done.
Qed.

Lemma enqueue_recovered_adds qn tid p n now s :
  all_tasks (enqueue_recovered qn tid p n now s).2
    ≡ₚ set_attempts n (new_task tid qn p now) :: all_tasks s.
Proof.
  transitivity (all_tasks (queue_append qn (set_attempts n (new_task tid qn p now)) (_ensure_queue qn s))); [done|].
  by rewrite tasks_append, tasks_ensure.
Qed.

Lemma first_nonempty_spec (d : dict string (list Task)) q :
  dict_wf d → first_nonempty d = Some q → ∃ x rest, dget q d = Some (x :: rest).
Proof.
  unfold dict_wf. induction d as [|[k l] d IH]; cbn; [done|].
  intros [Hk Hd]%NoDup_cons. case_bool_decide as E.
  - intros Hq. destruct (IH Hd Hq) as (x & rest & Hg).
    exists x, rest. rewrite decide_False; [done|]. intros ->.
    apply Hk. apply dget_is_Some. eauto.
  - intros [= ->]. rewrite decide_True by done. destruct l; [done|eauto].
Qed.

Lemma dequeue_target_shape qn s : shape s → shape (dequeue_target qn s).2.
Proof. intros H. unfold dequeue_target. case_bool_decide; cbn; auto with distrosync. Qed.

Lemma dequeue_target_tasks qn s : all_tasks (dequeue_target qn s).2 ≡ₚ all_tasks s.
Proof. unfold dequeue_target. case_bool_decide; cbn; [done|apply tasks_ensure]. Qed.

(** The queue [dequeue] settles on has a head. *)
Lemma dequeue_target_head qn s q s1 :
  shape s → dequeue_target qn s = (Some q, s1) → ∃ x rest, queue_of q s1 = x :: rest.
Proof.
  intros (Hw&_). unfold dequeue_target. case_bool_decide.
  - intros [= Hq <-]. destruct (first_nonempty (_queues s)) as [q'|] eqn:E; [|done].
    destruct (truthy_str q'); simplify_eq.
    destruct (first_nonempty_spec _ _ Hw E) as (x & rest & Hg).
    exists x, rest. unfold queue_of. by rewrite Hg.
  - intros [= Hq <-]. case_bool_decide as E; simplify_eq.
    destruct (queue_of q (_ensure_queue q s)); [done|eauto].
Qed.

(** [dequeue] either reports an empty queue and changes no task, or takes the
    head [x] of a queue and delivers it. *)
Lemma dequeue_cases qn w s :
  shape s →
  (∃ s', dequeue qn w s = (None, s') ∧ shape s' ∧ all_tasks s' ≡ₚ all_tasks s) ∨
  (∃ q s1 x rest, dequeue_target qn s = (Some q, s1) ∧ queue_of q s1 = x :: rest ∧
     pending_ok q x ∧
     dequeue qn w s =
       (Some (delivery (deliver w x)),
        bump 0 1 0 0 0 (with_in_flight (dset (task_id x) (deliver w x))
          (with_queues (dset q rest) s1)))).
Proof.
  intros H. pose proof (dequeue_target_shape qn s H) as Hs1.
  pose proof (dequeue_target_tasks qn s) as Ht.
  unfold dequeue. destruct (dequeue_target qn s) as [[q|] s1] eqn:E; cbn in Hs1, Ht.
  - destruct (dequeue_target_head _ _ _ _ H E) as (x & rest & Hq). rewrite Hq.
    right. exists q, s1, x, rest. split_and!; [done..| |done].
    apply (shape_queue_in s1); [done|]. rewrite Hq. left.
  - left. by exists s1.
Qed.

Lemma deliver_flight q w x : pending_ok q x → flight_ok (deliver w x).
Proof. intros (_&_&_&?). split_and!; cbn; [done|eauto|lia]. Qed.

Lemma dequeue_shape qn w s : shape s → shape (dequeue qn w s).2.
Proof.
  intros H. destruct (dequeue_cases qn w s H) as [(s'&->&?&?)|(q&s1&x&rest&Et&Eq&Hx&->)]; [done|].
  cbn [snd]. apply shape_bump. change (task_id x) with (task_id (deliver w x)).
  pose proof (dequeue_target_shape qn s H) as Hs1. rewrite Et in Hs1. cbn in Hs1.
  apply shape_set_flight; [|by eapply deliver_flight].
  apply shape_set_queue; [done|]. apply Forall_forall. intros y Hy.
  apply (shape_queue_in s1); [done|]. rewrite Eq. by right.
Qed.

(** A successful [dequeue] moves exactly one pending task into flight. *)
Lemma dequeue_moves qn w s d s' :
  wf s → dequeue qn w s = (Some d, s') →
  ∃ x rest, all_tasks s ≡ₚ x :: rest ∧ all_tasks s' ≡ₚ deliver w x :: rest ∧
    d = delivery (deliver w x) ∧ status x = "pending" ∧ pending_ok (queue_name x) x.
Proof.
  intros [H Hn] Hd.
  destruct (dequeue_cases qn w s H) as [(?&E&_)|(q&s1&x&rest&Et&Eq&Hx&E)];
    rewrite E in Hd; simplify_eq.
  pose proof (dequeue_target_tasks qn s) as Ht.
  pose proof (dequeue_target_shape qn s H) as Hs1. rewrite Et in Ht, Hs1. cbn in Ht, Hs1.
  pose proof (tasks_popleft _ _ _ _ Eq) as Hpop. rewrite Ht in Hpop.
  pose proof (taken_fresh _ _ _ Hn Hpop) as Hfresh.
  exists x, (all_tasks (with_queues (dset q rest) s1)).
  split_and!; [done| |done|apply Hx|by rewrite (proj1 Hx)].
  change (task_id x) with (task_id (deliver w x)) at 1.
  etransitivity; [|apply tasks_set_flight]; [done|]. cbn.
  assert (Hs2 : shape (with_queues (dset q rest) s1)).
  { apply shape_set_queue; [done|]. apply Forall_forall. intros y Hy.
    apply (shape_queue_in s1); [done|]. rewrite Eq. by right. }
  exact (proj1 (fresh_everywhere _ _ Hs2 Hfresh)).
Qed.

(** *** Acknowledgement *)

Lemma acknowledge_shape tid s : shape s → shape (acknowledge tid s).2.
Proof.
  intros H. unfold acknowledge. destruct (dget tid (_in_flight s)) as [x|] eqn:E; [|done].
  destruct (shape_flight_get _ _ _ H E) as [-> _]. cbn [snd].
  apply shape_bump. apply (shape_set_completed _ (set_status "done" x)); auto with distrosync. done.
Qed.

Lemma acknowledge_moves tid s s' :
  wf s → acknowledge tid s = (true, s') →
  ∃ x rest, dget tid (_in_flight s) = Some x ∧ task_id x = tid ∧
    all_tasks s ≡ₚ x :: rest ∧ all_tasks s' ≡ₚ set_status "done" x :: rest.
Proof.
  intros [H Hn]. unfold acknowledge. destruct (dget tid (_in_flight s)) as [x|] eqn:E; [|done].
  intros [= <-]. destruct (shape_flight_get _ _ _ H E) as [-> _].
  pose proof (tasks_del_flight _ _ _ E) as Hdel.
  pose proof (taken_fresh _ _ _ Hn Hdel) as Hfresh.
  eexists x, _. split_and!; [done..|exact Hdel|].
  etransitivity; [|apply (tasks_set_completed (set_status "done" x))]; [done|].
  apply (fresh_everywhere (with_in_flight (ddel (task_id x)) s)); auto with distrosync.
Qed.

(** *** Negative acknowledgement *)

(** What the first critical section of a NACK makes of the task. *)
Definition nack_verdict (n : Z) (x : Task) : Task :=
  if (attempts x >=? n)%Z then set_status "dead_lettered" x else x.

(** What the second one files. *)
Definition nack_routed (now : Q) (x : Task) : Task :=
  if bool_decide (status x = "dead_lettered") then DLQ.dead_task now x else mark_pending x.

Lemma nack_take_cases tid s :
  (dget tid (_in_flight s) = None ∧ nack_take tid s = (None, s)) ∨
  (∃ y s', dget tid (_in_flight s) = Some y ∧
     nack_take tid s = (Some (nack_verdict (max_retries s) y), s') ∧
     all_tasks s ≡ₚ y :: all_tasks s' ∧ max_retries s' = max_retries s ∧
     _queues s' = _queues s ∧ _in_flight s' = ddel tid (_in_flight s) ∧
     _completed s' = _completed s ∧ dead_letter_queue s' = dead_letter_queue s ∧
     (shape s → shape s')).
Proof.
  unfold nack_take, nack_verdict. destruct (dget tid (_in_flight s)) as [y|] eqn:E; [right|by left].
  pose proof (tasks_del_flight _ _ _ E) as Hdel.
  cbn [max_retries bump with_in_flight].
  destruct (attempts y >=? max_retries s)%Z eqn:Hv; eexists y, _; rewrite Hv;
    (split; [done|split; [done|]]);
    (split_and!; first [done | exact Hdel | intros ?; auto with distrosync]).
Qed.

Lemma nack_route_shape x now s :
  shape s → (0 <= attempts x)%Z → shape (nack_route x now s).2.
Proof.
  intros H Hx. unfold nack_route. case_bool_decide; cbn [snd].
  - destruct H as (?&?&?&Hd1&?&?&?&Hd2). apply shape_with_dlq; [by split_and!| |]; cbn.
    + by apply dset_wf.
    + apply (entries_ok_dset _ _ (DLQ.dead_task now x)); [done|]. split_and!; cbn; eauto.
  - auto with distrosync.
Qed.

Lemma nack_route_files x now s :
  shape s → task_id x ∉ ids s →
  all_tasks (nack_route x now s).2 ≡ₚ nack_routed now x :: all_tasks s.
Proof.
  intros H Hx. unfold nack_route, nack_routed. case_bool_decide; cbn [snd].
  - apply tasks_dlq_add. by apply fresh_everywhere.
  - by rewrite tasks_appendleft, tasks_ensure.
Qed.

Lemma nack_verdict_id n x : task_id (nack_verdict n x) = task_id x.
Proof. unfold nack_verdict. by destruct (_ >=? _)%Z. Qed.

Lemma nack_verdict_attempts n x : attempts (nack_verdict n x) = attempts x.
Proof. unfold nack_verdict. by destruct (_ >=? _)%Z. Qed.

Lemma nack_routed_id now x : task_id (nack_routed now x) = task_id x.
Proof. unfold nack_routed. by case_bool_decide. Qed.

#[export] Hint Rewrite nack_verdict_id nack_verdict_attempts nack_routed_id : distrosync.

Lemma negative_acknowledge_shape tid now s :
  shape s → shape (negative_acknowledge tid now s).2.
Proof.
  intros H. unfold negative_acknowledge.
  destruct (nack_take_cases tid s) as [[_ ->]|(y&s'&Ey&->&_&_&_&_&_&_&Hs')]; [done|].
  destruct (shape_flight_get _ _ _ H Ey) as [_ (_&_&?)].
  assert (shape (nack_route (nack_verdict (max_retries s) y) now s').2) as Hr.
  { apply nack_route_shape; [auto|]. rewrite nack_verdict_attempts. lia. }
  by destruct (nack_route _ now s').
Qed.

(** A NACK that finds its task files it again: retried or dead-lettered. *)
Lemma negative_acknowledge_moves tid now s r s' :
  wf s → negative_acknowledge tid now s = (Some r, s') →
  ∃ y rest, dget tid (_in_flight s) = Some y ∧ task_id y = tid ∧ flight_ok y ∧
    all_tasks s ≡ₚ y :: rest ∧
    all_tasks s' ≡ₚ nack_routed now (nack_verdict (max_retries s) y) :: rest.
Proof.
  intros [H Hn]. unfold negative_acknowledge.
  destruct (nack_take_cases tid s) as [[_ ->]|(y&s1&Ey&->&Hall&_&_&_&_&_&Hs1)]; [done|].
  destruct (shape_flight_get _ _ _ H Ey) as [-> Hfl].
  pose proof (taken_fresh _ _ _ Hn Hall) as Hfresh.
  assert (all_tasks (nack_route (nack_verdict (max_retries s) y) now s1).2
    ≡ₚ nack_routed now (nack_verdict (max_retries s) y) :: all_tasks s1) as Hfile.
  { apply nack_route_files; [auto|]. by rewrite nack_verdict_id. }
  destruct (nack_route _ now s1) as [r' s2]. intros [= <- <-].
  by eexists y, _.
Qed.

(** *** Requeueing *)

Lemma requeue_shape x front s : shape s → (0 <= attempts x)%Z → shape (requeue x front s).
Proof. intros H Hx. unfold requeue. destruct front; auto with distrosync. Qed.

Lemma requeue_adds x front s : all_tasks (requeue x front s) ≡ₚ mark_pending x :: all_tasks s.
Proof.
  unfold requeue. destruct front; by rewrite ?tasks_appendleft, ?tasks_append, tasks_ensure.
Qed.

Lemma requeue_by_id_shape tid s : shape s → shape (requeue_by_id tid s).2.
Proof.
  intros H. unfold requeue_by_id. destruct (dget tid (_in_flight s)) as [x|] eqn:E; [|done].
  destruct (shape_flight_get _ _ _ H E) as [_ (_&_&?)]. cbn [snd].
  apply shape_appendleft; [|apply mark_pending_ok; lia]. auto with distrosync.
Qed.

Lemma requeue_by_id_moves tid s s' :
  shape s → requeue_by_id tid s = (true, s') →
  ∃ x rest, dget tid (_in_flight s) = Some x ∧ task_id x = tid ∧
    all_tasks s ≡ₚ x :: rest ∧ all_tasks s' ≡ₚ mark_pending x :: rest.
Proof.
  intros H. unfold requeue_by_id. destruct (dget tid (_in_flight s)) as [x|] eqn:E; [|done].
  destruct (shape_flight_get _ _ _ H E) as [-> _].
  intros [= <-]. eexists x, _. split_and!; [done..|by apply tasks_del_flight|].
  by rewrite tasks_appendleft, tasks_ensure.
Qed.

(** *** Operations on the dead letter queue *)

Lemma dlq_retry_cases tid s :
  (dget tid (DLQ._tasks (dead_letter_queue s)) = None ∧ dlq_retry tid s = (false, s)) ∨
  (∃ x d, dget tid (DLQ._tasks (dead_letter_queue s)) = Some x ∧
     DLQ._tasks d = ddel tid (DLQ._tasks (dead_letter_queue s)) ∧
     dlq_retry tid s = (true, with_dlq d (requeue (DLQ.retry_reset x) false s))).
Proof.
  unfold dlq_retry. destruct (dget tid (DLQ._tasks (dead_letter_queue s))) as [x|] eqn:E.
  - right. unfold DLQ.retry, DLQ.retry_take. rewrite E.
    eexists x, _. split_and!; [done| |reflexivity]. done.
  - left. rewrite DLQ.retry_missing by done. by destruct s.
Qed.

Lemma with_dlq_requeue d x front s :
  with_dlq d (requeue x front s) = requeue x front (with_dlq d s).
Proof.
  unfold requeue, _ensure_queue. cbn.
  destruct (dget (queue_name x) (_queues s)); by destruct front.
Qed.

Lemma requeue_dlq x front s : dead_letter_queue (requeue x front s) = dead_letter_queue s.
Proof.
  unfold requeue, _ensure_queue.
  destruct (dget (queue_name x) (_queues s)); by destruct front.
Qed.

Lemma tasks_del_dlq tid x d s :
  dget tid (DLQ._tasks (dead_letter_queue s)) = Some x →
  DLQ._tasks d = ddel tid (DLQ._tasks (dead_letter_queue s)) →
  all_tasks s ≡ₚ x :: all_tasks (with_dlq d s).
Proof.
  intros E Ed. unfold all_tasks, pending. cbn. rewrite Ed, (dvalues_ddel _ _ _ E). perm_solve.
Qed.

Lemma shape_del_dlq tid d s :
  shape s → DLQ._tasks d = ddel tid (DLQ._tasks (dead_letter_queue s)) → shape (with_dlq d s).
Proof.
  intros H Ed. pose proof H as (?&?&?&?&?&?&?&?).
  apply shape_with_dlq; rewrite ?Ed; auto with distrosync.
Qed.

Lemma dlq_retry_shape tid s : shape s → shape (dlq_retry tid s).2.
Proof.
  intros H. destruct (dlq_retry_cases tid s) as [[_ ->]|(x&d&E&Ed&->)]; [done|].
  destruct (shape_dead_get _ _ _ H E) as [_ (_&_&?)].
  cbn [snd]. rewrite with_dlq_requeue. apply requeue_shape; [|done].
  by eapply shape_del_dlq.
Qed.

Lemma dlq_retry_moves tid s s' :
  shape s → dlq_retry tid s = (true, s') →
  ∃ x rest, dget tid (DLQ._tasks (dead_letter_queue s)) = Some x ∧ task_id x = tid ∧
    all_tasks s ≡ₚ x :: rest ∧ all_tasks s' ≡ₚ DLQ.retry_reset x :: rest.
Proof.
  intros H. destruct (dlq_retry_cases tid s) as [[_ ->]|(x&d&E&Ed&->)]; [done|].
  destruct (shape_dead_get _ _ _ H E) as [-> _].
  intros Hs%(f_equal snd). cbn [snd] in Hs. subst s'.
  eexists x, _. split_and!; [done..|by eapply tasks_del_dlq|].
  by rewrite with_dlq_requeue, requeue_adds.
Qed.

Lemma dlq_remove_cases tid s :
  (dget tid (DLQ._tasks (dead_letter_queue s)) = None ∧ dlq_remove tid s = (false, s)) ∨
  (∃ x d, dget tid (DLQ._tasks (dead_letter_queue s)) = Some x ∧
     DLQ._tasks d = ddel tid (DLQ._tasks (dead_letter_queue s)) ∧
     dlq_remove tid s = (true, with_dlq d s)).
Proof.
  unfold dlq_remove, DLQ.remove.
  destruct (dget tid (DLQ._tasks (dead_letter_queue s))) as [x|] eqn:E.
  - right. eexists x, _. split_and!; [done| |reflexivity]. done.
  - left. by destruct s.
Qed.

Lemma dlq_remove_shape tid s : shape s → shape (dlq_remove tid s).2.
Proof.
  intros H. destruct (dlq_remove_cases tid s) as [[_ ->]|(x&d&E&Ed&->)]; [done|].
  by eapply shape_del_dlq.
Qed.

Lemma dlq_purge_shape s : shape s → shape (dlq_purge s).2.
Proof. intros H. by apply shape_with_dlq; [|apply NoDup_nil_2|constructor]. Qed.

Lemma dlq_purge_tasks s :
  all_tasks s ≡ₚ dvalues (DLQ._tasks (dead_letter_queue s)) ++ all_tasks (dlq_purge s).2.
Proof. unfold all_tasks, pending. cbn. change (dvalues []) with (@nil Task). perm_solve. Qed.

#[export] Hint Resolve enqueue_shape dequeue_shape acknowledge_shape nack_route_shape
  negative_acknowledge_shape requeue_by_id_shape dlq_retry_shape dlq_remove_shape
  dlq_purge_shape : distrosync.
