(* ===== verification/TaskConservation.v ===== *)
(** * Interleaved execution of the queue manager

The methods of the queue manager hold the lock only for parts of their
bodies: a NACK and a dead letter retry carry the task in a local variable
between two critical sections.  This file runs any number of coroutines
against one queue manager, one critical section per step, in any order,
and shows that no schedule loses or duplicates a task. *)

From S2P Require Import Prelude PyDict Json DeadLetter QueueManager QueueInvariant.

Import QM.

(** A coroutine suspended between its two critical sections, with the task it
    carries. *)
Inductive Held : Type :=
  | HNack (x : Task)   (** [negative_acknowledge] before the dead letter queue or the requeue *)
  | HRetry (x : Task). (** [DeadLetterQueue.retry] before [queue_manager.requeue] *)

Definition held_task (h : Held) : Task := match h with HNack x | HRetry x => x end.

(** The state, the suspended coroutines, and two ledgers: the identifiers ever
    accepted, and those discarded by an operator (remove, purge, reset). *)
Record Config := mkConfig {
  c_qm : t;
  c_held : list Held;
  c_accepted : list string;
  c_discarded : list string;
}.

Definition start_config (retries : Z) : Config := mkConfig (init retries) [] [] [].

(** [DeadLetterQueue.retry] in its two halves. *)
Definition retry_begin (tid : string) (s : t) : option Task * t :=
  let '(o, d) := DLQ.retry_take tid (dead_letter_queue s) in
  (DLQ.retry_reset <$> o, with_dlq d s).

Definition retry_end (x : Task) (s : t) : t :=
  let s := requeue x false s in
  let d := dead_letter_queue s in
  with_dlq (DLQ.mk (DLQ._tasks d) (DLQ._total_received d)
              (DLQ._total_retried d + 1) (DLQ._total_purged d)) s.

Inductive step : Config → Config → Prop :=
  | step_enqueue qn p uuid now s h a d :
      uuid ∉ a →
      step (mkConfig s h a d) (mkConfig (enqueue qn p uuid now s).2 h (uuid :: a) d)
  | step_recover qn tid p n now s h a d :
      tid ∉ a → (0 <= n)%Z →
      step (mkConfig s h a d) (mkConfig (enqueue_recovered qn tid p n now s).2 h (tid :: a) d)
  | step_dequeue qn w s h a d :
      step (mkConfig s h a d) (mkConfig (dequeue qn w s).2 h a d)
  | step_ack tid s h a d :
      step (mkConfig s h a d) (mkConfig (acknowledge tid s).2 h a d)
  | step_nack_take tid x s s' h a d :
      nack_take tid s = (Some x, s') →
      step (mkConfig s h a d) (mkConfig s' (HNack x :: h) a d)
  | step_nack_route x now s h1 h2 a d :
      step (mkConfig s (h1 ++ HNack x :: h2) a d)
           (mkConfig (nack_route x now s).2 (h1 ++ h2) a d)
  | step_requeue_by_id tid s h a d :
      step (mkConfig s h a d) (mkConfig (requeue_by_id tid s).2 h a d)
  | step_retry_begin tid x s s' h a d :
      retry_begin tid s = (Some x, s') →
      step (mkConfig s h a d) (mkConfig s' (HRetry x :: h) a d)
  | step_retry_end x s h1 h2 a d :
      step (mkConfig s (h1 ++ HRetry x :: h2) a d)
           (mkConfig (retry_end x s) (h1 ++ h2) a d)
  | step_remove tid s s' h a d :
      dlq_remove tid s = (true, s') →
      step (mkConfig s h a d) (mkConfig s' h a (tid :: d))
  | step_purge s h a d :
      step (mkConfig s h a d)
           (mkConfig (dlq_purge s).2 h a (dkeys (DLQ._tasks (dead_letter_queue s)) ++ d))
  | step_reset s h a d :
      step (mkConfig s h a d) (mkConfig (reset s) h a (ids s ++ d)).

(** Reachable from an empty queue manager, by any schedule. *)
Inductive reachable (retries : Z) : Config → Prop :=
  | reach_start : reachable retries (start_config retries)
  | reach_step c c' : reachable retries c → step c c' → reachable retries c'.

(** ** The two halves of a retry compose to the operation *)

Lemma dlq_retry_halves tid s :
  dlq_retry tid s =
  match retry_begin tid s with
  | (None, s) => (false, s)
  | (Some x, s) => (true, retry_end x s)
  end.
Proof.
  unfold dlq_retry, retry_begin, DLQ.retry, retry_end, DLQ.retry_take.
  destruct (dget tid (DLQ._tasks (dead_letter_queue s))) as [x|] eqn:E; cbn; [|done].
  by rewrite requeue_dlq, !with_dlq_requeue.
Qed.

(** ** The invariant *)

Definition held_ids (h : list Held) : list string := task_id ∘ held_task <$> h.

Definition conserved (c : Config) : Prop :=
  shape (c_qm c) ∧ Forall (λ h, (0 <= attempts (held_task h))%Z) (c_held c) ∧
  NoDup (c_accepted c) ∧
  ids (c_qm c) ++ held_ids (c_held c) ++ c_discarded c ≡ₚ c_accepted c.

Lemma conserved_nodup c : conserved c → NoDup (ids (c_qm c)).
Proof.
  intros (_&_&Hn&Hp). rewrite <- Hp in Hn. by apply NoDup_app in Hn as [? _].
Qed.

(** What an operation does to the ids of the state, for each kind of move. *)
Lemma ids_add s s' x : all_tasks s' ≡ₚ x :: all_tasks s → ids s' ≡ₚ task_id x :: ids s.
Proof. intros E. unfold ids. by rewrite E. Qed.

Lemma ids_take s s' x : all_tasks s ≡ₚ x :: all_tasks s' → ids s ≡ₚ task_id x :: ids s'.
Proof. intros E. unfold ids. by rewrite E. Qed.

Lemma ids_move s s' x y rest :
  all_tasks s ≡ₚ x :: rest → all_tasks s' ≡ₚ y :: rest → task_id y = task_id x → ids s' ≡ₚ ids s.
Proof. intros E E' Hy. unfold ids. rewrite E, E'. cbn. by rewrite Hy. Qed.

Lemma dequeue_ids qn w s : wf s → ids (dequeue qn w s).2 ≡ₚ ids s.
Proof.
  intros H. destruct (dequeue qn w s) as [[d|] s'] eqn:E.
  - destruct (dequeue_moves _ _ _ _ _ H E) as (x&rest&E1&E2&_). by eapply ids_move.
  - destruct (dequeue_cases qn w s (proj1 H)) as [(s''&E'&_&Ht)|(?&?&?&?&?&?&?&E')];
      rewrite E' in E; simplify_eq. unfold ids. cbn. by rewrite Ht.
Qed.

Lemma acknowledge_ids tid s : wf s → ids (acknowledge tid s).2 ≡ₚ ids s.
Proof.
  intros H. destruct (acknowledge tid s) as [[] s'] eqn:E.
  - destruct (acknowledge_moves _ _ _ H E) as (x&rest&_&_&E1&E2). by eapply ids_move.
  - unfold acknowledge in E. by destruct (dget tid (_in_flight s)); simplify_eq.
Qed.

Lemma requeue_by_id_ids tid s : wf s → ids (requeue_by_id tid s).2 ≡ₚ ids s.
Proof.
  intros [H _]. destruct (requeue_by_id tid s) as [[] s'] eqn:E.
  - destruct (requeue_by_id_moves _ _ _ H E) as (x&rest&_&_&E1&E2). by eapply ids_move.
  - unfold requeue_by_id in E. by destruct (dget tid (_in_flight s)); simplify_eq.
Qed.

Lemma retry_begin_cases tid s x s' :
  shape s → retry_begin tid s = (Some x, s') →
  shape s' ∧ (0 <= attempts x)%Z ∧ ids s ≡ₚ task_id x :: ids s'.
Proof.
  intros H. unfold retry_begin, DLQ.retry_take.
  destruct (dget tid (DLQ._tasks (dead_letter_queue s))) as [y|] eqn:E; [|done].
  intros [= <- <-]. split_and!; [by eapply shape_del_dlq|done|].
  change (task_id (DLQ.retry_reset y)) with (task_id y).
  apply ids_take. by eapply tasks_del_dlq.
Qed.

Lemma retry_end_shape x s : shape s → (0 <= attempts x)%Z → shape (retry_end x s).
Proof.
  intros H Hx. pose proof (requeue_shape x false s H Hx) as Hr.
  pose proof Hr as (?&?&?&?&?&?&?&?). by apply shape_with_dlq.
Qed.

Lemma retry_end_ids x s : ids (retry_end x s) ≡ₚ task_id x :: ids s.
Proof.
  transitivity (ids (requeue x false s)); [done|].
  apply (ids_add _ _ (mark_pending x)), requeue_adds.
Qed.

Lemma held_ids_cons h l : held_ids (h :: l) = task_id (held_task h) :: held_ids l.
Proof. done. Qed.

Lemma held_ids_app h1 h2 : held_ids (h1 ++ h2) = held_ids h1 ++ held_ids h2.
Proof. apply fmap_app. Qed.

Lemma step_conserved c c' : step c c' → conserved c → conserved c'.
Proof.
  intros Hstep Hc. pose proof (conserved_nodup _ Hc) as Hnd.
  destruct Hstep as [qn p u now s h a d Hu|qn tid p n now s h a d Hu Hz|qn w s h a d|tid s h a d
    |tid x s s' h a d E|x now s h1 h2 a d|tid s h a d|tid x s s' h a d E|x s h1 h2 a d
    |tid s s' h a d E|s h a d|s h a d];
    destruct Hc as (Hs & Hh & Ha & Hp); unfold conserved;
    cbn [c_qm c_held c_accepted c_discarded] in *.
  - split_and!; auto with distrosync; [by apply NoDup_cons|].
    rewrite (ids_add _ _ _ (enqueue_adds qn p u now s)), <- Hp. cbn [task_id new_task set_attempts]. perm_solve.
  - split_and!; auto with distrosync; [by apply enqueue_recovered_shape|by apply NoDup_cons|].
    rewrite (ids_add _ _ _ (enqueue_recovered_adds qn tid p n now s)), <- Hp. cbn [task_id new_task set_attempts]. perm_solve.
  - split_and!; auto with distrosync. by rewrite dequeue_ids.
  - split_and!; auto with distrosync. by rewrite acknowledge_ids.
  - destruct (nack_take_cases tid s) as [[_ E']|(y&s1&Ey&E'&Hall&_&_&_&_&_&Hs1)];
      rewrite E' in E; simplify_eq.
    destruct (shape_flight_get _ _ _ Hs Ey) as [_ (_&_&?)].
    split_and!; auto.
    + constructor; [|done]. cbn. rewrite nack_verdict_attempts. lia.
    + rewrite <- Hp, (ids_take _ _ _ Hall), held_ids_cons. cbn [held_task].
      rewrite nack_verdict_id. perm_solve.
  - apply Forall_app in Hh as [Hh1 [Hx Hh2]%Forall_cons].
    rewrite held_ids_app, held_ids_cons in Hp. cbn [held_task] in Hp, Hx.
    assert (task_id x ∉ ids s).
    { rewrite <- Hp in Ha. apply NoDup_app in Ha as (_&Hd&_). intros Hin.
      apply (Hd _ Hin). set_solver. }
    split_and!; auto with distrosync; [by apply Forall_app|].
    rewrite (ids_add _ _ _ (nack_route_files x now s Hs ltac:(done))), nack_routed_id.
    rewrite <- Hp, held_ids_app. perm_solve.
  - split_and!; auto with distrosync. by rewrite requeue_by_id_ids.
  - destruct (retry_begin_cases _ _ _ _ Hs E) as (?&?&Hids).
    split_and!; [done|by constructor|done|]. rewrite <- Hp, Hids, held_ids_cons. cbn [held_task]. perm_solve.
  - apply Forall_app in Hh as [Hh1 [Hx Hh2]%Forall_cons].
    rewrite held_ids_app, held_ids_cons in Hp. cbn [held_task] in Hp, Hx.
    split_and!; [by apply retry_end_shape|by apply Forall_app|done|].
    rewrite retry_end_ids, <- Hp, held_ids_app. perm_solve.
  - destruct (dlq_remove_cases tid s) as [[_ E']|(x&d'&Ex&Ed&E')]; rewrite E' in E; simplify_eq.
    destruct (shape_dead_get _ _ _ Hs Ex) as [-> _].
    split_and!; [by eapply shape_del_dlq|done..|].
    rewrite <- Hp, (ids_take _ _ _ (tasks_del_dlq _ _ _ _ Ex Ed)). perm_solve.
  - split_and!; auto with distrosync. rewrite <- Hp. unfold ids.
    rewrite (dlq_purge_tasks s), fmap_app.
    destruct Hs as (_&_&_&_&_&_&_&Hd). rewrite <- (entries_ok_keys _ _ Hd). perm_solve.
  - split_and!; [apply reset_wf|done..|]. rewrite <- Hp.
    change (ids (reset s)) with (@nil string). cbn [app]. perm_solve.
Qed.

Lemma reachable_conserved retries c : reachable retries c → conserved c.
Proof.
  induction 1; [|by eapply step_conserved].
  split_and!; [apply init_wf|constructor|apply NoDup_nil_2|done].
Qed.

(** ** Conservation of tasks *)

(** C1.  Under any interleaving of coroutines, at lock granularity, every task
    the queue manager ever accepted is in exactly one place: one of the
    manager's containers, the local variable of a suspended NACK or retry, or
    the operator's discard list.  Nothing is lost, nothing is duplicated, and
    no identifier appears that was not accepted. *)
Theorem no_task_lost_or_duplicated retries c :
  reachable retries c →
  NoDup (ids (c_qm c) ++ held_ids (c_held c) ++ c_discarded c) ∧
  ∀ tid, tid ∈ c_accepted c ↔
    tid ∈ ids (c_qm c) ∨ tid ∈ held_ids (c_held c) ∨ tid ∈ c_discarded c.
Proof.
  intros (_&_&Hn&Hp)%reachable_conserved. split; [by rewrite Hp|].
  intros tid. by rewrite <- Hp, !elem_of_app.
Qed.

(** A schedule that suspends a NACK between its two critical sections while
    another producer enqueues. *)
Definition example_s1 : t := (enqueue "q" (JObj []) "a" 0 (init 3)).2.
Definition example_s2 : t := (dequeue "q" "w" example_s1).2.
Definition example_s3 : t := (nack_take "a" example_s2).2.
Definition conservation_example : Config :=
  mkConfig (enqueue "q" (JObj []) "b" 1 example_s3).2
    [HNack (deliver "w" (new_task "a" "q" (JObj []) 0))] ["b"; "a"] [].

Lemma conservation_example_reachable : reachable 3 conservation_example.
Proof.
  assert (H1 : reachable 3 (mkConfig example_s1 [] ["a"] [])).
  { eapply reach_step; [apply reach_start|]. apply step_enqueue. decide_by_compute. }
  assert (H2 : reachable 3 (mkConfig example_s2 [] ["a"] [])).
  { eapply reach_step; [apply H1|]. apply step_dequeue. }
  assert (H3 : reachable 3 (mkConfig example_s3
                 [HNack (deliver "w" (new_task "a" "q" (JObj []) 0))] ["a"] [])).
  { eapply reach_step; [apply H2|]. apply (step_nack_take "a"). vm_compute. reflexivity. }
  eapply reach_step; [apply H3|]. apply step_enqueue. decide_by_compute.
Qed.

Lemma no_task_lost_or_duplicated_witness :
  NoDup (ids (c_qm conservation_example) ++ held_ids (c_held conservation_example)
           ++ c_discarded conservation_example).
Proof.
  apply (no_task_lost_or_duplicated 3 conservation_example conservation_example_reachable).
Defined.

(** In every reachable state, under any interleaving, each container holds
    tasks filed under the right key and with the right status: queued tasks
    are pending, unassigned and in the queue they name; in-flight tasks are
    assigned to a worker and counted at least one attempt; the archive holds
    done tasks and the dead letter queue dead-lettered ones. *)
Theorem reachable_shape retries c : reachable retries c → shape (c_qm c).
Proof. by intros [? _]%reachable_conserved. Qed.

Lemma reachable_shape_witness : shape (c_qm conservation_example).
Proof. apply (reachable_shape 3), conservation_example_reachable. Defined.
