(* ===== verification/TaskLifecycle.v ===== *)
(** * The life cycle of a task: abstract specification and refinement

The specification knows, for each task identifier, only where the task is
in its life: waiting in a queue, running on a worker, completed, or dead.
The queue manager of [QueueManager.v], with its dictionaries, deques and
dead letter queue, is shown to implement it: each operation is a
transition of the specification.  Safety properties of a task's life are
then read off the specification. *)

From S2P Require Import Prelude PyDict Json DeadLetter QueueManager QueueInvariant TaskConservation.

Import QM.

(** ** The specification *)

Inductive TState : Type :=
  | Waiting (q : string) (n : Z)
  | Running (q w : string) (n : Z)
  | Completed
  | Dead (q : string) (n : Z).

#[global] Instance TState_eq_dec : EqDecision TState.
Proof. solve_decision. Defined.

(** The operations of the queue manager that act on single tasks. *)
Inductive Op : Type :=
  | OEnqueue (qn : string) (p : Json) (uuid : string) (now : Q)
  | ORecover (qn tid : string) (p : Json) (n : Z) (now : Q)
  | ODequeue (qn w : string)
  | OAck (tid : string)
  | ONack (tid : string) (now : Q)
  | ORequeueById (tid : string)
  | ODlqRetry (tid : string)
  | ODlqRemove (tid : string).

(** What the caller is told: an identifier, a delivery, what became of a
    refused task, or whether the operation applied. *)
Inductive Answer : Type :=
  | Named (tid : string)
  | Handed (d : option Delivery)
  | Routed (r : option NackResult)
  | Applied (ok : bool).

Definition running (st : option TState) : Prop :=
  match st with Some (Running _ _ _) => True | _ => False end.

Definition dead (st : option TState) : Prop :=
  match st with Some (Dead _ _) => True | _ => False end.

(** [dequeue(qn)] serves queue [q]: the wildcard serves every queue with a
    name that is not empty. *)
Definition serves (qn q : string) : Prop := if decide (qn = "*") then q ≠ "" else q = qn.

(** Nothing to hand out.  The wildcard scan also gives up at a queue whose
    name is empty. *)
Definition nothing_for (qn : string) (m : gmap string TState) : Prop :=
  (∀ tid q n, m !! tid = Some (Waiting q n) → ¬ serves qn q) ∨
  (qn = "*" ∧ ∃ tid n, m !! tid = Some (Waiting "" n)).

(** [astep retries o a m m']: operation [o] answers [a] and takes the tasks
    from [m] to [m'].  An operation changes one task, and which change it may
    make is fixed by the operation and the task's state, up to the order in
    which waiting tasks are handed out. *)
Inductive astep (retries : Z) : Op → Answer → gmap string TState → gmap string TState → Prop :=
  | a_submit m qn p tid now :
      m !! tid = None →
      astep retries (OEnqueue qn p tid now) (Named tid) m (<[tid := Waiting qn 0]> m)
  | a_recover m qn tid p n now :
      m !! tid = None →
      astep retries (ORecover qn tid p n now) (Named tid) m (<[tid := Waiting qn n]> m)
  | a_deliver m qn w tid q p n :
      m !! tid = Some (Waiting q n) → serves qn q →
      astep retries (ODequeue qn w) (Handed (Some (mkDelivery tid q p (n + 1))))
        m (<[tid := Running q w (n + 1)]> m)
  | a_empty m qn w :
      nothing_for qn m → astep retries (ODequeue qn w) (Handed None) m m
  | a_finish m tid q w n :
      m !! tid = Some (Running q w n) →
      astep retries (OAck tid) (Applied true) m (<[tid := Completed]> m)
  | a_ack_unknown m tid :
      ¬ running (m !! tid) → astep retries (OAck tid) (Applied false) m m
  | a_retry m tid now q w n :
      m !! tid = Some (Running q w n) → (n < retries)%Z →
      astep retries (ONack tid now) (Routed (Some (mkNack "requeued" tid n (Some retries) q)))
        m (<[tid := Waiting q n]> m)
  | a_bury m tid now q w n :
      m !! tid = Some (Running q w n) → (retries <= n)%Z →
      astep retries (ONack tid now) (Routed (Some (mkNack "dead_lettered" tid n None q)))
        m (<[tid := Dead q n]> m)
  | a_nack_unknown m tid now :
      ¬ running (m !! tid) → astep retries (ONack tid now) (Routed None) m m
  | a_release m tid q w n :
      m !! tid = Some (Running q w n) →
      astep retries (ORequeueById tid) (Applied true) m (<[tid := Waiting q n]> m)
  | a_release_unknown m tid :
      ¬ running (m !! tid) → astep retries (ORequeueById tid) (Applied false) m m
  | a_revive m tid q n :
      m !! tid = Some (Dead q n) →
      astep retries (ODlqRetry tid) (Applied true) m (<[tid := Waiting q 0]> m)
  | a_revive_unknown m tid :
      ¬ dead (m !! tid) → astep retries (ODlqRetry tid) (Applied false) m m
  | a_discard m tid q n :
      m !! tid = Some (Dead q n) →
      astep retries (ODlqRemove tid) (Applied true) m (delete tid m)
  | a_discard_unknown m tid :
      ¬ dead (m !! tid) → astep retries (ODlqRemove tid) (Applied false) m m.

(** ** The implementation's view *)

Definition lifecycle (x : Task) : TState :=
  if bool_decide (status x = "pending") then Waiting (queue_name x) (attempts x)
  else if bool_decide (status x = "in_flight")
       then Running (queue_name x) (default "" (assigned_worker x)) (attempts x)
  else if bool_decide (status x = "done") then Completed
  else Dead (queue_name x) (attempts x).

Definition view_list (l : list Task) : gmap string TState :=
  list_to_map ((λ x, (task_id x, lifecycle x)) <$> l).

Definition view (s : t) : gmap string TState := view_list (all_tasks s).

Definition exec (o : Op) (s : t) : t :=
  match o with
  | OEnqueue qn p u now => (enqueue qn p u now s).2
  | ORecover qn tid p n now => (enqueue_recovered qn tid p n now s).2
  | ODequeue qn w => (dequeue qn w s).2
  | OAck tid => (acknowledge tid s).2
  | ONack tid now => (negative_acknowledge tid now s).2
  | ORequeueById tid => (requeue_by_id tid s).2
  | ODlqRetry tid => (dlq_retry tid s).2
  | ODlqRemove tid => (dlq_remove tid s).2
  end.

Definition answer (o : Op) (s : t) : Answer :=
  match o with
  | OEnqueue qn p u now => Named (enqueue qn p u now s).1
  | ORecover qn tid p n now => Named (enqueue_recovered qn tid p n now s).1
  | ODequeue qn w => Handed (dequeue qn w s).1
  | OAck tid => Applied (acknowledge tid s).1
  | ONack tid now => Routed (negative_acknowledge tid now s).1
  | ORequeueById tid => Applied (requeue_by_id tid s).1
  | ODlqRetry tid => Applied (dlq_retry tid s).1
  | ODlqRemove tid => Applied (dlq_remove tid s).1
  end.

(** [uuid4] never repeats; a recovered row has a non-negative attempt count. *)
Definition op_fresh (o : Op) (s : t) : Prop :=
  match o with
  | OEnqueue _ _ u _ => u ∉ ids s
  | ORecover _ tid _ n _ => (tid ∉ ids s) ∧ (0 <= n)%Z
  | _ => True
  end.

#[global] Instance op_fresh_dec o s : Decision (op_fresh o s).
Proof. destruct o; apply _. Defined.

(** ** Views under the three kinds of moves *)

Lemma view_list_perm l k : NoDup (task_id <$> l) → l ≡ₚ k → view_list l = view_list k.
Proof.
  intros Hn Hp. apply list_to_map_proper; [|by rewrite Hp].
  by rewrite <- list_fmap_compose.
Qed.

Lemma view_list_cons x l : view_list (x :: l) = <[task_id x := lifecycle x]> (view_list l).
Proof. done. Qed.

Lemma view_add s s' x :
  NoDup (ids s') → all_tasks s' ≡ₚ x :: all_tasks s →
  view s' = <[task_id x := lifecycle x]> (view s).
Proof. intros Hn Hp. unfold view. by rewrite (view_list_perm _ _ Hn Hp). Qed.

Lemma view_lookup s x rest :
  NoDup (ids s) → all_tasks s ≡ₚ x :: rest → view s !! task_id x = Some (lifecycle x).
Proof.
  intros Hn Hp. unfold view. rewrite (view_list_perm _ _ Hn Hp), view_list_cons.
  apply lookup_insert_eq.
Qed.

Lemma view_move s s' x y rest :
  NoDup (ids s) → NoDup (ids s') →
  all_tasks s ≡ₚ x :: rest → all_tasks s' ≡ₚ y :: rest → task_id y = task_id x →
  view s' = <[task_id x := lifecycle y]> (view s).
Proof.
  intros Hn Hn' Hp Hp' Hy. unfold view.
  rewrite (view_list_perm _ _ Hn Hp), (view_list_perm _ _ Hn' Hp'), !view_list_cons, Hy.
  by rewrite insert_insert_eq.
Qed.

Lemma view_none s tid : tid ∉ ids s → view s !! tid = None.
Proof.
  intros Hn. unfold view, view_list. apply not_elem_of_list_to_map_1.
  by rewrite <- list_fmap_compose.
Qed.

Lemma view_remove s s' x :
  NoDup (ids s) → all_tasks s ≡ₚ x :: all_tasks s' → view s' = delete (task_id x) (view s).
Proof.
  intros Hn Hp. unfold view at 2. rewrite (view_list_perm _ _ Hn Hp), view_list_cons.
  rewrite delete_insert_id; [done|]. apply view_none. by eapply taken_fresh.
Qed.

Lemma view_same s s' : NoDup (ids s) → all_tasks s' ≡ₚ all_tasks s → view s' = view s.
Proof. intros Hn Hp. symmetry. unfold view. by apply view_list_perm. Qed.

(** ** Every operation preserves well-formedness *)

Lemma negative_acknowledge_ids tid now s :
  wf s → ids (negative_acknowledge tid now s).2 ≡ₚ ids s.
Proof.
  intros H. destruct (negative_acknowledge tid now s) as [[r|] s'] eqn:E.
  - destruct (negative_acknowledge_moves _ _ _ _ _ H E) as (y&rest&_&_&_&E1&E2).
    eapply ids_move; [done..|]. by autorewrite with distrosync.
  - unfold negative_acknowledge in E.
    destruct (nack_take_cases tid s) as [[_ E']|(y&s1&_&E'&_)]; rewrite E' in E;
      [by simplify_eq|]. by destruct (nack_route _ _ _).
Qed.

Lemma dlq_retry_ids tid s : wf s → ids (dlq_retry tid s).2 ≡ₚ ids s.
Proof.
  intros [H _]. destruct (dlq_retry tid s) as [[] s'] eqn:E.
  - destruct (dlq_retry_moves _ _ _ H E) as (x&rest&_&_&E1&E2). by eapply ids_move.
  - destruct (dlq_retry_cases tid s) as [[_ E']|(?&?&_&_&E')]; rewrite E' in E; by simplify_eq.
Qed.

Lemma exec_shape o s : shape s → op_fresh o s → shape (exec o s).
Proof.
  intros H Hf. destruct o; cbn [exec]; auto with distrosync.
  destruct Hf. by apply enqueue_recovered_shape.
Qed.

Lemma exec_wf o s : wf s → op_fresh o s → wf (exec o s).
Proof.
  intros H Hf. split; [apply exec_shape; [apply H|done]|]. destruct H as [Hs Hn].
  destruct o; cbn [exec].
  - rewrite (ids_add _ _ _ (enqueue_adds qn p uuid now s)). by apply NoDup_cons.
  - rewrite (ids_add _ _ _ (enqueue_recovered_adds qn tid p n now s)).
    apply NoDup_cons. by destruct Hf.
  - by rewrite dequeue_ids.
  - by rewrite acknowledge_ids.
  - by rewrite negative_acknowledge_ids.
  - by rewrite requeue_by_id_ids.
  - by rewrite dlq_retry_ids.
  - destruct (dlq_remove_cases tid s) as [[_ ->]|(x&d&Ex&Ed&->)]; [done|]. cbn [snd].
    pose proof (ids_take _ _ _ (tasks_del_dlq _ _ _ _ Ex Ed)) as Hi.
    rewrite Hi in Hn. by apply NoDup_cons in Hn as [_ ?].
Qed.

(** ** Refinement *)

Lemma lifecycle_pending q x : pending_ok q x → lifecycle x = Waiting (queue_name x) (attempts x).
Proof. intros (_&E&_). unfold lifecycle. by rewrite E. Qed.

Lemma lifecycle_flight x :
  flight_ok x → ∃ w, assigned_worker x = Some w ∧
    lifecycle x = Running (queue_name x) w (attempts x).
Proof. intros (E&[w Hw]&_). exists w. unfold lifecycle. by rewrite E, Hw. Qed.

Lemma lifecycle_dead x : dead_ok x → lifecycle x = Dead (queue_name x) (attempts x).
Proof. intros (E&_). unfold lifecycle. by rewrite E. Qed.

Lemma lifecycle_nacked now n x :
  flight_ok x →
  lifecycle (nack_routed now (nack_verdict n x)) =
    if (attempts x >=? n)%Z then Dead (queue_name x) (attempts x)
    else Waiting (queue_name x) (attempts x).
Proof.
  intros (E&_). unfold nack_routed, nack_verdict. destruct (attempts x >=? n)%Z; [done|].
  by rewrite E.
Qed.

(** A move of one task, read at both ends of the refinement. *)
Lemma moved_view s s' x y rest :
  wf s → NoDup (ids s') →
  all_tasks s ≡ₚ x :: rest → all_tasks s' ≡ₚ y :: rest → task_id y = task_id x →
  view s !! task_id x = Some (lifecycle x) ∧ view s' = <[task_id x := lifecycle y]> (view s).
Proof. intros [_ Hn] Hn' E1 E2 Hy. split; [by eapply view_lookup|by eapply view_move]. Qed.

(** *** Where the view finds a task *)

Lemma view_member s x : wf s → x ∈ all_tasks s → view s !! task_id x = Some (lifecycle x).
Proof. intros [_ Hn] [k Hk]%elem_of_Permutation. by eapply view_lookup. Qed.

Lemma queue_of_pending s q x : x ∈ queue_of q s → x ∈ pending s.
Proof.
  intros Hx. unfold pending, queue_of in *. rewrite (pending_split q). set_solver.
Qed.

Lemma view_queued s q x :
  wf s → x ∈ queue_of q s → view s !! task_id x = Some (Waiting q (attempts x)).
Proof.
  intros Hw Hx. pose proof (shape_queue_in s q x (proj1 Hw) Hx) as Hp.
  rewrite view_member; [|done|unfold all_tasks; apply elem_of_app; left; by eapply queue_of_pending].
  by rewrite (lifecycle_pending _ _ Hp), (proj1 Hp).
Qed.

Lemma entries_value {P} (d : dict string Task) x :
  dict_wf d → entries_ok P d → x ∈ dvalues d → dget (task_id x) d = Some x ∧ P x.
Proof.
  intros Hd He Hx. unfold dvalues in Hx. apply list_elem_of_fmap in Hx as ([k y]&->&Hy).
  destruct (proj1 (Forall_forall _ _) He _ Hy) as [Hk Hok]. cbn in Hk, Hok |- *. subst k.
  split; [by apply dget_in|done].
Qed.

Lemma view_home s tid st :
  wf s → view s !! tid = Some st →
  match st with
  | Waiting q _ => ∃ x, x ∈ queue_of q s ∧ task_id x = tid
  | Running _ _ _ => is_Some (dget tid (_in_flight s))
  | Completed => is_Some (dget tid (_completed s))
  | Dead _ _ => is_Some (dget tid (DLQ._tasks (dead_letter_queue s)))
  end.
Proof.
  intros [Hs _] Hv. unfold view, view_list in Hv. apply elem_of_list_to_map_2 in Hv.
  apply list_elem_of_fmap in Hv as (x&[= -> ->]&Hx). destruct Hs as (Hq&Hf&Hc&Hd&Hp&Hfl&Hco&Hdd).
  unfold all_tasks in Hx. rewrite !elem_of_app in Hx. destruct Hx as [Hx|[Hx|[Hx|Hx]]].
  - unfold pending in Hx. apply list_elem_of_In, in_concat in Hx as (l&Hl%list_elem_of_In&Hxl%list_elem_of_In).
    unfold dvalues in Hl. apply list_elem_of_fmap in Hl as ([q l']&->&Hl). cbn in Hxl.
    pose proof (proj1 (Forall_forall _ _) (proj1 (Forall_forall _ _) Hp _ Hl) _ Hxl) as Hpx. cbn in Hpx.
    rewrite (lifecycle_pending _ _ Hpx), (proj1 Hpx). exists x. split; [|done].
    unfold queue_of. by rewrite (dget_in _ _ _ Hq Hl).
  - destruct (entries_value _ _ Hf Hfl Hx) as [Hg Hok]. destruct (lifecycle_flight _ Hok) as (w&_&->). by exists x.
  - destruct (entries_value _ _ Hc Hco Hx) as [Hg Hok]. unfold lifecycle. rewrite Hok. by exists x.
  - destruct (entries_value _ _ Hd Hdd Hx) as [Hg Hok]. rewrite (lifecycle_dead _ Hok). by exists x.
Qed.

Lemma not_running s tid : wf s → dget tid (_in_flight s) = None → ¬ running (view s !! tid).
Proof.
  intros Hw E. destruct (view s !! tid) as [st|] eqn:Ev; [|by intros []].
  pose proof (view_home _ _ _ Hw Ev) as Hh. destruct st; try by intros []. rewrite E in Hh. by destruct Hh.
Qed.

Lemma not_dead s tid :
  wf s → dget tid (DLQ._tasks (dead_letter_queue s)) = None → ¬ dead (view s !! tid).
Proof.
  intros Hw E. destruct (view s !! tid) as [st|] eqn:Ev; [|by intros []].
  pose proof (view_home _ _ _ Hw Ev) as Hh. destruct st; try by intros []. rewrite E in Hh. by destruct Hh.
Qed.

(** *** Which queue a delivery comes from *)

Lemma target_serves qn s q s1 : dequeue_target qn s = (Some q, s1) → serves qn q.
Proof.
  unfold dequeue_target, serves. case_bool_decide as E.
  - rewrite decide_True by done. intros [= Hq _]. destruct (first_nonempty _) as [q'|]; [|done].
    destruct (truthy_str q') eqn:Et; simplify_eq. by intros ->.
  - rewrite decide_False by done. intros [= Hq _]. case_bool_decide; by simplify_eq.
Qed.

Lemma first_nonempty_none (d : dict string (list Task)) q :
  first_nonempty d = None → default [] (dget q d) = [].
Proof.
  induction d as [|[k l] d IH]; [done|]. cbn. case_bool_decide as E; [|done]. intros Hn.
  case_decide; [done|by apply IH].
Qed.

Lemma target_none qn s s1 : wf s → dequeue_target qn s = (None, s1) → nothing_for qn (view s).
Proof.
  intros Hw. unfold dequeue_target. case_bool_decide as E.
  - intros [= Hq _]. subst qn. destruct (first_nonempty (_queues s)) as [q|] eqn:Ef.
    + destruct (first_nonempty_spec _ _ ltac:(apply Hw) Ef) as (x&rest&Hg).
      unfold truthy_str in Hq. case_bool_decide as Eq; [|done]. subst q. right. split; [done|].
      exists (task_id x), (attempts x). apply view_queued; [done|]. unfold queue_of. rewrite Hg. by left.
    + left. intros tid q n Hv. destruct (view_home _ _ _ Hw Hv) as (x&Hx&_).
      unfold queue_of in Hx. rewrite first_nonempty_none in Hx by done. by apply not_elem_of_nil in Hx.
  - intros [= Hq _]. left. intros tid q n Hv. unfold serves. rewrite decide_False by done. intros ->.
    destruct (view_home _ _ _ Hw Hv) as (x&Hx&_). rewrite queue_of_ensure in Hq.
    case_bool_decide as Eq; [|done]. rewrite Eq in Hx. by apply not_elem_of_nil in Hx.
Qed.

Lemma dequeue_nothing qn w s s' : wf s → dequeue qn w s = (None, s') → nothing_for qn (view s).
Proof.
  intros Hw. unfold dequeue. destruct (dequeue_target qn s) as [[q|] s1] eqn:E.
  - destruct (dequeue_target_head _ _ _ _ (proj1 Hw) E) as (x&rest&Hq). by rewrite Hq.
  - intros _. by eapply target_none.
Qed.

(** *** The operations *)

Lemma nack_answer tid now s r s' :
  shape s → negative_acknowledge tid now s = (Some r, s') →
  ∃ y, dget tid (_in_flight s) = Some y ∧
    r = if (attempts y >=? max_retries s)%Z
        then mkNack "dead_lettered" tid (attempts y) None (queue_name y)
        else mkNack "requeued" tid (attempts y) (Some (max_retries s)) (queue_name y).
Proof.
  intros Hs. unfold negative_acknowledge, nack_take. destruct (dget tid (_in_flight s)) as [y|] eqn:E; [|done].
  destruct (shape_flight_get _ _ _ Hs E) as [-> (Hst&_)]. intros Hr. exists y. split; [done|]. revert Hr.
  cbn [max_retries bump with_in_flight]. destruct (attempts y >=? max_retries s)%Z; unfold nack_route.
  - rewrite bool_decide_true by done. by intros [= <- _].
  - rewrite bool_decide_false by by rewrite Hst. cbn zeta. intros [= <- _].
    do 2 f_equal. unfold _ensure_queue. by case_match.
Qed.

Lemma nack_refines tid now s r s' :
  wf s → NoDup (ids s') → negative_acknowledge tid now s = (Some r, s') →
  astep (max_retries s) (ONack tid now) (Routed (Some r)) (view s) (view s').
Proof.
  intros H Hn E. destruct (nack_answer _ _ _ _ _ (proj1 H) E) as (y'&Hy'&->).
  destruct (negative_acknowledge_moves _ _ _ _ _ H E) as (y&rest&Hy&<-&Hf&E1&E2).
  rewrite Hy in Hy'. injection Hy' as <-.
  destruct (moved_view _ _ _ _ _ H Hn E1 E2) as [Hl ->]; [by autorewrite with distrosync|].
  destruct (lifecycle_flight _ Hf) as (w&_&Hw). rewrite Hw in Hl.
  rewrite lifecycle_nacked by done. destruct (attempts y >=? max_retries s)%Z eqn:Ea.
  - eapply a_bury; [done|lia].
  - eapply a_retry; [done|lia].
Qed.

Lemma dequeue_refines qn w s :
  wf s → NoDup (ids (dequeue qn w s).2) →
  astep (max_retries s) (ODequeue qn w) (Handed (dequeue qn w s).1) (view s) (view (dequeue qn w s).2).
Proof.
  intros H Hn. pose proof H as [Hs Hns].
  destruct (dequeue_cases qn w s Hs) as [(s'&E&_&Ht)|(q&s1&x&rest&Et&_&Hx&E)].
  - rewrite E. cbn [fst snd]. rewrite (view_same _ _ Hns Ht). apply a_empty. by eapply dequeue_nothing.
  - destruct (dequeue_moves _ _ _ _ _ H E) as (y&rest'&E1&E2&Hd&_&Hy).
    assert (Hqy : queue_name y = q) by (injection Hd as _ <- _ _; apply Hx).
    rewrite E in *. cbn [fst snd] in *. rewrite Hd.
    destruct (moved_view _ _ _ _ _ H Hn E1 E2) as [Hl ->]; [done|].
    rewrite (lifecycle_pending _ _ Hy) in Hl.
    pose proof (a_deliver (max_retries s) (view s) qn w (task_id y) (queue_name y) (payload y) (attempts y) Hl) as Ha.
    apply Ha. rewrite Hqy. by eapply target_serves.
Qed.

Lemma ack_refines tid s :
  wf s → NoDup (ids (acknowledge tid s).2) →
  astep (max_retries s) (OAck tid) (Applied (acknowledge tid s).1) (view s) (view (acknowledge tid s).2).
Proof.
  intros H Hn. destruct (acknowledge tid s) as [[] s'] eqn:E; cbn [fst snd] in *.
  - destruct (acknowledge_moves _ _ _ H E) as (x&rest&Hx&<-&E1&E2).
    destruct (moved_view _ _ _ _ _ H Hn E1 E2) as [Hl ->]; [done|].
    destruct (lifecycle_flight x) as (w&_&Hw); [by apply (shape_flight_get s (task_id x)); [apply H|]|].
    rewrite Hw in Hl. by eapply a_finish.
  - unfold acknowledge in E. destruct (dget tid (_in_flight s)) eqn:Ef; simplify_eq.
    apply a_ack_unknown. by apply not_running.
Qed.

Lemma requeue_refines tid s :
  wf s → NoDup (ids (requeue_by_id tid s).2) →
  astep (max_retries s) (ORequeueById tid) (Applied (requeue_by_id tid s).1)
    (view s) (view (requeue_by_id tid s).2).
Proof.
  intros H Hn. destruct (requeue_by_id tid s) as [[] s'] eqn:E; cbn [fst snd] in *.
  - destruct (requeue_by_id_moves _ _ _ (proj1 H) E) as (x&rest&Hx&<-&E1&E2).
    destruct (moved_view _ _ _ _ _ H Hn E1 E2) as [Hl ->]; [done|].
    destruct (lifecycle_flight x) as (w&_&Hw); [by apply (shape_flight_get s (task_id x)); [apply H|]|].
    rewrite Hw in Hl. by eapply a_release.
  - unfold requeue_by_id in E. destruct (dget tid (_in_flight s)) eqn:Ef; simplify_eq.
    apply a_release_unknown. by apply not_running.
Qed.

Lemma exec_astep o s :
  wf s → op_fresh o s → astep (max_retries s) o (answer o s) (view s) (view (exec o s)).
Proof.
  intros H Hf. pose proof (exec_wf o s H Hf) as [_ Hn]. pose proof H as [Hs Hns].
  destruct o; cbn [exec answer] in *.
  - rewrite (view_add _ _ _ Hn (enqueue_adds qn p uuid now s)). by apply a_submit, view_none.
  - rewrite (view_add _ _ _ Hn (enqueue_recovered_adds qn tid p n now s)).
    apply a_recover, view_none. by destruct Hf.
  - by apply dequeue_refines.
  - by apply ack_refines.
  - destruct (negative_acknowledge tid now s) as [[r|] s'] eqn:E; cbn [fst snd] in *;
      [by eapply nack_refines|].
    unfold negative_acknowledge in E.
    destruct (nack_take_cases tid s) as [[Ef E']|(y&s1&_&E'&_)]; rewrite E' in E;
      [simplify_eq; by apply a_nack_unknown, not_running|by destruct (nack_route _ _ _)].
  - by apply requeue_refines.
  - destruct (dlq_retry_cases tid s) as [[Hd E]|(x&d&Hx&_&E)];
      [rewrite E; by apply a_revive_unknown, not_dead|].
    destruct (dlq_retry_moves _ _ _ Hs E) as (y&rest&Hy&<-&E1&E2).
    rewrite E in *. cbn [fst snd] in *.
    destruct (moved_view _ _ _ _ _ H Hn E1 E2) as [Hl ->]; [done|].
    eapply a_revive. rewrite Hl, lifecycle_dead; [done|]. by apply (shape_dead_get s (task_id y)).
  - destruct (dlq_remove_cases tid s) as [[Hd ->]|(x&d&Ex&Ed&->)];
      [by apply a_discard_unknown, not_dead|]. cbn [fst snd].
    destruct (shape_dead_get _ _ _ Hs Ex) as [-> Hd].
    pose proof (tasks_del_dlq _ _ _ _ Ex Ed) as Ht. rewrite (view_remove _ _ _ Hns Ht).
    eapply a_discard. rewrite (view_lookup _ _ _ Hns Ht). by rewrite lifecycle_dead.
Qed.

(** C5.  The queue manager implements the task life cycle: each operation,
    from any well-formed state, answers and acts as the specification says
    for that operation.  A submission makes a waiting task; a delivery takes
    a task that waits in a queue the caller asked for, counts one attempt and
    names the worker, and there is none only when no such task waits; an ACK
    completes and an eviction returns a task that is running; a NACK returns
    it while attempts remain and buries it otherwise; only a dead task is
    revived or discarded; an operation that does not apply says so and
    changes nothing; and no other task is touched. *)
Theorem exec_refines o s :
  wf s → op_fresh o s → astep (max_retries s) o (answer o s) (view s) (view (exec o s)).
Proof. apply exec_astep. Qed.

Lemma exec_refines_witness :
  let nack := ONack "a" 5 in
  astep 3 nack (answer nack example_s2) (view example_s2) (view (exec nack example_s2)) ∧
  answer nack example_s2 = Routed (Some (mkNack "requeued" "a" 1 (Some 3%Z) "q")) ∧
  view (exec nack example_s2) = {[ "a" := Waiting "q" 1 ]}.
Proof.
  split; [|split; vm_compute; reflexivity].
  apply (exec_refines (ONack "a" 5) example_s2); [decide_by_compute|exact I].
Defined.

(** ** Runs *)

(** Any sequence of operations, each with a fresh identifier where it makes one. *)
Inductive runs : t → t → Prop :=
  | runs_refl s : runs s s
  | runs_step s o s' : op_fresh o s → runs (exec o s) s' → runs s s'.

Lemma runs_wf s s' : runs s s' → wf s → wf s'.
Proof. induction 1 as [|s o s' Hf Hr IH]; [done|]. intros H. by apply IH, exec_wf. Qed.

(** A completed task stays completed, in one transition of the specification. *)
Lemma completed_stable r o a m m' tid :
  astep r o a m m' → m !! tid = Some Completed → m' !! tid = Some Completed.
Proof.
  intros [] Hm; try done;
    (match goal with |- context [<[?k := _]> _] => destruct (decide (k = tid)) as [->|Hne]
       | |- context [delete ?k _] => destruct (decide (k = tid)) as [->|Hne] end);
    rewrite ?lookup_insert_ne, ?lookup_delete_ne by done; congruence.
Qed.

Lemma runs_completed s s' tid :
  runs s s' → wf s → view s !! tid = Some Completed → view s' !! tid = Some Completed.
Proof.
  induction 1 as [|s o s' Hf Hr IH]; [done|]. intros H Hv.
  apply IH; [by apply exec_wf|]. by eapply completed_stable; [apply exec_astep|].
Qed.

Lemma delivered_was_waiting qn w s d s' :
  wf s → dequeue qn w s = (Some d, s') →
  ∃ q n, view s !! d_task_id d = Some (Waiting q n) ∧ d_queue_name d = q ∧ d_attempts d = (n + 1)%Z.
Proof.
  intros H E. destruct (dequeue_moves _ _ _ _ _ H E) as (x&rest&E1&_&->&_&Hx).
  exists (queue_name x), (attempts x). split_and!; [|done..]. cbn.
  rewrite (view_lookup _ _ _ (proj2 H) E1). by rewrite (lifecycle_pending _ _ Hx).
Qed.

(** C6.  An acknowledged task is never delivered again: after a successful ACK,
    whatever operations follow, no [dequeue] hands out that task. *)
Theorem acked_never_redelivered tid s s1 s2 qn w d s3 :
  wf s → acknowledge tid s = (true, s1) → runs s1 s2 →
  dequeue qn w s2 = (Some d, s3) → d_task_id d ≠ tid.
Proof.
  intros H Ha Hr Hd Heq.
  assert (E1 : s1 = exec (OAck tid) s) by (cbn; by rewrite Ha).
  assert (H1 : wf s1) by (subst s1; by apply exec_wf).
  destruct (acknowledge_moves _ _ _ H Ha) as (x&rest&_&<-&Ex&Ey).
  assert (Hc : view s1 !! task_id x = Some Completed).
  { exact (view_lookup s1 (set_status "done" x) rest (proj2 H1) Ey). }
  pose proof (runs_completed _ _ _ Hr H1 Hc) as Hc2.
  destruct (delivered_was_waiting _ _ _ _ _ (runs_wf _ _ Hr H1) Hd) as (q&n&Hw&_).
  rewrite Heq, Hc2 in Hw. done.
Qed.

Definition ack_example : t := (acknowledge "a" example_s2).2.

Lemma acked_never_redelivered_witness :
  d_task_id (mkDelivery "b" "q" JNull 1) ≠ "a".
Proof.
  eapply (acked_never_redelivered "a" example_s2 ack_example
            (exec (OEnqueue "q" JNull "b" 1) ack_example) "q" "w"); [decide_by_compute|..].
  - vm_compute. reflexivity.
  - eapply runs_step; [|apply runs_refl]. decide_by_compute.
  - vm_compute. reflexivity.
Defined.
