(* ===== verification/RetryPolicy.v ===== *)
(** * The retry policy

A failing task is delivered [max_retries] times and then buried.  Two
views of that promise: along any run without evictions no delivery exceeds
the budget and every dead task has spent exactly its budget; and the
concrete loop of a worker that always fails drives the task to the dead
letter queue in exactly the remaining number of attempts, without
disturbing the tasks behind it. *)

From S2P Require Import Prelude PyDict Json DeadLetter QueueManager QueueInvariant TaskConservation TaskLifecycle.

Import QM.

(** ** The budget along runs *)

(** Where a task may be, given how often it has been delivered. *)
Definition within_budget (r : Z) (x : Task) : Prop :=
  match lifecycle x with
  | Waiting _ n => (n < r)%Z
  | Running _ _ n => (n <= r)%Z
  | Completed => True
  | Dead _ n => n = r
  end.

(** Every operation except the eviction requeue and crash recovery, which keep
    a count the policy did not see. *)
Definition policy_op (o : Op) : Prop :=
  match o with ORequeueById _ | ORecover _ _ _ _ _ => False | _ => True end.

Definition budgeted (s : t) : Prop :=
  (1 <= max_retries s)%Z ∧ Forall (within_budget (max_retries s)) (all_tasks s).

Lemma exec_max_retries o s : max_retries (exec o s) = max_retries s.
Proof.
  assert (Hens : ∀ q s, max_retries (_ensure_queue q s) = max_retries s)
    by (intros q s'; unfold _ensure_queue; by destruct (dget _ _)).
  destruct o; cbn [exec].
  - cbn. apply Hens.
  - cbn. apply Hens.
  - unfold dequeue, dequeue_target. case_bool_decide.
    + destruct (first_nonempty (_queues s)) as [q|]; [|done].
      destruct (truthy_str q); [|done]. by destruct (queue_of q s).
    + case_bool_decide; [apply Hens|]. destruct (queue_of qn _); apply Hens.
  - unfold acknowledge. by destruct (dget tid (_in_flight s)).
  - unfold negative_acknowledge.
    destruct (nack_take_cases tid s) as [[_ ->]|(y&s1&_&->&_&E&_)]; [done|].
    unfold nack_route. case_bool_decide; cbn; [done|]. by rewrite Hens.
  - unfold requeue_by_id. destruct (dget tid (_in_flight s)); [|done]. cbn. by rewrite Hens.
  - destruct (dlq_retry_cases tid s) as [[_ ->]|(x&d&_&_&->)]; [done|]. apply Hens.
  - by destruct (dlq_remove_cases tid s) as [[_ ->]|(x&d&_&_&->)].
Qed.

(** The budget of the whole state depends only on the task that moved. *)
Lemma budget_move r s s' x y rest :
  all_tasks s ≡ₚ x :: rest → all_tasks s' ≡ₚ y :: rest →
  (within_budget r x → within_budget r y) →
  Forall (within_budget r) (all_tasks s) → Forall (within_budget r) (all_tasks s').
Proof. intros -> -> Hxy [Hx Hr]%Forall_cons. constructor; auto. Qed.

Lemma exec_budgeted o s :
  wf s → op_fresh o s → policy_op o → budgeted s → budgeted (exec o s).
Proof.
  intros H Hf Ho [Hr Hb]. split; [by rewrite exec_max_retries|]. rewrite exec_max_retries.
  pose proof H as [Hs _]. destruct o; cbn [exec] in *; try done.
  - rewrite enqueue_adds. constructor; [|done]. change (0 < max_retries s)%Z. lia.
  - destruct (dequeue_cases qn w s Hs) as [(s'&->&_&Ht)|(q&s1&x&rest&_&_&_&E)].
    + cbn. by rewrite Ht.
    + destruct (dequeue_moves _ _ _ _ _ H E) as (y&rest'&E1&E2&_&_&Hy).
      rewrite E. eapply budget_move; [exact E1|exact E2| |done].
      unfold within_budget. rewrite (lifecycle_pending _ _ Hy).
      change (attempts y < max_retries s → attempts y + 1 <= max_retries s)%Z. lia.
  - destruct (acknowledge tid s) as [[] s'] eqn:E; cbn [snd].
    + destruct (acknowledge_moves _ _ _ H E) as (x&rest&_&_&E1&E2).
      by eapply budget_move; [exact E1|exact E2| |].
    + unfold acknowledge in E. by destruct (dget tid (_in_flight s)); simplify_eq.
  - destruct (negative_acknowledge tid now s) as [[res|] s'] eqn:E; cbn [snd].
    + destruct (negative_acknowledge_moves _ _ _ _ _ H E) as (y&rest&_&_&Hfl&E1&E2).
      eapply budget_move; [exact E1|exact E2| |done]. unfold within_budget.
      destruct (lifecycle_flight _ Hfl) as (w&_&->). rewrite lifecycle_nacked by done.
      destruct (attempts y >=? max_retries s)%Z eqn:Ea; lia.
    + unfold negative_acknowledge in E.
      destruct (nack_take_cases tid s) as [[_ E']|(y&s1&_&E'&_)]; rewrite E' in E;
        [by simplify_eq|by destruct (nack_route _ _ _)].
  - destruct (dlq_retry_cases tid s) as [[_ ->]|(x&d&_&_&E)]; [done|].
    destruct (dlq_retry_moves _ _ _ Hs E) as (y&rest&_&_&E1&E2). rewrite E.
    eapply budget_move; [exact E1|exact E2| |done]. intros _. change (0 < max_retries s)%Z. lia.
  - destruct (dlq_remove_cases tid s) as [[_ ->]|(x&d&Ex&Ed&->)]; [done|]. cbn [snd].
    rewrite (tasks_del_dlq _ _ _ _ Ex Ed) in Hb. by apply Forall_cons in Hb as [_ ?].
Qed.

(** Runs of policy operations from a fresh queue manager. *)
Inductive policy_run (r : Z) : t → Prop :=
  | prun_init : policy_run r (init r)
  | prun_step s o : policy_run r s → op_fresh o s → policy_op o → policy_run r (exec o s).

Lemma policy_run_ok r s : (1 <= r)%Z → policy_run r s → wf s ∧ budgeted s ∧ max_retries s = r.
Proof.
  intros Hr. induction 1 as [|s o Hp (Hw&Hb&Hm) Hf Ho].
  - split_and!; [apply init_wf|by split|done].
  - split_and!; [by apply exec_wf|by apply exec_budgeted|by rewrite exec_max_retries].
Qed.

(** C16.  Along any run without evictions or recovery, starting from an empty
    manager: a delivery is at most the [r]-th of its task, and a task in the
    dead letter queue has been delivered exactly [r] times. *)
Theorem retry_budget_respected r s :
  (1 <= r)%Z → policy_run r s →
  (∀ qn w d s', dequeue qn w s = (Some d, s') → (1 <= d_attempts d <= r)%Z) ∧
  (∀ tid x, dget tid (DLQ._tasks (dead_letter_queue s)) = Some x → attempts x = r).
Proof.
  intros Hr Hp. destruct (policy_run_ok r s Hr Hp) as (Hw & [_ Hb] & Hm). rewrite Hm in Hb.
  split.
  - intros qn w d s' E. destruct (dequeue_moves _ _ _ _ _ Hw E) as (x&rest&E1&_&->&_&Hx).
    rewrite E1 in Hb. apply Forall_cons in Hb as [Hbx _]. unfold within_budget in Hbx.
    rewrite (lifecycle_pending _ _ Hx) in Hbx. destruct Hx as (_&_&_&?). cbn. lia.
  - intros tid x E. destruct (shape_dead_get _ _ _ (proj1 Hw) E) as [_ Hd].
    assert (x ∈ all_tasks s) as Hin.
    { unfold all_tasks. apply dvalues_ddel in E. rewrite E. set_solver. }
    rewrite Forall_forall in Hb. specialize (Hb x Hin). unfold within_budget in Hb.
    by rewrite (lifecycle_dead _ Hd) in Hb.
Qed.

Definition budget_example : t :=
  exec (ONack "a" 1) (exec (ODequeue "q" "w") (exec (OEnqueue "q" JNull "a" 0) (init 1))).

Lemma retry_budget_respected_witness :
  ∃ x, dget "a" (DLQ._tasks (dead_letter_queue budget_example)) = Some x ∧ attempts x = 1%Z.
Proof.
  eexists. split; [vm_compute; reflexivity|].
  assert (Hr : policy_run 1 budget_example).
  { repeat (apply prun_step; [|decide_by_compute|exact I]). apply prun_init. }
  apply (proj2 (retry_budget_respected 1 budget_example ltac:(lia) Hr) "a").
  vm_compute. reflexivity.
Defined.

(** ** A worker that always fails *)

Lemma ensure_present qn s x rest : queue_of qn s = x :: rest → _ensure_queue qn s = s.
Proof. unfold queue_of, _ensure_queue. by destruct (dget qn (_queues s)). Qed.

(** Consuming by name takes the head of that queue. *)
Lemma dequeue_named qn w s x rest :
  qn ≠ "*" → queue_of qn s = x :: rest →
  dequeue qn w s =
    (Some (delivery (deliver w x)),
     bump 0 1 0 0 0 (with_in_flight (dset (task_id x) (deliver w x))
       (with_queues (dset qn rest) s))).
Proof.
  intros Hqn E. unfold dequeue, dequeue_target.
  rewrite bool_decide_false by done. rewrite (ensure_present _ _ _ _ E), E. cbn. by rewrite E.
Qed.

(** One delivery followed by one failure. *)
Definition fail_once (qn w tid : string) (now : Q) (s : t) : t :=
  exec (ONack tid now) (exec (ODequeue qn w) s).

Fixpoint fail_times (n : nat) (qn w tid : string) (now : Q) (s : t) : t :=
  match n with
  | O => s
  | S n => fail_times n qn w tid now (fail_once qn w tid now s)
  end.

Lemma fail_once_wf qn w tid now s : wf s → wf (fail_once qn w tid now s).
Proof. intros H. by apply exec_wf; [apply exec_wf|]. Qed.

Lemma fail_once_max_retries qn w tid now s :
  max_retries (fail_once qn w tid now s) = max_retries s.
Proof. unfold fail_once. by rewrite !exec_max_retries. Qed.

(** A task set aside and put back differs only in its attempt count. *)
Lemma mark_pending_deliver q w x :
  pending_ok q x → mark_pending (deliver w x) = set_attempts (attempts x + 1) x.
Proof. intros (_&E1&E2&_). destruct x. cbn in *. by subst. Qed.

Lemma fail_once_cases qn w now s x rest :
  wf s → qn ≠ "*" → queue_of qn s = x :: rest →
  if (attempts x + 1 >=? max_retries s)%Z
  then queue_of qn (fail_once qn w (task_id x) now s) = rest ∧
       dget (task_id x) (DLQ._tasks (dead_letter_queue (fail_once qn w (task_id x) now s)))
         = Some (DLQ.dead_task now (set_status "dead_lettered" (deliver w x)))
  else queue_of qn (fail_once qn w (task_id x) now s) = set_attempts (attempts x + 1) x :: rest.
Proof.
  intros [Hs _] Hqn E.
  assert (Hx : pending_ok qn x) by (apply (shape_queue_in s); [done|rewrite E; left]).
  unfold fail_once. cbn [exec]. rewrite (dequeue_named _ w _ _ _ Hqn E). cbn [snd].
  unfold negative_acknowledge, nack_take. cbn [_in_flight bump with_in_flight].
  rewrite dget_dset_eq. cbn [attempts deliver set_attempts max_retries bump with_in_flight with_queues].
  destruct (attempts x + 1 >=? max_retries s)%Z.
  - unfold nack_route. rewrite bool_decide_true by done. cbn [snd].
    split; [|apply dget_dset_eq]. unfold queue_of. cbn. by rewrite dget_dset_eq.
  - unfold nack_route. rewrite bool_decide_false by done. cbn [snd].
    rewrite (mark_pending_deliver _ _ _ Hx). cbn [queue_name set_attempts].
    rewrite (proj1 Hx). unfold queue_appendleft. rewrite queue_of_dset, queue_of_ensure.
    unfold queue_of. cbn. by rewrite dget_dset_eq.
Qed.

Lemma fail_times_retry n qn w now s x rest :
  wf s → qn ≠ "*" → queue_of qn s = x :: rest → (attempts x + Z.of_nat n < max_retries s)%Z →
  wf (fail_times n qn w (task_id x) now s) ∧
  max_retries (fail_times n qn w (task_id x) now s) = max_retries s ∧
  queue_of qn (fail_times n qn w (task_id x) now s) = set_attempts (attempts x + Z.of_nat n) x :: rest.
Proof.
  revert s x. induction n as [|n IH]; intros s x H Hqn E Hn; cbn [fail_times].
  - split_and!; [done..|]. rewrite E.
    replace (attempts x + Z.of_nat 0)%Z with (attempts x) by lia. by destruct x.
  - pose proof (fail_once_cases qn w now s x rest H Hqn E) as Hc.
    destruct (attempts x + 1 >=? max_retries s)%Z eqn:Ea; [lia|].
    destruct (IH _ _ (fail_once_wf qn w (task_id x) now s H) Hqn Hc) as (?&Hm&Hq).
    { rewrite fail_once_max_retries. cbn. lia. }
    cbn [task_id set_attempts attempts] in *. rewrite fail_once_max_retries in Hm.
    split_and!; [done..|]. rewrite Hq.
    by replace (attempts x + Z.of_nat (S n))%Z with (attempts x + 1 + Z.of_nat n)%Z by lia.
Qed.

Lemma fail_times_add a b qn w tid now s :
  fail_times (a + b) qn w tid now s = fail_times b qn w tid now (fail_times a qn w tid now s).
Proof. revert s. induction a as [|a IH]; intros s; cbn; [done|apply IH]. Qed.

(** C17.  A task at the head of a queue whose every delivery fails comes back to
    the front of the queue after each failure but the last, keeping its place
    before the tasks behind it, and is in the dead letter queue after exactly
    [max_retries - attempts] failures, with [max_retries] attempts recorded,
    leaving those behind it untouched. *)
Theorem always_failing_task_is_buried qn w now s x rest :
  wf s → qn ≠ "*" → queue_of qn s = x :: rest → (attempts x < max_retries s)%Z →
  let k := Z.to_nat (max_retries s - attempts x) in
  (∀ j, j < k → queue_of qn (fail_times j qn w (task_id x) now s)
                = set_attempts (attempts x + Z.of_nat j) x :: rest) ∧
  queue_of qn (fail_times k qn w (task_id x) now s) = rest ∧
  ∃ y, dget (task_id x) (DLQ._tasks (dead_letter_queue (fail_times k qn w (task_id x) now s))) = Some y
       ∧ attempts y = max_retries s ∧ payload y = payload x.
Proof.
  intros H Hqn E Ha k. split.
  - intros j Hj. apply (fail_times_retry j qn w now s x rest); [done..|lia].
  - assert (Hk : k = (k - 1) + 1) by lia. rewrite Hk, fail_times_add. cbn [fail_times].
    destruct (fail_times_retry (k - 1) qn w now s x rest) as (Hw&Hm&Hq); [done..|lia|].
    assert (Hz : (attempts x + Z.of_nat (k - 1) + 1 = max_retries s)%Z) by lia.
    pose proof (fail_once_cases qn w now _ _ _ Hw Hqn Hq) as Hc. rewrite Hm in Hc.
    cbn [task_id attempts set_attempts] in Hc. rewrite Hz in Hc.
    rewrite (proj2 (Z.geb_le _ _) (Z.le_refl _)) in Hc. destruct Hc as [-> Hd].
    split; [done|]. eexists. split; [exact Hd|]. split; [|done].
    exact Hz.
Qed.

Lemma always_failing_task_is_buried_witness :
  let s := exec (OEnqueue "q" JNull "b" 1) (exec (OEnqueue "q" (JInt 7) "a" 0) (init 3)) in
  queue_of "q" (fail_times 3 "q" "w" "a" 9 s) = [new_task "b" "q" JNull 1].
Proof.
  intros s.
  apply (always_failing_task_is_buried "q" "w" 9 s (new_task "a" "q" (JInt 7) 0)
           [new_task "b" "q" JNull 1]); [decide_by_compute|done|vm_compute; reflexivity|done].
Defined.
