(* ===== verification/QueueOrder.v ===== *)
(** * Delivery order

Each named queue is first-in first-out for producers and consumers, and
operations on one queue do not disturb another; the wildcard consume
serves queues in the order they were created. *)

From S2P Require Import Prelude PyDict Json DeadLetter QueueManager QueueInvariant TaskConservation TaskLifecycle RetryPolicy.

Import QM.

(** ** Operations on one queue, seen from any queue *)

Lemma queue_of_enqueue q qn p u now s :
  queue_of q (enqueue qn p u now s).2 =
    if decide (q = qn) then queue_of q s ++ [new_task u qn p now] else queue_of q s.
Proof.
  unfold enqueue. cbn [snd]. unfold queue_append.
  change (queue_of q (bump 1 0 0 0 0 ?x)) with (queue_of q x).
  case_decide as E; subst.
  - by rewrite queue_of_dset, queue_of_ensure.
  - by rewrite queue_of_dset_ne, queue_of_ensure_ne by congruence.
Qed.

Lemma queue_of_dequeue q qn w s x rest :
  qn ≠ "*" → queue_of qn s = x :: rest →
  queue_of q (dequeue qn w s).2 = if decide (q = qn) then rest else queue_of q s.
Proof.
  intros Hqn E. rewrite (dequeue_named _ w _ _ _ Hqn E). cbn [snd].
  change (queue_of q (bump 0 1 0 0 0 (with_in_flight ?f ?x))) with (queue_of q x).
  case_decide; subst; [apply queue_of_dset|]. by rewrite queue_of_dset_ne by congruence.
Qed.

(** ** Batches *)

(** A producer that submits a list of (identifier, payload) pairs. *)
Fixpoint enqueue_all (qn : string) (l : list (string * Json)) (now : Q) (s : t) : t :=
  match l with
  | [] => s
  | (u, p) :: l => enqueue_all qn l now (enqueue qn p u now s).2
  end.

(** A consumer that polls [n] times and keeps what it gets. *)
Fixpoint dequeue_n (n : nat) (qn w : string) (s : t) : list Delivery * t :=
  match n with
  | O => ([], s)
  | S n =>
      let '(o, s) := dequeue qn w s in
      let '(ds, s) := dequeue_n n qn w s in
      (match o with Some d => d :: ds | None => ds end, s)
  end.

Lemma enqueue_all_queue q qn l now s :
  queue_of q (enqueue_all qn l now s) =
    queue_of q s ++ (if decide (q = qn) then (λ '(u, p), new_task u qn p now) <$> l else []).
Proof.
  revert s. induction l as [|[u p] l IH]; intros s; cbn [enqueue_all].
  - case_decide; by rewrite app_nil_r.
  - rewrite IH, queue_of_enqueue. case_decide; [|done]. by rewrite <- app_assoc.
Qed.

Lemma dequeue_n_queue qn w s l rest :
  qn ≠ "*" → queue_of qn s = l ++ rest →
  (dequeue_n (length l) qn w s).1 = delivery ∘ deliver w <$> l ∧
  ∀ q, queue_of q (dequeue_n (length l) qn w s).2 =
       if decide (q = qn) then rest else queue_of q s.
Proof.
  intros Hqn. revert s. induction l as [|x l IH]; intros s E; cbn [length dequeue_n].
  - split; [done|]. intros q. by case_decide; subst.
  - pose proof (queue_of_dequeue qn qn w s x (l ++ rest) Hqn E) as Hq.
    rewrite decide_True in Hq by done.
    pose proof (λ q, queue_of_dequeue q qn w s x (l ++ rest) Hqn E) as Hqs.
    rewrite (dequeue_named _ w _ _ _ Hqn E) in Hq, Hqs |- *. cbn [snd] in *.
    destruct (IH _ Hq) as [H1 H2].
    destruct (dequeue_n _ _ _ _) as [ds s']. cbn in *. split; [by rewrite H1|].
    intros q. rewrite H2. case_decide; [done|]. by rewrite Hqs, decide_False.
Qed.

(** C21.  First in, first out: a consumer draining a queue receives the tasks that
    were already there followed by a producer's batch, in submission order,
    each marked as delivered to it once more; the queue is then empty and no
    other queue has changed. *)
Theorem fifo_delivery qn w l now s :
  qn ≠ "*" →
  let n := length (queue_of qn s) + length l in
  let '(ds, s') := dequeue_n n qn w (enqueue_all qn l now s) in
  ds = delivery ∘ deliver w <$> (queue_of qn s ++ ((λ '(u, p), new_task u qn p now) <$> l)) ∧
  queue_of qn s' = [] ∧ (∀ q, q ≠ qn → queue_of q s' = queue_of q s).
Proof.
  intros Hqn n. pose proof (enqueue_all_queue qn qn l now s) as Hq.
  rewrite decide_True in Hq by done. rewrite <- (app_nil_r (_ ++ _)) in Hq.
  destruct (dequeue_n_queue qn w _ _ _ Hqn Hq) as [H1 H2].
  rewrite length_app, length_fmap in H1, H2. fold n in H1, H2.
  destruct (dequeue_n _ _ _ _) as [ds s']. cbn [fst snd] in *. split_and!; [done|..].
  - rewrite H2. by rewrite decide_True.
  - intros q Hne. rewrite H2, decide_False, enqueue_all_queue, decide_False by done.
    by rewrite app_nil_r.
Qed.

Lemma fifo_delivery_witness :
  let s := exec (OEnqueue "q" (JInt 0) "z" 0) (init 3) in
  let l := [("a", JInt 1); ("b", JInt 2)] in
  let '(ds, s') := dequeue_n (length (queue_of "q" s) + length l) "q" "w" (enqueue_all "q" l 0 s) in
  ds = delivery ∘ deliver "w" <$> (queue_of "q" s ++ ((λ '(u, p), new_task u "q" p 0) <$> l)) ∧
  queue_of "q" s' = [] ∧ (∀ q, q ≠ "q" → queue_of q s' = queue_of q s).
Proof. intros s l. apply (fifo_delivery "q" "w" l 0 s). done. Defined.

(** ** The wildcard *)

(** [dequeue("*")] delivers the head of the first non-empty queue in
    creation order: every queue created before it is empty.  It reports
    nothing exactly when all queues are empty, or when that first queue has
    the empty name. *)
Theorem wildcard_serves_oldest_queue w s :
  shape s →
  match dequeue "*" w s with
  | (Some d, _) => ∃ before q x rest after,
      _queues s = before ++ (q, x :: rest) :: after ∧ Forall (λ p, p.2 = []) before ∧
      d = delivery (deliver w x)
  | (None, s') => s' = s ∧
      (Forall (λ p, p.2 = []) (_queues s) ∨
       ∃ before x rest after,
         _queues s = before ++ ("", x :: rest) :: after ∧ Forall (λ p, p.2 = []) before)
  end.
Proof.
  intros Hs.
  assert (Hscan : ∀ d : dict string (list Task),
    match first_nonempty d with
    | Some q => ∃ before x rest after,
        d = before ++ (q, x :: rest) :: after ∧ Forall (λ p, p.2 = []) before
    | None => Forall (λ p, p.2 = []) d
    end).
  { induction d as [|[q l] d IH]; cbn; [done|]. case_bool_decide as E; subst.
    - destruct (first_nonempty d); [|by constructor].
      destruct IH as (b&x&r&a&->&Hb). exists ((q, []) :: b), x, r, a. split; [done|by constructor].
    - destruct l as [|x r]; [done|]. by exists [], x, r, d. }
  specialize (Hscan (_queues s)). pose proof (first_nonempty_spec (_queues s)) as Hspec.
  unfold dequeue, dequeue_target. rewrite bool_decide_true by done.
  destruct (first_nonempty (_queues s)) as [q|]; [|by split; [|left]].
  destruct Hscan as (b&x&r&a&Hq&Hb).
  assert (Hof : queue_of q s = x :: r).
  { unfold queue_of. rewrite (dget_in _ _ (x :: r)); [done|apply Hs|].
    rewrite Hq. set_solver. }
  destruct (truthy_str q) eqn:Et.
  - rewrite Hof. by exists b, q, x, r, a.
  - split; [done|right]. unfold truthy_str in Et. case_bool_decide; [subst|done].
    by exists b, x, r, a.
Qed.

Lemma wildcard_serves_oldest_queue_witness :
  let s := exec (OEnqueue "late" JNull "b" 1) (exec (OEnqueue "early" JNull "a" 0) (init 3)) in
  match dequeue "*" "w" s with
  | (Some d, _) => ∃ before q x rest after,
      _queues s = before ++ (q, x :: rest) :: after ∧ Forall (λ p, p.2 = []) before ∧
      d = delivery (deliver "w" x)
  | (None, s') => s' = s ∧
      (Forall (λ p, p.2 = []) (_queues s) ∨
       ∃ before x rest after,
         _queues s = before ++ ("", x :: rest) :: after ∧ Forall (λ p, p.2 = []) before)
  end.
Proof. intros s. apply wildcard_serves_oldest_queue. decide_by_compute. Defined.
