(* ===== verification/WorkerRegistry.v ===== *)
(** * Worker registry ([broker/worker_registry.py])

Which workers are connected, when each was last heard of, which tasks it
is processing, and the sliding windows of completion latencies.  Eviction
hands the tasks of a dead worker back to the queue manager through the
interface [TaskReassigner]; its guarantees are proved against the
interface, and the instance for the queue manager is at the end.

A worker's [in_flight_tasks] is a Python [set]: eviction iterates it in an
order the language leaves open, so that order is a parameter constrained
only to enumerate the set.  The stream writer of a worker is represented
by the number of its connection. *)

From S2P Require Import Prelude PyDict Json DeadLetter QueueManager QueueInvariant.

(** What the registry needs of the queue manager: [requeue_by_id] on a state
    satisfying [reassign_ok], seen through the set of in-flight tasks. *)
Class TaskReassigner (QS : Type) := {
  reassign : string → QS → bool * QS;
  reassign_ok : QS → Prop;
  running_tasks : QS → list string;
  reassign_preserves : ∀ tid s, reassign_ok s → reassign_ok (reassign tid s).2;
  reassign_result : ∀ tid s, (reassign tid s).1 = bool_decide (tid ∈ running_tasks s);
  reassign_running : ∀ tid x s, reassign_ok s →
    x ∈ running_tasks (reassign tid s).2 ↔ x ∈ running_tasks s ∧ x ≠ tid;
}.

Module Registry.

Definition HEARTBEAT_TIMEOUT_SECONDS : Q := 6.

(** Seconds between two sweeps of the eviction loop. *)
Definition EVICTION_INTERVAL : Q := 2.

Record WorkerInfo := mkWorker {
  worker_id : string;
  queues : list string;
  address : string * Z;
  registered_at : Q;
  last_heartbeat : Q;
  in_flight_tasks : gset string;
  task_start_times : dict string Q;
  writer : option nat;
  w_status : string;
}.

Record t := mk {
  _workers : dict string WorkerInfo;
  _running : bool;
  _queue_latencies : dict string (list Q);
  _total_evictions : Z;
  _total_tasks_reassigned : Z;
}.

Definition init : t := mk [] false [] 0 0.

Definition with_workers (f : dict string WorkerInfo → dict string WorkerInfo) (r : t) : t :=
  mk (f (_workers r)) (_running r) (_queue_latencies r) (_total_evictions r)
     (_total_tasks_reassigned r).

Definition with_latencies (f : dict string (list Q) → dict string (list Q)) (r : t) : t :=
  mk (_workers r) (_running r) (f (_queue_latencies r)) (_total_evictions r)
     (_total_tasks_reassigned r).

(** ** Registration and heartbeats *)

(** [now1] and [now2] are the two readings of [time.time()]. *)
Definition register (wid : string) (addr : string * Z) (qs : list string) (wr : option nat)
    (now1 now2 : Q) (r : t) : bool * t :=
  let is_new := match dget wid (_workers r) with None => true | Some _ => false end in
  (is_new, with_workers (dset wid (mkWorker wid qs addr now1 now2 ∅ [] wr "active")) r).

Definition unregister (wid : string) (r : t) : bool * t :=
  match dget wid (_workers r) with
  | None => (false, r)
  | Some _ => (true, with_workers (ddel wid) r)
  end.

Definition beat (now : Q) (i : WorkerInfo) : WorkerInfo :=
  mkWorker (worker_id i) (queues i) (address i) (registered_at i) now
    (in_flight_tasks i) (task_start_times i) (writer i) "active".

Definition record_heartbeat (wid : string) (now : Q) (r : t) : bool * t :=
  match dget wid (_workers r) with
  | None => (false, r)
  | Some i => (true, with_workers (dset wid (beat now i)) r)
  end.

(** ** Task tracking *)

Definition track (tid : string) (mono : Q) (i : WorkerInfo) : WorkerInfo :=
  mkWorker (worker_id i) (queues i) (address i) (registered_at i) (last_heartbeat i)
    ({[tid]} ∪ in_flight_tasks i) (dset tid mono (task_start_times i)) (writer i) (w_status i).

Definition untrack (tid : string) (i : WorkerInfo) : WorkerInfo :=
  mkWorker (worker_id i) (queues i) (address i) (registered_at i) (last_heartbeat i)
    (in_flight_tasks i ∖ {[tid]}) (ddel tid (task_start_times i)) (writer i) (w_status i).

Definition assign_task (wid tid : string) (mono : Q) (r : t) : t :=
  match dget wid (_workers r) with
  | None => r
  | Some i => with_workers (dset wid (track tid mono i)) r
  end.

Definition LATENCY_WINDOW : nat := 100.

Definition _record_latency (qn : string) (ms : Q) (r : t) : t :=
  let r := match dget qn (_queue_latencies r) with
           | None => with_latencies (dset qn []) r
           | Some _ => r
           end in
  with_latencies
    (dset qn (deque_append_max LATENCY_WINDOW (default [] (dget qn (_queue_latencies r))) ms)) r.

(** [for queue_name in worker.queues: self._record_latency(queue_name, ms)] *)
Fixpoint record_latencies (qs : list string) (ms : Q) (r : t) : t :=
  match qs with
  | [] => r
  | qn :: qs => record_latencies qs ms (_record_latency qn ms r)
  end.

Definition complete_task (wid tid : string) (mono : Q) (r : t) : t :=
  match dget wid (_workers r) with
  | None => r
  | Some i =>
      let start := dget tid (task_start_times i) in
      let r := with_workers (dset wid (untrack tid i)) r in
      match start with
      | None => r
      | Some t0 => record_latencies (queues i) ((mono - t0) * 1000)%Q r
      end
  end.

(** ** Latency *)

Fixpoint qsum (l : list Q) : Q := match l with [] => 0 | x :: l => x + qsum l end%Q.

Definition average_latency_ms (qn : string) (r : t) : Q :=
  match default [] (dget qn (_queue_latencies r)) with
  | [] => 0
  | samples => (qsum samples / inject_Z (Z.of_nat (length samples)))%Q
  end.

(** ** Eviction *)

Definition is_dead (now : Q) (i : WorkerInfo) : bool :=
  Qltb HEARTBEAT_TIMEOUT_SECONDS (now - last_heartbeat i).

(** [dead_workers]: the pairs the first loop collects, in registry order. *)
Definition dead_workers (now : Q) (ws : dict string WorkerInfo) : dict string WorkerInfo :=
  filter (λ p, is_dead now p.2 = true) ws.

(** [for wid, _ in dead_workers: del self._workers[wid]] *)
Fixpoint del_workers (dead ws : dict string WorkerInfo) : dict string WorkerInfo :=
  match dead with
  | [] => ws
  | (wid, _) :: dead => del_workers dead (ddel wid ws)
  end.

Definition bump_reassigned (r : t) : t :=
  mk (_workers r) (_running r) (_queue_latencies r) (_total_evictions r)
     (_total_tasks_reassigned r + 1).

Definition bump_evictions (r : t) : t :=
  mk (_workers r) (_running r) (_queue_latencies r) (_total_evictions r + 1)
     (_total_tasks_reassigned r).

Section eviction.
  Context {QS : Type} `{!TaskReassigner QS}.

(** The order in which Python iterates each worker's task set. *)
Context (iter : WorkerInfo → list string).

Fixpoint reassign_all (tids : list string) (r : t) (qm : QS) : t * QS :=
  match tids with
  | [] => (r, qm)
  | tid :: tids =>
      let '(ok, qm) := reassign tid qm in
      reassign_all tids (if ok : bool then bump_reassigned r else r) qm
  end.

(** The second loop, outside the lock.  [None] is a registry built without a
    queue manager. *)
Fixpoint evict_each (dead : dict string WorkerInfo) (r : t) (qm : option QS) : t * option QS :=
  match dead with
  | [] => (r, qm)
  | (_, i) :: dead =>
      let '(r, qm) :=
        match qm with
        | Some q => let '(r, q) := reassign_all (iter i) r q in (r, Some q)
        | None => (r, None)
        end in
      evict_each dead (bump_evictions r) qm
  end.

Definition evict_dead_workers (now : Q) (r : t) (qm : option QS) : t * option QS :=
  let dead := dead_workers now (_workers r) in
  evict_each dead (with_workers (del_workers dead) r) qm.

(** [start_eviction_loop] for [n] rounds with nothing else running: sleep,
    re-check the flag, sweep. *)
Definition set_running (b : bool) (r : t) : t :=
  mk (_workers r) b (_queue_latencies r) (_total_evictions r) (_total_tasks_reassigned r).

Fixpoint eviction_rounds (n : nat) (clock : Q) (r : t) (qm : option QS) : t * option QS :=
  match n with
  | O => (r, qm)
  | S n =>
      if _running r then
        let clock := (clock + EVICTION_INTERVAL)%Q in
        let '(r, qm) := evict_dead_workers clock r qm in
        eviction_rounds n clock r qm
      else (r, qm)
  end.

Definition start_eviction_loop (n : nat) (clock : Q) (r : t) (qm : option QS) : t * option QS :=
  eviction_rounds n clock (set_running true r) qm.
End eviction.

Definition stop_eviction_loop (r : t) : t := set_running false r.

(** ** Inspection *)

Definition get_worker (wid : string) (r : t) : option WorkerInfo := dget wid (_workers r).

Definition get_active_workers (r : t) : list WorkerInfo :=
  filter (λ i, w_status i = "active") (dvalues (_workers r)).

Definition get_worker_count (r : t) : nat := length (_workers r).

Definition get_stats (r : t) : Json :=
  JObj [("total_workers", JInt (Z.of_nat (length (_workers r))));
        ("active_workers", JInt (Z.of_nat (length (get_active_workers r))));
        ("total_evictions", JInt (_total_evictions r));
        ("total_tasks_reassigned", JInt (_total_tasks_reassigned r));
        ("queue_latencies",
           JObj ((λ p, (p.1, JObj [("average_ms", JFloat (average_latency_ms p.1 r));
                                   ("sample_count", JInt (Z.of_nat (length p.2)))]))
                 <$> _queue_latencies r));
        ("workers",
           JObj ((λ p, (p.1, JObj [("status", JStr (w_status p.2));
                                   ("queues", JArr (JStr <$> queues p.2));
                                   ("last_heartbeat", JFloat (last_heartbeat p.2));
                                   ("in_flight_tasks",
                                      JInt (Z.of_nat (size (in_flight_tasks p.2))))]))
                 <$> _workers r))].
End Registry.
