(* ===== verification/Eviction.v ===== *)
(** * Heartbeat eviction

The eviction sweep removes exactly the workers that have been silent for
more than the timeout, and gives back exactly their running tasks; a
silent worker is detected within one sweep interval of its deadline.  The
registry's side is proved against [TaskReassigner]; the queue manager's
instance turns it into a statement about task life cycles. *)

From S2P Require Import Prelude PyDict Json DeadLetter QueueManager QueueInvariant TaskConservation TaskLifecycle WorkerRegistry.

Import Registry.

(** ** Which workers go *)

Lemma del_workers_get dead ws wid :
  dict_wf ws →
  dget wid (del_workers dead ws) = if decide (wid ∈ dkeys dead) then None else dget wid ws.
Proof.
  unfold dkeys. revert ws. induction dead as [|[k i] dead IH]; intros ws Hw; cbn.
  - rewrite decide_False; [done|]. apply not_elem_of_nil.
  - rewrite IH by (by apply ddel_wf).
    destruct (decide (wid = k)) as [->|Hne].
    + rewrite (decide_True (P := k ∈ k :: dead.*1)) by set_solver.
      case_decide; [done|]. by apply dget_ddel_eq.
    + rewrite dget_ddel_ne by congruence.
      destruct (decide (wid ∈ dead.*1)), (decide (wid ∈ k :: dead.*1)); set_solver.
Qed.

Lemma del_workers_wf dead ws : dict_wf ws → dict_wf (del_workers dead ws).
Proof. revert ws. induction dead as [|[k i] dead IH]; intros ws Hw; cbn; auto with distrosync. Qed.

Lemma dead_workers_key now ws wid :
  dict_wf ws →
  wid ∈ dkeys (dead_workers now ws) ↔ ∃ i, dget wid ws = Some i ∧ is_dead now i = true.
Proof.
  intros Hw. unfold dkeys, dead_workers. rewrite list_elem_of_fmap. split.
  - intros ([k i]&->&[Hd Hin]%list_elem_of_filter). exists i. split; [|done]. by apply dget_in.
  - intros (i&Hg&Hd). exists (wid, i). split; [done|].
    apply list_elem_of_filter. split; [done|]. by apply dget_Some_in.
Qed.

(** What a sweep leaves of each worker. *)
Lemma swept_worker now ws wid :
  dict_wf ws →
  dget wid (del_workers (dead_workers now ws) ws) =
    match dget wid ws with
    | Some i => if Qltb 6 (now - last_heartbeat i) then None else Some i
    | None => None
    end.
Proof.
  intros Hw. rewrite del_workers_get by done. pose proof (dead_workers_key now _ wid Hw) as Hk.
  destruct (dget wid ws) as [i|]; [|by case_decide].
  change (Qltb 6 (now - last_heartbeat i)) with (is_dead now i).
  destruct (is_dead now i) eqn:Ed; case_decide as Hin; try done.
  - destruct Hin. apply Hk. eauto.
  - apply Hk in Hin as (i'&[= <-]&?). congruence.
Qed.

Section interface.
  Context {QS : Type} `{!TaskReassigner QS} (iter : WorkerInfo → list string).

Lemma reassign_all_workers tids r (qm : QS) :
  _workers (reassign_all tids r qm).1 = _workers r ∧
  _total_evictions (reassign_all tids r qm).1 = _total_evictions r ∧
  _queue_latencies (reassign_all tids r qm).1 = _queue_latencies r ∧
  _running (reassign_all tids r qm).1 = _running r.
Proof.
  revert r qm. induction tids as [|tid tids IH]; intros r qm; cbn; [done|].
  destruct (reassign tid qm) as [ok qm']. destruct (IH (if ok then bump_reassigned r else r) qm')
    as (->&->&->&->). by destruct ok.
Qed.

Lemma reassign_all_tasks tids r (qm : QS) :
  reassign_ok qm →
  reassign_ok (reassign_all tids r qm).2 ∧
  ∀ x, x ∈ running_tasks (reassign_all tids r qm).2 ↔ x ∈ running_tasks qm ∧ x ∉ tids.
Proof.
  revert r qm. induction tids as [|tid tids IH]; intros r qm Hok; cbn.
  - split; [done|]. intros x. split; [|tauto]. intros. split; [done|apply not_elem_of_nil].
  - pose proof (reassign_preserves tid qm Hok) as Hok'.
    pose proof (λ x, reassign_running tid x qm Hok) as Hrun.
    destruct (reassign tid qm) as [ok qm']. cbn in *.
    destruct (IH (if ok then bump_reassigned r else r) qm' Hok') as [H1 H2].
    split; [done|]. intros x. rewrite H2, Hrun, not_elem_of_cons. tauto.
Qed.

Lemma evict_each_spec dead r (qm : QS) :
  reassign_ok qm →
  let '(r', o) := evict_each iter dead r (Some qm) in
  _workers r' = _workers r ∧ _running r' = _running r ∧
  _total_evictions r' = (_total_evictions r + Z.of_nat (length dead))%Z ∧
  ∃ qm', o = Some qm' ∧ reassign_ok qm' ∧
    ∀ x, x ∈ running_tasks qm' ↔
         x ∈ running_tasks qm ∧ Forall (λ p, x ∉ iter p.2) dead.
Proof.
  revert r qm. induction dead as [|[k i] dead IH]; intros r qm Hok; cbn.
  - split_and!; [done..|lia|]. exists qm. split_and!; [done..|]. intros x.
    split; [|tauto]. intros. split; [done|constructor].
  - pose proof (reassign_all_workers (iter i) r qm) as (Hw&He&_&Hr).
    pose proof (reassign_all_tasks (iter i) r qm Hok) as (Hok'&Hrun).
    destruct (reassign_all (iter i) r qm) as [r1 qm1]. cbn in *.
    specialize (IH (bump_evictions r1) qm1 Hok').
    destruct (evict_each iter dead (bump_evictions r1) (Some qm1)) as [r' o].
    destruct IH as (Hw'&Hr'&He'&qm'&->&?&Hrun'). cbn in *.
    split_and!; [congruence..|lia|]. exists qm'. split_and!; [done..|].
    intros x. rewrite Hrun', Hrun, Forall_cons. cbn. tauto.
Qed.
End interface.

(** One sweep at time [now], for any queue manager that implements
    [TaskReassigner] and any iteration order of the workers' task sets:
    exactly the workers silent for more than six seconds leave the registry
    and are counted as evictions; and exactly the running tasks those workers
    were tracked with stop running. *)
Theorem eviction_sweep {QS} `{!TaskReassigner QS} iter now r (qm : QS) :
  dict_wf (_workers r) → reassign_ok qm →
  (∀ wid i, get_worker wid r = Some i → iter i ≡ₚ elements (in_flight_tasks i)) →
  let '(r', o) := evict_dead_workers iter now r (Some qm) in
  (∀ wid, get_worker wid r' =
     match get_worker wid r with
     | Some i => if Qltb 6 (now - last_heartbeat i) then None else Some i
     | None => None
     end) ∧
  _total_evictions r' =
    (_total_evictions r + Z.of_nat (length (dead_workers now (_workers r))))%Z ∧
  ∃ qm', o = Some qm' ∧ reassign_ok qm' ∧
    ∀ x, x ∈ running_tasks qm' ↔
      x ∈ running_tasks qm ∧
      ¬ ∃ wid i, get_worker wid r = Some i ∧ (6 < now - last_heartbeat i)%Q ∧ x ∈ in_flight_tasks i.
Proof.
  intros Hw Hok Hiter. unfold evict_dead_workers.
  pose proof (evict_each_spec iter (dead_workers now (_workers r))
    (with_workers (del_workers (dead_workers now (_workers r))) r) qm Hok) as H.
  destruct (evict_each _ _ _ _) as [r' o]. destruct H as (Hws&_&He&qm'&->&Hok'&Hrun).
  split_and!; [|exact He|].
  - intros wid. unfold get_worker. rewrite Hws. by apply swept_worker.
  - exists qm'. split_and!; [done..|]. intros x. rewrite Hrun. apply and_iff_compat_l.
    rewrite Forall_forall. unfold dead_workers. split.
    + intros Hall (wid&i&Hg&Hd&Hx). apply (Hall (wid, i)).
      * apply list_elem_of_filter. split; [by apply Qltb_lt|by apply dget_Some_in].
      * cbn. rewrite (Hiter _ _ Hg). by apply elem_of_elements.
    + intros Hno [wid i] [Hd Hin]%list_elem_of_filter Hx. cbn in *. apply Hno.
      apply dget_in in Hin; [|done]. exists wid, i. split_and!; [done|by apply Qltb_lt|].
      rewrite (Hiter _ _ Hin) in Hx. by apply elem_of_elements.
Qed.

(** ** The queue manager's side *)

Lemma requeue_by_id_flight tid s :
  QM._in_flight (QM.requeue_by_id tid s).2 = ddel tid (QM._in_flight s).
Proof.
  unfold QM.requeue_by_id. destruct (dget tid (QM._in_flight s)) as [x|] eqn:E; cbn.
  - unfold QM._ensure_queue. cbn. by destruct (dget (queue_name x) (QM._queues s)).
  - by rewrite ddel_notin by (by apply dget_None).
Qed.

#[export, refine] Instance queue_manager_reassigner : TaskReassigner QM.t := {|
  reassign := QM.requeue_by_id;
  reassign_ok := wf;
  running_tasks s := dkeys (QM._in_flight s);
|}.
Proof.
  - intros tid s H. by apply (exec_wf (ORequeueById tid)).
  - intros tid s. unfold QM.requeue_by_id. pose proof (dget_is_Some (QM._in_flight s) tid) as H.
    destruct (dget tid (QM._in_flight s)) eqn:E; symmetry.
    + apply bool_decide_eq_true. apply H. eauto.
    + apply bool_decide_eq_false. rewrite <- H. by intros [? ?].
  - intros tid x s [(_&Hw&_) _]. rewrite requeue_by_id_flight.
    rewrite <- !dget_is_Some. destruct (decide (x = tid)) as [->|Hne].
    + rewrite dget_ddel_eq by done. split; [by intros [? ?]|tauto].
    + rewrite dget_ddel_ne by congruence. tauto.
Defined.

Lemma view_elem s tid st :
  view s !! tid = Some st → ∃ x, x ∈ QM.all_tasks s ∧ task_id x = tid ∧ lifecycle x = st.
Proof.
  intros H%elem_of_list_to_map_2. apply list_elem_of_fmap in H as (x&[= -> ->]&?). eauto.
Qed.

(** Only in-flight tasks are running. *)
Lemma view_running s tid q w n :
  shape s → view s !! tid = Some (Running q w n) → is_Some (dget tid (QM._in_flight s)).
Proof.
  intros (_&_&_&_&Hq&Hf&Hc&Hd) (x&Hin&<-&Hl)%view_elem.
  unfold QM.all_tasks in Hin. rewrite !elem_of_app in Hin.
  destruct Hin as [Hin|[Hin|[Hin|Hin]]].
  - apply list_elem_of_In, in_concat in Hin as (l&Hl'%list_elem_of_In&Hx%list_elem_of_In).
    apply list_elem_of_fmap in Hl' as (p&->&Hp).
    rewrite Forall_forall in Hq. specialize (Hq _ Hp). rewrite Forall_forall in Hq.
    rewrite (lifecycle_pending _ _ (Hq _ Hx)) in Hl. done.
  - apply dget_is_Some. rewrite (entries_ok_keys _ _ Hf). apply list_elem_of_fmap. eauto.
  - apply list_elem_of_fmap in Hin as (p&->&Hp). unfold entries_ok in Hc.
    rewrite Forall_forall in Hc. destruct (Hc _ Hp) as [_ E]. unfold done_ok in E.
    unfold lifecycle in Hl. by rewrite E in Hl.
  - apply list_elem_of_fmap in Hin as (p&->&Hp). unfold entries_ok in Hd.
    rewrite Forall_forall in Hd. destruct (Hd _ Hp) as [_ E].
    by rewrite (lifecycle_dead _ E) in Hl.
Qed.

(** What eviction does to the state of one task. *)
Definition release (o : option TState) : option TState :=
  match o with Some (Running q _ n) => Some (Waiting q n) | o => o end.

Lemma requeue_by_id_view tid s x :
  wf s →
  view (QM.requeue_by_id tid s).2 !! x =
    if decide (x = tid) then release (view s !! x) else view s !! x.
Proof.
  intros H. pose proof (exec_wf (ORequeueById tid) s H I) as [_ Hn]. cbn [exec] in Hn.
  destruct (QM.requeue_by_id tid s) as [[] s'] eqn:E; cbn [snd] in *.
  - destruct (requeue_by_id_moves _ _ _ (proj1 H) E) as (y&rest&Hy&<-&E1&E2).
    destruct (moved_view _ _ _ _ _ H Hn E1 E2) as [Hl ->]; [done|].
    destruct (lifecycle_flight y) as (w&_&Hw); [by apply (shape_flight_get s (task_id y)); [apply H|]|].
    case_decide; subst.
    + by rewrite lookup_insert_eq, Hl, Hw.
    + by rewrite lookup_insert_ne by congruence.
  - unfold QM.requeue_by_id in E.
    destruct (dget tid (QM._in_flight s)) eqn:Ef; simplify_eq.
    case_decide; subst; [|done].
    destruct (view s' !! tid) as [[]|] eqn:Ev; try done.
    apply view_running in Ev as [? ?]; [congruence|apply H].
Qed.

Lemma reassign_all_view tids r (s : QM.t) x :
  wf s →
  view (reassign_all tids r s).2 !! x =
    if decide (x ∈ tids) then release (view s !! x) else view s !! x.
Proof.
  revert r s. induction tids as [|tid tids IH]; intros r s H; cbn.
  - rewrite decide_False; [done|apply not_elem_of_nil].
  - pose proof (reassign_preserves tid s H) as H'. pose proof (requeue_by_id_view tid s x H) as Hv.
    cbn in H', Hv. destruct (QM.requeue_by_id tid s) as [ok s']. cbn [fst snd] in *.
    rewrite IH by done. rewrite Hv.
    destruct (decide (x ∈ tids)), (decide (x = tid)) as [->|Hne].
    + rewrite decide_True by set_solver. by destruct (view s !! tid) as [[]|].
    + by rewrite decide_True by set_solver.
    + by rewrite decide_True by set_solver.
    + by rewrite decide_False by set_solver.
Qed.

Lemma evict_each_view iter dead r (s : QM.t) :
  wf s →
  ∃ r' s', evict_each iter dead r (Some s) = (r', Some s') ∧ wf s' ∧
    ∀ x, view s' !! x =
      if decide (Exists (λ p, x ∈ iter p.2) dead) then release (view s !! x) else view s !! x.
Proof.
  revert r s. induction dead as [|[k i] dead IH]; intros r s H; cbn.
  - exists r, s. split_and!; [done..|]. intros x. rewrite decide_False; [done|].
    by intros ?%Exists_nil.
  - pose proof (reassign_all_tasks (iter i) r s H) as [H' _].
    pose proof (λ x, reassign_all_view (iter i) r s x H) as Hv.
    destruct (reassign_all (iter i) r s) as [r1 s1]. cbn [fst snd] in *.
    destruct (IH (bump_evictions r1) s1 H') as (r'&s'&->&?&Hv'). exists r', s'.
    split_and!; [done..|]. intros x. rewrite Hv', Hv.
    destruct (decide (x ∈ iter i)), (decide (Exists (λ p, x ∈ iter p.2) dead));
      destruct (decide (Exists _ ((k, i) :: dead))) as [He|He];
      rewrite Exists_cons in He; cbn in He; try tauto.
    by destruct (view s !! x) as [[]|].
Qed.

(** A sweep of the eviction loop over the queue manager keeps it
    well-formed, returns every task that was running and tracked by an
    evicted worker to its own queue with its attempt count unchanged, and
    changes the state of no other task. *)
Theorem eviction_requeues_tasks iter now r s :
  dict_wf (_workers r) → wf s →
  (∀ wid i, get_worker wid r = Some i → iter i ≡ₚ elements (in_flight_tasks i)) →
  ∃ r' s', evict_dead_workers iter now r (Some s) = (r', Some s') ∧ wf s' ∧
    ∀ tid,
      ((∃ wid i, get_worker wid r = Some i ∧ (6 < now - last_heartbeat i)%Q ∧
          tid ∈ in_flight_tasks i) →
       view s' !! tid = release (view s !! tid)) ∧
      ((¬ ∃ wid i, get_worker wid r = Some i ∧ (6 < now - last_heartbeat i)%Q ∧
          tid ∈ in_flight_tasks i) →
       view s' !! tid = view s !! tid).
Proof.
  intros Hw H Hiter. unfold evict_dead_workers.
  destruct (evict_each_view iter (dead_workers now (_workers r))
    (with_workers (del_workers (dead_workers now (_workers r))) r) s H) as (r'&s'&E&Hs'&Hv).
  exists r', s'. split_and!; [done..|]. intros tid. rewrite Hv.
  assert (Hex : Exists (λ p, tid ∈ iter p.2) (dead_workers now (_workers r)) ↔
    ∃ wid i, get_worker wid r = Some i ∧ (6 < now - last_heartbeat i)%Q ∧ tid ∈ in_flight_tasks i).
  { rewrite Exists_exists. unfold dead_workers. split.
    - intros ([wid i]&[Hd Hin]%list_elem_of_filter&Hx). apply dget_in in Hin; [|done].
      exists wid, i. split_and!; [done|by apply Qltb_lt|].
      cbn in Hx. rewrite (Hiter _ _ Hin) in Hx. by apply elem_of_elements.
    - intros (wid&i&Hg&Hd&Hx). exists (wid, i). split.
      + apply list_elem_of_filter. split; [by apply Qltb_lt|by apply dget_Some_in].
      + cbn. rewrite (Hiter _ _ Hg). by apply elem_of_elements. }
  case_decide as Hd; rewrite Hex in Hd; tauto.
Qed.

(** One worker, registered at time 0, processing the task of [example_s2]. *)
Definition registry_example : t :=
  assign_task "w" "a" 0 (register "w" ("host", 1%Z) ["q"] None 0 0 init).2.

Definition iter_elements (i : WorkerInfo) : list string := elements (in_flight_tasks i).

Lemma eviction_sweep_witness :
  let '(r', o) := evict_dead_workers iter_elements 7 registry_example (Some example_s2) in
  get_worker "w" r' =
    match get_worker "w" registry_example with
    | Some i => if Qltb 6 (7 - last_heartbeat i) then None else Some i
    | None => None
    end.
Proof.
  assert (Hw : dict_wf (_workers registry_example)) by decide_by_compute.
  assert (Hs : wf example_s2) by decide_by_compute.
  pose proof (eviction_sweep iter_elements 7 registry_example example_s2 Hw Hs
    ltac:(done)) as H.
  destruct (evict_dead_workers iter_elements 7 registry_example (Some example_s2)).
  apply (proj1 H).
Defined.

Lemma eviction_requeues_tasks_witness :
  ∃ r' s', evict_dead_workers iter_elements 7 registry_example (Some example_s2) = (r', Some s') ∧
    view s' !! "a" = Some (Waiting "q" 1).
Proof.
  assert (Hw : dict_wf (_workers registry_example)) by decide_by_compute.
  assert (Hs : wf example_s2) by decide_by_compute.
  destruct (eviction_requeues_tasks iter_elements 7 registry_example example_s2
    Hw Hs ltac:(done)) as (r'&s'&E&_&Hv).
  exists r', s'. split; [exact E|].
  etransitivity; [apply (proj1 (Hv "a"))|vm_compute; reflexivity].
  eexists "w", _. split_and!; [vm_compute; reflexivity|vm_compute; reflexivity|].
  refine (bool_decide_unpack _ _); vm_compute; exact I.
Defined.

(** ** How soon a silent worker is detected *)

Section detection.
  Context {QS : Type} `{!TaskReassigner QS} (iter : WorkerInfo → list string).

Lemma evict_dead_workers_facts now r (qm : QS) :
  dict_wf (_workers r) → reassign_ok qm →
  ∃ r' qm', evict_dead_workers iter now r (Some qm) = (r', Some qm') ∧
    dict_wf (_workers r') ∧ reassign_ok qm' ∧ _running r' = _running r ∧
    ∀ wid, get_worker wid r' =
      match get_worker wid r with
      | Some i => if Qltb 6 (now - last_heartbeat i) then None else Some i
      | None => None
      end.
Proof.
  intros Hw Hok. unfold evict_dead_workers.
  pose proof (evict_each_spec iter (dead_workers now (_workers r))
    (with_workers (del_workers (dead_workers now (_workers r))) r) qm Hok) as H.
  destruct (evict_each _ _ _ _) as [r' o]. destruct H as (Hws&Hr&_&qm'&->&Hok'&_).
  exists r', qm'. cbn in Hws. split_and!; [done|rewrite Hws; by apply del_workers_wf|done..|].
  intros wid. unfold get_worker. rewrite Hws. by apply swept_worker.
Qed.

Lemma eviction_rounds_worker n c r (qm : QS) wid i :
  dict_wf (_workers r) → reassign_ok qm → _running r = true → get_worker wid r = Some i →
  let r' := (eviction_rounds iter n c r (Some qm)).1 in
  ((c + 2 * inject_Z (Z.of_nat n) <= last_heartbeat i + 6)%Q → get_worker wid r' = Some i) ∧
  (0 < n → (last_heartbeat i + 6 < c + 2 * inject_Z (Z.of_nat n))%Q → get_worker wid r' = None).
Proof.
  revert c r qm. induction n as [|n IH]; intros c r qm Hw Hok Hrun Hi; cbn [eviction_rounds].
  { split; [done|lia]. }
  rewrite Hrun.
  destruct (evict_dead_workers_facts (c + EVICTION_INTERVAL) r qm Hw Hok)
    as (r1&qm1&->&Hw1&Hok1&Hrun1&Hg).
  assert (Hz : (inject_Z (Z.of_nat (S n)) == inject_Z (Z.of_nat n) + 1)%Q).
  { rewrite Nat2Z.inj_succ. unfold Z.succ. by rewrite inject_Z_plus. }
  assert (Hn : (0 <= inject_Z (Z.of_nat n))%Q).
  { change 0%Q with (inject_Z 0). rewrite <- Zle_Qle. lia. }
  rewrite Hrun in Hrun1. specialize (Hg wid). rewrite Hi in Hg.
  unfold EVICTION_INTERVAL in *.
  destruct (Qltb 6 (c + 2 - last_heartbeat i)) eqn:Ed; qreflect.
  - assert (Hnone : ∀ n c r (qm : QS), get_worker wid r = None → dict_wf (_workers r) →
      reassign_ok qm → get_worker wid (eviction_rounds iter n c r (Some qm)).1 = None).
    { clear. induction n as [|n IH]; intros c r qm Hg Hw Hok; cbn [eviction_rounds]; [done|].
      destruct (_running r); [|done].
      destruct (evict_dead_workers_facts (c + EVICTION_INTERVAL) r qm Hw Hok)
        as (r1&qm1&->&?&?&_&Hg'). apply IH; [|done..]. by rewrite Hg', Hg. }
    split; intros; [lra|]. by apply Hnone.
  - destruct (IH (c + 2)%Q r1 qm1 Hw1 Hok1 Hrun1 Hg) as [IH1 IH2]. split; intros H.
    + apply IH1. lra.
    + intros Hlt. destruct n as [|n].
      * change (inject_Z (Z.of_nat 1)) with 1%Q in Hlt. lra.
      * apply IH2; [lia|lra].
Qed.
End detection.

(** C29.  Detection time: a worker whose last heartbeat was at [h], silent from
    then on, is still registered after every sweep up to [h + 6] and gone
    after some sweep at or before [h + 8], whatever the phase of the loop
    (started at [c], sweeping every two seconds). *)
Theorem dead_worker_detected_in_time {QS} `{!TaskReassigner QS} iter c r (qm : QS) wid i :
  dict_wf (_workers r) → reassign_ok qm → get_worker wid r = Some i →
  (c <= last_heartbeat i + 6)%Q →
  ∃ n, (last_heartbeat i + 6 < c + 2 * inject_Z (Z.of_nat n) <= last_heartbeat i + 8)%Q ∧
    get_worker wid (start_eviction_loop iter n c r (Some qm)).1 = None ∧
    ∀ m, m < n → get_worker wid (start_eviction_loop iter m c r (Some qm)).1 = Some i.
Proof.
  intros Hw Hok Hi Hc. set (q := ((last_heartbeat i + 6 - c) / 2)%Q).
  assert (Hq : (0 <= q)%Q) by (apply Qle_shift_div_l; lra).
  assert (H2q : (2 * q == last_heartbeat i + 6 - c)%Q) by (unfold q; field).
  pose proof (Qfloor_le q) as Hf1. pose proof (Qlt_floor q) as Hf2.
  assert (Hf0 : (0 <= Qfloor q)%Z).
  { change 0%Z with (Qfloor 0). by apply Qfloor_resp_le. }
  exists (Z.to_nat (Qfloor q + 1)).
  assert (Hz : inject_Z (Z.of_nat (Z.to_nat (Qfloor q + 1))) = inject_Z (Qfloor q + 1)).
  { f_equal. lia. }
  rewrite Hz. rewrite inject_Z_plus in *. change (inject_Z 1) with 1%Q in *.
  assert (Hr : ∀ n, start_eviction_loop iter n c r (Some qm)
                    = eviction_rounds iter n c (set_running true r) (Some qm)) by done.
  split_and!; [lra|lra|..].
  - rewrite Hr. refine (proj2 (eviction_rounds_worker iter _ c (set_running true r) qm wid i
      Hw Hok eq_refl Hi) _ _); [lia|]. rewrite Hz. lra.
  - intros m Hm. rewrite Hr. refine (proj1 (eviction_rounds_worker iter _ c (set_running true r) qm
      wid i Hw Hok eq_refl Hi) _).
    assert (inject_Z (Z.of_nat m) <= inject_Z (Qfloor q))%Q by (rewrite <- Zle_Qle; lia). lra.
Qed.

Lemma dead_worker_detected_in_time_witness :
  ∃ n, (6 < 1 + 2 * inject_Z (Z.of_nat n) <= 8)%Q ∧
    get_worker "w" (start_eviction_loop iter_elements n 1 registry_example (Some example_s2)).1 = None.
Proof.
  destruct (dead_worker_detected_in_time iter_elements 1 registry_example example_s2 "w"
    (track "a" 0 (mkWorker "w" ["q"] ("host", 1%Z) 0 0 ∅ [] None "active"))) as (n&Hn&Hg&_).
  - decide_by_compute.
  - assert (Hs : wf example_s2) by decide_by_compute. exact Hs.
  - vm_compute. reflexivity.
  - cbn. lra.
  - exists n. split; [exact Hn|exact Hg].
Defined.
