(* ===== verification/LoadShedder.v ===== *)
(** * Adaptive load shedder ([broker/load_shedder.py])

One token bucket per queue, refilled at a rate that falls with the depth
of the queue and the latency of its workers.  The two signals come from
the queue manager and the registry through the interface [LoadSignals].
Time is the monotonic clock, in seconds, as an exact rational; each
reading is an argument. *)

From S2P Require Import Prelude PyDict Json.

(** What the shedder asks of the rest of the broker. *)
Class LoadSignals (Sys : Type) := {
  sig_depth : string → Sys → nat;
  sig_latency_ms : string → Sys → Q;
}.

Module Shedder.
  Local Open Scope Q_scope.

(** ** Token bucket *)

Record TokenBucket := mkBucket {
  capacity : Q;
  nominal_fill_rate : Q;
  tokens : Q;
  last_refill : Q;
}.

(** The dataclass constructor with [__post_init__]: a full bucket. *)
Definition new_bucket (cap rate now : Q) : TokenBucket := mkBucket cap rate cap now.

Definition refill (adjusted_rate now : Q) (b : TokenBucket) : TokenBucket :=
  let elapsed := now - last_refill b in
  mkBucket (capacity b) (nominal_fill_rate b)
    (py_min (capacity b) (tokens b + elapsed * adjusted_rate)) now.

Definition consume (b : TokenBucket) : bool * TokenBucket :=
  if Qle_bool 1 (tokens b)
  then (true, mkBucket (capacity b) (nominal_fill_rate b) (tokens b - 1) (last_refill b))
  else (false, b).

(** ** The shedder *)

(** The tuning attributes; [benchmarks/raw_throughput.py] overrides two. *)
Record Tuning := mkTuning {
  BASE_FILL_RATE : Q;
  MIN_FILL_RATE : Q;
  QUEUE_DEPTH_THRESHOLD : Z;
  LATENCY_THRESHOLD_MS : Q;
  BUCKET_CAPACITY : Q;
}.

Definition default_tuning : Tuning := mkTuning 100 5 50 200 200.

Record t := mk {
  tuning : Tuning;
  _buckets : dict string TokenBucket;
  _total_allowed : Z;
  _total_rejected : Z;
}.

Definition init : t := mk default_tuning [] 0 0.

Definition with_buckets (f : dict string TokenBucket → dict string TokenBucket) (s : t) : t :=
  mk (tuning s) (f (_buckets s)) (_total_allowed s) (_total_rejected s).

Definition _get_or_create_bucket (qn : string) (now : Q) (s : t) : TokenBucket * t :=
  match dget qn (_buckets s) with
  | Some b => (b, s)
  | None =>
      let b := new_bucket (BUCKET_CAPACITY (tuning s)) (BASE_FILL_RATE (tuning s)) now in
      (b, with_buckets (dset qn b) s)
  end.

Definition depth_factor (c : Tuning) (depth : Z) : Q :=
  if (depth <=? QUEUE_DEPTH_THRESHOLD c)%Z then 1
  else
    let excess := (depth - QUEUE_DEPTH_THRESHOLD c)%Z in
    let max_excess := (10 * QUEUE_DEPTH_THRESHOLD c)%Z in
    py_max (5 # 100) (1 - inject_Z excess / inject_Z max_excess).

Definition latency_factor (c : Tuning) (ms : Q) : Q :=
  if Qle_bool ms (LATENCY_THRESHOLD_MS c) then 1
  else
    let excess := ms - LATENCY_THRESHOLD_MS c in
    let max_excess := 10 * LATENCY_THRESHOLD_MS c in
    py_max (1 # 10) (1 - excess / max_excess).

Definition adjusted_rate (c : Tuning) (depth : Z) (ms : Q) : Q :=
  py_max (MIN_FILL_RATE c) (BASE_FILL_RATE c * depth_factor c depth * latency_factor c ms).

Section signals.
  Context {Sys : Type} `{!LoadSignals Sys}.

Definition _compute_adjusted_rate (qn : string) (sys : Sys) (s : t) : Q :=
  adjusted_rate (tuning s) (Z.of_nat (sig_depth qn sys)) (sig_latency_ms qn sys).

(** [now0] is read when the bucket is created, [now] when it is refilled. *)
Definition check_and_consume (qn : string) (sys : Sys) (now0 now : Q) (s : t) : (bool * Q) * t :=
  let '(b, s) := _get_or_create_bucket qn now0 s in
  let rate := _compute_adjusted_rate qn sys s in
  let '(allowed, b) := consume (refill rate now b) in
  let s := with_buckets (dset qn b) s in
  if allowed : bool
  then ((true, 0), mk (tuning s) (_buckets s) (_total_allowed s + 1) (_total_rejected s))
  else ((false, 1 / rate), mk (tuning s) (_buckets s) (_total_allowed s) (_total_rejected s + 1)).

Definition get_bucket_info (qn : string) (sys : Sys) (now : Q) (s : t) : Json * t :=
  match dget qn (_buckets s) with
  | None => (JObj [], s)
  | Some b =>
      let adjusted := _compute_adjusted_rate qn sys s in
      let b := refill adjusted now b in
      (JObj [("tokens", JFloat (py_round 2 (tokens b)));
             ("capacity", JFloat (capacity b));
             ("nominal_fill_rate", JFloat (nominal_fill_rate b));
             ("adjusted_fill_rate", JFloat (py_round 2 adjusted))],
       with_buckets (dset qn b) s)
  end.

(** [get_stats] refills every bucket while it lists them. *)
Definition refill_all (sys : Sys) (now : Q) (s : t) : t :=
  with_buckets
    (fmap (λ p, (p.1, refill (_compute_adjusted_rate p.1 sys s) now p.2))) s.

Definition bucket_json (sys : Sys) (s : t) (p : string * TokenBucket) : string * Json :=
  (p.1, JObj [("tokens", JFloat (py_round 2 (tokens p.2)));
              ("capacity", JFloat (capacity p.2));
              ("adjusted_rate", JFloat (py_round 2 (_compute_adjusted_rate p.1 sys s)))]).

Definition get_stats (sys : Sys) (now : Q) (s : t) : Json * t :=
  let s := refill_all sys now s in
  (JObj [("total_allowed", JInt (_total_allowed s));
         ("total_rejected", JInt (_total_rejected s));
         ("rejection_rate",
            JFloat (inject_Z (_total_rejected s)
                    / inject_Z (Z.max 1 (_total_allowed s + _total_rejected s))));
         ("buckets", JObj (bucket_json sys s <$> _buckets s))],
   s).
End signals.

(** ** Tuning in range *)

Definition tuning_ok (c : Tuning) : Prop :=
  0 < MIN_FILL_RATE c ∧ MIN_FILL_RATE c <= BASE_FILL_RATE c ∧
  (0 < QUEUE_DEPTH_THRESHOLD c)%Z ∧ 0 < LATENCY_THRESHOLD_MS c ∧ 1 <= BUCKET_CAPACITY c.

Lemma default_tuning_ok : tuning_ok default_tuning.
Proof. unfold tuning_ok. cbn. repeat split; lra || lia || done. Qed.

(** ** Factors *)

Lemma depth_factor_bounds c d : (5 # 100) <= depth_factor c d.
Proof. unfold depth_factor. destruct (d <=? _)%Z; [lra|apply py_max_ge_l]. Qed.

Lemma latency_factor_bounds c ms : (1 # 10) <= latency_factor c ms.
Proof. unfold latency_factor. destruct (Qle_bool _ _); [lra|apply py_max_ge_l]. Qed.

Lemma Qdiv_nonneg a b : 0 <= a → 0 < b → 0 <= a / b.
Proof. intros. apply Qle_shift_div_l; lra. Qed.

Lemma Qdiv_mono a a' b : a <= a' → 0 < b → a / b <= a' / b.
Proof.
  intros Ha Hb. apply Qmult_le_compat_r; [done|]. apply Qinv_le_0_compat. lra.
Qed.

Lemma inject_Z_le a b : (a <= b)%Z → inject_Z a <= inject_Z b.
Proof. by rewrite Zle_Qle. Qed.

Lemma inject_Z_lt a b : (a < b)%Z → inject_Z a < inject_Z b.
Proof. by rewrite Zlt_Qlt. Qed.

Lemma depth_factor_le_1 c d : (0 < QUEUE_DEPTH_THRESHOLD c)%Z → depth_factor c d <= 1.
Proof.
  intros Hc. unfold depth_factor. destruct (d <=? _)%Z eqn:E; [lra|].
  apply py_max_lub; [lra|].
  assert (0 <= inject_Z (d - QUEUE_DEPTH_THRESHOLD c) / inject_Z (10 * QUEUE_DEPTH_THRESHOLD c)).
  { apply Qdiv_nonneg; [apply (inject_Z_le 0)|apply (inject_Z_lt 0)]; lia. }
  lra.
Qed.

Lemma latency_factor_le_1 c ms : 0 < LATENCY_THRESHOLD_MS c → latency_factor c ms <= 1.
Proof.
  intros Hc. unfold latency_factor. destruct (Qle_bool _ _) eqn:E; [lra|]. qreflect.
  apply py_max_lub; [lra|].
  assert (0 <= (ms - LATENCY_THRESHOLD_MS c) / (10 * LATENCY_THRESHOLD_MS c))
    by (apply Qdiv_nonneg; lra).
  lra.
Qed.

Lemma depth_factor_antitone c d d' :
  (0 < QUEUE_DEPTH_THRESHOLD c)%Z → (d <= d')%Z → depth_factor c d' <= depth_factor c d.
Proof.
  intros Hc Hd. destruct (d <=? QUEUE_DEPTH_THRESHOLD c)%Z eqn:E.
  { unfold depth_factor at 2. rewrite E. by apply depth_factor_le_1. }
  unfold depth_factor. rewrite E. destruct (d' <=? _)%Z eqn:E'; [lia|].
  apply py_max_mono.
  assert (inject_Z (d - QUEUE_DEPTH_THRESHOLD c) / inject_Z (10 * QUEUE_DEPTH_THRESHOLD c)
          <= inject_Z (d' - QUEUE_DEPTH_THRESHOLD c) / inject_Z (10 * QUEUE_DEPTH_THRESHOLD c)).
  { apply Qdiv_mono; [apply inject_Z_le; lia|apply (inject_Z_lt 0); lia]. }
  lra.
Qed.

Lemma latency_factor_antitone c ms ms' :
  0 < LATENCY_THRESHOLD_MS c → ms <= ms' → latency_factor c ms' <= latency_factor c ms.
Proof.
  intros Hc Hms. destruct (Qle_bool ms (LATENCY_THRESHOLD_MS c)) eqn:E.
  { unfold latency_factor at 2. rewrite E. by apply latency_factor_le_1. }
  unfold latency_factor. rewrite E. destruct (Qle_bool ms' _) eqn:E'; qreflect; [lra|].
  apply py_max_mono.
  assert ((ms - LATENCY_THRESHOLD_MS c) / (10 * LATENCY_THRESHOLD_MS c)
          <= (ms' - LATENCY_THRESHOLD_MS c) / (10 * LATENCY_THRESHOLD_MS c))
    by (apply Qdiv_mono; lra).
  lra.
Qed.

Lemma Qmult_le_compat_nonneg a b x y : 0 <= a → a <= b → 0 <= x → x <= y → a * x <= b * y.
Proof.
  intros. apply Qle_trans with (b * x).
  - by apply Qmult_le_compat_r.
  - rewrite (Qmult_comm b x), (Qmult_comm b y). apply Qmult_le_compat_r; lra.
Qed.

Lemma adjusted_rate_bounds c d ms :
  tuning_ok c → MIN_FILL_RATE c <= adjusted_rate c d ms <= BASE_FILL_RATE c.
Proof.
  intros (H1&H2&H3&H4&_). unfold adjusted_rate. split; [apply py_max_ge_l|].
  apply py_max_lub; [done|].
  pose proof (depth_factor_bounds c d). pose proof (latency_factor_bounds c ms).
  pose proof (depth_factor_le_1 c d H3). pose proof (latency_factor_le_1 c ms H4).
  assert (depth_factor c d * latency_factor c ms <= 1 * 1)
    by (apply Qmult_le_compat_nonneg; lra).
  assert (0 <= depth_factor c d * latency_factor c ms) by (apply Qmult_le_0_compat; lra).
  assert (BASE_FILL_RATE c * (depth_factor c d * latency_factor c ms) <= BASE_FILL_RATE c * 1)
    by (apply Qmult_le_compat_nonneg; lra).
  rewrite <- Qmult_assoc. lra.
Qed.
End Shedder.
