(* ===== verification/AdmissionControl.v ===== *)
(** * What the load shedder guarantees

The adjusted rate stays between the floor and the nominal rate and falls
with load; buckets stay between empty and full; over any stretch of time a
queue admits at most one bucket plus the nominal rate; and no queue is
starved, whatever the load. *)

From S2P Require Import Prelude PyDict Json LoadShedder.

Import Shedder.
Local Open Scope Q_scope.

(** The fill rate is clamped between [MIN_FILL_RATE] and [BASE_FILL_RATE],
    is the nominal rate when both signals are at or below their thresholds,
    and never rises when the queue gets deeper or the workers slower. *)
Theorem adjusted_rate_adapts c d d' ms ms' :
  tuning_ok c → (d <= d')%Z → ms <= ms' →
  MIN_FILL_RATE c <= adjusted_rate c d ms <= BASE_FILL_RATE c ∧
  adjusted_rate c d' ms' <= adjusted_rate c d ms ∧
  ((d <= QUEUE_DEPTH_THRESHOLD c)%Z → ms <= LATENCY_THRESHOLD_MS c →
   adjusted_rate c d ms == BASE_FILL_RATE c).
Proof.
  intros Hok Hd Hms. pose proof Hok as (H1&H2&H3&H4&_).
  split; [by apply adjusted_rate_bounds|]. split.
  - unfold adjusted_rate. apply py_max_mono. rewrite <- !Qmult_assoc.
    pose proof (depth_factor_bounds c d'). pose proof (latency_factor_bounds c ms').
    apply Qmult_le_compat_nonneg; [lra|lra|apply Qmult_le_0_compat; lra|].
    apply Qmult_le_compat_nonneg; [lra| |lra|].
    + by apply depth_factor_antitone.
    + by apply latency_factor_antitone.
  - intros Hd1 Hm1. unfold adjusted_rate, depth_factor, latency_factor.
    rewrite (proj2 (Z.leb_le _ _) Hd1), (proj2 (Qle_bool_iff _ _) Hm1).
    unfold py_max. qcases; lra.
Qed.

Lemma adjusted_rate_adapts_witness :
  MIN_FILL_RATE default_tuning <= adjusted_rate default_tuning 40 100 ∧
  adjusted_rate default_tuning 300 600 <= adjusted_rate default_tuning 40 100.
Proof.
  destruct (adjusted_rate_adapts default_tuning 40 300 100 600 default_tuning_ok) as ([H _]&H'&_);
    [lia|lra|]. split; [exact H|exact H'].
Defined.

(** ** Bucket invariant *)

Definition bucket_ok (now : Q) (b : TokenBucket) : Prop :=
  0 <= tokens b <= capacity b ∧ 1 <= capacity b ∧ last_refill b <= now.

Definition shedder_ok (now : Q) (s : t) : Prop :=
  tuning_ok (tuning s) ∧ Forall (λ p, bucket_ok now p.2) (_buckets s).

Lemma bucket_ok_later now now' b : now <= now' → bucket_ok now b → bucket_ok now' b.
Proof. unfold bucket_ok. lra. Qed.

Lemma refill_ok rate now b :
  0 <= rate → bucket_ok now b → bucket_ok now (refill rate now b).
Proof.
  intros Hr (Ht&Hc&Hl). unfold bucket_ok. cbn.
  assert (0 <= (now - last_refill b) * rate) by (apply Qmult_le_0_compat; lra).
  split_and!; [apply py_min_glb; lra|apply py_min_le_l|lra|lra].
Qed.

Lemma consume_ok now b : bucket_ok now b → bucket_ok now (consume b).2.
Proof.
  intros (Ht&Hc&Hl). unfold consume. destruct (Qle_bool 1 (tokens b)) eqn:E; qreflect;
    unfold bucket_ok; cbn; lra.
Qed.

(** One admission decision on a queue, given its bucket: the decision, and what
    becomes of the tokens. *)
Definition decide_bucket (rate now : Q) (b : TokenBucket) : bool * TokenBucket :=
  consume (refill rate now b).

(** Tokens and admissions are paid for by elapsed time. *)
Lemma decide_bucket_budget rate base now b :
  0 <= rate <= base → bucket_ok now b →
  let '(a, b') := decide_bucket rate now b in
  bucket_ok now b' ∧ last_refill b' = now ∧ capacity b' = capacity b ∧
  tokens b' + (if a : bool then 1 else 0) <= tokens b + (now - last_refill b) * base.
Proof.
  intros Hr Hb. pose proof (consume_ok now _ (refill_ok rate now b (proj1 Hr) Hb)) as Hok.
  pose proof Hb as (_&_&Hl). unfold decide_bucket in *.
  assert (tokens (refill rate now b) <= tokens b + (now - last_refill b) * base).
  { cbn. eapply Qle_trans; [apply py_min_le_r|].
    assert ((now - last_refill b) * rate <= (now - last_refill b) * base)
      by (apply Qmult_le_compat_nonneg; lra). lra. }
  unfold consume in *. destruct (Qle_bool 1 (tokens (refill rate now b)));
    (split_and!; [done|done|done|]); cbn [tokens]; lra.
Qed.

Section signals.
  Context {Sys : Type} `{!LoadSignals Sys}.

Lemma compute_rate_bounds qn (sys : Sys) s :
  tuning_ok (tuning s) →
  MIN_FILL_RATE (tuning s) <= _compute_adjusted_rate qn sys s <= BASE_FILL_RATE (tuning s).
Proof. intros. by apply adjusted_rate_bounds. Qed.

(** [check_and_consume] as a decision on the queue's bucket, fresh or not. *)
Lemma check_and_consume_bucket qn (sys : Sys) now0 now s :
  let b := default (new_bucket (BUCKET_CAPACITY (tuning s)) (BASE_FILL_RATE (tuning s)) now0)
             (dget qn (_buckets s)) in
  let rate := _compute_adjusted_rate qn sys s in
  let '(a, b') := decide_bucket rate now b in
  let '(res, s') := check_and_consume qn sys now0 now s in
  res = (a, if a : bool then 0 else 1 / rate) ∧ tuning s' = tuning s ∧
  dget qn (_buckets s') = Some b' ∧
  (∀ q, q ≠ qn → dget q (_buckets s') = dget q (_buckets s)) ∧
  (∀ p, p ∈ _buckets s' → p = (qn, b') ∨ p ∈ _buckets s ∨ p = (qn, b)) ∧
  _total_allowed s' = (_total_allowed s + if a then 1 else 0)%Z ∧
  _total_rejected s' = (_total_rejected s + if a then 0 else 1)%Z.
Proof.
  unfold check_and_consume, _get_or_create_bucket.
  destruct (dget qn (_buckets s)) as [b|] eqn:E; cbn [default id]; unfold decide_bucket.
  - destruct (consume _) as [[] b'];
      (split_and!; cbn; [done|done|by rewrite dget_dset_eq|..|lia|lia]);
      [by intros; rewrite dget_dset_ne|intros p [->|?]%dset_elem; auto
      |by intros; rewrite dget_dset_ne|intros p [->|?]%dset_elem; auto].
  - change (_compute_adjusted_rate qn sys (with_buckets ?f s))
      with (_compute_adjusted_rate qn sys s).
    destruct (consume _) as [[] b'];
      (split_and!; cbn; [done|done|by rewrite dget_dset_eq|..|lia|lia]);
      [by intros; rewrite !dget_dset_ne|intros p [->|[->|?]%dset_elem]%dset_elem; auto
      |by intros; rewrite !dget_dset_ne|intros p [->|[->|?]%dset_elem]%dset_elem; auto].
Qed.
End signals.

(** The bucket invariant is preserved, other queues are left alone, and the
    decision is counted. *)
Lemma check_and_consume_ok {Sys} `{!LoadSignals Sys} qn (sys : Sys) now0 now s :
  shedder_ok now0 s → now0 <= now →
  let '((a, hint), s') := check_and_consume qn sys now0 now s in
  shedder_ok now s' ∧
  (∀ q, q ≠ qn → dget q (_buckets s') = dget q (_buckets s)) ∧
  (_total_allowed s' + _total_rejected s' = _total_allowed s + _total_rejected s + 1)%Z.
Proof.
  intros [Ht Hb] Hnow. pose proof (check_and_consume_bucket qn sys now0 now s) as H. cbv zeta in H.
  set (b := default _ _) in H. pose proof (compute_rate_bounds qn sys s Ht) as Hr.
  set (rate := _compute_adjusted_rate qn sys s) in *.
  rewrite Forall_forall in Hb.
  assert (Hbo : bucket_ok now b).
  { apply (bucket_ok_later now0); [done|]. unfold b.
    destruct (dget qn (_buckets s)) eqn:E; cbn.
    - by apply dget_Some_in, Hb in E.
    - destruct Ht as (_&_&_&_&?). unfold bucket_ok, new_bucket. cbn. lra. }
  pose proof (decide_bucket_budget rate (BASE_FILL_RATE (tuning s)) now b) as Hd.
  destruct Ht as (Hmin&Htt). destruct (decide_bucket rate now b) as [a b'].
  destruct (check_and_consume qn sys now0 now s) as [[a' hint] s'].
  destruct H as ([= -> ->]&Htun&_&Hother&Hin&Hal&Hrj).
  destruct Hd as (Hb'&_); [lra|done|]. split_and!; [|done|destruct a; lia].
  split; [rewrite Htun; by split|]. rewrite Forall_forall. intros p [->|[Hp| ->]]%Hin; [done| |done].
  apply (bucket_ok_later now0); [done|]. by apply Hb.
Qed.

(** Every bucket always holds between zero and its capacity of tokens, so
    a request is never admitted on credit and bursts are bounded; one queue's
    traffic never touches another queue's bucket; and every decision is
    counted exactly once. *)
Theorem buckets_stay_in_range {Sys} `{!LoadSignals Sys} qn (sys : Sys) now0 now s :
  shedder_ok now0 s → now0 <= now →
  let '((a, hint), s') := check_and_consume qn sys now0 now s in
  shedder_ok now s' ∧
  (∀ q, q ≠ qn → dget q (_buckets s') = dget q (_buckets s)) ∧
  (_total_allowed s' + _total_rejected s' = _total_allowed s + _total_rejected s + 1)%Z.
Proof. apply check_and_consume_ok. Qed.

(** Fixed signals, for concrete runs. *)
#[local] Instance fixed_signals : LoadSignals (nat * Q) := {|
  sig_depth _ s := s.1;
  sig_latency_ms _ s := s.2;
|}.

Lemma buckets_stay_in_range_witness :
  let '((a, hint), s') := check_and_consume "q" (60%nat, 250) 3 4 init in
  shedder_ok 4 s' ∧
  (∀ q, q ≠ "q" → dget q (_buckets s') = dget q (_buckets init)) ∧
  (_total_allowed s' + _total_rejected s' = _total_allowed init + _total_rejected init + 1)%Z.
Proof.
  apply (buckets_stay_in_range "q" (60%nat, 250) 3 4 init); [|lra].
  split; [exact default_tuning_ok|constructor].
Defined.

(** ** Long-run rate *)

Section runs.
  Context {Sys : Type} `{!LoadSignals Sys}.

(** Requests for one queue, each at its time and under the signals then. *)
Fixpoint serve_requests (qn : string) (reqs : list (Q * Sys)) (s : t) : nat * t :=
  match reqs with
  | [] => (0%nat, s)
  | (now, sys) :: reqs =>
      let '((a, _), s) := check_and_consume qn sys now now s in
      let '(n, s) := serve_requests qn reqs s in
      ((if a : bool then S n else n), s)
  end.

(** Request times do not go backwards. *)
Fixpoint times_from (t0 : Q) (reqs : list (Q * Sys)) : Prop :=
  match reqs with [] => True | (now, _) :: reqs => t0 <= now ∧ times_from now reqs end.

Definition last_time (t0 : Q) (reqs : list (Q * Sys)) : Q :=
  match last reqs with Some (now, _) => now | None => t0 end.

Lemma last_time_cons t0 now (sys : Sys) reqs :
  last_time t0 ((now, sys) :: reqs) = last_time now reqs.
Proof.
  unfold last_time. destruct reqs as [|x reqs]; [done|]. rewrite last_cons_cons.
  destruct (last (x :: reqs)) eqn:E; [done|]. by apply last_None in E.
Qed.

Lemma serve_budget qn reqs s b :
  tuning_ok (tuning s) → dget qn (_buckets s) = Some b → bucket_ok (last_refill b) b →
  times_from (last_refill b) reqs →
  inject_Z (Z.of_nat (serve_requests qn reqs s).1)
    <= tokens b + (last_time (last_refill b) reqs - last_refill b) * BASE_FILL_RATE (tuning s).
Proof.
  revert s b. induction reqs as [|[now sys] reqs IH]; intros s b Ht Hg Hb Htimes.
  { destruct Hb as [Hb _]. change (inject_Z (Z.of_nat (serve_requests qn [] s).1)) with 0.
    change (last_time (last_refill b) []) with (last_refill b).
    assert (Hz : (last_refill b - last_refill b) * BASE_FILL_RATE (tuning s) == 0) by ring.
    rewrite Hz. lra. }
  destruct Htimes as [Hnow Htimes]. cbn [serve_requests]. rewrite last_time_cons.
  pose proof (check_and_consume_bucket qn sys now now s) as H. cbv zeta in H.
  rewrite Hg in H. cbn [default id from_option] in H.
  pose proof (compute_rate_bounds qn sys s Ht) as Hr.
  pose proof (decide_bucket_budget (_compute_adjusted_rate qn sys s) (BASE_FILL_RATE (tuning s))
    now b) as Hd.
  pose proof Ht as (Hmin&_).
  destruct (decide_bucket _ now b) as [a b'].
  destruct (check_and_consume qn sys now now s) as [[a' hint] s'].
  destruct H as ([= -> _]&Htun&Hg'&_).
  destruct Hd as (Hb'&Hlast&_&Hbud); [lra|by apply (bucket_ok_later (last_refill b))|].
  rewrite <- Hlast in Hb', Htimes. rewrite <- Htun in Ht.
  specialize (IH s' b' Ht Hg' Hb' Htimes). rewrite Htun, Hlast in IH.
  destruct (serve_requests qn reqs s') as [n s'']. cbn [fst] in *.
  destruct a; [rewrite Nat2Z.inj_succ; unfold Z.succ; rewrite inject_Z_plus;
    change (inject_Z 1) with 1|]; lra.
Qed.
End runs.

(** C20.  Over any sequence of requests to one queue, under any load, the number
    admitted is at most the tokens in the bucket at the start plus the nominal
    fill rate times the elapsed time. *)
Theorem admissions_bounded {Sys} `{!LoadSignals Sys} qn (reqs : list (Q * Sys)) s b :
  tuning_ok (tuning s) → dget qn (_buckets s) = Some b → bucket_ok (last_refill b) b →
  times_from (last_refill b) reqs →
  inject_Z (Z.of_nat (serve_requests qn reqs s).1)
    <= tokens b
       + BASE_FILL_RATE (tuning s) * (last_time (last_refill b) reqs - last_refill b).
Proof.
  intros Ht Hg Hb Htimes. rewrite (Qmult_comm (BASE_FILL_RATE (tuning s))). by apply serve_budget.
Qed.

(** A bucket with two tokens left, offered four requests within 10 ms: it
    admits three, which is all the bound leaves. *)
Definition two_tokens : TokenBucket := mkBucket 200 100 2 0.
Definition nearly_empty : t := mk default_tuning [("q", two_tokens)] 0 0.
Definition burst : list (Q * (nat * Q)) :=
  [(0, (0%nat, 0)); (0, (0%nat, 0)); (0, (0%nat, 0)); (1 # 100, (0%nat, 0))].

Lemma admissions_bounded_witness :
  inject_Z (Z.of_nat (serve_requests "q" burst nearly_empty).1)
    <= tokens two_tokens
       + BASE_FILL_RATE (tuning nearly_empty)
         * (last_time (last_refill two_tokens) burst - last_refill two_tokens) ∧
  (serve_requests "q" burst nearly_empty).1 = 3%nat ∧
  tokens two_tokens + BASE_FILL_RATE (tuning nearly_empty)
    * (last_time (last_refill two_tokens) burst - last_refill two_tokens) == 3.
Proof.
  split; [|split; vm_compute; reflexivity].
  apply (admissions_bounded "q" burst nearly_empty two_tokens).
  - exact default_tuning_ok.
  - vm_compute. reflexivity.
  - unfold bucket_ok. cbn. lra.
  - cbn. lra.
Defined.

(** ** Progress *)

(** Enough elapsed time at the current rate pays for a token. *)
Lemma decide_bucket_admits rate now b :
  0 <= tokens b → 1 <= capacity b → 1 <= (now - last_refill b) * rate →
  (decide_bucket rate now b).1 = true.
Proof.
  intros Ht Hc He. unfold decide_bucket, consume.
  assert (1 <= tokens (refill rate now b)) as H1 by (cbn; apply py_min_glb; lra).
  apply Qle_bool_iff in H1. by rewrite H1.
Qed.

Lemma Qinv_mult_ge a b : 0 < a → a <= b → 1 <= (1 / a) * b.
Proof.
  intros Ha Hb. assert (H : 1 == (1 / a) * a) by (field; lra). rewrite H at 1.
  rewrite !(Qmult_comm (1 / a)). apply Qmult_le_compat_r; [done|].
  apply Qle_shift_div_l; lra.
Qed.

(** No starvation: whatever the queue depth and latency, a request that
    comes at least [1 / MIN_FILL_RATE] seconds (0.2 s by default) after the
    last request on its queue, or is the first one, is admitted. *)
Theorem no_queue_is_starved {Sys} `{!LoadSignals Sys} qn (sys : Sys) now0 now s :
  shedder_ok now0 s → now0 <= now →
  (∀ b, dget qn (_buckets s) = Some b → last_refill b + 1 / MIN_FILL_RATE (tuning s) <= now) →
  (check_and_consume qn sys now0 now s).1 = (true, 0).
Proof.
  intros [Ht Hb] Hnow Hidle. pose proof (check_and_consume_bucket qn sys now0 now s) as H.
  cbv zeta in H. pose proof (compute_rate_bounds qn sys s Ht) as Hr. pose proof Ht as (Hm&_&_&_&Hcap).
  assert (Ha : (decide_bucket (_compute_adjusted_rate qn sys s) now
    (default (new_bucket (BUCKET_CAPACITY (tuning s)) (BASE_FILL_RATE (tuning s)) now0)
       (dget qn (_buckets s)))).1 = true).
  { destruct (dget qn (_buckets s)) as [b|] eqn:E; cbn [default id].
    - specialize (Hidle b eq_refl). apply dget_Some_in in E. rewrite Forall_forall in Hb.
      destruct (Hb _ E) as (?&?&?). cbn in *. apply decide_bucket_admits; [lra|lra|].
      eapply Qle_trans; [apply (Qinv_mult_ge _ (_compute_adjusted_rate qn sys s) Hm); lra|].
      apply Qmult_le_compat_r; lra.
    - unfold decide_bucket, consume.
      assert (1 <= tokens (refill (_compute_adjusted_rate qn sys s) now
        (new_bucket (BUCKET_CAPACITY (tuning s)) (BASE_FILL_RATE (tuning s)) now0))) as H1.
      { cbn. assert (0 <= (now - now0) * _compute_adjusted_rate qn sys s)
          by (apply Qmult_le_0_compat; lra). apply py_min_glb; lra. }
      apply Qle_bool_iff in H1. by rewrite H1. }
  destruct (decide_bucket _ now _) as [a b']. cbn in Ha. subst a.
  destruct (check_and_consume qn sys now0 now s) as [res s']. by destruct H as [-> _].
Qed.

Lemma no_queue_is_starved_witness :
  (check_and_consume "q" (2000%nat, 9000) 1 1
     (mk default_tuning [("q", mkBucket 200 100 0 (4 # 5))] 0 0)).1 = (true, 0).
Proof.
  apply (no_queue_is_starved "q" (2000%nat, 9000) 1 1).
  - split; [exact default_tuning_ok|]. constructor; [|constructor].
    unfold bucket_ok. cbn. lra.
  - lra.
  - intros b [= <-]. vm_compute. discriminate.
Defined.

(** A retry after the hinted wait. *)
Lemma retry_admitted {Sys} `{!LoadSignals Sys} qn (sys sys' : Sys) now0 now now' h s s' :
  shedder_ok now0 s → now0 <= now →
  check_and_consume qn sys now0 now s = ((false, h), s') →
  now + h <= now' →
  _compute_adjusted_rate qn sys s <= _compute_adjusted_rate qn sys' s' →
  (check_and_consume qn sys' now' now' s').1 = (true, 0).
Proof.
  intros Hs Hnow E Hwait Hrate.
  pose proof (check_and_consume_ok qn sys now0 now s Hs Hnow) as Hs'. rewrite E in Hs'.
  destruct Hs' as [[_ Hb'] _].
  pose proof (check_and_consume_bucket qn sys now0 now s) as H. cbv zeta in H. rewrite E in H.
  destruct Hs as [Ht _]. pose proof (compute_rate_bounds qn sys s Ht) as Hr. destruct Ht as (Hm&_).
  destruct (decide_bucket (_compute_adjusted_rate qn sys s) now _) as [a b'] eqn:Ed.
  destruct H as ([= <- ->]&_&Hg&_).
  assert (Hl : last_refill b' = now).
  { unfold decide_bucket, consume in Ed. destruct (Qle_bool _ _); by simplify_eq. }
  pose proof (check_and_consume_bucket qn sys' now' now' s') as H2. cbv zeta in H2.
  rewrite Hg in H2. cbn [default id] in H2.
  apply dget_Some_in in Hg. rewrite Forall_forall in Hb'. destruct (Hb' _ Hg) as (?&?&_). cbn in *.
  assert (Ha : (decide_bucket (_compute_adjusted_rate qn sys' s') now' b').1 = true).
  { apply decide_bucket_admits; [lra|lra|]. rewrite Hl.
    eapply Qle_trans; [apply (Qinv_mult_ge (_compute_adjusted_rate qn sys s)
      (_compute_adjusted_rate qn sys' s')); lra|].
    apply Qmult_le_compat_r; lra. }
  destruct (decide_bucket _ now' b') as [a' b'']. cbn in Ha. subst a'.
  destruct (check_and_consume qn sys' now' now' s') as [res s'']. by destruct H2 as [-> _].
Qed.

(** The hint is honest: after a rejection with hint [h], a retry on that
    queue [h] or more seconds later is admitted, provided the rate has not
    dropped in the meantime. *)
Theorem retry_hint_suffices {Sys} `{!LoadSignals Sys} qn (sys sys' : Sys) now0 now now' h s s' :
  shedder_ok now0 s → now0 <= now →
  check_and_consume qn sys now0 now s = ((false, h), s') →
  now + h <= now' →
  _compute_adjusted_rate qn sys s <= _compute_adjusted_rate qn sys' s' →
  (check_and_consume qn sys' now' now' s').1 = (true, 0).
Proof. apply retry_admitted. Qed.

Definition empty_bucket_shedder : t := mk default_tuning [("q", mkBucket 200 100 0 0)] 0 0.

Lemma retry_hint_suffices_witness :
  (check_and_consume "q" (10%nat, 0) 1 1
     (check_and_consume "q" (100%nat, 0) 0 0 empty_bucket_shedder).2).1 = (true, 0).
Proof.
  apply (retry_hint_suffices "q" (100%nat, 0) (10%nat, 0) 0 0 1
    (1 / _compute_adjusted_rate "q" (100%nat, 0) empty_bucket_shedder) empty_bucket_shedder).
  - split; [exact default_tuning_ok|]. constructor; [|constructor].
    unfold bucket_ok. cbn. lra.
  - lra.
  - vm_compute. reflexivity.
  - vm_compute. discriminate.
  - vm_compute. discriminate.
Defined.

(** ** Where the depth factor reaches its floor *)

Lemma depth_excess_ratio c d :
  (0 < QUEUE_DEPTH_THRESHOLD c)%Z →
  inject_Z (d - QUEUE_DEPTH_THRESHOLD c) / inject_Z (10 * QUEUE_DEPTH_THRESHOLD c)
    == (inject_Z d - inject_Z (QUEUE_DEPTH_THRESHOLD c)) / (10 * inject_Z (QUEUE_DEPTH_THRESHOLD c)).
Proof.
  intros Hc. rewrite inject_Z_mult. unfold Z.sub. rewrite inject_Z_plus, inject_Z_opp. done.
Qed.

(** At ten times the threshold the depth factor is 0.1, not the 0.05 the
    documentation promises there; the floor of 0.05 is reached exactly from
    10.5 times the threshold on. *)
Theorem depth_factor_floor c :
  tuning_ok c →
  depth_factor c (10 * QUEUE_DEPTH_THRESHOLD c) == 1 # 10 ∧
  ∀ d, depth_factor c d == 5 # 100 ↔ (21 * QUEUE_DEPTH_THRESHOLD c <= 2 * d)%Z.
Proof.
  intros (_&_&Hc&_). set (T := QUEUE_DEPTH_THRESHOLD c) in *.
  assert (HT : 0 < inject_Z T) by (apply (inject_Z_lt 0); done).
  split.
  - unfold depth_factor. fold T. rewrite (proj2 (Z.leb_gt _ _)) by lia.
    assert (E : inject_Z (10 * T - T) / inject_Z (10 * T) == 9 # 10).
    { replace (10 * T - T)%Z with (9 * T)%Z by lia. rewrite !inject_Z_mult.
      change (inject_Z 9) with 9. change (inject_Z 10) with 10. field. lra. }
    unfold py_max. qcases; rewrite E in *; lra.
  - intros d. unfold depth_factor. fold T. destruct (d <=? T)%Z eqn:Ed.
    + split; [intros; lra|lia].
    + set (r := inject_Z (d - T) / inject_Z (10 * T)).
      assert (Hr : r * (10 * inject_Z T) == inject_Z d - inject_Z T).
      { pose proof (depth_excess_ratio c d Hc) as E. fold T in E. unfold r. rewrite E.
        field. lra. }
      assert (Hz : (21 * T <= 2 * d)%Z ↔ (19 # 2) * inject_Z T <= inject_Z d - inject_Z T).
      { rewrite Zle_Qle, !inject_Z_mult. change (inject_Z 21) with 21. change (inject_Z 2) with 2.
        split; lra. }
      rewrite Hz, <- Hr.
      assert (Hr2 : (19 # 2) * inject_Z T <= r * (10 * inject_Z T) ↔ (19 # 20) <= r).
      { setoid_replace ((19 # 2) * inject_Z T) with ((19 # 20) * (10 * inject_Z T)) using relation Qeq
          by ring. apply Qmult_le_r. lra. }
      rewrite Hr2. unfold py_max. qcases; lra.
Qed.

Lemma depth_factor_floor_witness :
  depth_factor default_tuning (10 * QUEUE_DEPTH_THRESHOLD default_tuning) == 1 # 10.
Proof. apply (depth_factor_floor default_tuning default_tuning_ok). Defined.
