(* ===== verification/WalStore.v ===== *)
(** * WAL-mode SQLite store ([persistence/wal_store.py])

The functional reading of every method: it maps the committed database to
the method's result and the new committed database, and the broker is
built on it.  [Durability.v] gives the second reading, the SQL statements
a method sends over its connection with faults and crashes between them,
and relates the two.

A table is the list of its rows in rowid order; [INSERT OR REPLACE]
deletes the row with the same primary key and appends.  [ORDER BY] is
modelled by a stable sort: SQL leaves the order of equal keys open, and no
theorem here depends on it. *)

From S2P Require Import Prelude PyDict Json DeadLetter.

Module Wal.

(** ** Schema *)

Record TaskRow := mkTaskRow {
  r_task_id : string;
  r_queue_name : string;
  r_payload : string;
  r_status : string;
  r_attempts : Z;
  r_assigned_worker : option string;
  r_created_at : Q;
  r_updated_at : Q;
}.

Record DlqRow := mkDlqRow {
  q_task_id : string;
  q_queue_name : string;
  q_payload : string;
  q_final_error : option string;
  q_attempts : Z;
  q_dead_lettered_at : Q;
}.

Record Db := mkDb {
  tasks : list TaskRow;
  dead_letter_queue : list DlqRow;
  broker_metadata : list (string * string);
}.

Definition empty_db : Db := mkDb [] [] [].

Definition with_tasks (f : list TaskRow → list TaskRow) (db : Db) : Db :=
  mkDb (f (tasks db)) (dead_letter_queue db) (broker_metadata db).

Definition with_dlq (f : list DlqRow → list DlqRow) (db : Db) : Db :=
  mkDb (tasks db) (f (dead_letter_queue db)) (broker_metadata db).

Definition with_metadata (f : list (string * string) → list (string * string)) (db : Db) : Db :=
  mkDb (tasks db) (dead_letter_queue db) (f (broker_metadata db)).

(** ** Tables with a primary key *)

Section table.
  Context {R : Type} (key : R → string).

(** [DELETE FROM t WHERE key = k] *)
Definition delete_key (k : string) (l : list R) : list R := filter (λ r, key r ≠ k) l.

(** [INSERT OR REPLACE INTO t] *)
Definition upsert (r : R) (l : list R) : list R := delete_key (key r) l ++ [r].

(** [SELECT * FROM t WHERE key = k] *)
Definition select_key (k : string) (l : list R) : option R :=
  head (filter (λ r, key r = k) l).

(** [UPDATE t SET .. WHERE key = k] *)
Definition update_key (f : R → R) (k : string) (l : list R) : list R :=
  (λ r, if decide (key r = k) then f r else r) <$> l.

(** [cursor.rowcount]: the number of rows a [WHERE key = k] matches *)
Definition count_key (k : string) (l : list R) : nat := length (filter (λ r, key r = k) l).
End table.

(** [ORDER BY key ASC] *)
Section order.
  Context {R : Type} (key : R → Q).

Fixpoint insert_asc (x : R) (l : list R) : list R :=
  match l with
  | [] => [x]
  | y :: l => if Qle_bool (key x) (key y) then x :: y :: l else y :: insert_asc x l
  end.

Fixpoint order_asc (l : list R) : list R :=
  match l with [] => [] | x :: l => insert_asc x (order_asc l) end.
End order.

(** [ORDER BY key DESC] *)
Definition order_desc {R} (key : R → Q) (l : list R) : list R :=
  order_asc (λ r, (- key r)%Q) l.

(** [LIMIT n]: a negative bound means no limit *)
Definition sql_limit {A} (n : Z) (l : list A) : list A :=
  if (n <? 0)%Z then l else take (Z.to_nat n) l.

(** ** The methods, on the committed database *)

Section methods.
  Context `{codec : JsonCodec}.

Definition task_row (x : Task) (now : Q) : TaskRow :=
  mkTaskRow (task_id x) (queue_name x) (dumps (payload x)) (status x) (attempts x)
    (assigned_worker x) (created_at x) now.

Definition dlq_row (x : Task) (error : string) (now : Q) : DlqRow :=
  mkDlqRow (task_id x) (queue_name x) (dumps (payload x)) (Some error) (attempts x) now.

Definition save_task (x : Task) (now : Q) (db : Db) : Db :=
  with_tasks (upsert r_task_id (task_row x now)) db.

(** The columns one of the four [UPDATE] statements sets. *)
Definition set_row (st : string) (att : option Z) (w : option string) (now : Q)
    (r : TaskRow) : TaskRow :=
  mkTaskRow (r_task_id r) (r_queue_name r) (r_payload r) st
    (default (r_attempts r) att)
    (match w with Some w => Some w | None => r_assigned_worker r end)
    (r_created_at r) now.

Definition update_task_status (tid st : string) (att : option Z) (w : option string)
    (now : Q) (db : Db) : bool * Db :=
  (bool_decide (0 < count_key r_task_id tid (tasks db)),
   with_tasks (update_key r_task_id (set_row st att w now) tid) db).

Definition delete_task (tid : string) (db : Db) : bool * Db :=
  (bool_decide (0 < count_key r_task_id tid (tasks db)),
   with_tasks (delete_key r_task_id tid) db).

Definition recoverable (r : TaskRow) : Prop :=
  r_status r = "pending" ∨ r_status r = "in_flight".

#[global] Instance recoverable_dec r : Decision (recoverable r).
Proof. unfold recoverable. apply _. Defined.

Definition load_pending_tasks (db : Db) : list TaskRow :=
  order_asc r_created_at (filter recoverable (tasks db)).

Definition load_all_tasks (db : Db) : list TaskRow := order_asc r_created_at (tasks db).

Definition add_to_dlq (x : Task) (error : string) (now : Q) (db : Db) : Db :=
  with_tasks (delete_key r_task_id (task_id x))
    (with_dlq (upsert q_task_id (dlq_row x error now)) db).

(** [if queue_name:] treats [None] and [""] alike. *)
Definition dlq_filter (qn : option string) (l : list DlqRow) : list DlqRow :=
  match qn with
  | Some q => if truthy_str q then filter (λ r, q_queue_name r = q) l else l
  | None => l
  end.

(** The integers SQLite can bind; [sqlite3] raises [OverflowError] for others. *)
Definition int64 (n : Z) : bool := (- 2 ^ 63 <=? n)%Z && (n <? 2 ^ 63)%Z.

Definition get_dlq_tasks (qn : option string) (limit : Z) (db : Db) : option (list DlqRow) :=
  if int64 limit
  then Some (sql_limit limit (order_desc q_dead_lettered_at (dlq_filter qn (dead_letter_queue db))))
  else None.

Definition get_dlq_count (qn : option string) (db : Db) : nat :=
  length (dlq_filter qn (dead_letter_queue db)).

Definition replay_dlq_task (tid : string) (db : Db) : option DlqRow * Db :=
  match select_key q_task_id tid (dead_letter_queue db) with
  | None => (None, db)
  | Some r => (Some r, with_dlq (delete_key q_task_id tid) db)
  end.

Definition purge_dlq (qn : option string) (db : Db) : nat * Db :=
  (get_dlq_count qn db,
   with_dlq (λ l, match qn with
                  | Some q => if truthy_str q then filter (λ r, q_queue_name r ≠ q) l else []
                  | None => []
                  end) db).

Definition set_metadata (k v : string) (db : Db) : Db :=
  with_metadata (upsert fst (k, v)) db.

Definition get_metadata (k : string) (db : Db) : option string :=
  snd <$> select_key fst k (broker_metadata db).

Definition clear_all_data (db : Db) : Db := empty_db.

(** The [GROUP BY status] count and the size of the dead letter table. *)
Definition get_stats (db : Db) : gmap string nat * nat :=
  (foldr (λ r m, partial_alter (λ o, Some (S (default 0 o))) (r_status r) m) ∅ (tasks db),
   length (dead_letter_queue db)).
End methods.

(** ** Table lemmas *)

Section table_lemmas.
  Context {R : Type} (key : R → string).
  Implicit Types (l : list R) (r : R).

Definition pk_unique l : Prop := NoDup (key <$> l).

Lemma delete_key_unique k l : pk_unique l → pk_unique (delete_key key k l).
Proof.
  unfold pk_unique, delete_key. intros H.
  eapply sublist_NoDup; [exact H|]. apply fmap_sublist, sublist_filter.
Qed.

Lemma delete_key_elem k l r : r ∈ delete_key key k l ↔ r ∈ l ∧ key r ≠ k.
Proof. unfold delete_key. rewrite list_elem_of_filter. tauto. Qed.

Lemma upsert_elem r' l r : r ∈ upsert key r' l ↔ r = r' ∨ (r ∈ l ∧ key r ≠ key r').
Proof.
  unfold upsert. rewrite elem_of_app, delete_key_elem, list_elem_of_singleton. tauto.
Qed.

Lemma upsert_unique r l : pk_unique l → pk_unique (upsert key r l).
Proof.
  intros H. unfold pk_unique, upsert. rewrite fmap_app. apply NoDup_app_comm. cbn.
  apply NoDup_cons. split; [|by apply delete_key_unique].
  intros (r'&E&Hr'%delete_key_elem)%list_elem_of_fmap. naive_solver.
Qed.

Lemma update_key_unique f k l :
  (∀ r, key (f r) = key r) → pk_unique l → pk_unique (update_key key f k l).
Proof.
  intros Hf. unfold pk_unique, update_key. rewrite <- list_fmap_compose.
  replace (key ∘ (λ r, if decide (key r = k) then f r else r) <$> l) with (key <$> l); [done|].
  apply list_fmap_ext. intros i r _. cbn. by case_decide.
Qed.

Lemma update_key_elem f k l r :
  r ∈ update_key key f k l ↔
    (r ∈ l ∧ key r ≠ k) ∨ (∃ r0, r0 ∈ l ∧ key r0 = k ∧ r = f r0).
Proof.
  unfold update_key. rewrite list_elem_of_fmap. split.
  - intros (r0&->&Hr0). case_decide; [right; eauto|left; done].
  - intros [[Hr Hk]|(r0&Hr0&Hk&->)]; [exists r|exists r0]; by case_decide.
Qed.

(** The row of a key, when the key is unique. *)
Lemma select_key_Some l k r :
  pk_unique l → select_key key k l = Some r ↔ r ∈ l ∧ key r = k.
Proof.
  unfold pk_unique, select_key. induction l as [|x l IH].
  { intros _. split; [done|]. intros [H _]. by apply not_elem_of_nil in H. }
  rewrite fmap_cons. intros [Hx Hl]%NoDup_cons. rewrite filter_cons. case_decide as E; cbn.
  - split; [intros [= <-]; split; [left|done]|]. intros [[->|Hin]%elem_of_cons Hk]; [done|].
    destruct Hx. rewrite E, <- Hk. by apply list_elem_of_fmap_2.
  - rewrite (IH Hl), elem_of_cons. naive_solver.
Qed.

Lemma select_key_None l k : select_key key k l = None ↔ k ∉ key <$> l.
Proof.
  unfold select_key. rewrite list_elem_of_fmap. destruct (filter _ l) as [|x l'] eqn:E; cbn.
  - split; [|done]. intros _ (r&->&Hr).
    assert (r ∈ filter (λ r', key r' = key r) l) as Hf by (by apply list_elem_of_filter).
    rewrite E in Hf. by apply not_elem_of_nil in Hf.
  - split; [done|]. intros H. destruct H. exists x.
    assert (x ∈ filter (λ r, key r = k) l) as Hf by (rewrite E; left).
    apply list_elem_of_filter in Hf. naive_solver.
Qed.

Lemma count_key_pos l k : 0 < count_key key k l ↔ k ∈ key <$> l.
Proof.
  unfold count_key. pose proof (select_key_None l k) as H. unfold select_key in H.
  destruct (filter _ l) as [|x l'] eqn:E; cbn in *.
  - split; [lia|]. intros Hk. by destruct (proj1 H eq_refl Hk).
  - split; [|lia]. intros _. destruct (decide (k ∈ key <$> l)); [done|].
    by apply H in n.
Qed.
End table_lemmas.

(** [ORDER BY] permutes and sorts. *)
Section order_lemmas.
  Context {R : Type} (key : R → Q).

Lemma insert_asc_perm x l : insert_asc key x l ≡ₚ x :: l.
Proof.
  induction l as [|y l IH]; cbn; [done|]. destruct (Qle_bool _ _); [done|].
  rewrite IH. apply Permutation_swap.
Qed.

Lemma order_asc_perm l : order_asc key l ≡ₚ l.
Proof. induction l as [|x l IH]; cbn; [done|]. by rewrite insert_asc_perm, IH. Qed.

Definition le_key (x y : R) : Prop := (key x <= key y)%Q.

Lemma insert_asc_sorted x l : Sorted le_key l → Sorted le_key (insert_asc key x l).
Proof.
  induction 1 as [|y l Hl IH Hy]; cbn; [by repeat constructor|].
  destruct (Qle_bool (key x) (key y)) eqn:E; qreflect.
  - constructor; [by constructor|]. by constructor.
  - constructor; [done|]. destruct l as [|z l]; cbn in *.
    + constructor. unfold le_key. lra.
    + inversion Hy; subst. destruct (Qle_bool (key x) (key z)); constructor; unfold le_key in *; lra.
Qed.

Lemma order_asc_sorted l : Sorted le_key (order_asc key l).
Proof. induction l as [|x l IH]; cbn; [constructor|by apply insert_asc_sorted]. Qed.
End order_lemmas.
End Wal.
