(* ===== verification/Durability.v ===== *)
(** * Transactions of the WAL store ([persistence/wal_store.py])

The methods of [WALStore] as the SQL statements they send, over a
connection with Python's transaction rules: a data modification outside a
transaction first opens one, [conn.commit()] ends it, and a second [BEGIN]
is an error.  Before every statement the outside world decides whether the
statement succeeds, fails in SQLite -- which keeps the open transaction
after most errors (database locked) and rolls it back itself after some
(disk full, I/O error) -- or whether the process dies.  The theorems relate this reading to the
functional one of [WalStore.v]: each call is all or nothing, and what a
crash leaves behind is the effect of a prefix of the calls. *)

From S2P Require Import Prelude PyDict Json JsonText DeadLetter WalStore.
Import Wal.

Module Tx.

(** ** Connections and statements *)

(** [committed] is what other connections, and the next process, read;
    [working] is the open transaction's view, when one is open. *)
Record Conn := mkConn { committed : Db; working : option Db }.

Definition idle (db : Db) : Conn := mkConn db None.

Definition reading (c : Conn) : Db := default (committed c) (working c).

Inductive Stmt :=
  | SqlBegin                (* conn.execute("BEGIN") *)
  | SqlCommit               (* conn.execute("COMMIT") *)
  | SqlRollback             (* conn.execute("ROLLBACK") *)
  | Dml (f : Db → Db)       (* conn.execute of an INSERT, UPDATE or DELETE *)
  | PyCommit                (* conn.commit() *)
  | PyRollback.             (* conn.rollback() *)

(** The module opens a transaction before the first data modification. *)
Definition implicit_begin (c : Conn) : Conn := mkConn (committed c) (Some (reading c)).

(** [None]: SQLite refuses the statement in this state. *)
Definition exec_stmt (s : Stmt) (c : Conn) : option Conn :=
  match s, working c with
  | SqlBegin, None => Some (mkConn (committed c) (Some (committed c)))
  | SqlBegin, Some _ => None
  | SqlCommit, Some w => Some (idle w)
  | SqlCommit, None => None
  | SqlRollback, Some _ => Some (idle (committed c))
  | SqlRollback, None => None
  | Dml f, _ => Some (mkConn (committed c) (Some (f (reading c))))
  | PyCommit, _ => Some (idle (reading c))
  | PyRollback, _ => Some (idle (committed c))
  end.

(** The state a statement leaves that SQLite refuses while it keeps the open
    transaction: the implicit [BEGIN] of a data modification has already
    happened, a failed commit or rollback leaves its transaction open. *)
Definition faulted (s : Stmt) (c : Conn) : Conn :=
  match s with Dml _ => implicit_begin c | _ => c end.

(** The state a failing statement leaves when SQLite rolls back by itself. *)
Definition rolled_back (c : Conn) : Conn := idle (committed c).

(** Method bodies. *)
Inductive Cmd :=
  | Skip
  | Exec (s : Stmt) (k : Cmd)
  | Query (k : Db → Cmd)          (* SELECT: the rest depends on what is read *)
  | TryExcept (body handler k : Cmd). (* try: body  except: handler; raise *)

(** [Fault] keeps the transaction, [Abort] rolls it back. *)
Inductive Outcome := Ok | Fault | Abort | Crash.

Inductive Result :=
  | Done (c : Conn) (os : list Outcome)
  | Raised (c : Conn) (os : list Outcome)
  | Crashed (db : Db).

(** The outcomes are consumed one per statement; when they run out every
    further statement succeeds. *)
Fixpoint run (m : Cmd) (os : list Outcome) (c : Conn) : Result :=
  match m with
  | Skip => Done c os
  | Query k => run (k (reading c)) os c
  | Exec s k =>
      match os with
      | Crash :: _ => Crashed (committed c)
      | Fault :: os => Raised (faulted s c) os
      | Abort :: os => Raised (rolled_back c) os
      | _ =>
          match exec_stmt s c with
          | Some c => run k (tail os) c
          | None => Raised c (tail os)
          end
      end
  | TryExcept body handler k =>
      match run body os c with
      | Done c os => run k os c
      | Raised c os =>
          match run handler os c with
          | Done c os => Raised c os
          | r => r
          end
      | Crashed db => Crashed db
      end
  end.

(** ** The methods of [WALStore] *)

Inductive Call :=
  | SaveTask (x : Task) (now : Q)
  | UpdateTaskStatus (tid st : string) (att : option Z) (w : option string) (now : Q)
  | DeleteTask (tid : string)
  | AddToDlq (x : Task) (error : string) (now : Q)
  | ReplayDlqTask (tid : string)
  | PurgeDlq (qn : option string)
  | SetMetadata (k v : string)
  | ClearAllData.

Section calls.
  Context `{codec : JsonCodec}.

(** The functional reading. *)
Definition denote (m : Call) (db : Db) : Db :=
  match m with
  | SaveTask x now => save_task x now db
  | UpdateTaskStatus tid st att w now => (update_task_status tid st att w now db).2
  | DeleteTask tid => (delete_task tid db).2
  | AddToDlq x e now => add_to_dlq x e now db
  | ReplayDlqTask tid => (replay_dlq_task tid db).2
  | PurgeDlq qn => (purge_dlq qn db).2
  | SetMetadata k v => set_metadata k v db
  | ClearAllData => clear_all_data db
  end.

Definition dml_commit (f : Db → Db) : Cmd := Exec (Dml f) (Exec PyCommit Skip).

Definition save_task_code (x : Task) (now : Q) : Cmd :=
  dml_commit (with_tasks (upsert r_task_id (task_row x now))).

(** One of four [UPDATE]s, chosen by which optional columns are given. *)
Definition update_task_status_code (tid st : string) (att : option Z) (w : option string)
    (now : Q) : Cmd :=
  let update set := dml_commit (with_tasks (update_key r_task_id set tid)) in
  match att, w with
  | Some a, Some w =>
      update (λ r, mkTaskRow (r_task_id r) (r_queue_name r) (r_payload r) st a (Some w)
                     (r_created_at r) now)
  | Some a, None =>
      update (λ r, mkTaskRow (r_task_id r) (r_queue_name r) (r_payload r) st a
                     (r_assigned_worker r) (r_created_at r) now)
  | None, Some w =>
      update (λ r, mkTaskRow (r_task_id r) (r_queue_name r) (r_payload r) st (r_attempts r)
                     (Some w) (r_created_at r) now)
  | None, None =>
      update (λ r, mkTaskRow (r_task_id r) (r_queue_name r) (r_payload r) st (r_attempts r)
                     (r_assigned_worker r) (r_created_at r) now)
  end.

Definition delete_task_code (tid : string) : Cmd :=
  dml_commit (with_tasks (delete_key r_task_id tid)).

Definition add_to_dlq_code (x : Task) (error : string) (now : Q) : Cmd :=
  Exec SqlBegin
    (TryExcept
       (Exec (Dml (with_dlq (upsert q_task_id (dlq_row x error now))))
          (Exec (Dml (with_tasks (delete_key r_task_id (task_id x))))
             (Exec SqlCommit Skip)))
       (Exec SqlRollback Skip)
       Skip).

Definition replay_dlq_task_code (tid : string) : Cmd :=
  Query (λ db,
    match select_key q_task_id tid (dead_letter_queue db) with
    | None => Skip
    | Some _ => dml_commit (with_dlq (delete_key q_task_id tid))
    end).

Definition purge_dlq_code (qn : option string) : Cmd :=
  match qn with
  | Some q =>
      if truthy_str q then dml_commit (with_dlq (filter (λ r, q_queue_name r ≠ q)))
      else dml_commit (with_dlq (λ _, []))
  | None => dml_commit (with_dlq (λ _, []))
  end.

Definition set_metadata_code (k v : string) : Cmd :=
  dml_commit (with_metadata (upsert fst (k, v))).

(** [with conn:] commits when the block ends and rolls back when it raises. *)
Definition clear_all_data_code : Cmd :=
  TryExcept
    (Exec (Dml (with_tasks (λ _, [])))
       (Exec (Dml (with_dlq (λ _, [])))
          (Exec (Dml (with_metadata (λ _, []))) (Exec PyCommit Skip))))
    (Exec PyRollback Skip)
    (Exec PyCommit Skip).

Definition code (m : Call) : Cmd :=
  match m with
  | SaveTask x now => save_task_code x now
  | UpdateTaskStatus tid st att w now => update_task_status_code tid st att w now
  | DeleteTask tid => delete_task_code tid
  | AddToDlq x e now => add_to_dlq_code x e now
  | ReplayDlqTask tid => replay_dlq_task_code tid
  | PurgeDlq qn => purge_dlq_code qn
  | SetMetadata k v => set_metadata_code k v
  | ClearAllData => clear_all_data_code
  end.

(** A client's calls one after the other on its connection; an exception
    ends the session. *)
Fixpoint session (ms : list Call) (os : list Outcome) (c : Conn) : Result :=
  match ms with
  | [] => Done c os
  | m :: ms =>
      match run (code m) os c with
      | Done c os => session ms os c
      | r => r
      end
  end.

(** ** Every call is all or nothing *)

(** The connection a result leaves, read from another process. *)
Definition survivor (r : Result) : Db :=
  match r with
  | Done c _ | Raised c _ => committed c
  | Crashed db => db
  end.

(** A finished call has done its work and closed its transaction; one that
    did not finish has left the database as it was, except that clearing
    the store commits before its [with] block ends. *)
Definition all_or_nothing (m : Call) (db : Db) (r : Result) : Prop :=
  match r with
  | Done c _ => c = idle (denote m db)
  | _ => survivor r = db ∨ (m = ClearAllData ∧ survivor r = empty_db)
  end.

Lemma dml_commit_run f os db :
  match run (dml_commit f) os (idle db) with
  | Done c _ => c = idle (f db)
  | r => survivor r = db
  end.
Proof. by destruct os as [|[] [|[] ?]]. Qed.

Lemma dml_commit_all_or_nothing m f os db :
  f db = denote m db → all_or_nothing m db (run (dml_commit f) os (idle db)).
Proof.
  intros E. pose proof (dml_commit_run f os db) as Hrun. unfold all_or_nothing.
  destruct (run _ _ _); [by rewrite <- E|by left..].
Qed.

Lemma update_code_agrees tid st att w now :
  update_task_status_code tid st att w now =
    dml_commit (with_tasks (update_key r_task_id (set_row st att w now) tid)).
Proof. by destruct att, w. Qed.

Lemma code_all_or_nothing m os db : all_or_nothing m db (run (code m) os (idle db)).
Proof.
  destruct m as [x now|tid st att w now|tid|x e now|tid|qn|k v|]; cbn [code].
  - by apply dml_commit_all_or_nothing.
  - rewrite update_code_agrees. by apply dml_commit_all_or_nothing.
  - by apply dml_commit_all_or_nothing.
  - destruct os as [|[] [|[] [|[] [|[] [|[] ?]]]]]; cbn; auto.
  - unfold replay_dlq_task_code. cbn [run]. change (reading (idle db)) with db.
    destruct (select_key q_task_id tid (dead_letter_queue db)) eqn:E.
    + apply dml_commit_all_or_nothing. cbn. unfold replay_dlq_task. by rewrite E.
    + cbn. unfold replay_dlq_task. by rewrite E.
  - unfold purge_dlq_code. destruct qn as [q|]; [destruct (truthy_str q) eqn:E|];
      apply dml_commit_all_or_nothing; cbn; by rewrite ?E.
  - by apply dml_commit_all_or_nothing.
  - by destruct os as [|[] [|[] [|[] [|[] [|[] [|[] ?]]]]]]; cbn; auto.
Qed.

Lemma code_completes m db : run (code m) [] (idle db) = Done (idle (denote m db)) [].
Proof.
  destruct m as [x now|tid st att w now|tid|x e now|tid|qn|k v|]; cbn [code]; try done.
  - by rewrite update_code_agrees.
  - unfold replay_dlq_task_code. cbn [run]. change (reading (idle db)) with db.
    cbn [denote]. unfold replay_dlq_task.
    by destruct (select_key q_task_id tid (dead_letter_queue db)).
  - destruct qn as [q|]; cbn; [|done]. by destruct (truthy_str q) eqn:E; cbn.
Qed.

(** C19.  Whatever fails and whenever the process dies, each store call is
    all or nothing: if it returns, the database is the one its functional
    reading describes and no transaction is left open; if it raises or
    dies, the database is the one before the call (or, for
    [clear_all_data], the wiped one).  Without faults it does return. *)
Theorem store_calls_are_atomic m db :
  (∀ os, all_or_nothing m db (run (code m) os (idle db))) ∧
  run (code m) [] (idle db) = Done (idle (denote m db)) [].
Proof.
  split; [intros os; apply code_all_or_nothing|apply code_completes].
Qed.

(** ** Sessions *)

(** The database after a prefix of the calls. *)
Definition after_prefix (ms : list Call) (db d : Db) : Prop :=
  ∃ done_ rest, ms = done_ ++ rest ∧ d = foldl (flip denote) db done_.

Lemma after_prefix_cons m ms db d :
  after_prefix ms (denote m db) d → after_prefix (m :: ms) db d.
Proof. intros (ms1&ms2&->&->). by exists (m :: ms1), ms2. Qed.

Lemma all_or_nothing_prefix m ms db r :
  all_or_nothing m db r → after_prefix (m :: ms) db (survivor r).
Proof.
  assert (after_prefix (m :: ms) db db) as H0 by (by exists [], (m :: ms)).
  assert (after_prefix (m :: ms) db (denote m db)) as H1 by (by exists [m], ms).
  destruct r; cbn; [intros ->; done|intros [->|[-> ->]]; done..].
Qed.

Lemma session_prefix ms os db :
  after_prefix ms db (survivor (session ms os (idle db))) ∧
  (∀ c os', session ms os (idle db) = Done c os' → c = idle (foldl (flip denote) db ms)).
Proof.
  revert os db. induction ms as [|m ms IH]; intros os db; cbn [session].
  { split; [by exists [], []|by intros c os' [= <- <-]]. }
  pose proof (code_all_or_nothing m os db) as Hm.
  pose proof (all_or_nothing_prefix m ms db _ Hm) as Hp.
  destruct (run (code m) os (idle db)) as [c os1|c os1|d]; [|by split..].
  cbn in Hm. subst c. destruct (IH os1 (denote m db)) as [IH1 IH2]. split; [|apply IH2].
  by apply after_prefix_cons.
Qed.

(** C18.  Crash durability.  However a session of store calls ends
    (normally, by an exception or by the death of the process at any
    statement), the database the next process opens is the result of a
    prefix of the calls, never of half a call; and when the session
    ends normally it is the result of all of them. *)
Theorem crash_keeps_a_prefix_of_calls ms os db :
  after_prefix ms db (survivor (session ms os (idle db))) ∧
  (∀ c os', session ms os (idle db) = Done c os' →
    c = idle (foldl (flip denote) db ms)).
Proof. apply session_prefix. Qed.

(** [add_to_dlq] when any of its four statements fails (the [BEGIN], the
    [INSERT], the [DELETE] or the [COMMIT]): an exception reaches the
    caller -- that of the [ROLLBACK], when SQLite has rolled back already --,
    no transaction is left open, and the task is still in the [tasks] table
    as it was. *)
Theorem failed_dead_letter_move_rolls_back x e now db n f :
  n < 4 → f = Fault ∨ f = Abort →
  run (code (AddToDlq x e now)) (replicate n Ok ++ [f]) (idle db) =
    Raised (idle db) [].
Proof. intros Hn [->| ->]; do 4 (destruct n as [|n]; [done|]); lia. Qed.

(** ** Primary keys *)

Definition db_wf (db : Db) : Prop :=
  pk_unique r_task_id (tasks db) ∧ pk_unique q_task_id (dead_letter_queue db) ∧
  pk_unique fst (broker_metadata db).

Lemma filter_unique {R} (key : R → string) (P : R → Prop) `{!∀ r, Decision (P r)} l :
  pk_unique key l → pk_unique key (filter P l).
Proof.
  unfold pk_unique. intros Hl. eapply sublist_NoDup; [exact Hl|].
  apply fmap_sublist, sublist_filter.
Qed.

Lemma nil_unique {R} (key : R → string) : pk_unique key [].
Proof. apply NoDup_nil_2. Qed.

Hint Resolve upsert_unique delete_key_unique filter_unique nil_unique : core.

Lemma denote_wf m db : db_wf db → db_wf (denote m db).
Proof.
  unfold db_wf. intros (Ht&Hd&Hm).
  destruct m as [x now|tid st att w now|tid|x e now|tid|qn|k v|]; cbn; auto.
  - split_and!; auto. by apply update_key_unique.
  - unfold replay_dlq_task. destruct (select_key q_task_id tid _); cbn; auto.
  - split_and!; auto. destruct qn as [q|]; [destruct (truthy_str q)|]; auto.
Qed.

Lemma foldl_denote_wf ms db : db_wf db → db_wf (foldl (flip denote) db ms).
Proof. revert db. induction ms as [|m ms IH]; cbn; auto using denote_wf. Qed.
End calls.

#[local] Existing Instance JsonText.codec.

Lemma failed_dead_letter_move_rolls_back_witness :
  run (code (AddToDlq (new_task "a" "q" JNull 0) "boom" 1)) (replicate 2 Ok ++ [Fault])
      (idle empty_db) = Raised (idle empty_db) [].
Proof.
  apply (failed_dead_letter_move_rolls_back (new_task "a" "q" JNull 0) "boom" 1 empty_db 2); [lia|by left].
Defined.
End Tx.
