(* ===== verification/StoreFile.v ===== *)
(** * The store's file and connection ([persistence/wal_store.py])

[WALStore] opens its connection lazily and keeps it until [close]; the
constructor creates the tables that are missing.  This file puts the calls
of [Durability] on such a connection, over a file that outlives it, and
looks at what happens between calls: closing, reopening and restarting lose
nothing, and what an exception leaves behind on the connection.

The broker uses the store from one thread, so there is one thread-local
connection.  The path is a file (an in-memory database ends with its
connection). *)

From S2P Require Import Prelude PyDict Json JsonText DeadLetter WalStore Durability.
Import Wal Tx.

Module StoreFile.

(** ** Files *)

(** The tables of a database file; [None]: not created yet. *)
Record File := mkFile {
  f_tasks : option (list TaskRow);
  f_dead_letter_queue : option (list DlqRow);
  f_broker_metadata : option (list (string * string));
}.

Definition new_file : File := mkFile None None None.

(** [CREATE TABLE IF NOT EXISTS], three times. *)
Definition create_tables (f : File) : File :=
  mkFile (Some (default [] (f_tasks f))) (Some (default [] (f_dead_letter_queue f)))
    (Some (default [] (f_broker_metadata f))).

Definition contents (f : File) : Db :=
  mkDb (default [] (f_tasks f)) (default [] (f_dead_letter_queue f))
    (default [] (f_broker_metadata f)).

Definition file_of (db : Db) : File :=
  mkFile (Some (tasks db)) (Some (dead_letter_queue db)) (Some (broker_metadata db)).

Lemma contents_file_of db : contents (file_of db) = db.
Proof. by destruct db. Qed.

Lemma contents_create f : contents (create_tables f) = contents f.
Proof. by destruct f. Qed.

(** ** The store *)

Record t := mk { file : File; _conn : option Conn }.

(** [sqlite3.connect] when there is no connection. *)
Definition _get_conn (s : t) : Conn := default (idle (contents (file s))) (_conn s).

Definition _init_db (s : t) : t :=
  let f := create_tables (file s) in mk f (Some (idle (contents f))).

(** [WALStore(db_path)] on an existing or a new file. *)
Definition open_store (f : File) : t := _init_db (mk f None).

(** Closing a connection discards its open transaction. *)
Definition close (s : t) : t := mk (file s) None.

Section store.
Context `{codec : JsonCodec}.

(** How a call ends: it returns, raises, or the process dies in it. *)
Inductive Ending := Returns | Raises | Dies.

Definition call (m : Call) (os : list Outcome) (s : t) : Ending * t :=
  match run (code m) os (_get_conn s) with
  | Done c _ => (Returns, mk (file_of (committed c)) (Some c))
  | Raised c _ => (Raises, mk (file_of (committed c)) (Some c))
  | Crashed db => (Dies, mk (file_of db) None)
  end.

(** ** Closing and restarting *)

Inductive Op := Do (m : Call) | Close | Restart.

Definition perform (o : Op) (s : t) : t :=
  match o with
  | Do m => (call m [] s).2
  | Close => close s
  | Restart => open_store (file s)
  end.

Definition calls_of (ops : list Op) : list Call :=
  omap (λ o, match o with Do m => Some m | _ => None end) ops.

(** No transaction is open, and the connection sees the file. *)
Definition settled (s : t) : Prop :=
  match _conn s with Some c => c = idle (contents (file s)) | None => True end.

Lemma settled_conn s : settled s → _get_conn s = idle (contents (file s)).
Proof. unfold settled, _get_conn. by destruct (_conn s). Qed.

Lemma call_completes m s :
  settled s →
  (call m [] s).1 = Returns ∧ settled (call m [] s).2 ∧
  contents (file (call m [] s).2) = denote m (contents (file s)).
Proof.
  intros Hs. unfold call. rewrite settled_conn, code_completes by done. cbn [fst snd].
  unfold settled. cbn [_conn file]. by rewrite contents_file_of.
Qed.

Lemma perform_settled ops s :
  settled s →
  settled (foldl (flip perform) s ops) ∧
  contents (file (foldl (flip perform) s ops)) = foldl (flip denote) (contents (file s)) (calls_of ops).
Proof.
  revert s. induction ops as [|o ops IH]; intros s Hs; [done|]. cbn [foldl].
  change (flip perform s o) with (perform o s). destruct o as [m| |]; cbn [perform].
  - destruct (call_completes m s Hs) as (_&Hs'&Hc). destruct (IH _ Hs') as [? ->].
    split; [done|]. by rewrite Hc.
  - exact (IH (close s) I).
  - destruct (IH (open_store (file s)) (eq_refl _)) as [? ->]. split; [done|].
    by destruct (file s).
Qed.

(** The data survive the connection: whatever subset of the tables the
    file has at first, and however store calls are interleaved with [close]
    and with restarts of the process, the file holds the result of the
    calls, in order, on what it held before; every call reopens what it
    needs and returns. *)
Theorem reopening_is_transparent f ops m :
  let s := foldl (flip perform) (open_store f) ops in
  contents (file s) = foldl (flip denote) (contents f) (calls_of ops) ∧
  (call m [] s).1 = Returns ∧
  contents (file (call m [] s).2) = denote m (contents (file s)).
Proof.
  assert (settled (open_store f)) as Hf by reflexivity.
  destruct (perform_settled ops _ Hf) as [Hs Hc].
  destruct (call_completes m _ Hs) as (H1&_&H2). cbn zeta. split; [|done].
  rewrite Hc. by destruct f.
Qed.

(** ** After an exception *)

(** The calls that are one data modification and a commit. *)
Definition plain (m : Call) : Prop :=
  match m with
  | SaveTask _ _ | UpdateTaskStatus _ _ _ _ _ | DeleteTask _ | SetMetadata _ _ => True
  | _ => False
  end.

(** [conn.in_transaction] *)
Definition in_transaction (s : t) : bool :=
  match _conn s with Some c => bool_decide (is_Some (working c)) | None => false end.

(** A failing statement of such a call leaves the file as it is, and its
    transaction open unless SQLite has rolled it back. *)
Lemma plain_raises m os s :
  settled s → plain m → (call m os s).1 = Raises →
  ∃ o, (call m os s).2 =
      mk (file_of (contents (file s))) (Some (mkConn (contents (file s)) o)) ∧
    (Abort ∉ os → is_Some o).
Proof.
  intros Hs Hm. unfold call. rewrite settled_conn by done.
  destruct m; try done; cbn [code]; rewrite ?update_code_agrees;
    destruct os as [|[] [|[] os]]; cbn; try done; intros _; eexists; (split; [reflexivity|]);
    first [by eexists|intros Ha; destruct Ha; set_solver].
Qed.

(** A write on a connection with an open transaction commits it, too. *)
Lemma plain_commits m f db w :
  plain m →
  ∃ db', call m [] (mk f (Some (mkConn db (Some w)))) = (Returns, mk (file_of db') (Some (idle db'))).
Proof.
  intros Hm. unfold call, _get_conn. cbn [_conn default from_option id].
  destruct m; try done; cbn [code]; rewrite ?update_code_agrees; cbn; by eexists.
Qed.

Lemma add_returns x e now db :
  (call (AddToDlq x e now) [] (mk (file_of db) (Some (idle db)))).1 = Returns.
Proof. done. Qed.

(** C39.  A refused write blocks dead-lettering.  When a statement of an
    ordinary write fails, the exception may leave the implicit transaction
    open on the cached connection; it does whenever SQLite has not rolled it
    back by itself.  Then every [add_to_dlq] raises at its [BEGIN], which is
    outside its [try], and changes nothing, although nothing is wrong with
    the database: after another write that commits, or after [close], the
    same call returns.  If SQLite has rolled back, it returns at once. *)
Theorem failed_write_blocks_dead_lettering m os s x e now :
  settled s → plain m → (call m os s).1 = Raises →
  let s1 := (call m os s).2 in let add := AddToDlq x e now in
  contents (file s1) = contents (file s) ∧
  (Abort ∉ os → in_transaction s1 = true) ∧
  (if in_transaction s1
   then (∀ os', head os' ≠ Some Crash → head os' ≠ Some Abort →
           call add os' s1 = (Raises, s1)) ∧
        (∀ m', plain m' → let s2 := (call m' [] s1).2 in
           (call m' [] s1).1 = Returns ∧ (call add [] s2).1 = Returns) ∧
        (call add [] (close s1)).1 = Returns
   else (call add [] s1).1 = Returns).
Proof.
  intros Hs Hm Hr. destruct (plain_raises m os s Hs Hm Hr) as (o&->&Ho). cbn zeta.
  unfold in_transaction. cbn [_conn working file]. split_and!.
  - apply contents_file_of.
  - intros Ha. by apply bool_decide_eq_true, Ho.
  - destruct o as [w|]; [|apply add_returns]. split_and!.
    + intros os' Hc Ha. by destruct os' as [|[] os'].
    + intros m' Hm'. destruct (plain_commits m' (file_of (contents (file s))) (contents (file s)) w Hm')
        as [db' ->]. by split.
    + by apply call_completes.
Qed.
End store.

#[local] Existing Instance JsonText.codec.

(** The commit of a write finds the database locked. *)
Lemma failed_write_blocks_dead_lettering_witness :
  let x := new_task "t1" "q" (JObj []) 0 in
  let s := open_store new_file in
  let s1 := (call (SaveTask x 0) [Ok; Fault] s).2 in let add := AddToDlq x "error" 1 in
  contents (file s1) = contents (file s) ∧
  (Abort ∉ [Ok; Fault] → in_transaction s1 = true) ∧
  (if in_transaction s1
   then (∀ os', head os' ≠ Some Crash → head os' ≠ Some Abort →
           call add os' s1 = (Raises, s1)) ∧
        (∀ m', plain m' → let s2 := (call m' [] s1).2 in
           (call m' [] s1).1 = Returns ∧ (call add [] s2).1 = Returns) ∧
        (call add [] (close s1)).1 = Returns
   else (call add [] s1).1 = Returns).
Proof.
  exact (failed_write_blocks_dead_lettering (SaveTask (new_task "t1" "q" (JObj []) 0) 0) [Ok; Fault]
    (open_store new_file) (new_task "t1" "q" (JObj []) 0) "error" 1 eq_refl I eq_refl).
Defined.

Example failed_write_blocks :
  in_transaction (call (SaveTask (new_task "t1" "q" (JObj []) 0) 0) [Ok; Fault] (open_store new_file)).2 = true ∧
  in_transaction (call (SaveTask (new_task "t1" "q" (JObj []) 0) 0) [Abort] (open_store new_file)).2 = false.
Proof. split; reflexivity. Qed.
End StoreFile.
