(* ===== verification/Metrics.v ===== *)
(** * Metrics collector ([broker/metrics_collector.py])

Event timestamps per queue, dequeue times of the tracked tasks, a bounded
buffer of latency samples and the lifetime counters.  A [defaultdict] is a
dictionary whose subscript creates the missing entry; [.get] does not.
The collector's lock makes each method atomic; the monotonic clock reading
of a method is an argument. *)

From S2P Require Import Prelude PyDict Json.

Module Metrics.

Definition THROUGHPUT_WINDOW_SECONDS : Q := 10.
Definition MAX_LATENCY_SAMPLES : nat := 1000.

Record t := mk {
  _start_time : Q;
  _produce_times : dict string (list Q);
  _ack_times : dict string (list Q);
  _dequeue_timestamps : dict string Q;
  _task_queues : dict string string;
  _latency_samples : dict string (list Q);
  _total_produced : dict string Z;
  _total_consumed : dict string Z;
  _total_acked : dict string Z;
  _total_nacked : dict string Z;
  _total_dlq : dict string Z;
}.

Definition init (now : Q) : t := mk now [] [] [] [] [] [] [] [] [] [].

(** [d[k].append(x)] and [d[k] += 1] on a [defaultdict]. *)
Definition dd_append (k : string) (x : Q) (d : dict string (list Q)) : dict string (list Q) :=
  dset k (default [] (dget k d) ++ [x]) d.

Definition dd_append_max (n : nat) (k : string) (x : Q) (d : dict string (list Q)) :
    dict string (list Q) :=
  dset k (deque_append_max n (default [] (dget k d)) x) d.

Definition dd_incr (k : string) (d : dict string Z) : dict string Z :=
  dset k (default 0%Z (dget k d) + 1)%Z d.

(** [while timestamps and timestamps[0] < cutoff: timestamps.popleft()] *)
Fixpoint drop_before (cutoff : Q) (l : list Q) : list Q :=
  match l with
  | [] => []
  | x :: k => if Qltb x cutoff then drop_before cutoff k else l
  end.

Definition _prune_window (l : list Q) (now : Q) : list Q :=
  drop_before (now - THROUGHPUT_WINDOW_SECONDS)%Q l.

(** [reset] keeps [_dequeue_timestamps] and [_task_queues]. *)
Definition reset (now : Q) (m : t) : t :=
  mk now [] [] (_dequeue_timestamps m) (_task_queues m) [] [] [] [] [] [].

(** ** Recording *)

Definition record_produce (qn : string) (now : Q) (m : t) : t :=
  mk (_start_time m) (dd_append qn now (_produce_times m)) (_ack_times m)
     (_dequeue_timestamps m) (_task_queues m) (_latency_samples m)
     (dd_incr qn (_total_produced m)) (_total_consumed m) (_total_acked m) (_total_nacked m)
     (_total_dlq m).

Definition record_consume (qn tid : string) (now : Q) (m : t) : t :=
  mk (_start_time m) (_produce_times m) (_ack_times m)
     (dset tid now (_dequeue_timestamps m)) (dset tid qn (_task_queues m)) (_latency_samples m)
     (_total_produced m) (dd_incr qn (_total_consumed m)) (_total_acked m) (_total_nacked m)
     (_total_dlq m).

Definition record_ack (qn tid : string) (now : Q) (m : t) : t :=
  mk (_start_time m) (_produce_times m) (dd_append qn now (_ack_times m))
     (ddel tid (_dequeue_timestamps m)) (ddel tid (_task_queues m))
     (match dget tid (_dequeue_timestamps m) with
      | Some t0 => dd_append_max MAX_LATENCY_SAMPLES qn ((now - t0) * 1000)%Q (_latency_samples m)
      | None => _latency_samples m
      end)
     (_total_produced m) (_total_consumed m) (dd_incr qn (_total_acked m)) (_total_nacked m)
     (_total_dlq m).

Definition record_nack (qn tid : string) (dead_lettered : bool) (m : t) : t :=
  mk (_start_time m) (_produce_times m) (_ack_times m)
     (ddel tid (_dequeue_timestamps m)) (ddel tid (_task_queues m)) (_latency_samples m)
     (_total_produced m) (_total_consumed m) (_total_acked m) (dd_incr qn (_total_nacked m))
     (if dead_lettered then dd_incr qn (_total_dlq m) else _total_dlq m).

(** ** Queries *)

Definition with_ack_times (d : dict string (list Q)) (m : t) : t :=
  mk (_start_time m) (_produce_times m) d (_dequeue_timestamps m) (_task_queues m)
     (_latency_samples m) (_total_produced m) (_total_consumed m) (_total_acked m)
     (_total_nacked m) (_total_dlq m).

Definition with_produce_times (d : dict string (list Q)) (m : t) : t :=
  mk (_start_time m) d (_ack_times m) (_dequeue_timestamps m) (_task_queues m)
     (_latency_samples m) (_total_produced m) (_total_consumed m) (_total_acked m)
     (_total_nacked m) (_total_dlq m).

(** The deque of a known queue is pruned in place; an unknown one reads as
    empty and is not created.  [count / 10] is [0.0] for an empty window. *)
Definition window_rate (qn : string) (now : Q) (d : dict string (list Q)) :
    Q * dict string (list Q) :=
  let l := _prune_window (default [] (dget qn d)) now in
  (if bool_decide (length l = 0) then 0%Q
   else (inject_Z (Z.of_nat (length l)) / THROUGHPUT_WINDOW_SECONDS)%Q,
   match dget qn d with Some _ => dset qn l d | None => d end).

Definition throughput (qn : string) (now : Q) (m : t) : Q * t :=
  let '(r, d) := window_rate qn now (_ack_times m) in (r, with_ack_times d m).

Definition produce_rate (qn : string) (now : Q) (m : t) : Q * t :=
  let '(r, d) := window_rate qn now (_produce_times m) in (r, with_produce_times d m).

#[export] Instance Qle_dec : RelDecision Qle.
Proof.
  intros x y. destruct (Qle_bool x y) eqn:E; [left|right]; [by apply Qle_bool_iff|].
  intros H%Qle_bool_iff. congruence.
Defined.

(** [int(x)]: truncation towards zero. *)
Definition py_int (x : Q) : Z := Z.quot (Qnum x) (Z.pos (Qden x)).

(** [l[i]]: a negative index counts from the end; [None] is [IndexError]. *)
Definition py_index {A} (l : list A) (i : Z) : option A :=
  if (i <? 0)%Z
  then (let j := i + Z.of_nat (length l) in
        if j <? 0 then None else l !! Z.to_nat j)%Z
  else l !! Z.to_nat i.

(** The two lines of [percentile_latency] that choose the index. *)
Definition percentile_index (n : nat) (p : Q) : Z :=
  Z.min (py_int (inject_Z (Z.of_nat n) * p / 100)) (Z.of_nat n - 1).

Definition percentile_latency (qn : string) (p : Q) (m : t) : option Q :=
  let samples := default [] (dget qn (_latency_samples m)) in
  if bool_decide (samples = []) then Some 0%Q
  else
    let samples := merge_sort Qle samples in
    py_index samples (percentile_index (length samples) p).

Definition p50_latency (qn : string) (m : t) : option Q := percentile_latency qn 50 m.
Definition p95_latency (qn : string) (m : t) : option Q := percentile_latency qn 95 m.
Definition p99_latency (qn : string) (m : t) : option Q := percentile_latency qn 99 m.

Definition uptime_seconds (now : Q) (m : t) : Q := (now - _start_time m)%Q.

Definition counters_json (d : dict string Z) : Json := JObj ((λ p, (p.1, JInt p.2)) <$> d).

Definition get_stats (now : Q) (m : t) : Json :=
  JObj [("total_produced", counters_json (_total_produced m));
        ("total_consumed", counters_json (_total_consumed m));
        ("total_acked", counters_json (_total_acked m));
        ("total_nacked", counters_json (_total_nacked m));
        ("total_dlq", counters_json (_total_dlq m));
        ("uptime_seconds", JFloat (py_round 1 (uptime_seconds now m)));
        ("tracked_in_flight", JInt (Z.of_nat (length (_dequeue_timestamps m))))].

(** ** Snapshot *)

Record QueueMetrics := mkQueueMetrics {
  qm_depth : Z;
  qm_produce_rate : Q;
  qm_throughput : Q;
  qm_p50 : Q;
  qm_p95 : Q;
  qm_p99 : Q;
  qm_produced : Z;
  qm_acked : Z;
  qm_nacked : Z;
}.

Definition queue_metrics_json (x : QueueMetrics) : Json :=
  JObj [("depth", JInt (qm_depth x)); ("produce_rate", JFloat (qm_produce_rate x));
        ("throughput_per_second", JFloat (qm_throughput x));
        ("p50_latency_ms", JFloat (qm_p50 x)); ("p95_latency_ms", JFloat (qm_p95 x));
        ("p99_latency_ms", JFloat (qm_p99 x)); ("total_produced", JInt (qm_produced x));
        ("total_acked", JInt (qm_acked x)); ("total_nacked", JInt (qm_nacked x))].

(** One iteration of the loop; [None] would be an [IndexError]. *)
Definition queue_snapshot (now : Q) (name : string) (m : t) : option QueueMetrics * t :=
  let '(pr, m) := produce_rate name now m in
  let '(tp, m) := throughput name now m in
  (p50 ← p50_latency name m;
   p95 ← p95_latency name m;
   p99 ← p99_latency name m;
   Some (mkQueueMetrics 0 (py_round 1 pr) (py_round 1 tp)
     (py_round 1 p50) (py_round 1 p95) (py_round 1 p99)
     (default 0%Z (dget name (_total_produced m)))
     (default 0%Z (dget name (_total_acked m)))
     (default 0%Z (dget name (_total_nacked m)))),
   m).

Fixpoint snapshot_queues (now : Q) (names : list string) (acc : dict string QueueMetrics)
    (m : t) : option (dict string QueueMetrics) * t :=
  match names with
  | [] => (Some acc, m)
  | name :: names =>
      match queue_snapshot now name m with
      | (Some x, m) => snapshot_queues now names (dset name x acc) m
      | (None, m) => (None, m)
      end
  end.

Record Snapshot := mkSnapshot {
  sn_queues : dict string QueueMetrics;
  sn_uptime : Q;
  sn_tracked : Z;
}.

(** [snapshot(queue_names=names)], as the broker calls it. *)
Definition snapshot (now : Q) (names : list string) (m : t) : option Snapshot * t :=
  let '(qs, m) := snapshot_queues now names [] m in
  ((λ qs, mkSnapshot qs (py_round 1 (uptime_seconds now m))
            (Z.of_nat (length (_dequeue_timestamps m)))) <$> qs, m).

(** ** Percentiles *)

Lemma py_int_nonneg x : (0 <= x)%Q → py_int x = Qfloor x ∧ (0 <= py_int x)%Z.
Proof.
  intros H. unfold py_int, Qfloor. destruct x as [n d]. cbn.
  assert (0 <= n)%Z by (unfold Qle in H; cbn in H; lia).
  rewrite Z.quot_div_nonneg by lia. split; [done|]. apply Z.div_pos; lia.
Qed.

Lemma percentile_arg_nonneg n p : (0 <= p)%Q → (0 <= inject_Z (Z.of_nat n) * p / 100)%Q.
Proof.
  intros Hp. apply Qle_shift_div_l; [done|]. rewrite Qmult_0_l.
  apply Qmult_le_0_compat; [|done]. change 0%Q with (inject_Z 0). rewrite <- Zle_Qle. lia.
Qed.

Lemma percentile_index_range n p :
  0 < n → (0 <= p)%Q → (0 <= percentile_index n p < Z.of_nat n)%Z.
Proof.
  intros Hn Hp. unfold percentile_index.
  pose proof (percentile_arg_nonneg n p Hp) as Hx.
  apply py_int_nonneg in Hx as [_ ?]. lia.
Qed.

Lemma percentile_index_mono n p p' :
  (0 <= p)%Q → (p <= p')%Q → (percentile_index n p <= percentile_index n p')%Z.
Proof.
  intros Hp Hpp. unfold percentile_index.
  assert (0 <= inject_Z (Z.of_nat n))%Q as Hn.
  { change 0%Q with (inject_Z 0). rewrite <- Zle_Qle. lia. }
  assert (inject_Z (Z.of_nat n) * p <= inject_Z (Z.of_nat n) * p')%Q as Hm.
  { rewrite !(Qmult_comm (inject_Z _)). by apply Qmult_le_compat_r. }
  assert (inject_Z (Z.of_nat n) * p / 100 <= inject_Z (Z.of_nat n) * p' / 100)%Q as Hd.
  { by apply Qmult_le_compat_r. }
  pose proof (percentile_arg_nonneg n p Hp) as Hd0.
  destruct (py_int_nonneg (inject_Z (Z.of_nat n) * p / 100)) as [-> _]; [done|].
  destruct (py_int_nonneg (inject_Z (Z.of_nat n) * p' / 100)) as [-> _]; [lra|].
  apply Qfloor_resp_le in Hd. lia.
Qed.

#[export] Instance Qle_total : Total Qle.
Proof. intros x y. destruct (Qlt_le_dec x y); [left; lra|by right]. Qed.

#[export] Instance Qle_transitive : Transitive Qle.
Proof. intros x y z. apply Qle_trans. Qed.

Definition count_le (v : Q) (l : list Q) : nat := length (filter (λ x, (x <= v)%Q) l).
Definition count_ge (v : Q) (l : list Q) : nat := length (filter (λ x, (v <= x)%Q) l).

Lemma filter_all {A} (P : A → Prop) `{!∀ x, Decision (P x)} (l : list A) :
  Forall P l → filter P l = l.
Proof.
  induction 1 as [|x l Hx Hl IH]; [done|]. rewrite filter_cons_True by done. by rewrite IH.
Qed.

Lemma filter_none {A} (P : A → Prop) `{!∀ x, Decision (P x)} (l : list A) :
  Forall (λ x, ¬ P x) l → filter P l = [].
Proof. induction 1 as [|x l Hx Hl IH]; [done|]. by rewrite filter_cons_False. Qed.

(** Around position [i] of a sorted list. *)
Lemma sorted_rank (l : list Q) i v :
  StronglySorted Qle l → l !! i = Some v →
  S i <= count_le v l ∧ length l - i <= count_ge v l.
Proof.
  intros Hs Hi. assert (i < length l) as Hlt by (by eapply lookup_lt_Some).
  rewrite <- (take_drop_middle l i v Hi) in Hs.
  apply StronglySorted_app in Hs as (Hcross&_&Hdrop).
  apply StronglySorted_inv in Hdrop as [_ Hdrop].
  unfold count_le, count_ge. rewrite <- (take_drop_middle l i v Hi) at 1 3.
  rewrite !filter_app, !length_app, !filter_cons_True by lra. cbn [length]. split.
  - rewrite filter_all, length_take by (apply Forall_forall; intros x Hx; apply Hcross;
      [done|by left]). lia.
  - rewrite (filter_all _ (drop _ _)), length_drop by done. lia.
Qed.

Lemma filter_perm_length {A} (P : A → Prop) `{!∀ x, Decision (P x)} (l k : list A) :
  l ≡ₚ k → length (filter P l) = length (filter P k).
Proof. intros Hlk. by rewrite Hlk. Qed.

Lemma percentile_at qn p m samples :
  (0 <= p)%Q → dget qn (_latency_samples m) = Some samples → samples ≠ [] →
  ∃ v, percentile_latency qn p m = Some v ∧
    merge_sort Qle samples !! Z.to_nat (percentile_index (length samples) p) = Some v.
Proof.
  intros Hp E Hne. unfold percentile_latency. rewrite E. cbn [default id from_option].
  rewrite bool_decide_eq_false_2 by done.
  rewrite (Permutation_length (merge_sort_Permutation Qle samples)).
  assert (0 < length samples) as Hn by (destruct samples; [done|cbn; lia]).
  pose proof (percentile_index_range _ _ Hn Hp) as Hr. unfold py_index.
  rewrite (proj2 (Z.ltb_ge _ _)) by lia.
  destruct (lookup_lt_is_Some_2 (merge_sort Qle samples)
    (Z.to_nat (percentile_index (length samples) p))) as [v Hv]; [|eauto].
  rewrite (Permutation_length (merge_sort_Permutation Qle samples)). lia.
Qed.

Lemma StronglySorted_lookup (l : list Q) i j x y :
  StronglySorted Qle l → l !! i = Some x → l !! j = Some y → i <= j → (x <= y)%Q.
Proof.
  intros Hs Hi Hj Hij. destruct (decide (i = j)) as [->|Hne]; [simplify_eq; lra|].
  rewrite <- (take_drop_middle l i x Hi) in Hs.
  apply StronglySorted_app in Hs as (_&_&[_ Hd]%StronglySorted_inv).
  rewrite Forall_forall in Hd. apply Hd, list_elem_of_lookup.
  exists (j - S i). rewrite lookup_drop. by replace (S i + (j - S i)) with j by lia.
Qed.

Lemma percentile_rank qn p m samples :
  (0 <= p)%Q → dget qn (_latency_samples m) = Some samples → samples ≠ [] →
  ∃ v, percentile_latency qn p m = Some v ∧ v ∈ samples ∧
    let k := Z.to_nat (percentile_index (length samples) p) in
    S k <= count_le v samples ∧ length samples - k <= count_ge v samples.
Proof.
  intros Hp E Hne. destruct (percentile_at qn p m samples Hp E Hne) as (v&Hv&Hl).
  pose proof (merge_sort_Permutation Qle samples) as Hperm.
  exists v. split_and!; [done|rewrite <- Hperm; by eapply list_elem_of_lookup_2|].
  apply sorted_rank in Hl; [|apply StronglySorted_merge_sort; apply _].
  unfold count_le, count_ge in *. rewrite (Permutation_length Hperm) in Hl.
  by rewrite !(filter_perm_length _ _ _ Hperm) in Hl.
Qed.

(** ** Windows *)

Lemma drop_before_filter c l :
  StronglySorted Qle l → drop_before c l = filter (λ x, (c <= x)%Q) l.
Proof.
  induction 1 as [|x l Hl IH Hx]; cbn [drop_before]; [done|].
  destruct (Qltb x c) eqn:E; qreflect.
  - rewrite filter_cons_False by lra. done.
  - rewrite filter_cons_True by done. f_equal. symmetry. apply filter_all.
    eapply Forall_impl; [exact Hx|]. cbn. intros. lra.
Qed.
End Metrics.
