(* ===== verification/Observability.v ===== *)
(** * What the metrics collector reports ([broker/metrics_collector.py])

The sliding windows prune their deques in place on every query, so what a
query returns depends on the queries before it.  The theorems relate every
answer to the plain history of events: the rates count the events of the
last ten seconds whatever was queried in between, and the percentiles are
order statistics of the retained samples. *)

From S2P Require Import Prelude PyDict Json Metrics.
Import Metrics.

Module Observe.
  Local Open Scope Q_scope.

Inductive Event :=
  | EvProduce (qn : string) (now : Q)
  | EvConsume (qn tid : string) (now : Q)
  | EvAck (qn tid : string) (now : Q)
  | EvNack (qn tid : string) (dead_lettered : bool) (now : Q)
  | EvThroughput (qn : string) (now : Q)
  | EvProduceRate (qn : string) (now : Q)
  | EvReset (now : Q).

Definition apply_event (e : Event) (m : t) : t :=
  match e with
  | EvProduce qn now => record_produce qn now m
  | EvConsume qn tid now => record_consume qn tid now m
  | EvAck qn tid now => record_ack qn tid now m
  | EvNack qn tid dl _ => record_nack qn tid dl m
  | EvThroughput qn now => (throughput qn now m).2
  | EvProduceRate qn now => (produce_rate qn now m).2
  | EvReset now => reset now m
  end.

Definition event_time (e : Event) : Q :=
  match e with
  | EvProduce _ now | EvConsume _ _ now | EvAck _ _ now | EvNack _ _ _ now
  | EvThroughput _ now | EvProduceRate _ now | EvReset now => now
  end.

(** The clock is monotonic: no event is earlier than the one before it. *)
Fixpoint monotonic (last : Q) (es : list Event) (now : Q) : Prop :=
  match es with
  | [] => last <= now
  | e :: es => last <= event_time e ∧ monotonic (event_time e) es now
  end.

Definition run_events (es : list Event) (m : t) : t := foldl (flip apply_event) m es.

(** The specification: the times of all acknowledgements (productions) of a
    queue since the last reset, oldest first. *)
Definition next_acks (qn : string) (e : Event) (h : list Q) : list Q :=
  match e with
  | EvAck q _ now => if decide (q = qn) then h ++ [now] else h
  | EvReset _ => []
  | _ => h
  end.

Definition next_produced (qn : string) (e : Event) (h : list Q) : list Q :=
  match e with
  | EvProduce q now => if decide (q = qn) then h ++ [now] else h
  | EvReset _ => []
  | _ => h
  end.

Definition ack_history (qn : string) (es : list Event) : list Q :=
  foldl (flip (next_acks qn)) [] es.

Definition produce_history (qn : string) (es : list Event) : list Q :=
  foldl (flip (next_produced qn)) [] es.

(** Events of the history inside the window, per second. *)
Definition windowed_rate (h : list Q) (now : Q) : Q :=
  inject_Z (Z.of_nat (count_ge (now - THROUGHPUT_WINDOW_SECONDS) h)) / THROUGHPUT_WINDOW_SECONDS.

(** A deque holds the recent end of its history; what has been dropped was
    already outside the window. *)
Definition window_ok (last : Q) (h l : list Q) : Prop :=
  StronglySorted Qle h ∧ Forall (λ x, x <= last) h ∧
  ∃ dropped, h = dropped ++ l ∧ Forall (λ x, x < last - THROUGHPUT_WINDOW_SECONDS) dropped.

Lemma window_ok_nil last : window_ok last [] [].
Proof. split_and!; [constructor|done|by exists []]. Qed.

Lemma window_ok_later last now h l : last <= now → window_ok last h l → window_ok now h l.
Proof.
  intros Hle (Hs&Hf&dr&->&Hd). split_and!; [done| |exists dr; split; [done|]];
    (eapply Forall_impl; [eassumption|]; cbn; intros; lra).
Qed.

Lemma window_ok_append last now h l :
  last <= now → window_ok last h l → window_ok now (h ++ [now]) (l ++ [now]).
Proof.
  intros Hle Hw. pose proof (window_ok_later _ _ _ _ Hle Hw) as (Hs&Hf&dr&->&Hd).
  split_and!.
  - apply StronglySorted_app_2; [|done|by repeat constructor].
    intros x y Hx ->%list_elem_of_singleton. by apply (proj1 (Forall_forall _ _) Hf).
  - apply Forall_app; split; [done|]. constructor; [lra|done].
  - exists dr. by rewrite app_assoc.
Qed.

(** Pruning keeps exactly the window. *)
Lemma prune_window_spec now h l :
  window_ok now h l →
  _prune_window l now = filter (λ x, now - THROUGHPUT_WINDOW_SECONDS <= x) h.
Proof.
  intros (Hs&_&dr&->&Hd). apply StronglySorted_app in Hs as (_&_&Hl).
  unfold _prune_window. rewrite drop_before_filter by done. rewrite filter_app.
  rewrite (filter_none _ dr); [done|].
  eapply Forall_impl; [exact Hd|]. cbn. intros. lra.
Qed.

Lemma prune_suffix c l : ∃ dr, l = dr ++ drop_before c l ∧ Forall (λ x, x < c) dr.
Proof.
  induction l as [|x l (dr&E&Hd)]; cbn; [by exists []|].
  destruct (Qltb x c) eqn:Ec; qreflect; [|by exists []].
  exists (x :: dr). split; [cbn; by rewrite <- E|by constructor].
Qed.

Lemma window_ok_prune now h l : window_ok now h l → window_ok now h (_prune_window l now).
Proof.
  intros (Hs&Hf&dr&->&Hd). split_and!; [done|done|].
  destruct (prune_suffix (now - THROUGHPUT_WINDOW_SECONDS) l) as (dr'&E&Hd').
  exists (dr ++ dr'). split; [|by apply Forall_app].
  rewrite <- app_assoc. f_equal. exact E.
Qed.

(** ** The invariant of the collector *)

Definition windows (last : Q) (h : string → list Q) (d : dict string (list Q)) : Prop :=
  ∀ qn, window_ok last (h qn) (default [] (dget qn d)).

Lemma windows_later last now h d : last <= now → windows last h d → windows now h d.
Proof. intros Hle Hw qn. eapply window_ok_later; eauto. Qed.

Lemma windows_append last now q h d :
  last <= now → windows last h d →
  windows now (λ qn, if decide (q = qn) then h qn ++ [now] else h qn) (dd_append q now d).
Proof.
  intros Hle Hw qn. unfold dd_append. case_decide as E; [subst|].
  - rewrite dget_dset_eq. by eapply window_ok_append.
  - rewrite dget_dset_ne by done. by eapply window_ok_later.
Qed.

Lemma windows_prune now q h d : windows now h d → windows now h (window_rate q now d).2.
Proof.
  intros Hw qn. unfold window_rate. cbn [snd]. destruct (dget q d) as [l|] eqn:E; [|apply Hw].
  destruct (decide (q = qn)) as [->|Hne]; [|by rewrite dget_dset_ne].
  rewrite dget_dset_eq. specialize (Hw qn). rewrite E in *. by apply window_ok_prune.
Qed.

Lemma windows_nil last : windows last (λ _, []) [].
Proof. intros qn. apply window_ok_nil. Qed.

Lemma window_rate_spec now q h d :
  windows now h d → (window_rate q now d).1 == windowed_rate (h q) now.
Proof.
  intros Hw. unfold window_rate, windowed_rate, count_ge. cbn [fst].
  rewrite (prune_window_spec now (h q)) by apply Hw. case_bool_decide as E; [|done].
  by rewrite E.
Qed.

Definition collector_ok (last : Q) (ha hp : string → list Q) (m : t) : Prop :=
  windows last ha (_ack_times m) ∧ windows last hp (_produce_times m).

Lemma windows_ext last h h' d : (∀ q, h q = h' q) → windows last h d → windows last h' d.
Proof. intros E Hw q. rewrite <- E. apply Hw. Qed.

Lemma apply_event_ok e last ha hp m :
  last <= event_time e → collector_ok last ha hp m →
  collector_ok (event_time e) (λ q, next_acks q e (ha q)) (λ q, next_produced q e (hp q))
    (apply_event e m).
Proof.
  intros Hle [Ha Hp]. unfold collector_ok.
  pose proof (windows_later _ _ _ _ Hle Ha) as Ha'.
  pose proof (windows_later _ _ _ _ Hle Hp) as Hp'.
  destruct e as [qn now|qn tid now|qn tid now|qn tid dl now|qn now|qn now|now];
    cbn [apply_event next_acks next_produced event_time] in *; split;
    try exact Ha'; try exact Hp'.
  - by eapply windows_append.
  - by eapply windows_append.
  - exact (windows_prune now qn _ _ Ha').
  - exact (windows_prune now qn _ _ Hp').
  - apply windows_nil.
  - apply windows_nil.
Qed.

Lemma run_events_ok es last ha hp m now :
  monotonic last es now → collector_ok last ha hp m →
  collector_ok now (λ q, foldl (flip (next_acks q)) (ha q) es)
    (λ q, foldl (flip (next_produced q)) (hp q) es) (run_events es m).
Proof.
  revert last ha hp m. induction es as [|e es IH]; cbn; intros last ha hp m.
  - intros Hle [Ha Hp]. split; by apply (windows_later last).
  - intros [Hle Hm] Hok. exact (IH _ _ _ _ Hm (apply_event_ok _ _ _ _ _ Hle Hok)).
Qed.

Lemma collector_ok_init t0 : collector_ok t0 (λ _, []) (λ _, []) (init t0).
Proof. split; apply windows_nil. Qed.

(** C30.  After any run of events on a monotonic clock, including queries
    and resets in any order, the throughput of a queue is the number of
    acknowledgements recorded for it in the last ten seconds (since the
    last reset) divided by ten, and the produce rate counts its productions
    the same way: pruning during earlier queries never changes an answer. *)
Theorem rates_count_the_window t0 es qn now :
  monotonic t0 es now →
  (throughput qn now (run_events es (init t0))).1 == windowed_rate (ack_history qn es) now ∧
  (produce_rate qn now (run_events es (init t0))).1
    == windowed_rate (produce_history qn es) now.
Proof.
  intros Hm. destruct (run_events_ok es t0 _ _ _ now Hm (collector_ok_init t0)) as [Ha Hp].
  apply (window_rate_spec now qn) in Ha, Hp. unfold throughput, produce_rate.
  destruct (window_rate qn now (_ack_times _)), (window_rate qn now (_produce_times _)).
  by split.
Qed.

Definition window_example : list Event :=
  [EvProduce "q" 1; EvAck "q" "a" 2; EvThroughput "q" 11; EvAck "q" "b" 12; EvThroughput "q" 13].

Lemma rates_count_the_window_witness :
  (throughput "q" 14 (run_events window_example (init 0))).1
    == windowed_rate (ack_history "q" window_example) 14 ∧
  (produce_rate "q" 14 (run_events window_example (init 0))).1
    == windowed_rate (produce_history "q" window_example) 14.
Proof. apply (rates_count_the_window 0 window_example "q" 14). cbn. repeat split; lra. Defined.

(** The latency percentile of a queue with samples, for [p] from 0 up,
    never fails: it is one of the samples, it has rank
    [min (floor (n * p / 100)) (n - 1)] among the [n] samples (that many
    others at or below it, the rest at or above it), and it grows with [p],
    so p50 <= p95 <= p99. *)
Theorem percentile_is_order_statistic qn p p' m samples :
  0 <= p → p <= p' → dget qn (_latency_samples m) = Some samples → samples ≠ [] →
  ∃ v v', percentile_latency qn p m = Some v ∧ percentile_latency qn p' m = Some v' ∧
    v ∈ samples ∧ v <= v' ∧
    (let k := Z.to_nat (Z.min (Qfloor (inject_Z (Z.of_nat (length samples)) * p / 100))
                              (Z.of_nat (length samples) - 1)) in
     (S k ≤ count_le v samples)%nat ∧ (length samples - k ≤ count_ge v samples)%nat).
Proof.
  intros Hp Hpp E Hne. destruct (percentile_rank qn p m samples Hp E Hne) as (v&Hv&Hin&Hr).
  destruct (percentile_at qn p m samples Hp E Hne) as (v0&Hv0&Hl0).
  assert (0 <= p') as Hp' by lra.
  destruct (percentile_at qn p' m samples Hp' E Hne) as (v'&Hv'&Hl').
  rewrite Hv in Hv0. injection Hv0 as <-. exists v, v'. split_and!; try done.
  - eapply StronglySorted_lookup; [apply StronglySorted_merge_sort|done..|]; [apply _..|].
    apply Z2Nat.inj_le; [apply percentile_index_range..|by apply percentile_index_mono]; try done;
      (destruct samples; [done|cbn; lia]).
  - unfold percentile_index in Hr.
    by rewrite (proj1 (py_int_nonneg _ (percentile_arg_nonneg (length samples) p Hp))) in Hr.
Qed.

Definition latency_example : t :=
  run_events [EvConsume "q" "a" 0; EvConsume "q" "b" 1; EvAck "q" "b" 2; EvAck "q" "a" 3]
    (init 0).

Definition latency_example_samples : list Q :=
  default [] (dget "q" (_latency_samples latency_example)).

Lemma percentile_is_order_statistic_witness :
  ∃ v v', percentile_latency "q" 50 latency_example = Some v ∧
    percentile_latency "q" 95 latency_example = Some v' ∧
    v ∈ latency_example_samples ∧ v <= v' ∧
    (let k := Z.to_nat (Z.min
         (Qfloor (inject_Z (Z.of_nat (length latency_example_samples)) * 50 / 100))
         (Z.of_nat (length latency_example_samples) - 1)) in
     (S k ≤ count_le v latency_example_samples)%nat ∧
     (length latency_example_samples - k ≤ count_ge v latency_example_samples)%nat).
Proof.
  apply (percentile_is_order_statistic "q" 50 95 latency_example latency_example_samples);
    [done|done|reflexivity|discriminate].
Defined.
End Observe.
