(* ===== verification/Server.v ===== *)
(** * Broker server ([broker/server.py]): state and command handlers

[BrokerServer] owns the queue manager, the registry, the load shedder, the
metrics collector and, when a database path is given, the WAL store.  The
handlers are written in a state-and-exception monad over that record and
read like the Python methods; an exception that leaves a handler reaches
the connection loop.  No handler awaits anything but the (uncontended)
locks of the components, so each runs to completion on the event loop.

The clock readings, the [uuid4], the peer address and the random choice
of one request are its environment [Env]; all readings of one clock during
a request are taken to be the same.  A wire message is represented by its
fields ([Message]): identifiers are strings, [None] an absent key. *)

From S2P Require Import Prelude PyDict Json DeadLetter QueueManager QueueInvariant WorkerRegistry Eviction LoadShedder WalStore Metrics.

(** The load shedder reads the depth of a queue from the queue manager and its
    latency from the registry. *)
#[export] Instance broker_signals : LoadSignals (QM.t * Registry.t) := {|
  sig_depth qn sys := QM.queue_depth qn sys.1;
  sig_latency_ms qn sys := Registry.average_latency_ms qn sys.2;
|}.

Module Server.

(** ** State *)

Record Broker := mkBroker {
  queue_manager : QM.t;
  worker_registry : Registry.t;
  load_shedder : Shedder.t;
  metrics : Metrics.t;
  wal_store : option Wal.Db;
  _active_connections : Z;
}.

Definition max_retries_default : Z := QM.default_max_retries.

(** [BrokerServer(..)]; [db] is the database found at [db_path], if any. *)
Definition new_broker (db : option Wal.Db) (mono : Q) : Broker :=
  mkBroker (QM.init max_retries_default) Registry.init Shedder.init (Metrics.init mono) db 0.

Record Env := mkEnv {
  e_time : Q;                 (* time.time() *)
  e_mono : Q;                 (* time.monotonic() *)
  e_uuid : string;            (* str(uuid.uuid4()) *)
  e_peer : string * Z;        (* writer.get_extra_info("peername") *)
  e_conn : nat;               (* the connection's stream writer *)
  e_pick : nat;               (* random.choice *)
  e_db_path : string;         (* self.wal_store.db_path *)
}.

Record Message := mkMessage {
  m_command : option string;
  m_queue : option string;
  m_task : option Json;
  m_worker_id : option string;
  m_task_id : option string;
  m_queues : option (list string);
  m_limit : option Z;
}.

(** ** The monad *)

(** [None]: an exception escapes, with the state as it was at that point. *)
Definition M (A : Type) : Type := Broker → option A * Broker.

#[export] Instance M_ret : MRet M := λ A a b, (Some a, b).

#[export] Instance M_bind : MBind M := λ A B k m b,
  match m b with
  | (Some a, b) => k a b
  | (None, b) => (None, b)
  end.

Definition raise {A} : M A := λ b, (None, b).

Definition get {A} (f : Broker → A) : M A := λ b, (Some (f b), b).

Definition set_qm (s : QM.t) (b : Broker) : Broker :=
  mkBroker s (worker_registry b) (load_shedder b) (metrics b) (wal_store b)
    (_active_connections b).

Definition set_registry (r : Registry.t) (b : Broker) : Broker :=
  mkBroker (queue_manager b) r (load_shedder b) (metrics b) (wal_store b)
    (_active_connections b).

Definition set_shedder (s : Shedder.t) (b : Broker) : Broker :=
  mkBroker (queue_manager b) (worker_registry b) s (metrics b) (wal_store b)
    (_active_connections b).

Definition set_metrics (m : Metrics.t) (b : Broker) : Broker :=
  mkBroker (queue_manager b) (worker_registry b) (load_shedder b) m (wal_store b)
    (_active_connections b).

Definition set_wal (w : option Wal.Db) (b : Broker) : Broker :=
  mkBroker (queue_manager b) (worker_registry b) (load_shedder b) (metrics b) w
    (_active_connections b).

Definition add_connections (n : Z) (b : Broker) : Broker :=
  mkBroker (queue_manager b) (worker_registry b) (load_shedder b) (metrics b) (wal_store b)
    (_active_connections b + n).

(** Calls into a component. *)
Definition on_qm {A} (f : QM.t → A * QM.t) : M A := λ b,
  let '(a, s) := f (queue_manager b) in (Some a, set_qm s b).

Definition on_registry {A} (f : Registry.t → A * Registry.t) : M A := λ b,
  let '(a, r) := f (worker_registry b) in (Some a, set_registry r b).

Definition on_shedder {A} (f : QM.t * Registry.t → Shedder.t → A * Shedder.t) : M A := λ b,
  let '(a, s) := f (queue_manager b, worker_registry b) (load_shedder b) in
  (Some a, set_shedder s b).

Definition on_metrics (f : Metrics.t → Metrics.t) : M unit := λ b,
  (Some tt, set_metrics (f (metrics b)) b).

(** A call on [self.wal_store] that is there. *)
Definition on_wal {A} (f : Wal.Db → A * Wal.Db) : M A := λ b,
  match wal_store b with
  | Some db => let '(a, db) := f db in (Some a, set_wal (Some db) b)
  | None => (None, b)
  end.

(** [if self.wal_store: .. else: ..] *)
Definition if_wal {A} (yes no : M A) : M A := λ b,
  match wal_store b with Some _ => yes b | None => no b end.

Definition save (x : Task) (now : Q) `{!JsonCodec} : M unit :=
  on_wal (λ db, (tt, Wal.save_task x now db)).

(** ** Responses *)

Definition error (reason : string) : Json :=
  JObj [("status", JStr "error"); ("reason", JStr reason)].

(** [if not x] for a field that should hold a string. *)
Definition given (o : option string) : option string :=
  match o with Some s => if truthy_str s then Some s else None | None => None end.

(** [task_payload is None]: absent, or JSON [null]. *)
Definition task_given (o : option Json) : option Json :=
  match o with Some JNull | None => None | Some p => Some p end.

(** [for t in reversed(queue): if t.task_id == tid: .. break] *)
Definition find_last (tid : string) (l : list Task) : option Task :=
  head (filter (λ x, task_id x = tid) (reverse l)).

(** ** Command handlers *)

Section handlers.
  Context `{codec : JsonCodec} (env : Env).

(** The persistence step [_handle_produce] and [_handle_dlq_replay] share. *)
Definition persist_enqueued (qn tid : string) : M unit :=
  s ← get queue_manager;
  match find_last tid (QM.queue_of qn s) with
  | Some x => save x (e_time env)
  | None => mret tt
  end.

Definition _handle_produce (m : Message) : M Json :=
  match given (m_queue m), task_given (m_task m) with
  | None, _ => mret (error "Missing 'queue' field")
  | Some _, None => mret (error "Missing 'task' field")
  | Some qn, Some p =>
      verdict ← on_shedder (λ sys, Shedder.check_and_consume qn sys (e_mono env) (e_mono env));
      let '(allowed, retry_after) := verdict in
      if negb allowed then
        mret (JObj [("status", JStr "rate_limited");
                    ("retry_after_seconds", JFloat retry_after);
                    ("reason", JStr "Queue overloaded. Please back off.")])
      else
        tid ← on_qm (QM.enqueue qn p (e_uuid env) (e_time env));
        _ ← on_metrics (Metrics.record_produce qn (e_mono env));
        _ ← if_wal (persist_enqueued qn tid) (mret tt);
        mret (JObj [("status", JStr "ok"); ("task_id", JStr tid)])
  end.

Definition _handle_consume (m : Message) : M Json :=
  match given (m_queue m), given (m_worker_id m) with
  | None, _ => mret (error "Missing 'queue' field")
  | Some _, None => mret (error "Missing 'worker_id' field")
  | Some qn, Some w =>
      task ← on_qm (QM.dequeue qn w);
      match task with
      | None => mret (JObj [("status", JStr "empty")])
      | Some d =>
          let tid := QM.d_task_id d in
          _ ← on_registry (λ r, (tt, Registry.assign_task w tid (e_mono env) r));
          _ ← on_metrics (Metrics.record_consume qn tid (e_mono env));
          _ ← if_wal
                (on_wal (Wal.update_task_status tid "in_flight" (Some (QM.d_attempts d))
                           (Some w) (e_time env)))
                (mret false);
          mret (JObj [("status", JStr "ok"); ("task", QM.delivery_json d)])
      end
  end.

Definition _handle_register (m : Message) : M Json :=
  match given (m_worker_id m) with
  | None => mret (error "Missing 'worker_id' field")
  | Some w =>
      is_new ← on_registry (Registry.register w (e_peer env) (default [] (m_queues m))
                              (Some (e_conn env)) (e_time env) (e_time env));
      mret (JObj [("status", JStr "ok"); ("registered", JBool is_new);
                  ("message", JStr ("Worker '" +:+ w +:+ "' registered"))])
  end.

Definition _handle_heartbeat (m : Message) : M Json :=
  match given (m_worker_id m) with
  | None => mret (error "Missing 'worker_id' field")
  | Some w =>
      found ← on_registry (Registry.record_heartbeat w (e_time env));
      if found : bool then mret (JObj [("status", JStr "ok")])
      else mret (error ("Unknown worker: " +:+ w))
  end.

Definition _handle_ack (m : Message) : M Json :=
  match given (m_task_id m) with
  | None => mret (error "Missing 'task_id' field")
  | Some tid =>
      success ← on_qm (QM.acknowledge tid);
      if success : bool then
        let w := default "" (m_worker_id m) in
        _ ← on_registry (λ r, (tt, Registry.complete_task w tid (e_mono env) r));
        let qn := default "unknown" (m_queue m) in
        _ ← on_metrics (Metrics.record_ack qn tid (e_mono env));
        _ ← if_wal (on_wal (Wal.update_task_status tid "done" None None (e_time env)))
                   (mret false);
        mret (JObj [("status", JStr "ok");
                    ("message", JStr ("Task " +:+ tid +:+ " acknowledged"))])
      else mret (error ("Task " +:+ tid +:+ " not found in-flight"))
  end.

(** The payload of the stub [_handle_nack] stores: that of the first of the
    first hundred dead letters with this id, or [{}]. *)
Definition stub_payload (tid : string) (s : QM.t) : Json :=
  match head (filter (λ d, DLQ.s_task_id d = tid) (DLQ.peek 100 (QM.dead_letter_queue s))) with
  | Some d => DLQ.s_payload d
  | None => JObj []
  end.

Definition task_stub (tid qn : string) (p : Json) (n : Z) : Task :=
  set_attempts n (new_task tid qn p (e_time env)).

(** The persistence step of [_handle_nack]. *)
Definition persist_nack (tid : string) (r : QM.NackResult) : M unit :=
  if bool_decide (QM.n_action r = "dead_lettered") then
    s ← get queue_manager;
    on_wal (λ db, (tt, Wal.add_to_dlq
                         (task_stub tid (QM.n_queue_name r) (stub_payload tid s)
                            (QM.n_attempts r))
                         "max retries exceeded" (e_time env) db))
  else
    _ ← on_wal (Wal.update_task_status tid "pending" (Some (QM.n_attempts r)) None
                  (e_time env));
    mret tt.

Definition _handle_nack (m : Message) : M Json :=
  match given (m_task_id m) with
  | None => mret (error "Missing 'task_id' field")
  | Some tid =>
      result ← on_qm (QM.negative_acknowledge tid (e_time env));
      match result with
      | None => mret (error ("Task " +:+ tid +:+ " not found in-flight"))
      | Some r =>
          let w := default "" (m_worker_id m) in
          let dead := bool_decide (QM.n_action r = "dead_lettered") in
          _ ← on_registry (λ g, (tt, Registry.complete_task w tid (e_mono env) g));
          _ ← on_metrics (Metrics.record_nack (QM.n_queue_name r) tid dead);
          _ ← if_wal (persist_nack tid r) (mret tt);
          mret (JObj [("status", JStr "ok"); ("action", JStr (QM.n_action r));
                      ("attempts", JInt (QM.n_attempts r));
                      ("message",
                         JStr (if dead then "Task " +:+ tid +:+ " moved to DLQ"
                               else "Task " +:+ tid +:+ " re-queued for retry"))])
      end
  end.

(** ** Administration *)

(** A row of the dead letter table as [DLQ_LIST] returns it, its payload
    parsed back when it parses. *)
Definition dlq_row_json (r : Wal.DlqRow) : Json :=
  JObj [("task_id", JStr (Wal.q_task_id r)); ("queue_name", JStr (Wal.q_queue_name r));
        ("payload", match loads (Wal.q_payload r) with
                    | Some p => p
                    | None => JStr (Wal.q_payload r)
                    end);
        ("final_error", json_opt_str (Wal.q_final_error r));
        ("attempts", JInt (Wal.q_attempts r));
        ("dead_lettered_at", JFloat (Wal.q_dead_lettered_at r))].

Definition dlq_list_reply (tasks : list Json) : Json :=
  JObj [("status", JStr "ok"); ("count", JInt (Z.of_nat (length tasks)));
        ("tasks", JArr tasks)].

Definition _handle_dlq_list (m : Message) : M Json :=
  let limit := default 50%Z (m_limit m) in
  if_wal
    (rows ← on_wal (λ db, (Wal.get_dlq_tasks (m_queue m) limit db, db));
     match rows with
     | Some rows => mret (dlq_list_reply (dlq_row_json <$> rows))
     | None => raise
     end)
    (s ← get queue_manager;
     let tasks := DLQ.peek limit (QM.dead_letter_queue s) in
     let tasks := match given (m_queue m) with
                  | Some qn => filter (λ d, DLQ.s_queue_name d = qn) tasks
                  | None => tasks
                  end in
     mret (dlq_list_reply (DLQ.summary_json <$> tasks))).

Definition replay_reply (tid new_tid : string) : Json :=
  JObj [("status", JStr "ok"); ("action", JStr "replayed");
        ("original_task_id", JStr tid); ("new_task_id", JStr new_tid)].

(** A payload that does not parse raises after the row has been deleted. *)
Definition _handle_dlq_replay (m : Message) : M Json :=
  match given (m_task_id m) with
  | None => mret (error "Missing 'task_id' field")
  | Some tid =>
      if_wal
        (row ← on_wal (Wal.replay_dlq_task tid);
         match row with
         | None => mret (error ("Task " +:+ tid +:+ " not found in DLQ"))
         | Some r =>
             match loads (Wal.q_payload r) with
             | None => raise
             | Some p =>
                 new_tid ← on_qm (QM.enqueue (Wal.q_queue_name r) p (e_uuid env) (e_time env));
                 _ ← persist_enqueued (Wal.q_queue_name r) new_tid;
                 mret (replay_reply tid new_tid)
             end
         end)
        (success ← on_qm (QM.dlq_retry tid);
         if success : bool then mret (replay_reply tid tid)
         else mret (error ("Task " +:+ tid +:+ " not found in DLQ")))
  end.

(** [for tid in to_remove: await dlq.remove(tid)] *)
Fixpoint remove_each (tids : list string) (s : QM.t) : QM.t :=
  match tids with
  | [] => s
  | tid :: tids => remove_each tids (QM.dlq_remove tid s).2
  end.

(** Purging one queue of the in-memory dead letter queue. *)
Definition purge_queue (qn : string) (s : QM.t) : nat * QM.t :=
  let to_remove :=
    (filter (λ p, queue_name p.2 = qn) (DLQ._tasks (QM.dead_letter_queue s))).*1 in
  (length to_remove, remove_each to_remove s).

Definition _handle_dlq_purge (m : Message) : M Json :=
  purged ← if_wal
    (on_wal (Wal.purge_dlq (m_queue m)))
    (match given (m_queue m) with
     | Some qn => on_qm (purge_queue qn)
     | None => on_qm QM.dlq_purge
     end);
  mret (JObj [("status", JStr "ok"); ("action", JStr "purged");
              ("count", JInt (Z.of_nat purged))]).

Definition wal_stats_json (st : gmap string nat * nat) : Json :=
  JObj [("tasks_by_status",
           JObj ((λ p, (p.1, JInt (Z.of_nat p.2))) <$> map_to_list st.1));
        ("dlq_count", JInt (Z.of_nat st.2)); ("db_path", JStr (e_db_path env))].

Definition _handle_stats (m : Message) : M Json :=
  q ← get (QM.get_stats ∘ queue_manager);
  r ← get (Registry.get_stats ∘ worker_registry);
  l ← on_shedder (λ sys, Shedder.get_stats sys (e_mono env));
  x ← get (Metrics.get_stats (e_mono env) ∘ metrics);
  n ← get _active_connections;
  let stats := [("status", JStr "ok"); ("queue_manager", q); ("worker_registry", r);
                ("load_shedder", l); ("metrics", x); ("active_connections", JInt n)] in
  if_wal
    (w ← on_wal (λ db, (Wal.get_stats db, db));
     mret (JObj (stats ++ [("wal_store", wal_stats_json w)])))
    (mret (JObj stats)).

Definition on_snapshot (names : list string) : M Metrics.Snapshot := λ b,
  let '(o, x) := Metrics.snapshot (e_mono env) names (metrics b) in
  (o, set_metrics x b).

(** [snapshot["queues"][name]["depth"] = ..] for the names that are there. *)
Definition with_depth (n : Z) (x : Metrics.QueueMetrics) : Metrics.QueueMetrics :=
  Metrics.mkQueueMetrics n (Metrics.qm_produce_rate x) (Metrics.qm_throughput x)
    (Metrics.qm_p50 x) (Metrics.qm_p95 x) (Metrics.qm_p99 x) (Metrics.qm_produced x)
    (Metrics.qm_acked x) (Metrics.qm_nacked x).

Fixpoint fill_depths (s : QM.t) (names : list string) (qs : dict string Metrics.QueueMetrics) :
    dict string Metrics.QueueMetrics :=
  match names with
  | [] => qs
  | name :: names =>
      fill_depths s names
        (match dget name qs with
         | Some x => dset name (with_depth (Z.of_nat (QM.queue_depth name s)) x) qs
         | None => qs
         end)
  end.

Definition worker_json (w : Registry.WorkerInfo) : Json :=
  JObj [("id", JStr (Registry.worker_id w)); ("latency_ms", JInt 0);
        ("status", JStr (Registry.w_status w))].

(** The number the dashboard shows as the size of the dead letter queue:
    the length of a listing that [get_dlq_tasks] cuts at 100 rows. *)
Definition dlq_total (b : Broker) : nat :=
  match wal_store b with
  | Some db => length (default [] (Wal.get_dlq_tasks None 100 db))
  | None => length (DLQ.peek 1000 (QM.dead_letter_queue (queue_manager b)))
  end.

Definition _get_metrics_snapshot : M Json :=
  names ← get (dkeys ∘ QM._queues ∘ queue_manager);
  sn ← on_snapshot names;
  s ← get queue_manager;
  let queues := fill_depths s names (Metrics.sn_queues sn) in
  r ← get worker_registry;
  dlq ← get dlq_total;
  n ← get _active_connections;
  l ← on_shedder (λ sys, Shedder.get_stats sys (e_mono env));
  mret (JObj
    [("queues", JObj ((λ p, (p.1, Metrics.queue_metrics_json p.2)) <$> queues));
     ("broker",
        JObj [("uptime_seconds", JFloat (Metrics.sn_uptime sn));
              ("tracked_in_flight", JInt (Metrics.sn_tracked sn));
              ("in_flight_tasks", JInt (Z.of_nat (QM.in_flight_count s)));
              ("active_connections", JInt n)]);
     ("status", JStr "ok");
     ("workers",
        JObj [("active", JArr (worker_json <$> Registry.get_active_workers r));
              ("evicted_count", JInt (Registry._total_evictions r))]);
     ("dlq", JObj [("total_tasks", JInt (Z.of_nat dlq))]);
     ("load_shedder", l)]).

Definition _handle_metrics (m : Message) : M Json := _get_metrics_snapshot.

(** ** Dashboard actions *)

Definition empty_message : Message := mkMessage None None None None None None None.

Definition _get_dlq_listing : M Json := _handle_dlq_list empty_message.
Definition _get_stats_snapshot : M Json := _handle_stats empty_message.

(** Closing the stream writer is not part of the state. *)
Definition age_worker (now : Q) (w : Registry.WorkerInfo) : Registry.WorkerInfo :=
  Registry.mkWorker (Registry.worker_id w) (Registry.queues w) (Registry.address w)
    (Registry.registered_at w) (now - 10)%Q (Registry.in_flight_tasks w)
    (Registry.task_start_times w) (Registry.writer w) (Registry.w_status w).

Definition _crash_worker_handler : M Json :=
  r ← get worker_registry;
  let active := Registry.get_active_workers r in
  match active !! (e_pick env `mod` length active) with
  | None => mret (JObj [("status", JStr "error");
                        ("message", JStr "No active workers to crash")])
  | Some w =>
      _ ← on_registry (λ r, (tt, Registry.with_workers
             (dset (Registry.worker_id w) (age_worker (e_time env) w)) r));
      mret (JObj [("status", JStr "ok");
                  ("message", JStr ("Worker " +:+ Registry.worker_id w +:+ " crashed"))])
  end.

(** The loop over [peek(limit=1000)], counting the successes. *)
Fixpoint retry_each (tids : list string) (s : QM.t) : nat * QM.t :=
  match tids with
  | [] => (0, s)
  | tid :: tids =>
      let '(ok, s) := QM.dlq_retry tid s in
      let '(n, s) := retry_each tids s in
      ((if ok : bool then S n else n), s)
  end.

Definition _replay_dlq_handler : M Json :=
  n ← on_qm (λ s, retry_each (DLQ.s_task_id <$> DLQ.peek 1000 (QM.dead_letter_queue s)) s);
  mret (JObj [("status", JStr "ok");
              ("message", JStr ("Replayed " +:+ pretty n +:+ " tasks"))]).

Definition _reset_handler : M Json :=
  _ ← on_qm (λ s, (tt, QM.reset s));
  _ ← if_wal (on_wal (λ db, (tt, Wal.clear_all_data db))) (mret tt);
  _ ← on_metrics (Metrics.reset (e_mono env));
  mret (JObj [("status", JStr "ok"); ("message", JStr "System fully reset to scratch")]).

(** ** Dispatch *)

Definition handlers : dict string (Message → M Json) :=
  [("PRODUCE", _handle_produce); ("CONSUME", _handle_consume);
   ("REGISTER", _handle_register); ("HEARTBEAT", _handle_heartbeat);
   ("ACK", _handle_ack); ("NACK", _handle_nack);
   ("DLQ_LIST", _handle_dlq_list); ("DLQ_REPLAY", _handle_dlq_replay);
   ("DLQ_PURGE", _handle_dlq_purge); ("STATS", _handle_stats);
   ("METRICS", _handle_metrics)].

Definition _dispatch (m : Message) : M Json :=
  match given (m_command m) with
  | None => mret (error "Missing 'command' field")
  | Some c =>
      match dget c handlers with
      | None => mret (error ("Unknown command: " +:+ c))
      | Some h => h m
      end
  end.

(** ** Crash recovery: phase 1 of [start] *)

Fixpoint recover_rows (rows : list Wal.TaskRow) : M nat :=
  match rows with
  | [] => mret 0
  | r :: rows =>
      match loads (Wal.r_payload r) with
      | None => raise
      | Some p =>
          _ ← on_qm (QM.enqueue_recovered (Wal.r_queue_name r) (Wal.r_task_id r) p
                       (Wal.r_attempts r) (e_time env));
          _ ← on_wal (Wal.update_task_status (Wal.r_task_id r) "pending"
                        (Some (Wal.r_attempts r)) None (e_time env));
          n ← recover_rows rows;
          mret (S n)
      end
  end.

Definition start_recovery : M nat :=
  if_wal (rows ← on_wal (λ db, (Wal.load_pending_tasks db, db)); recover_rows rows) (mret 0).

(** One pass of the eviction loop the server starts. *)
Definition eviction_sweep (iter : Registry.WorkerInfo → list string) : M unit := λ b,
  let '(r, s) := Registry.evict_dead_workers iter (e_time env) (worker_registry b)
                   (Some (queue_manager b)) in
  (Some tt, set_registry r (set_qm (default (queue_manager b) s) b)).
End handlers.
End Server.
