(* ===== verification/Frames.v ===== *)
(** * What a handler leaves alone

[keeps f c]: running [c] does not change the part [f] of the broker.  The
rules follow the monad of [Server.v]; a call into a component keeps every
part that does not depend on that component ([Ignores]). *)

From S2P Require Import Prelude PyDict Json DeadLetter QueueManager WorkerRegistry LoadShedder WalStore Metrics Server.
Import Server.

(** [f] does not look at what [set] writes. *)
Class Ignores {X Y} (f : Broker → X) (set : Y → Broker → Broker) :=
  ignores y b : f (set y b) = f b.

#[export] Hint Extern 0 (Ignores _ _) => (intros ? ?; reflexivity) : typeclass_instances.

Definition keeps {A X} (f : Broker → X) (c : M A) : Prop := ∀ b, f (c b).2 = f b.

Section keeps.
Context {X : Type} (f : Broker → X).

Lemma keeps_ret {A} (a : A) : keeps f (mret a).
Proof. done. Qed.

Lemma keeps_raise {A} : keeps f (@raise A).
Proof. done. Qed.

Lemma keeps_get {A} (g : Broker → A) : keeps f (get g).
Proof. done. Qed.

Lemma keeps_bind {A B} (c : M A) (k : A → M B) :
  keeps f c → (∀ a, keeps f (k a)) → keeps f (c ≫= k).
Proof.
  intros Hc Hk b. unfold mbind, M_bind. specialize (Hc b).
  destruct (c b) as [[a|] b1]; cbn in *; [|done]. by rewrite Hk.
Qed.

Lemma keeps_if_wal {A} (c k : M A) : keeps f c → keeps f k → keeps f (if_wal c k).
Proof. intros Hc Hk b. unfold if_wal. by destruct (wal_store b). Qed.

Lemma keeps_qm `{!Ignores f set_qm} {A} (g : QM.t → A * QM.t) : keeps f (on_qm g).
Proof. intros b. unfold on_qm. destruct (g _). apply (ignores (set := set_qm)). Qed.

Lemma keeps_registry `{!Ignores f set_registry} {A} (g : Registry.t → A * Registry.t) :
  keeps f (on_registry g).
Proof. intros b. unfold on_registry. destruct (g _). apply (ignores (set := set_registry)). Qed.

Lemma keeps_shedder `{!Ignores f set_shedder} {A}
    (g : QM.t * Registry.t → Shedder.t → A * Shedder.t) : keeps f (on_shedder g).
Proof. intros b. unfold on_shedder. destruct (g _ _). apply (ignores (set := set_shedder)). Qed.

Lemma keeps_metrics `{!Ignores f set_metrics} g : keeps f (on_metrics g).
Proof. intros b. apply (ignores (set := set_metrics)). Qed.

Lemma keeps_snapshot `{!Ignores f set_metrics} env names : keeps f (on_snapshot env names).
Proof. intros b. unfold on_snapshot. destruct (Metrics.snapshot _ _ _). apply (ignores (set := set_metrics)). Qed.

Lemma keeps_wal `{!Ignores f set_wal} {A} (g : Wal.Db → A * Wal.Db) : keeps f (on_wal g).
Proof. intros b. unfold on_wal. destruct (wal_store b); [|done]. destruct (g _). apply (ignores (set := set_wal)). Qed.
End keeps.

(** A query keeps everything. *)
Lemma keeps_wal_read {X A} (f : Broker → X) (g : Wal.Db → A) :
  keeps f (on_wal (λ db, (g db, db))).
Proof.
  intros [s r l m [db|] n]; reflexivity.
Qed.

Ltac keep :=
  repeat first
    [ simple apply keeps_bind; [|intros ?] | simple apply keeps_if_wal
    | simple apply keeps_ret | simple apply keeps_raise | simple apply keeps_get
    | simple apply keeps_wal_read | solve [simple apply keeps_qm; apply _]
    | solve [simple apply keeps_registry; apply _] | solve [simple apply keeps_shedder; apply _]
    | solve [simple apply keeps_metrics; apply _] | solve [simple apply keeps_snapshot; apply _]
    | solve [simple apply keeps_wal; apply _]
    | progress unfold save, persist_enqueued, persist_nack | case_match ].
