(* ===== verification/Requests.v ===== *)
(** * Replies and state ([broker/server.py])

What a client may conclude from the reply to one request: an ["error"]
reply has changed nothing, a ["rate_limited"] one only the token bucket,
and an accepted [PRODUCE] has put exactly one task in the queue. *)

From S2P Require Import Prelude PyDict Json JsonText DeadLetter QueueManager QueueInvariant QueueOrder WorkerRegistry Eviction LoadShedder WalStore Metrics Server.
Import Server.
#[local] Existing Instance QM.requeue_target.

Module Requests.
Section requests.
  Context `{codec : JsonCodec}.
  Implicit Types (b : Broker) (m : Message) (env : Env) (j : Json).

Definition reply_status j : option Json := obj_get "status" j.

(** A handler that replies ["error"] only when it has done nothing. *)
Definition errors_are_pure (h : M Json) : Prop :=
  ∀ b j b', h b = (Some j, b') → reply_status j = Some (JStr "error") → b' = b.

(** A handler whose replies never say ["error"]. *)
Definition never_errs (h : M Json) : Prop :=
  ∀ b j b', h b = (Some j, b') → reply_status j ≠ Some (JStr "error").

Lemma pure_ret j : errors_are_pure (mret j).
Proof. intros b ?? [= <- <-]. done. Qed.

Lemma never_errs_pure h : never_errs h → errors_are_pure h.
Proof. intros H b j b' E Hs. by destruct (H _ _ _ E). Qed.

Lemma pure_if_wal (h k : M Json) :
  errors_are_pure h → errors_are_pure k → errors_are_pure (if_wal h k).
Proof. intros Hh Hk b j b'. unfold if_wal. destruct (wal_store b); [apply Hh|apply Hk]. Qed.

(** The reply of a bind is the reply of its continuation. *)
Lemma never_errs_bind {A} (c : M A) (k : A → M Json) :
  (∀ a, never_errs (k a)) → never_errs (c ≫= k).
Proof.
  intros Hk b j b'. unfold mbind, M_bind. destruct (c b) as [[a|] b1]; [apply Hk|done].
Qed.

Lemma never_errs_ret j : reply_status j ≠ Some (JStr "error") → never_errs (mret j).
Proof. intros H b ?? [= <- <-]. done. Qed.

Lemma never_errs_if_wal (h k : M Json) : never_errs h → never_errs k → never_errs (if_wal h k).
Proof. intros Hh Hk b j b'. unfold if_wal. destruct (wal_store b); [apply Hh|apply Hk]. Qed.

(** A component call whose failure leaves the component as it was. *)
Lemma pure_on_qm {A} (f : QM.t → A * QM.t) (k : A → M Json) :
  (∀ s a s', f s = (a, s') → s' = s ∧ errors_are_pure (k a) ∨ never_errs (k a)) →
  errors_are_pure (on_qm f ≫= k).
Proof.
  intros Hf b j b'. unfold mbind, M_bind, on_qm.
  destruct (f (queue_manager b)) as [a s'] eqn:E.
  destruct (Hf _ _ _ E) as [[-> Hk]|Hk].
  - replace (set_qm (queue_manager b) b) with b by (by destruct b). apply Hk.
  - intros Ek Hs. by destruct (Hk _ _ _ Ek).
Qed.

Lemma pure_on_registry {A} (f : Registry.t → A * Registry.t) (k : A → M Json) :
  (∀ s a s', f s = (a, s') → s' = s ∧ errors_are_pure (k a) ∨ never_errs (k a)) →
  errors_are_pure (on_registry f ≫= k).
Proof.
  intros Hf b j b'. unfold mbind, M_bind, on_registry.
  destruct (f (worker_registry b)) as [a s'] eqn:E.
  destruct (Hf _ _ _ E) as [[-> Hk]|Hk].
  - replace (set_registry (worker_registry b) b) with b by (by destruct b). apply Hk.
  - intros Ek Hs. by destruct (Hk _ _ _ Ek).
Qed.

Lemma pure_on_wal {A} (f : Wal.Db → A * Wal.Db) (k : A → M Json) :
  (∀ s a s', f s = (a, s') → s' = s ∧ errors_are_pure (k a) ∨ never_errs (k a)) →
  errors_are_pure (on_wal f ≫= k).
Proof.
  intros Hf b j b'. unfold mbind, M_bind, on_wal.
  destruct (wal_store b) as [db|] eqn:W; [|done].
  destruct (f db) as [a s'] eqn:E.
  destruct (Hf _ _ _ E) as [[-> Hk]|Hk].
  - replace (set_wal (Some db) b) with b by (destruct b; cbn in *; by subst). apply Hk.
  - intros Ek Hs. by destruct (Hk _ _ _ Ek).
Qed.

(** Walk to the reply of a straight-line handler. *)
Ltac walk :=
  repeat first
    [ apply never_errs_bind; intros ?
    | apply never_errs_if_wal
    | apply never_errs_ret; discriminate ].

Lemma produce_pure env m : errors_are_pure (_handle_produce env m).
Proof.
  unfold _handle_produce. destruct (given (m_queue m)) as [qn|], (task_given (m_task m)) as [p|];
    try apply pure_ret.
  apply never_errs_pure. apply never_errs_bind. intros [[] ra]; cbn [negb]; walk.
Qed.

Lemma consume_pure env m : errors_are_pure (_handle_consume env m).
Proof.
  unfold _handle_consume. destruct (given (m_queue m)) as [qn|], (given (m_worker_id m)) as [w|];
    try apply pure_ret.
  apply never_errs_pure. apply never_errs_bind. intros [d|]; walk.
Qed.

Lemma register_pure env m : errors_are_pure (_handle_register env m).
Proof.
  unfold _handle_register. destruct (given _); [|apply pure_ret]. apply never_errs_pure. walk.
Qed.

Lemma heartbeat_pure env m : errors_are_pure (_handle_heartbeat env m).
Proof.
  unfold _handle_heartbeat. destruct (given _) as [w|]; [|apply pure_ret].
  apply pure_on_registry. intros r a r'. unfold Registry.record_heartbeat.
  destruct (dget w (Registry._workers r)); intros [= <- <-]; [right; walk|left].
  split; [done|apply pure_ret].
Qed.

Lemma ack_pure env m : errors_are_pure (_handle_ack env m).
Proof.
  unfold _handle_ack. destruct (given _) as [tid|]; [|apply pure_ret].
  apply pure_on_qm. intros s a s'. unfold QM.acknowledge.
  destruct (dget tid (QM._in_flight s)) eqn:E; [|intros [= <- <-]; left; split; [done|apply pure_ret]].
  intros Ea%(f_equal fst). cbn [fst] in Ea. subst a. right. walk.
Qed.

Lemma nack_pure env m : errors_are_pure (_handle_nack env m).
Proof.
  unfold _handle_nack. destruct (given _) as [tid|]; [|apply pure_ret].
  apply pure_on_qm. intros s a s' E. destruct a as [r|]; [right; walk|left].
  split; [|apply pure_ret]. unfold QM.negative_acknowledge, QM.nack_take in E.
  destruct (dget tid (QM._in_flight s)); [|congruence].
  destruct (_ >=? _)%Z, (QM.nack_route _ _ _); discriminate.
Qed.

Lemma dlq_retry_fails tid s s' : QM.dlq_retry tid s = (false, s') → s' = s.
Proof.
  unfold QM.dlq_retry. destruct (dget tid (DLQ._tasks (QM.dead_letter_queue s))) as [x|] eqn:E.
  - destruct (DLQ.retry_moves tid (QM.dead_letter_queue s) s x E) as (d'&q'&->&_). discriminate.
  - rewrite DLQ.retry_missing by done. intros [= <-]. by destruct s.
Qed.

Lemma dlq_replay_pure env m : errors_are_pure (_handle_dlq_replay env m).
Proof.
  unfold _handle_dlq_replay. destruct (given _) as [tid|]; [|apply pure_ret].
  apply pure_if_wal.
  - apply pure_on_wal. intros db a db'. unfold Wal.replay_dlq_task.
    destruct (Wal.select_key _ _ _) as [r|]; intros [= <- <-]; [right|left].
    + destruct (loads (Wal.q_payload r)); [walk|done].
    + split; [done|apply pure_ret].
  - apply pure_on_qm. intros s [] s' E; [right; walk|left]. split; [|apply pure_ret].
    by eapply dlq_retry_fails.
Qed.

Lemma dispatch_pure env m : errors_are_pure (_dispatch env m).
Proof.
  unfold _dispatch. destruct (given _) as [c|]; [|apply pure_ret].
  destruct (dget c (handlers env)) as [h|] eqn:E; [|apply pure_ret].
  apply dget_Some_in in E. unfold handlers in E.
  repeat apply elem_of_cons in E as [E|E]; try (injection E as -> ->); eauto using
    produce_pure, consume_pure, register_pure, heartbeat_pure, ack_pure, nack_pure,
    dlq_replay_pure; try by apply not_elem_of_nil in E.
  - apply never_errs_pure. unfold _handle_dlq_list. apply never_errs_if_wal; [|walk].
    apply never_errs_bind. by intros [rows|]; [walk|].
  - apply never_errs_pure. unfold _handle_dlq_purge. walk.
  - apply never_errs_pure. unfold _handle_stats. walk.
  - apply never_errs_pure. unfold _handle_metrics, _get_metrics_snapshot. walk.
Qed.

(** C28.  Whatever command a client sends, if the reply's status is
    ["error"] (missing field, unknown command, unknown worker, task not in
    flight, dead letter not found) then nothing at all has changed in the
    broker: queues, registry, token buckets, metrics and database. *)
Theorem error_replies_change_nothing env m b j b' :
  _dispatch env m b = (Some j, b') → reply_status j = Some (JStr "error") → b' = b.
Proof. apply dispatch_pure. Qed.

(** ** [PRODUCE] *)

Lemma find_last_snoc x l : find_last (task_id x) (l ++ [x]) = Some x.
Proof. unfold find_last. rewrite reverse_snoc. by rewrite filter_cons_True. Qed.

Definition rate_limited_reply (retry_after : Q) : Json :=
  JObj [("status", JStr "rate_limited"); ("retry_after_seconds", JFloat retry_after);
        ("reason", JStr "Queue overloaded. Please back off.")].

(** The broker after an admitted [PRODUCE]. *)
Definition produced env qn p (sh : Shedder.t) b : Broker :=
  mkBroker (QM.enqueue qn p (e_uuid env) (e_time env) (queue_manager b)).2
    (worker_registry b) sh (Metrics.record_produce qn (e_mono env) (metrics b))
    (Wal.save_task (new_task (e_uuid env) qn p (e_time env)) (e_time env) <$> wal_store b)
    (_active_connections b).

Lemma persist_enqueued_spec env qn p s b db :
  queue_manager b = (QM.enqueue qn p (e_uuid env) (e_time env) s).2 → wal_store b = Some db →
  persist_enqueued env qn (e_uuid env) b =
    (Some tt, set_wal (Some (Wal.save_task (new_task (e_uuid env) qn p (e_time env))
                               (e_time env) db)) b).
Proof.
  intros Hq Hw. unfold persist_enqueued, mbind, M_bind, get. cbn.
  rewrite Hq, queue_of_enqueue, decide_True by done.
  rewrite (find_last_snoc (new_task (e_uuid env) qn p (e_time env))).
  unfold save, on_wal. by rewrite Hw.
Qed.

Lemma handle_produce_spec env m b qn p :
  given (m_queue m) = Some qn → task_given (m_task m) = Some p →
  ∃ allowed retry_after sh,
    Shedder.check_and_consume qn (queue_manager b, worker_registry b) (e_mono env) (e_mono env)
      (load_shedder b) = ((allowed, retry_after), sh) ∧
    _handle_produce env m b =
      if allowed : bool
      then (Some (JObj [("status", JStr "ok"); ("task_id", JStr (e_uuid env))]),
            produced env qn p sh b)
      else (Some (rate_limited_reply retry_after), set_shedder sh b).
Proof.
  intros Hq Hp. unfold _handle_produce. rewrite Hq, Hp.
  unfold mbind at 1, M_bind at 1, on_shedder.
  destruct (Shedder.check_and_consume _ _ _ _ _) as [[allowed ra] sh]. exists allowed, ra, sh.
  split; [done|]. destruct allowed; [|done]. cbn [negb].
  unfold mbind, M_bind, on_qm, on_metrics, if_wal, mret, M_ret.
  cbn -[QM.enqueue persist_enqueued].
  destruct (QM.enqueue qn p (e_uuid env) (e_time env) (queue_manager b)) as [tid s'] eqn:E.
  assert (tid = e_uuid env) as -> by (by injection E).
  unfold produced. rewrite E. cbn -[QM.enqueue persist_enqueued].
  destruct (wal_store b) as [db|] eqn:W; [|unfold set_metrics, set_qm, set_shedder; cbn; by rewrite W].
  rewrite (persist_enqueued_spec env qn p (queue_manager b) _ db); [done|by rewrite E|done].
Qed.

(** A well-formed [PRODUCE] does one of two things, decided by the
    token bucket.  Rejected, it replies with the wait hint and touches only
    the load shedder.  Admitted, it replies with the new task's id; the
    named queue has exactly that task appended, every other queue, the
    in-flight and completed tasks are untouched; and with persistence on
    the database has the same task as a pending row. *)
Theorem produce_admits_or_rejects env m b qn p :
  given (m_queue m) = Some qn → task_given (m_task m) = Some p →
  ∃ allowed retry_after sh,
    Shedder.check_and_consume qn (queue_manager b, worker_registry b) (e_mono env) (e_mono env)
      (load_shedder b) = ((allowed, retry_after), sh) ∧
    let x := new_task (e_uuid env) qn p (e_time env) in
    if allowed : bool then
      ∃ b', _handle_produce env m b =
              (Some (JObj [("status", JStr "ok"); ("task_id", JStr (e_uuid env))]), b') ∧
        QM.queue_of qn (queue_manager b') = QM.queue_of qn (queue_manager b) ++ [x] ∧
        (∀ q, q ≠ qn → QM.queue_of q (queue_manager b') = QM.queue_of q (queue_manager b)) ∧
        QM._in_flight (queue_manager b') = QM._in_flight (queue_manager b) ∧
        QM._completed (queue_manager b') = QM._completed (queue_manager b) ∧
        wal_store b' = Wal.save_task x (e_time env) <$> wal_store b ∧
        worker_registry b' = worker_registry b
    else _handle_produce env m b = (Some (rate_limited_reply retry_after), set_shedder sh b).
Proof.
  intros Hq Hp. destruct (handle_produce_spec env m b qn p Hq Hp) as (al&ra&sh&E&H).
  exists al, ra, sh. split; [done|]. destruct al; [|done]. eexists. split; [exact H|].
  unfold produced. cbn -[QM.enqueue].
  split_and!; try done.
  - by rewrite queue_of_enqueue, decide_True.
  - intros q Hne. by rewrite queue_of_enqueue, decide_False.
  - unfold QM.enqueue, QM._ensure_queue. by destruct (dget qn _).
  - unfold QM.enqueue, QM._ensure_queue. by destruct (dget qn _).
Qed.
End requests.

(** ** Witnesses *)

#[local] Existing Instance JsonText.codec.

Definition example_env : Env := mkEnv 100 50 "t1" ("10.0.0.7", 40000%Z) 1 0 "tasks.db".

Definition example_broker : Broker := new_broker (Some Wal.empty_db) 0.

Definition example_produce : Message :=
  mkMessage (Some "PRODUCE") (Some "emails") (Some (JObj [("to", JStr "a")])) None None None None.

Definition example_ack : Message := mkMessage (Some "ACK") None None None (Some "t9") None None.

Lemma error_replies_change_nothing_witness :
  (_dispatch example_env example_ack example_broker).2 = example_broker.
Proof.
  apply (error_replies_change_nothing example_env example_ack example_broker
    (error "Task t9 not found in-flight")); reflexivity.
Defined.

Lemma produce_admits_or_rejects_witness :
  ∃ allowed retry_after sh,
    Shedder.check_and_consume "emails"
      (queue_manager example_broker, worker_registry example_broker)
      (e_mono example_env) (e_mono example_env) (load_shedder example_broker)
      = ((allowed, retry_after), sh) ∧
    let x := new_task (e_uuid example_env) "emails" (JObj [("to", JStr "a")])
               (e_time example_env) in
    if allowed : bool then
      ∃ b', _handle_produce example_env example_produce example_broker =
              (Some (JObj [("status", JStr "ok"); ("task_id", JStr (e_uuid example_env))]), b') ∧
        QM.queue_of "emails" (queue_manager b')
          = QM.queue_of "emails" (queue_manager example_broker) ++ [x] ∧
        (∀ q, q ≠ "emails" →
           QM.queue_of q (queue_manager b') = QM.queue_of q (queue_manager example_broker)) ∧
        QM._in_flight (queue_manager b') = QM._in_flight (queue_manager example_broker) ∧
        QM._completed (queue_manager b') = QM._completed (queue_manager example_broker) ∧
        wal_store b' = Wal.save_task x (e_time example_env) <$> wal_store example_broker ∧
        worker_registry b' = worker_registry example_broker
    else _handle_produce example_env example_produce example_broker
           = (Some (rate_limited_reply retry_after), set_shedder sh example_broker).
Proof.
  apply (produce_admits_or_rejects example_env example_produce example_broker "emails"
    (JObj [("to", JStr "a")])); reflexivity.
Defined.
End Requests.
