(* ===== verification/Recovery.v ===== *)
(** * Memory, disk and crash recovery ([broker/server.py],
      [persistence/wal_store.py])

The broker keeps every live task twice: as an object of the queue manager
and as a row of the [tasks] table.  The invariant says that the two agree
on identity, queue, payload and attempt count; every command, an eviction
sweep, a reset and a restart preserve it.  What a restart rebuilds from
the table is therefore exactly the set of live tasks at the crash. *)

From S2P Require Import Prelude PyDict Json JsonText DeadLetter QueueManager QueueInvariant TaskConservation TaskLifecycle QueueOrder WorkerRegistry Eviction LoadShedder WalStore Durability Metrics Server Frames Requests.
Import Server.

Module Recovery.
Section recovery.
  Context `{codec : JsonCodec}.
  Implicit Types (b : Broker) (env : Env) (x : Task) (r : Wal.TaskRow).

(** ** The invariant *)

(** What a crash must not change: identifier, queue, payload and attempts. *)
Definition Signature : Type := string * string * string * Z.

Definition task_sig x : Signature := (task_id x, queue_name x, dumps (payload x), attempts x).

Definition row_sig r : Signature :=
  (Wal.r_task_id r, Wal.r_queue_name r, Wal.r_payload r, Wal.r_attempts r).

(** Waiting or being processed. *)
Definition live x : Prop := status x = "pending" ∨ status x = "in_flight".

#[local] Instance live_dec x : Decision (live x).
Proof. unfold live. apply _. Defined.

Definition live_sigs (l : list Task) : list Signature := task_sig <$> filter live l.

Definition row_sigs (l : list Wal.TaskRow) : list Signature :=
  row_sig <$> filter Wal.recoverable l.

#[local] Arguments live_sigs : simpl never.
#[local] Arguments row_sigs : simpl never.
#[local] Arguments task_sig : simpl never.
#[local] Arguments row_sig : simpl never.

Definition coherent (db : Wal.Db) (s : QM.t) : Prop :=
  row_sigs (Wal.tasks db) ≡ₚ live_sigs (QM.all_tasks s).

Definition durable b : Prop :=
  ∃ db, wal_store b = Some db ∧ wf (queue_manager b) ∧ Tx.db_wf db ∧
    coherent db (queue_manager b).

(** ** Signatures *)

Lemma live_sigs_perm l k : l ≡ₚ k → live_sigs l ≡ₚ live_sigs k.
Proof. intros Hp. unfold live_sigs. by rewrite Hp. Qed.

Lemma live_sigs_live x l : live x → live_sigs (x :: l) = task_sig x :: live_sigs l.
Proof. intros Hx. unfold live_sigs. by rewrite filter_cons_True. Qed.

Lemma live_sigs_dead x l : ¬ live x → live_sigs (x :: l) = live_sigs l.
Proof. intros Hx. unfold live_sigs. by rewrite filter_cons_False. Qed.

Lemma row_sigs_app l k : row_sigs (l ++ k) = row_sigs l ++ row_sigs k.
Proof. unfold row_sigs. by rewrite filter_app, fmap_app. Qed.

Lemma row_sigs_mid r l1 l2 :
  row_sigs (l1 ++ r :: l2) ≡ₚ
    (if decide (Wal.recoverable r) then [row_sig r] else []) ++ row_sigs (l1 ++ l2).
Proof.
  rewrite (row_sigs_app l1 l2), (row_sigs_app l1). unfold row_sigs at 2. rewrite filter_cons.
  case_decide; cbn; [|done]. by rewrite Permutation_middle.
Qed.

(** A table with unique keys around the row of a key. *)
Lemma table_split (l : list Wal.TaskRow) r :
  Wal.pk_unique Wal.r_task_id l → r ∈ l →
  ∃ l1 l2, l = l1 ++ r :: l2 ∧
    Wal.delete_key Wal.r_task_id (Wal.r_task_id r) l = l1 ++ l2 ∧
    ∀ f, Wal.update_key Wal.r_task_id f (Wal.r_task_id r) l = l1 ++ f r :: l2.
Proof.
  intros Hu (l1&l2&->)%list_elem_of_split. exists l1, l2. split; [done|].
  unfold Wal.pk_unique in Hu. rewrite fmap_app, fmap_cons in Hu.
  apply NoDup_app in Hu as (_&Hd&[Hr _]%NoDup_cons).
  assert (Forall (λ r', Wal.r_task_id r' ≠ Wal.r_task_id r) l1) as H1.
  { apply Forall_forall. intros r' Hr' E. eapply (Hd (Wal.r_task_id r')).
    - by apply list_elem_of_fmap_2.
    - rewrite E. left. }
  assert (Forall (λ r', Wal.r_task_id r' ≠ Wal.r_task_id r) l2) as H2.
  { apply Forall_forall. intros r' Hr' E. apply Hr. rewrite <- E. by apply list_elem_of_fmap_2. }
  split.
  - unfold Wal.delete_key. rewrite filter_app, filter_cons_False by auto.
    by rewrite !Metrics.filter_all.
  - intros f. unfold Wal.update_key. rewrite fmap_app, fmap_cons, decide_True by done.
    f_equal; [|f_equal]; (rewrite <- (list_fmap_id l1) at 2 || rewrite <- (list_fmap_id l2) at 2);
      apply list_fmap_ext; intros i r' Hi;
      (rewrite decide_False; [done|]); (eapply Forall_lookup_1 in Hi; [|eassumption]; done).
Qed.

(** Taking a live task out of the manager, and its row out of the table. *)
Lemma coherent_take db s x rest :
  Tx.db_wf db → coherent db s → QM.all_tasks s ≡ₚ x :: rest → live x →
  ∃ r l1 l2, Wal.tasks db = l1 ++ r :: l2 ∧ Wal.recoverable r ∧ row_sig r = task_sig x ∧
    row_sigs (l1 ++ l2) ≡ₚ live_sigs rest ∧
    Wal.delete_key Wal.r_task_id (task_id x) (Wal.tasks db) = l1 ++ l2 ∧
    ∀ f, Wal.update_key Wal.r_task_id f (task_id x) (Wal.tasks db) = l1 ++ f r :: l2.
Proof.
  intros [Hu _] Hc Hp Hl. unfold coherent in Hc.
  rewrite (live_sigs_perm _ _ Hp), live_sigs_live in Hc by done.
  assert (task_sig x ∈ row_sigs (Wal.tasks db)) as Hin by (rewrite Hc; left).
  apply list_elem_of_fmap in Hin as (r&Hsig&[Hrec Hr]%list_elem_of_filter).
  destruct (table_split _ r Hu Hr) as (l1&l2&E&Hdel&Hupd).
  assert (Wal.r_task_id r = task_id x) as Hid by (unfold task_sig, row_sig in Hsig; congruence).
  rewrite Hid in Hdel, Hupd. exists r, l1, l2. split_and!; try done.
  rewrite E, row_sigs_mid, decide_True, <- Hsig in Hc by done. by apply Permutation_cons_inv in Hc.
Qed.

(** ** Each operation, in memory and on disk *)

Definition db_ids (db : Wal.Db) : list string := Wal.r_task_id <$> Wal.tasks db.

Lemma delete_key_notin k (l : list Wal.TaskRow) :
  k ∉ Wal.r_task_id <$> l → Wal.delete_key Wal.r_task_id k l = l.
Proof.
  intros Hk. apply Metrics.filter_all, Forall_forall. intros r Hr <-.
  apply Hk. by apply list_elem_of_fmap_2.
Qed.

Lemma coherent_enqueue db s qn p uuid now :
  coherent db s → uuid ∉ db_ids db →
  coherent (Wal.save_task (new_task uuid qn p now) now db) (QM.enqueue qn p uuid now s).2.
Proof.
  intros Hc Hf. unfold coherent. rewrite (live_sigs_perm _ _ (enqueue_adds qn p uuid now s)).
  rewrite live_sigs_live by (by left). rewrite <- Hc. cbn. unfold Wal.upsert. cbn.
  rewrite delete_key_notin by done. rewrite row_sigs_app. apply Permutation_app_comm.
Qed.

Lemma set_row_sig st n w now r x :
  row_sig r = task_sig x → row_sig (Wal.set_row st (Some n) w now r) = task_sig (set_attempts n x).
Proof. unfold row_sig, task_sig. cbn. congruence. Qed.

Lemma coherent_dequeue db s qn w d s' now :
  wf s → Tx.db_wf db → coherent db s → QM.dequeue qn w s = (Some d, s') →
  coherent (Wal.update_task_status (QM.d_task_id d) "in_flight" (Some (QM.d_attempts d))
              (Some w) now db).2 s'.
Proof.
  intros Hw Hdb Hc E.
  destruct (dequeue_moves _ _ _ _ _ Hw E) as (x&rest&E1&E2&->&Hst&_).
  destruct (coherent_take _ _ _ _ Hdb Hc E1) as (r&l1&l2&_&_&Hsig&Hrest&_&Hupd); [by left|].
  unfold coherent. cbn. rewrite Hupd, row_sigs_mid, decide_True by (by right).
  rewrite (live_sigs_perm _ _ E2), live_sigs_live by (by right). rewrite Hrest.
  by rewrite (set_row_sig _ _ _ _ _ _ Hsig).
Qed.

Lemma coherent_acknowledge db s tid s' now :
  wf s → Tx.db_wf db → coherent db s → QM.acknowledge tid s = (true, s') →
  coherent (Wal.update_task_status tid "done" None None now db).2 s'.
Proof.
  intros Hw Hdb Hc E.
  destruct (acknowledge_moves _ _ _ Hw E) as (x&rest&Hg&<-&E1&E2).
  destruct (shape_flight_get _ _ _ (proj1 Hw) Hg) as [_ [Hst _]].
  destruct (coherent_take _ _ _ _ Hdb Hc E1) as (r&l1&l2&_&_&_&Hrest&_&Hupd); [by right|].
  unfold coherent. cbn. rewrite Hupd, row_sigs_mid, decide_False by (by intros []).
  by rewrite (live_sigs_perm _ _ E2), live_sigs_dead by (by intros []).
Qed.

Lemma nack_live now n y : flight_ok y → live (nack_routed now (nack_verdict n y)) ↔ (attempts y < n)%Z.
Proof.
  intros [Hst _]. unfold nack_routed, nack_verdict.
  destruct (attempts y >=? n)%Z eqn:E; cbn.
  - split; [by intros []|lia].
  - rewrite Hst. cbn. split; [lia|by left].
Qed.

Lemma nack_result_action tid now s res s' y :
  flight_ok y → dget tid (QM._in_flight s) = Some y →
  QM.negative_acknowledge tid now s = (Some res, s') →
  QM.n_attempts res = attempts y ∧
  (QM.n_action res = "dead_lettered" ∧ (QM.max_retries s ≤ attempts y)%Z ∨
   QM.n_action res = "requeued" ∧ (attempts y < QM.max_retries s)%Z).
Proof.
  intros [Hst _] Hg. unfold QM.negative_acknowledge, QM.nack_take, QM.nack_route. rewrite Hg.
  cbn. destruct (attempts y >=? QM.max_retries s)%Z eqn:E; cbn.
  - intros [= <- _]. cbn. split; [done|left]. split; [done|lia].
  - rewrite bool_decide_eq_false_2 by congruence. intros [= <- _]. cbn.
    split; [done|right]. split; [done|lia].
Qed.

(** [stub] is the object [_handle_nack] stores; only its id matters here. *)
Lemma coherent_nack db s tid res s' stub now :
  wf s → Tx.db_wf db → coherent db s → task_id stub = tid →
  QM.negative_acknowledge tid now s = (Some res, s') →
  coherent
    (if bool_decide (QM.n_action res = "dead_lettered")
     then Wal.add_to_dlq stub "max retries exceeded" now db
     else (Wal.update_task_status tid "pending" (Some (QM.n_attempts res)) None now db).2) s'.
Proof.
  intros Hw Hdb Hc Hid E.
  destruct (negative_acknowledge_moves _ _ _ _ _ Hw E) as (y&rest&Hg&<-&Hf&E1&E2).
  destruct (nack_result_action _ _ _ _ _ _ Hf Hg E) as [Hn Hcase].
  destruct (coherent_take _ _ _ _ Hdb Hc E1) as (r&l1&l2&_&_&Hsig&Hrest&Hdel&Hupd);
    [right; apply Hf|].
  unfold coherent. rewrite (live_sigs_perm _ _ E2).
  pose proof (nack_live now (QM.max_retries s) y Hf) as Hl.
  destruct Hcase as [[-> Hge]|[-> Hlt]].
  - rewrite bool_decide_eq_true_2 by done. unfold Wal.add_to_dlq. cbn [Wal.tasks Wal.with_tasks Wal.with_dlq].
    by rewrite Hid, Hdel, Hrest, live_sigs_dead by (rewrite Hl; lia).
  - rewrite bool_decide_eq_false_2 by done. cbn.
    rewrite Hupd, row_sigs_mid, decide_True by (by left).
    rewrite live_sigs_live by (by apply Hl). rewrite Hrest.
    rewrite (set_row_sig _ _ _ _ _ _ Hsig), Hn. unfold nack_routed, nack_verdict.
    rewrite Z.geb_leb, (proj2 (Z.leb_gt _ _)) by done. by rewrite (proj1 Hf).
Qed.

(** ** Handlers that touch neither the queues nor the database *)

Definition frames {A} (h : M A) : Prop := keeps (λ b, (queue_manager b, wal_store b)) h.

Lemma frames_wal {A} (h : M A) b : frames h → wal_store (h b).2 = wal_store b.
Proof. intros Hf. by pose proof (Hf b) as [=]. Qed.

Lemma durable_ext b b' :
  queue_manager b' = queue_manager b → wal_store b' = wal_store b → durable b → durable b'.
Proof. unfold durable. by intros -> ->. Qed.

Lemma frames_durable {A} (h : M A) b : frames h → durable b → durable (h b).2.
Proof. intros Hf. pose proof (Hf b) as [=]. by apply durable_ext. Qed.

(** ** Every command keeps the invariant *)

Lemma on_qm_eq {A} (f : QM.t → A * QM.t) b :
  on_qm f b = (Some (f (queue_manager b)).1, set_qm (f (queue_manager b)).2 b).
Proof. unfold on_qm. by destruct (f _). Qed.

Lemma on_registry_eq {A} (f : Registry.t → A * Registry.t) b :
  on_registry f b = (Some (f (worker_registry b)).1, set_registry (f (worker_registry b)).2 b).
Proof. unfold on_registry. by destruct (f _). Qed.

Lemma on_wal_eq {A} (f : Wal.Db → A * Wal.Db) b db :
  wal_store b = Some db → on_wal f b = (Some (f db).1, set_wal (Some (f db).2) b).
Proof. intros E. unfold on_wal. rewrite E. by destruct (f db). Qed.

(** [uuid4] gives an identifier that is not in use. *)
Definition fresh env b : Prop :=
  (e_uuid env ∉ QM.ids (queue_manager b)) ∧
  (∀ db, wal_store b = Some db → e_uuid env ∉ db_ids db).

Lemma produce_durable env m b : fresh env b → durable b → durable (_handle_produce env m b).2.
Proof.
  intros [Hf Hfdb] Hd. pose proof Hd as (db&Hdb&Hw&Hwf&Hc). specialize (Hfdb db Hdb).
  destruct (given (m_queue m)) as [qn|] eqn:Eq; [destruct (task_given (m_task m)) as [p|] eqn:Ep|];
    [|unfold _handle_produce; by rewrite Eq, ?Ep..].
  destruct (Requests.handle_produce_spec env m b qn p Eq Ep) as (al&ra&sh&_&->).
  destruct al; [|exact Hd]. unfold Requests.produced. cbn [snd]. eexists. split_and!.
  - cbn. by rewrite Hdb.
  - by apply (exec_wf (OEnqueue qn p (e_uuid env) (e_time env))).
  - by apply (Tx.denote_wf (Tx.SaveTask _ _)).
  - by apply coherent_enqueue.
Qed.

Lemma consume_durable env m b : durable b → durable (_handle_consume env m b).2.
Proof.
  intros Hd. pose proof Hd as (db&Hdb&Hw&Hwf&Hc). unfold _handle_consume.
  destruct (given (m_queue m)) as [qn|], (given (m_worker_id m)) as [w|]; try exact Hd.
  unfold mbind, M_bind. rewrite on_qm_eq. pose proof (exec_wf (ODequeue qn w) _ Hw I) as Hw'.
  cbn [exec] in Hw'. destruct (QM.dequeue qn w (queue_manager b)) as [[d|] s'] eqn:E; cbn in Hw'.
  - unfold if_wal, on_wal. cbn. rewrite Hdb. eexists. split_and!; [done|done|..].
    + by apply (Tx.denote_wf (Tx.UpdateTaskStatus _ _ _ _ _)).
    + exact (coherent_dequeue db _ qn w d s' _ Hw Hwf Hc E).
  - exists db. split_and!; [done..|]. unfold coherent in *. cbn.
    destruct (dequeue_cases qn w (queue_manager b) (proj1 Hw)) as [(s1&E1&_&Hp)|(q&s1&x&rest&_&_&_&E1)];
      rewrite E1 in E; simplify_eq.
    by rewrite (live_sigs_perm _ _ Hp).
Qed.

Lemma ack_durable env m b : durable b → durable (_handle_ack env m b).2.
Proof.
  intros Hd. pose proof Hd as (db&Hdb&Hw&Hwf&Hc). unfold _handle_ack.
  destruct (given (m_task_id m)) as [tid|]; [|exact Hd].
  unfold mbind, M_bind. rewrite on_qm_eq. pose proof (exec_wf (OAck tid) _ Hw I) as Hw'.
  cbn [exec] in Hw'. destruct (QM.acknowledge tid (queue_manager b)) as [[] s'] eqn:E.
  - unfold if_wal, on_wal. cbn. rewrite Hdb. eexists. split_and!; [done|exact Hw'|..].
    + by apply (Tx.denote_wf (Tx.UpdateTaskStatus _ _ _ _ _)).
    + exact (coherent_acknowledge db _ tid s' _ Hw Hwf Hc E).
  - unfold QM.acknowledge in E. destruct (dget tid _); [done|]. injection E as <-.
    by apply (durable_ext b).
Qed.

Lemma nack_durable env m b : durable b → durable (_handle_nack env m b).2.
Proof.
  intros Hd. pose proof Hd as (db&Hdb&Hw&Hwf&Hc). unfold _handle_nack.
  destruct (given (m_task_id m)) as [tid|]; [|exact Hd].
  unfold mbind, M_bind. rewrite on_qm_eq.
  pose proof (exec_wf (ONack tid (e_time env)) _ Hw I) as Hw'. cbn [exec] in Hw'.
  destruct (QM.negative_acknowledge tid (e_time env) (queue_manager b)) as [[res|] s'] eqn:E.
  - pose proof (λ stub Hid, coherent_nack db _ tid res s' stub _ Hw Hwf Hc Hid E) as Hc'.
    unfold if_wal, persist_nack, on_wal, mbind, M_bind. cbn. rewrite Hdb.
    destruct (bool_decide (QM.n_action res = "dead_lettered")); cbn.
    + rewrite Hdb. eexists. split_and!; [done|exact Hw'|..].
      * by apply (Tx.denote_wf (Tx.AddToDlq _ _ _)).
      * by apply Hc'.
    + rewrite Hdb. eexists. split_and!; [done|exact Hw'|..].
      * by apply (Tx.denote_wf (Tx.UpdateTaskStatus _ _ _ _ _)).
      * by apply (Hc' (new_task tid "" JNull 0)).
  - unfold QM.negative_acknowledge in E.
    destruct (nack_take_cases tid (queue_manager b)) as [[_ E']|(y&s1&_&E'&_)]; rewrite E' in E;
      [injection E as <-; by apply (durable_ext b)|by destruct (QM.nack_route _ _ _)].
Qed.

Lemma dlq_table_durable b db db' :
  wal_store b = Some db → Wal.tasks db' = Wal.tasks db → Tx.db_wf db' →
  durable b → durable (set_wal (Some db') b).
Proof.
  intros Hdb Ht Hwf (db0&Hdb0&Hw&_&Hc). simplify_eq. exists db'. split_and!; [done..|].
  unfold coherent in *. cbn. by rewrite Ht.
Qed.

Lemma purge_durable env m b : durable b → durable (_handle_dlq_purge m b).2.
Proof.
  intros Hd. pose proof Hd as (db&Hdb&_&Hwf&_). unfold _handle_dlq_purge, mbind, M_bind.
  unfold if_wal. rewrite Hdb. rewrite (on_wal_eq _ _ db Hdb). cbn.
  eapply dlq_table_durable; [done|done| |done].
  by apply (Tx.denote_wf (Tx.PurgeDlq (m_queue m))).
Qed.

Lemma replay_durable env m b :
  fresh env b → durable b → durable (_handle_dlq_replay env m b).2.
Proof.
  intros [Hf Hfdb] Hd. pose proof Hd as (db&Hdb&Hw&Hwf&Hc). specialize (Hfdb db Hdb).
  unfold _handle_dlq_replay. destruct (given (m_task_id m)) as [tid|]; [|exact Hd].
  unfold if_wal, mbind, M_bind. rewrite Hdb, (on_wal_eq _ _ db Hdb).
  pose proof (Tx.denote_wf (Tx.ReplayDlqTask tid) db Hwf) as Hwf'. cbn [Tx.denote] in Hwf'.
  unfold Wal.replay_dlq_task in *.
  destruct (Wal.select_key _ tid _) as [row|]; cbn [fst snd] in *;
    [|by eapply dlq_table_durable].
  destruct (loads (Wal.q_payload row)) as [p|]; [|by eapply dlq_table_durable].
  set (db1 := Wal.with_dlq _ db) in *. rewrite on_qm_eq. cbn [fst snd].
  set (b1 := set_qm _ _).
  rewrite (Requests.persist_enqueued_spec env (Wal.q_queue_name row) p (queue_manager b) b1 db1)
    by done.
  eexists. split_and!; [done|..].
  - by apply (exec_wf (OEnqueue (Wal.q_queue_name row) p (e_uuid env) (e_time env))).
  - by apply (Tx.denote_wf (Tx.SaveTask _ _)).
  - by apply coherent_enqueue.
Qed.

(** The commands that touch neither. *)
Lemma frames_register env m : frames (_handle_register env m).
Proof. unfold frames, _handle_register. keep. Qed.

Lemma frames_heartbeat env m : frames (_handle_heartbeat env m).
Proof. unfold frames, _handle_heartbeat. keep. Qed.

Lemma frames_dlq_list m : frames (_handle_dlq_list m).
Proof. unfold frames, _handle_dlq_list. keep. Qed.

Lemma frames_stats env m : frames (_handle_stats env m).
Proof. unfold frames, _handle_stats. keep. Qed.

Lemma frames_metrics_snapshot env : frames (_get_metrics_snapshot env).
Proof. unfold frames, _get_metrics_snapshot. keep. Qed.

Lemma dispatch_durable env m b : fresh env b → durable b → durable (_dispatch env m b).2.
Proof.
  intros Hf Hd. unfold _dispatch. destruct (given _) as [c|]; [|exact Hd].
  destruct (dget c (handlers env)) as [h|] eqn:E; [|exact Hd].
  apply dget_Some_in in E. unfold handlers in E.
  repeat apply elem_of_cons in E as [E|E]; try (injection E as -> ->); auto using
    produce_durable, consume_durable, ack_durable, nack_durable, purge_durable, replay_durable,
    frames_durable, frames_register, frames_heartbeat, frames_dlq_list, frames_stats,
    frames_metrics_snapshot;
    try by apply not_elem_of_nil in E.
  apply frames_durable; [apply frames_metrics_snapshot|done].
Qed.

(** ** Eviction and reset *)

Lemma requeue_by_id_sigs tid s :
  wf s → live_sigs (QM.all_tasks (QM.requeue_by_id tid s).2) ≡ₚ live_sigs (QM.all_tasks s).
Proof.
  intros Hw. destruct (QM.requeue_by_id tid s) as [[] s'] eqn:E.
  - destruct (requeue_by_id_moves _ _ _ (proj1 Hw) E) as (x&rest&Hg&<-&E1&E2).
    destruct (shape_flight_get _ _ _ (proj1 Hw) Hg) as [_ [Hst _]].
    rewrite (live_sigs_perm _ _ E1), (live_sigs_perm _ _ E2), !live_sigs_live;
      [done|by right|by left].
  - unfold QM.requeue_by_id in E. destruct (dget tid _); simplify_eq. done.
Qed.

Lemma reassign_all_sigs tids g (s : QM.t) :
  wf s →
  wf (Registry.reassign_all tids g s).2 ∧
  live_sigs (QM.all_tasks (Registry.reassign_all tids g s).2) ≡ₚ live_sigs (QM.all_tasks s).
Proof.
  revert g s. induction tids as [|tid tids IH]; intros g s Hw; [done|].
  cbn [Registry.reassign_all]. pose proof (requeue_by_id_sigs tid s Hw) as Hs.
  pose proof (exec_wf (ORequeueById tid) s Hw I) as Hw'. cbn [exec] in Hw'.
  change (reassign tid s) with (QM.requeue_by_id tid s).
  destruct (QM.requeue_by_id tid s) as [ok s1]. cbn in Hs, Hw'.
  destruct (IH (if ok then Registry.bump_reassigned g else g) s1 Hw') as [H1 H2].
  by rewrite H2, Hs.
Qed.

Lemma evict_each_sigs iter dead g (s : QM.t) :
  wf s →
  ∃ g' s', Registry.evict_each iter dead g (Some s) = (g', Some s') ∧ wf s' ∧
    live_sigs (QM.all_tasks s') ≡ₚ live_sigs (QM.all_tasks s).
Proof.
  revert g s. induction dead as [|[k i] dead IH]; intros g s Hw; [by exists g, s|].
  cbn [Registry.evict_each]. destruct (reassign_all_sigs (iter i) g s Hw) as [H1 H2].
  destruct (Registry.reassign_all (iter i) g s) as [g1 s1]. cbn in H1, H2.
  destruct (IH (Registry.bump_evictions g1) s1 H1) as (g'&s'&E&Hw'&Hs).
  exists g', s'. by rewrite Hs, H2.
Qed.

Lemma eviction_durable env iter b : durable b → durable (eviction_sweep env iter b).2.
Proof.
  intros (db&Hdb&Hw&Hwf&Hc). unfold eviction_sweep, Registry.evict_dead_workers.
  destruct (evict_each_sigs iter (Registry.dead_workers (e_time env)
    (Registry._workers (worker_registry b))) (Registry.with_workers (Registry.del_workers
    (Registry.dead_workers (e_time env) (Registry._workers (worker_registry b))))
    (worker_registry b)) (queue_manager b) Hw) as (g'&s'&->&Hw'&Hs).
  exists db. split_and!; [done..|]. unfold coherent in *. cbn. by rewrite Hs.
Qed.

Lemma reset_durable env b : durable b → durable (_reset_handler env b).2.
Proof.
  intros (db&Hdb&Hw&Hwf&Hc). unfold _reset_handler, if_wal, on_wal, mbind, M_bind. cbn.
  rewrite Hdb. exists Wal.empty_db. split_and!; [done|apply reset_wf| |exact (perm_nil Signature)].
  split_and!; apply Tx.nil_unique.
Qed.

Lemma crash_worker_durable env b : durable b → durable (_crash_worker_handler env b).2.
Proof.
  intros Hd. apply frames_durable; [|done]. unfold frames, _crash_worker_handler. keep.
Qed.

(** ** Restart *)

(** The task [start] rebuilds from a row. *)
Definition recovered_task env r : Task :=
  set_attempts (Wal.r_attempts r)
    (new_task (Wal.r_task_id r) (Wal.r_queue_name r)
       (default JNull (loads (Wal.r_payload r))) (e_time env)).

Definition requeue_row env r (s : QM.t) : QM.t :=
  (QM.enqueue_recovered (Wal.r_queue_name r) (Wal.r_task_id r)
     (default JNull (loads (Wal.r_payload r))) (Wal.r_attempts r) (e_time env) s).2.

Definition requeue_rows env (rows : list Wal.TaskRow) (s : QM.t) : QM.t :=
  foldl (flip (requeue_row env)) s rows.

Definition decodable r : Prop := ∃ p, loads (Wal.r_payload r) = Some p.

(** Every row of the table with the key of a row of [rows] has its attempt
    count and is recoverable. *)
Definition agrees (rows l : list Wal.TaskRow) : Prop :=
  ∀ r r', r ∈ rows → r' ∈ l → Wal.r_task_id r' = Wal.r_task_id r →
    Wal.r_attempts r' = Wal.r_attempts r ∧ Wal.recoverable r'.

Lemma refresh_rows now r l :
  agrees [r] l →
  let l' := Wal.update_key Wal.r_task_id
              (Wal.set_row "pending" (Some (Wal.r_attempts r)) None now) (Wal.r_task_id r) l in
  row_sigs l' = row_sigs l ∧ Wal.r_task_id <$> l' = Wal.r_task_id <$> l ∧
  ∀ rows, agrees rows l → agrees rows l'.
Proof.
  intros Ha. cbn zeta. split_and!.
  - unfold Wal.update_key, row_sigs. induction l as [|r' l IH]; [done|].
    assert (agrees [r] l) as Hl by (intros ? ? ? ?; apply Ha; [done|by right]).
    specialize (IH Hl). rewrite fmap_cons.
    destruct (decide (Wal.r_task_id r' = Wal.r_task_id r)) as [Hid|Hid]; rewrite !filter_cons.
    + destruct (Ha r r') as [Hatt Hrec]; [left|left|done|].
      rewrite !decide_True by first [done|by left]. rewrite !fmap_cons, IH. f_equal.
      unfold row_sig. cbn. congruence.
    + destruct (decide (Wal.recoverable r')); [|done]. by rewrite !fmap_cons, IH.
  - unfold Wal.update_key. rewrite <- list_fmap_compose. apply list_fmap_ext.
    intros i r' _. cbn. by case_decide.
  - intros rows Hr q q' Hq Hq' E. unfold Wal.update_key in Hq'.
    apply list_elem_of_fmap in Hq' as (q0&->&Hq0). case_decide as Hid; [|by apply Hr].
    destruct (Hr q q0 Hq Hq0 E) as [Hatt _]. split; [|by left]. cbn.
    destruct (Ha r q0) as [Hatt' _]; [left|done|done|]. congruence.
Qed.

Lemma recover_rows_spec env rows b db :
  wal_store b = Some db → Forall decodable rows → agrees rows (Wal.tasks db) →
  ∃ db', recover_rows env rows b =
      (Some (length rows), set_wal (Some db') (set_qm (requeue_rows env rows (queue_manager b)) b)) ∧
    row_sigs (Wal.tasks db') = row_sigs (Wal.tasks db) ∧ db_ids db' = db_ids db ∧
    Wal.dead_letter_queue db' = Wal.dead_letter_queue db ∧
    Wal.broker_metadata db' = Wal.broker_metadata db.
Proof.
  revert b db. induction rows as [|r rows IH]; intros b db Hdb Hdec Ha.
  { exists db. split_and!; try done. cbn. by destruct b; cbn in *; subst. }
  apply Forall_cons in Hdec as [[p Hp] Hdec]. cbn [recover_rows]. rewrite Hp.
  unfold mbind, M_bind. rewrite on_qm_eq. erewrite on_wal_eq by done. cbn [fst snd].
  set (b1 := set_wal _ _). set (db1 := (Wal.update_task_status _ _ _ _ _ db).2) in b1.
  destruct (refresh_rows (e_time env) r (Wal.tasks db)) as (Hs&Hids&Hag).
  { intros ??->%list_elem_of_singleton. apply Ha. left. }
  destruct (IH b1 db1) as (db'&E&Hs'&Hids'&Hd&Hm); [done|done|..].
  { apply Hag. intros ????. apply Ha; [by right|done]. }
  rewrite E. exists db'. split_and!; [|by rewrite Hs'|by rewrite Hids'|done|done].
  unfold requeue_rows, requeue_row. cbn [foldl flip length]. by rewrite Hp.
Qed.

(** The manager after the recovery loop. *)
Lemma requeue_rows_tasks env rows s :
  QM.all_tasks (requeue_rows env rows s) ≡ₚ (recovered_task env <$> rows) ++ QM.all_tasks s.
Proof.
  revert s. induction rows as [|r rows IH]; intros s; [done|].
  unfold requeue_rows in *. cbn [foldl flip]. rewrite IH, fmap_cons.
  unfold requeue_row at 1. rewrite enqueue_recovered_adds. by rewrite <- Permutation_middle.
Qed.

Lemma requeue_rows_flight env rows s :
  QM._in_flight (requeue_rows env rows s) = QM._in_flight s.
Proof.
  revert s. induction rows as [|r rows IH]; intros s; [done|].
  unfold requeue_rows in *. cbn [foldl flip]. rewrite IH.
  unfold requeue_row, QM.enqueue_recovered, QM._ensure_queue. by destruct (dget _ _).
Qed.

Lemma requeue_rows_queue env rows s q :
  QM.queue_of q (requeue_rows env rows s) =
    QM.queue_of q s ++ (recovered_task env <$> filter (λ r, Wal.r_queue_name r = q) rows).
Proof.
  revert s. induction rows as [|r rows IH]; intros s; [by rewrite app_nil_r|].
  unfold requeue_rows in *. cbn [foldl flip]. rewrite IH, filter_cons.
  change (QM.queue_of q (requeue_row env r s)) with
    (QM.queue_of q (QM.queue_append (Wal.r_queue_name r) (recovered_task env r)
       (QM._ensure_queue (Wal.r_queue_name r) s))).
  unfold QM.queue_append. case_decide as E; [subst q|].
  - by rewrite QM.queue_of_dset, QM.queue_of_ensure, fmap_cons, <- app_assoc.
  - by rewrite QM.queue_of_dset_ne, QM.queue_of_ensure_ne by done.
Qed.

Lemma requeue_rows_wf env rows s :
  wf s → NoDup (Wal.r_task_id <$> rows) → (∀ r, r ∈ rows → Wal.r_task_id r ∉ QM.ids s) →
  Forall (λ r, (0 <= Wal.r_attempts r)%Z) rows → wf (requeue_rows env rows s).
Proof.
  revert s. induction rows as [|r rows IH]; intros s Hw Hn Hfr Hatt; [done|].
  rewrite fmap_cons in Hn. apply NoDup_cons in Hn as [Hr Hn]. apply Forall_cons in Hatt as [Ha Hatt].
  unfold requeue_rows in *. cbn [foldl flip]. apply IH; [|done| |done].
  - apply (exec_wf (ORecover (Wal.r_queue_name r) (Wal.r_task_id r) _ (Wal.r_attempts r)
      (e_time env))); [done|]. split; [apply Hfr; left|done].
  - intros r' Hr'. unfold requeue_row. rewrite (ids_add _ _ _ (enqueue_recovered_adds _ _ _ _ _ s)).
    intros [E|E]%elem_of_cons; [|by apply (Hfr r'); [right|]].
    apply Hr. cbn in E. rewrite <- E. by apply list_elem_of_fmap_2.
Qed.

(** A row written by [json.dumps]. *)
Lemma recovered_sig env r x : row_sig r = task_sig x → task_sig (recovered_task env r) = row_sig r.
Proof.
  unfold row_sig, task_sig, recovered_task. cbn. intros [= _ _ Hp _].
  rewrite Hp, loads_dumps. done.
Qed.

Lemma live_tasks_split s : shape s → filter live (QM.all_tasks s) = QM.pending s ++ dvalues (QM._in_flight s).
Proof.
  intros (_&_&_&_&Hq&Hf&Hc&Hd). unfold QM.all_tasks. rewrite !filter_app.
  rewrite (Metrics.filter_none _ (dvalues (QM._completed s))),
    (Metrics.filter_none _ (dvalues (DLQ._tasks _))).
  - rewrite !app_nil_r. f_equal; apply Metrics.filter_all.
    + unfold QM.pending. apply Forall_concat. unfold dvalues. apply Forall_fmap.
      eapply Forall_impl; [exact Hq|]. cbn. intros [q l] Hl. eapply Forall_impl; [exact Hl|].
      intros x (_&Hx&_). by left.
    + unfold dvalues. apply Forall_fmap. eapply Forall_impl; [exact Hf|].
      intros [k x] [_ [Hx _]]. by right.
  - unfold dvalues. apply Forall_fmap. eapply Forall_impl; [exact Hd|].
    intros [k x] [_ [Hx _]] [E|E]; cbn in *; congruence.
  - unfold dvalues. apply Forall_fmap. eapply Forall_impl; [exact Hc|].
    intros [k x] [_ Hx] [E|E]; unfold done_ok in *; cbn in *; congruence.
Qed.

Lemma live_attempts s x : shape s → x ∈ QM.all_tasks s → live x → (0 <= attempts x)%Z.
Proof.
  intros Hs Hx Hl.
  assert (x ∈ filter live (QM.all_tasks s)) as Hin by (by apply list_elem_of_filter).
  rewrite live_tasks_split in Hin by done. destruct Hs as (_&_&_&_&Hq&Hf&_).
  apply elem_of_app in Hin as [Hin|Hin].
  - unfold QM.pending in Hin. apply list_elem_of_In, in_concat in Hin as (l&Hl'&Hx').
    apply list_elem_of_In, list_elem_of_fmap in Hl' as ([q l']&->&Hin).
    rewrite Forall_forall in Hq. specialize (Hq _ Hin). cbn in Hq. rewrite Forall_forall in Hq.
    apply list_elem_of_In in Hx'. by destruct (Hq _ Hx') as (_&_&_&?).
  - apply list_elem_of_fmap in Hin as ([k y]&->&Hin). unfold entries_ok in Hf.
    rewrite Forall_forall in Hf. destruct (Hf _ Hin) as [_ (_&_&?)]. cbn in *. lia.
Qed.

(** What [load_pending_tasks] reads from a coherent database. *)
Lemma recovery_rows db s :
  wf s → Tx.db_wf db → coherent db s →
  let rows := Wal.load_pending_tasks db in
  row_sig <$> rows ≡ₚ live_sigs (QM.all_tasks s) ∧ NoDup (Wal.r_task_id <$> rows) ∧
  agrees rows (Wal.tasks db) ∧
  (∀ r, r ∈ rows → ∃ x, x ∈ QM.all_tasks s ∧ live x ∧ row_sig r = task_sig x).
Proof.
  intros Hw [Hu _] Hc rows.
  assert (rows ≡ₚ filter Wal.recoverable (Wal.tasks db)) as Hperm by apply Wal.order_asc_perm.
  assert (row_sig <$> rows ≡ₚ live_sigs (QM.all_tasks s)) as Hsig by (by rewrite Hperm).
  split_and!; [done| | |].
  - rewrite Hperm. by apply (Tx.filter_unique Wal.r_task_id).
  - intros r r' Hr Hr' E. rewrite Hperm in Hr. apply list_elem_of_filter in Hr as [Hrec Hr].
    assert (r' = r) as ->; [|done].
    pose proof (proj2 (Wal.select_key_Some _ _ _ r' Hu) (conj Hr' E)) as E1.
    pose proof (proj2 (Wal.select_key_Some _ _ _ r Hu) (conj Hr eq_refl)) as E2. congruence.
  - intros r Hr. assert (row_sig r ∈ live_sigs (QM.all_tasks s)) as Hin.
    { rewrite <- Hsig. by apply list_elem_of_fmap_2. }
    apply list_elem_of_fmap in Hin as (x&E&[Hl Hx]%list_elem_of_filter). eauto.
Qed.

(** Restarting on the database of a coherent broker. *)
Lemma restart_spec env mono b :
  durable b →
  ∃ rows b',
    start_recovery env (new_broker (wal_store b) mono) = (Some (length rows), b') ∧
    durable b' ∧ (∃ db, wal_store b = Some db ∧ rows = Wal.load_pending_tasks db) ∧
    queue_manager b' = requeue_rows env rows (QM.init max_retries_default) ∧
    live_sigs (QM.all_tasks (queue_manager b')) ≡ₚ live_sigs (QM.all_tasks (queue_manager b)).
Proof.
  intros (db&Hdb&Hw&Hwf&Hc).
  destruct (recovery_rows db _ Hw Hwf Hc) as (Hsig&Hn&Hag&Hex).
  set (rows := Wal.load_pending_tasks db) in *.
  destruct (recover_rows_spec env rows (new_broker (wal_store b) mono) db)
    as (db'&E&Hs&Hids&Hd&Hm); [done| |done|].
  { apply Forall_forall. intros r Hr. destruct (Hex r Hr) as (x&_&_&Hx).
    exists (payload x). unfold row_sig, task_sig in Hx. injection Hx as _ _ -> _. apply loads_dumps. }
  assert (live_sigs (QM.all_tasks (requeue_rows env rows (QM.init max_retries_default))) ≡ₚ
    live_sigs (QM.all_tasks (queue_manager b))) as Hlive.
  { rewrite (live_sigs_perm _ _ (requeue_rows_tasks env rows _)), <- Hsig.
    unfold live_sigs. cbn [QM.init QM.all_tasks]. rewrite app_nil_r.
    rewrite Metrics.filter_all by (apply Forall_fmap, Forall_forall; intros; by left).
    rewrite <- list_fmap_compose.
    rewrite (list_fmap_ext _ row_sig rows); [done|]. intros i r Hi.
    destruct (Hex r) as (x&_&_&Hx); [by eapply list_elem_of_lookup_2|].
    cbn. by apply (recovered_sig env r x). }
  exists rows, (set_wal (Some db') (set_qm (requeue_rows env rows (QM.init max_retries_default))
    (new_broker (wal_store b) mono))).
  split_and!; [| |by exists db|reflexivity|exact Hlive].
  - unfold start_recovery, if_wal, mbind, M_bind. cbn [new_broker wal_store]. rewrite Hdb in *.
    rewrite (on_wal_eq _ _ db) by done. cbn [fst snd]. exact E.
  - exists db'. split_and!; [done| | |].
    + apply requeue_rows_wf; [apply init_wf|done|intros r _; apply not_elem_of_nil|].
      apply Forall_forall. intros r Hr. destruct (Hex r Hr) as (x&Hx&Hl&E1).
      unfold row_sig, task_sig in E1. injection E1 as _ _ _ ->.
      by eapply live_attempts; [apply Hw|..].
    + destruct Hwf as (Hu&?&?). unfold Tx.db_wf, Wal.pk_unique.
      change (NoDup (db_ids db') ∧ NoDup (Wal.q_task_id <$> Wal.dead_letter_queue db')
        ∧ NoDup (fst <$> Wal.broker_metadata db')). by rewrite Hids, Hd, Hm.
    + unfold coherent in *. cbn [set_wal set_qm queue_manager]. by rewrite Hs, Hc, <- Hlive.
Qed.

(** ** What happens to a broker with persistence *)

(** Every step but one: the dashboard's replay of all dead letters
    ([_replay_dlq_handler]) changes the memory and bypasses the store, so
    that memory and disk part ([Limits.dashboard_replay_is_not_durable]).
    The histories of [operated] are those without it. *)
Inductive broker_step : Broker → Broker → Prop :=
  | request_step env m b : fresh env b → broker_step b (_dispatch env m b).2
  | evict_step env iter b : broker_step b (eviction_sweep env iter b).2
  | reset_step env b : broker_step b (_reset_handler env b).2
  | crash_worker_step env b : broker_step b (_crash_worker_handler env b).2
  | restart_step env mono b :
      broker_step b (start_recovery env (new_broker (wal_store b) mono)).2.

Inductive operated : Broker → Prop :=
  | first_start mono : operated (new_broker (Some Wal.empty_db) mono)
  | operated_step b b' : operated b → broker_step b b' → operated b'.

Lemma step_durable b b' : broker_step b b' → durable b → durable b'.
Proof.
  intros Hs Hd. destruct Hs;
    auto using dispatch_durable, eviction_durable, reset_durable, crash_worker_durable.
  destruct (restart_spec env mono b Hd) as (rows&b'&E&Hd'&_). by rewrite E.
Qed.

Lemma operated_durable b : operated b → durable b.
Proof.
  induction 1 as [mono|b b' _ IH Hs]; [|by eapply step_durable].
  exists Wal.empty_db. split_and!; [done|apply init_wf| |exact (perm_nil Signature)].
  split_and!; apply Tx.nil_unique.
Qed.

(** C4.  Memory and disk agree.  Start a broker on an empty database and
    let anything of the following happen: commands of any clients (with fresh uuids), eviction
    sweeps, resets, simulated worker crashes, and process crashes followed
    by a restart.  At every point the [tasks] table has unique keys, and its
    recoverable rows are, up to order, exactly the waiting and in-flight
    tasks in memory, with the same queue, payload and attempt count. *)
Theorem memory_and_disk_agree b :
  operated b →
  ∃ db, wal_store b = Some db ∧ Tx.db_wf db ∧
    row_sig <$> filter Wal.recoverable (Wal.tasks db) ≡ₚ
      task_sig <$> (QM.pending (queue_manager b) ++ dvalues (QM._in_flight (queue_manager b))).
Proof.
  intros (db&Hdb&Hw&Hwf&Hc)%operated_durable. exists db. split_and!; [done|done|].
  rewrite <- live_tasks_split by apply Hw. exact Hc.
Qed.

(** C2.  Crash recovery.  Kill such a broker -- after any history of commands,
    sweeps, resets, simulated worker crashes and restarts, but without a
    replay of all dead letters from the dashboard, which is not written to
    the store -- at any point, and start a new process on its database:
    start-up succeeds and reports the number of live tasks; nothing is in
    flight; the waiting tasks are exactly the
    waiting and in-flight tasks of the old process, with their payloads and
    attempt counts; and each queue holds its tasks in the order of the
    creation times stored on disk. *)
Theorem crash_recovery_restores_live_tasks env mono b :
  operated b →
  ∃ db rows b',
    wal_store b = Some db ∧ rows = Wal.load_pending_tasks db ∧
    start_recovery env (new_broker (wal_store b) mono) = (Some (length rows), b') ∧
    length rows = length (QM.pending (queue_manager b)) + length (QM._in_flight (queue_manager b)) ∧
    QM._in_flight (queue_manager b') = [] ∧
    task_sig <$> QM.pending (queue_manager b') ≡ₚ
      task_sig <$> (QM.pending (queue_manager b) ++ dvalues (QM._in_flight (queue_manager b))) ∧
    Sorted (Wal.le_key Wal.r_created_at) rows ∧
    ∀ q, QM.queue_of q (queue_manager b') =
           recovered_task env <$> filter (λ r, Wal.r_queue_name r = q) rows.
Proof.
  intros Hop%operated_durable. pose proof Hop as (db&Hdb&Hw&Hwf&Hc).
  destruct (restart_spec env mono b Hop) as (rows&b'&E&Hd'&(db0&Hdb0&->)&Hq&Hs).
  simplify_eq. destruct (recovery_rows _ _ Hw Hwf Hc) as (Hsig&_).
  destruct Hd' as (db'&_&Hw'&_). exists db, (Wal.load_pending_tasks db), b'.
  split_and!; [done|done|exact E|..].
  - apply Permutation_length in Hsig. unfold live_sigs in Hsig.
    rewrite live_tasks_split, !length_fmap, length_app in Hsig by apply Hw.
    rewrite Hsig. unfold dvalues. by rewrite length_fmap.
  - by rewrite Hq, requeue_rows_flight.
  - unfold live_sigs in Hs. rewrite !live_tasks_split in Hs by (apply Hw || apply Hw').
    rewrite <- Hs. rewrite Hq, requeue_rows_flight. cbn. by rewrite app_nil_r.
  - apply Wal.order_asc_sorted.
  - intros q. by rewrite Hq, requeue_rows_queue.
Qed.
End recovery.

(** ** Witnesses *)

#[local] Existing Instance JsonText.codec.

Definition env_at (now : Q) (uuid : string) : Env :=
  mkEnv now now uuid ("10.0.0.7", 40000%Z) 1 0 "tasks.db".

Definition produce_msg (qn : string) (p : Json) : Message :=
  mkMessage (Some "PRODUCE") (Some qn) (Some p) None None None None.

Definition consume_msg (qn w : string) : Message :=
  mkMessage (Some "CONSUME") (Some qn) None (Some w) None None None.

Definition nack_msg (tid : string) : Message :=
  mkMessage (Some "NACK") None None None (Some tid) None None.

(** Two tasks submitted, the first one delivered. *)
Definition run_requests (l : list (Env * Message)) (b : Broker) : Broker :=
  foldl (λ b p, (_dispatch p.1 p.2 b).2) b l.

Definition example_requests : list (Env * Message) :=
  [(env_at 1 "t1", produce_msg "emails" (JObj [("to", JStr "a")]));
   (env_at 2 "t2", produce_msg "emails" (JObj [("to", JStr "b")]));
   (env_at 3 "u1", consume_msg "emails" "w1")].

Definition empty_broker : Broker := new_broker (Some Wal.empty_db) 0.

Definition freshb (env : Env) (b : Broker) : bool :=
  bool_decide (e_uuid env ∉ QM.ids (queue_manager b)) &&
  match wal_store b with
  | Some db => bool_decide (e_uuid env ∉ db_ids db)
  | None => true
  end.

Lemma freshb_fresh env b : freshb env b = true → fresh env b.
Proof.
  unfold freshb. intros [H1%bool_decide_eq_true H2]%andb_prop. split; [done|].
  intros db Hdb. rewrite Hdb in H2. by apply bool_decide_eq_true in H2.
Qed.

Fixpoint all_fresh (l : list (Env * Message)) (b : Broker) : bool :=
  match l with
  | [] => true
  | p :: l => freshb p.1 b && all_fresh l (_dispatch p.1 p.2 b).2
  end.

Lemma operated_requests l b : operated b → all_fresh l b = true → operated (run_requests l b).
Proof.
  revert b. induction l as [|p l IH]; intros b Hb; [done|].
  cbn [all_fresh]. intros [Hf Hl]%andb_prop. apply IH; [|done].
  eapply operated_step; [exact Hb|]. by apply request_step, freshb_fresh.
Qed.

Definition example_operated : Broker := run_requests example_requests empty_broker.

Lemma memory_and_disk_agree_witness :
  ∃ db, wal_store example_operated = Some db ∧ Tx.db_wf db ∧
    row_sig <$> filter Wal.recoverable (Wal.tasks db) ≡ₚ
      task_sig <$> (QM.pending (queue_manager example_operated) ++
                    dvalues (QM._in_flight (queue_manager example_operated))).
Proof.
  apply (memory_and_disk_agree example_operated).
  apply operated_requests; [apply first_start|]. vm_compute. reflexivity.
Defined.

Lemma crash_recovery_restores_live_tasks_witness :
  ∃ db rows b',
    wal_store example_operated = Some db ∧ rows = Wal.load_pending_tasks db ∧
    start_recovery (env_at 9 "u9") (new_broker (wal_store example_operated) 9)
      = (Some (length rows), b') ∧
    length rows = length (QM.pending (queue_manager example_operated)) +
                  length (QM._in_flight (queue_manager example_operated)) ∧
    QM._in_flight (queue_manager b') = [] ∧
    task_sig <$> QM.pending (queue_manager b') ≡ₚ
      task_sig <$> (QM.pending (queue_manager example_operated) ++
                    dvalues (QM._in_flight (queue_manager example_operated))) ∧
    Sorted (Wal.le_key Wal.r_created_at) rows ∧
    ∀ q, QM.queue_of q (queue_manager b') =
           recovered_task (env_at 9 "u9") <$> filter (λ r, Wal.r_queue_name r = q) rows.
Proof.
  apply (crash_recovery_restores_live_tasks (env_at 9 "u9") 9 example_operated).
  apply operated_requests; [apply first_start|]. vm_compute. reflexivity.
Defined.
End Recovery.
