(* ===== verification/CrashSafety.v ===== *)
(** * Crashes in the middle of a request ([broker/server.py],
      [persistence/wal_store.py])

[Recovery.v] restarts a broker between two steps.  Here the process may
die at any SQL statement of any store call that a request, or start-up
itself, makes.  [store_calls] and [recovery_calls] are the calls the code
issues, in order; they are tied to the handlers by what they do to the
database, and [Durability.v] says what a crash among them leaves behind. *)

From S2P Require Import Prelude PyDict Json JsonText DeadLetter QueueManager QueueInvariant TaskConservation TaskLifecycle QueueOrder WorkerRegistry Eviction LoadShedder WalStore Durability Metrics Server Requests Recovery.
Import Server Recovery.

Module CrashSafety.
Section crash.
Context `{codec : JsonCodec}.
Implicit Types (b : Broker) (env : Env) (m : Message) (db : Wal.Db).

(** ** The store calls of a request *)

Definition produce_calls env m b : list Tx.Call :=
  match given (m_queue m), task_given (m_task m) with
  | Some qn, Some p =>
      let '((allowed, _), _) :=
        Shedder.check_and_consume qn (queue_manager b, worker_registry b) (e_mono env)
          (e_mono env) (load_shedder b) in
      if allowed : bool
      then [Tx.SaveTask (new_task (e_uuid env) qn p (e_time env)) (e_time env)] else []
  | _, _ => []
  end.

Definition consume_calls env m b : list Tx.Call :=
  match given (m_queue m), given (m_worker_id m) with
  | Some qn, Some w =>
      match (QM.dequeue qn w (queue_manager b)).1 with
      | Some d => [Tx.UpdateTaskStatus (QM.d_task_id d) "in_flight" (Some (QM.d_attempts d))
                     (Some w) (e_time env)]
      | None => []
      end
  | _, _ => []
  end.

Definition ack_calls env m b : list Tx.Call :=
  match given (m_task_id m) with
  | Some tid =>
      if (QM.acknowledge tid (queue_manager b)).1
      then [Tx.UpdateTaskStatus tid "done" None None (e_time env)] else []
  | None => []
  end.

Definition nack_calls env m b : list Tx.Call :=
  match given (m_task_id m) with
  | Some tid =>
      match QM.negative_acknowledge tid (e_time env) (queue_manager b) with
      | (Some r, s) =>
          if bool_decide (QM.n_action r = "dead_lettered")
          then [Tx.AddToDlq (task_stub env tid (QM.n_queue_name r) (stub_payload tid s)
                  (QM.n_attempts r)) "max retries exceeded" (e_time env)]
          else [Tx.UpdateTaskStatus tid "pending" (Some (QM.n_attempts r)) None (e_time env)]
      | (None, _) => []
      end
  | None => []
  end.

(** Two calls, hence two transactions. *)
Definition replay_calls env m b : list Tx.Call :=
  match given (m_task_id m), wal_store b with
  | Some tid, Some db =>
      Tx.ReplayDlqTask tid ::
        match (Wal.replay_dlq_task tid db).1 with
        | Some r =>
            match loads (Wal.q_payload r) with
            | Some p => [Tx.SaveTask (new_task (e_uuid env) (Wal.q_queue_name r) p (e_time env))
                           (e_time env)]
            | None => []
            end
        | None => []
        end
  | _, _ => []
  end.

Definition purge_calls m b : list Tx.Call := [Tx.PurgeDlq (m_queue m)].

(** Commands that are not listed make no call that writes. *)
Definition call_table env : dict string (Message → Broker → list Tx.Call) :=
  [("PRODUCE", produce_calls env); ("CONSUME", consume_calls env); ("ACK", ack_calls env);
   ("NACK", nack_calls env); ("DLQ_REPLAY", replay_calls env); ("DLQ_PURGE", purge_calls)].

Definition store_calls env m b : list Tx.Call :=
  match given (m_command m) with
  | Some c => default (λ _ _, []) (dget c (call_table env)) m b
  | None => []
  end.

(** ** The calls are what the handlers do to the database *)

Definition after (ms : list Tx.Call) db : Wal.Db := foldl (flip Tx.denote) db ms.

Lemma produce_calls_spec env m b db :
  wal_store b = Some db →
  wal_store (_handle_produce env m b).2 = Some (after (produce_calls env m b) db).
Proof.
  intros Hdb. unfold produce_calls.
  destruct (given (m_queue m)) as [qn|] eqn:Eq; [destruct (task_given (m_task m)) as [p|] eqn:Ep|];
    [|unfold _handle_produce; by rewrite Eq, ?Ep..].
  destruct (Requests.handle_produce_spec env m b qn p Eq Ep) as (al&ra&sh&->&->).
  destruct al; [|done]. unfold Requests.produced. cbn. by rewrite Hdb.
Qed.

Lemma consume_calls_spec env m b db :
  wal_store b = Some db →
  wal_store (_handle_consume env m b).2 = Some (after (consume_calls env m b) db).
Proof.
  intros Hdb. unfold consume_calls, _handle_consume.
  destruct (given (m_queue m)) as [qn|], (given (m_worker_id m)) as [w|]; try done.
  unfold mbind, M_bind. rewrite on_qm_eq.
  destruct (QM.dequeue qn w (queue_manager b)) as [[d|] s']; cbn; [|done].
  unfold if_wal, on_wal. cbn. by rewrite Hdb.
Qed.

Lemma ack_calls_spec env m b db :
  wal_store b = Some db →
  wal_store (_handle_ack env m b).2 = Some (after (ack_calls env m b) db).
Proof.
  intros Hdb. unfold ack_calls, _handle_ack. destruct (given (m_task_id m)) as [tid|]; [|done].
  unfold mbind, M_bind. rewrite on_qm_eq.
  destruct (QM.acknowledge tid (queue_manager b)) as [[] s']; cbn; [|done].
  unfold if_wal, on_wal. cbn. by rewrite Hdb.
Qed.

Lemma nack_calls_spec env m b db :
  wal_store b = Some db →
  wal_store (_handle_nack env m b).2 = Some (after (nack_calls env m b) db).
Proof.
  intros Hdb. unfold nack_calls, _handle_nack. destruct (given (m_task_id m)) as [tid|]; [|done].
  unfold mbind, M_bind. rewrite on_qm_eq.
  destruct (QM.negative_acknowledge tid (e_time env) (queue_manager b)) as [[r|] s']; cbn; [|done].
  unfold if_wal, persist_nack, on_wal, mbind, M_bind. cbn. rewrite Hdb.
  destruct (bool_decide _); cbn; by rewrite Hdb.
Qed.

Lemma replay_calls_spec env m b db :
  wal_store b = Some db →
  wal_store (_handle_dlq_replay env m b).2 = Some (after (replay_calls env m b) db).
Proof.
  intros Hdb. unfold replay_calls, _handle_dlq_replay.
  destruct (given (m_task_id m)) as [tid|]; [|done]. rewrite Hdb.
  unfold if_wal, mbind, M_bind. rewrite Hdb, (on_wal_eq _ _ db Hdb).
  unfold after. cbn [foldl flip Tx.denote].
  destruct (Wal.replay_dlq_task tid db) as [[row|] db1] eqn:E; cbn [fst snd]; [|done].
  destruct (loads (Wal.q_payload row)) as [p|]; [|done].
  rewrite on_qm_eq. cbn [fst snd]. set (b1 := set_qm _ _).
  by rewrite (Requests.persist_enqueued_spec env (Wal.q_queue_name row) p (queue_manager b) b1 db1).
Qed.

Lemma purge_calls_spec m b db :
  wal_store b = Some db →
  wal_store (_handle_dlq_purge m b).2 = Some (after (purge_calls m b) db).
Proof.
  intros Hdb. unfold _handle_dlq_purge, mbind, M_bind, if_wal. rewrite Hdb.
  by rewrite (on_wal_eq _ _ db Hdb).
Qed.

Lemma store_calls_spec env m b db :
  wal_store b = Some db →
  wal_store (_dispatch env m b).2 = Some (after (store_calls env m b) db).
Proof.
  intros Hdb. unfold _dispatch, store_calls. destruct (given (m_command m)) as [c|]; [|done].
  destruct (dget c (handlers env)) as [h|] eqn:E.
  - apply dget_Some_in in E. unfold handlers in E.
    repeat apply elem_of_cons in E as [E|E]; try (injection E as -> ->);
      auto using produce_calls_spec, consume_calls_spec, ack_calls_spec, nack_calls_spec,
        replay_calls_spec, purge_calls_spec; try by apply not_elem_of_nil in E.
    all: transitivity (wal_store b); [apply frames_wal|exact Hdb];
      apply frames_register || apply frames_heartbeat || apply frames_dlq_list
      || apply frames_stats || apply frames_metrics_snapshot.
  - destruct (dget c (call_table env)) as [f|] eqn:E'; [|done].
    apply dget_Some_in in E'. unfold call_table in E'.
    repeat apply elem_of_cons in E' as [E'|E']; try (injection E' as -> ->; discriminate E).
    by apply not_elem_of_nil in E'.
Qed.

(** At most one call, except when a dead letter is replayed. *)
Lemma store_calls_shape env m b :
  (∃ c, store_calls env m b = [c]) ∨ store_calls env m b = [] ∨
  ∃ tid x, store_calls env m b = [Tx.ReplayDlqTask tid; Tx.SaveTask x (e_time env)].
Proof.
  unfold store_calls. destruct (given (m_command m)) as [c|]; [|auto].
  destruct (dget c (call_table env)) as [f|] eqn:E; [|auto].
  apply dget_Some_in in E. unfold call_table in E.
  repeat apply elem_of_cons in E as [E|E]; try (injection E as -> ->); cbn [default];
    [unfold produce_calls|unfold consume_calls|unfold ack_calls|unfold nack_calls|
     unfold replay_calls|unfold purge_calls|by apply not_elem_of_nil in E];
    unfold id; repeat case_match; eauto 8.
Qed.

(** ** Restarting after a crash *)

(** Identity, queue, payload and attempts of the waiting and running tasks. *)
Definition held b : list Signature :=
  task_sig <$> (QM.pending (queue_manager b) ++ dvalues (QM._in_flight (queue_manager b))).

(** Start-up on the database [db] rebuilds the tasks that [b] held. *)
Definition restores env mono db b : Prop :=
  ∃ n b', start_recovery env (new_broker (Some db) mono) = (Some n, b') ∧
    QM._in_flight (queue_manager b') = [] ∧ held b' ≡ₚ held b.

Lemma durable_restores env mono db b :
  durable b → wal_store b = Some db → restores env mono db b.
Proof.
  intros Hd Hdb. destruct (restart_spec env mono b Hd) as (rows&b'&E&(_&_&Hw'&_)&_&Hq&Hs).
  destruct Hd as (_&_&Hw&_). rewrite Hdb in E. exists (length rows), b'. split_and!; [done|..].
  - by rewrite Hq, requeue_rows_flight.
  - unfold held. rewrite <- !live_tasks_split by first [apply Hw|apply Hw']. exact Hs.
Qed.

(** A database with the same recoverable rows restores the same tasks. *)
Lemma coherent_restores env mono db db' b :
  durable b → wal_store b = Some db → Tx.db_wf db' →
  row_sigs (Wal.tasks db') ≡ₚ row_sigs (Wal.tasks db) → restores env mono db' b.
Proof.
  intros (db0&Hdb0&Hw&_&Hc) Hdb Hwf Hs. simplify_eq.
  destruct (durable_restores env mono db' (set_wal (Some db') b)) as (n&b'&?); [|done|by exists n, b'].
  exists db'. split_and!; [done..|]. unfold coherent in *. cbn. by rewrite Hs.
Qed.

Lemma request_restores env m b db d env' mono :
  durable b → fresh env b → wal_store b = Some db →
  Tx.after_prefix (store_calls env m b) db d →
  restores env' mono d b ∨ restores env' mono d (_dispatch env m b).2.
Proof.
  intros Hd Hf Hdb (ms1&ms2&E&->).
  pose proof (store_calls_spec env m b db Hdb) as Hafter.
  assert (Tx.db_wf db) as Hwf by (destruct Hd as (db0&?&_&?&_); by simplify_eq).
  destruct ms1 as [|c1 ms1]; [left; by apply durable_restores|].
  destruct ms2 as [|c2 ms2].
  { right. rewrite app_nil_r in E. rewrite <- E in *.
    apply durable_restores; [by apply dispatch_durable|done]. }
  left. destruct (store_calls_shape env m b) as [[c Hc]|[Hc|(tid&x&Hc)]]; rewrite Hc in E;
    [by destruct ms1|done|].
  injection E as <- E. destruct ms1 as [|? ms1]; [|by destruct ms1].
  apply (coherent_restores env' mono db); [done|done|by apply (Tx.denote_wf (Tx.ReplayDlqTask tid))|].
  cbn. unfold Wal.replay_dlq_task. by destruct (Wal.select_key _ tid _).
Qed.

(** C3.  Crash safety of requests.  Take a broker after any history of
    commands, sweeps, resets, simulated worker crashes and restarts -- but
    without a replay of all dead letters from the dashboard, after which a
    live task has no row to recover -- and let it die at any statement of any store call a request makes (or let a
    statement fail): start-up on the database it leaves succeeds and
    rebuilds exactly the live tasks from before the request or exactly those
    from after it, never a mixture.  If no statement fails, the database is
    the one the handler's own definition describes. *)
Theorem crash_during_request env m b db os env' mono :
  operated b → fresh env b → wal_store b = Some db →
  let r := Tx.session (store_calls env m b) os (Tx.idle db) in
  (restores env' mono (Tx.survivor r) b ∨
   restores env' mono (Tx.survivor r) (_dispatch env m b).2) ∧
  (∀ c os', r = Tx.Done c os' → wal_store (_dispatch env m b).2 = Some (Tx.committed c)).
Proof.
  intros Hd%operated_durable Hf Hdb r.
  destruct (Tx.session_prefix (store_calls env m b) os db) as [Hp Hdone]. split.
  - by apply (request_restores env m b db).
  - intros c os' Hr. rewrite (Hdone c os' Hr). by apply store_calls_spec.
Qed.

(** ** Crashes during start-up *)

Definition row_call env (r : Wal.TaskRow) : Tx.Call :=
  Tx.UpdateTaskStatus (Wal.r_task_id r) "pending" (Some (Wal.r_attempts r)) None (e_time env).

Definition recovery_calls env db : list Tx.Call := row_call env <$> Wal.load_pending_tasks db.

Lemma recover_rows_calls env rows b db :
  wal_store b = Some db → Forall decodable rows →
  wal_store (recover_rows env rows b).2 = Some (after (row_call env <$> rows) db).
Proof.
  revert b db. induction rows as [|r rows IH]; intros b db Hdb Hdec; [done|].
  apply Forall_cons in Hdec as [[p Hp] Hdec]. cbn [recover_rows]. rewrite Hp.
  unfold mbind, M_bind. rewrite on_qm_eq. erewrite on_wal_eq by done. cbn [fst snd].
  set (b1 := set_wal _ _).
  pose proof (IH b1 _ eq_refl Hdec) as IH'.
  destruct (recover_rows env rows b1) as [[n|] b2]; exact IH'.
Qed.

(** Refreshing the first rows of the listing changes no recoverable row. *)
Lemma recovery_prefix env b db rows1 rows2 :
  durable b → wal_store b = Some db → Wal.load_pending_tasks db = rows1 ++ rows2 →
  let d := after (row_call env <$> rows1) db in
  Tx.db_wf d ∧ row_sigs (Wal.tasks d) = row_sigs (Wal.tasks db).
Proof.
  intros (db0&Hdb0&Hw&Hwf&Hc) Hdb E d. rewrite Hdb in Hdb0. injection Hdb0 as <-.
  destruct (recovery_rows db _ Hw Hwf Hc) as (_&_&Hag&Hex). rewrite E in *.
  assert (Forall decodable rows1) as Hdec.
  { apply Forall_forall. intros r Hr. destruct (Hex r) as (x&_&_&Hx); [set_solver|].
    exists (payload x). unfold row_sig, task_sig in Hx. injection Hx as _ _ -> _. apply loads_dumps. }
  destruct (recover_rows_spec env rows1 b db Hdb Hdec) as (d'&Hrec&Hs&_).
  { intros r r' Hr. apply Hag. set_solver. }
  pose proof (recover_rows_calls env rows1 b db Hdb Hdec) as Hd. rewrite Hrec in Hd.
  cbn in Hd. injection Hd as ->. split; [by apply Tx.foldl_denote_wf|done].
Qed.

(** C31.  Crash safety of start-up.  Take a broker after any history of
    commands, sweeps, resets, simulated worker crashes and restarts, but
    without a replay of all dead letters from the dashboard.  If the start-up after its end itself dies at
    any of its store calls, nothing is lost: starting again still rebuilds
    exactly the tasks the original broker held, however often this happens
    in a row. *)
Theorem crash_during_recovery envs b db oss env' mono :
  operated b → wal_store b = Some db →
  let attempt d p := Tx.survivor (Tx.session (recovery_calls p.1 d) p.2 (Tx.idle d)) in
  restores env' mono (foldl attempt db (zip envs oss)) b.
Proof.
  intros Hd%operated_durable Hdb attempt.
  assert (∀ l d, Tx.db_wf d ∧ row_sigs (Wal.tasks d) = row_sigs (Wal.tasks db) →
    Tx.db_wf (foldl attempt d l) ∧ row_sigs (Wal.tasks (foldl attempt d l)) = row_sigs (Wal.tasks db))
    as Hl.
  { induction l as [|[env os] l IH]; intros d [Hwf Hs]; [done|]. cbn [foldl]. apply IH.
    destruct (Tx.session_prefix (recovery_calls env d) os d) as [(ms1&ms2&E&Ed) _].
    unfold attempt. cbn [fst snd]. rewrite Ed. unfold recovery_calls in E.
    apply fmap_app_inv in E as (rows1&rows2&->&->&E).
    destruct (recovery_prefix env (set_wal (Some d) b) d rows1 rows2) as [H1 H2]; [|done|done|].
    - destruct Hd as (db0&Hdb0&Hw&_&Hc). simplify_eq. exists d. split_and!; [done..|].
      unfold coherent in *. cbn. by rewrite Hs.
    - split; [exact H1|]. by rewrite <- Hs. }
  destruct (Hl (zip envs oss) db) as [H1 H2].
  - destruct Hd as (db0&?&_&?&_). by simplify_eq.
  - apply (coherent_restores env' mono db); [done|done|done|by rewrite H2].
Qed.
(** ** The gap in DLQ_REPLAY *)

(** C36.  [DLQ_REPLAY] deletes the dead letter in one transaction and saves
    the new task in another.  If the process dies before the second one
    commits, the dead letter is gone and no task has been saved: the task
    is in neither table. *)
Theorem replay_crash_loses_dead_letter env m b db tid row p :
  wal_store b = Some db → given (m_command m) = Some "DLQ_REPLAY" →
  given (m_task_id m) = Some tid →
  Wal.select_key Wal.q_task_id tid (Wal.dead_letter_queue db) = Some row →
  loads (Wal.q_payload row) = Some p →
  ∃ d, Tx.session (store_calls env m b) [Tx.Ok; Tx.Ok; Tx.Crash] (Tx.idle db) = Tx.Crashed d ∧
    (tid ∉ Wal.q_task_id <$> Wal.dead_letter_queue d) ∧ Wal.tasks d = Wal.tasks db.
Proof.
  intros Hdb Hcmd Htid Hrow Hp. unfold store_calls. rewrite Hcmd.
  change (default _ _ m b) with (replay_calls env m b). unfold replay_calls.
  rewrite Htid, Hdb. unfold Wal.replay_dlq_task. rewrite Hrow. cbn [fst]. rewrite Hp.
  cbn [Tx.session Tx.code]. unfold Tx.replay_dlq_task_code. cbn [Tx.run].
  change (Tx.reading (Tx.idle db)) with db. rewrite Hrow. eexists. split_and!; [reflexivity| |done].
  cbn. unfold Wal.delete_key.
  intros (r&->&[Hne _]%list_elem_of_filter)%list_elem_of_fmap. by apply Hne.
Qed.
End crash.

(** ** Witnesses *)

#[local] Existing Instance JsonText.codec.

(** The process dies between the [UPDATE] of a NACK and its commit. *)
Lemma crash_during_request_witness :
  let db := default Wal.empty_db (wal_store example_operated) in
  let r := Tx.session (store_calls (env_at 4 "u2") (nack_msg "t1") example_operated)
             [Tx.Ok; Tx.Crash] (Tx.idle db) in
  (restores (env_at 9 "u9") 9 (Tx.survivor r) example_operated ∨
   restores (env_at 9 "u9") 9 (Tx.survivor r)
     (_dispatch (env_at 4 "u2") (nack_msg "t1") example_operated).2) ∧
  (∀ c os', r = Tx.Done c os' →
    wal_store (_dispatch (env_at 4 "u2") (nack_msg "t1") example_operated).2
      = Some (Tx.committed c)).
Proof.
  intros db. apply (crash_during_request (env_at 4 "u2") (nack_msg "t1") example_operated db
    [Tx.Ok; Tx.Crash] (env_at 9 "u9") 9).
  - apply operated_requests; [apply first_start|]. vm_compute. reflexivity.
  - apply freshb_fresh. vm_compute. reflexivity.
  - vm_compute. reflexivity.
Defined.

(** Start-up dies twice, after one and after two statements. *)
Lemma crash_during_recovery_witness :
  let db := default Wal.empty_db (wal_store example_operated) in
  let attempt d p := Tx.survivor (Tx.session (recovery_calls p.1 d) p.2 (Tx.idle d)) in
  restores (env_at 9 "u9") 9
    (foldl attempt db (zip [env_at 7 "u7"; env_at 8 "u8"]
                         [[Tx.Ok; Tx.Crash]; [Tx.Ok; Tx.Ok; Tx.Crash]])) example_operated.
Proof.
  intros db. apply (crash_during_recovery [env_at 7 "u7"; env_at 8 "u8"] example_operated db
    [[Tx.Ok; Tx.Crash]; [Tx.Ok; Tx.Ok; Tx.Crash]] (env_at 9 "u9") 9).
  - apply operated_requests; [apply first_start|]. vm_compute. reflexivity.
  - vm_compute. reflexivity.
Defined.

Definition dead_row : Wal.DlqRow := Wal.dlq_row (new_task "t1" "emails" (JInt 1) 0) "boom" 3.

Definition dead_db : Wal.Db := Wal.with_dlq (λ _, [dead_row]) Wal.empty_db.

Definition replay_msg : Message :=
  mkMessage (Some "DLQ_REPLAY") None None None (Some "t1") None None.

Lemma replay_crash_loses_dead_letter_witness :
  ∃ d, Tx.session (store_calls (env_at 4 "u2") replay_msg (new_broker (Some dead_db) 0))
         [Tx.Ok; Tx.Ok; Tx.Crash] (Tx.idle dead_db) = Tx.Crashed d ∧
    ("t1" ∉ Wal.q_task_id <$> Wal.dead_letter_queue d) ∧ Wal.tasks d = Wal.tasks dead_db.
Proof.
  apply (replay_crash_loses_dead_letter (env_at 4 "u2") replay_msg (new_broker (Some dead_db) 0)
    dead_db "t1" dead_row (JInt 1)); vm_compute; reflexivity.
Defined.
End CrashSafety.
