(* ===== verification/Replies.v ===== *)
(** * The type of every reply ([broker/server.py])

A schema language for JSON values, the reply type of each command, and the
proof that every request is answered with a reply of its command's type: no
handler raises on a broker whose dead letter table can be read back, and
every request keeps it that way. *)

From S2P Require Import Prelude PyDict Json JsonText DeadLetter QueueManager QueueInvariant WorkerRegistry LoadShedder WalStore Metrics Observability Server Frames Requests Recovery.
Import Server.

Module Replies.

(** ** Schemas *)

Inductive Ty :=
  | TAny
  | TNull
  | TBool
  | TInt
  | TNum
  | TStr
  | TLit (s : string)
  | TArr (t : Ty)
  | TRec (fs : list (string * Ty))
  | TMap (t : Ty)
  | TOr (a b : Ty).

Fixpoint has_type (t : Ty) (j : Json) {struct t} : bool :=
  match t, j with
  | TAny, _ => true
  | TNull, JNull => true
  | TBool, JBool _ => true
  | TInt, JInt _ => true
  | TNum, JInt _ => true
  | TNum, JFloat _ => true
  | TStr, JStr _ => true
  | TLit s, JStr s' => bool_decide (s = s')
  | TArr t, JArr l => forallb (has_type t) l
  | TMap t, JObj o => forallb (λ p, has_type t p.2) o
  | TRec fs, JObj o =>
      (fix go fs o :=
         match fs, o with
         | [], [] => true
         | f :: fs, v :: o => bool_decide (f.1 = v.1) && has_type f.2 v.2 && go fs o
         | _, _ => false
         end) fs o
  | TOr a b, _ => has_type a j || has_type b j
  | _, _ => false
  end.

(** ** The protocol *)

Definition error_t : Ty := TRec [("status", TLit "error"); ("reason", TStr)].

Definition ok_t (fs : list (string * Ty)) : Ty := TRec (("status", TLit "ok") :: fs).

Definition produce_t : Ty :=
  TOr (ok_t [("task_id", TStr)])
      (TRec [("status", TLit "rate_limited"); ("retry_after_seconds", TNum); ("reason", TStr)]).

Definition task_t : Ty :=
  TRec [("task_id", TStr); ("queue_name", TStr); ("payload", TAny); ("attempts", TInt)].

Definition consume_t : Ty := TOr (TRec [("status", TLit "empty")]) (ok_t [("task", task_t)]).

Definition register_t : Ty := ok_t [("registered", TBool); ("message", TStr)].

Definition ack_t : Ty := ok_t [("message", TStr)].

Definition nack_t : Ty :=
  ok_t [("action", TOr (TLit "requeued") (TLit "dead_lettered")); ("attempts", TInt);
        ("message", TStr)].

(** One entry of a listing: from the database, or from memory. *)
Definition dead_letter_t : Ty :=
  TOr (TRec [("task_id", TStr); ("queue_name", TStr); ("payload", TAny);
             ("final_error", TOr TStr TNull); ("attempts", TInt); ("dead_lettered_at", TNum)])
      (TRec [("task_id", TStr); ("queue_name", TStr); ("payload", TAny); ("attempts", TInt);
             ("status", TStr); ("dead_lettered_at", TOr TNum TNull)]).

Definition dlq_list_t : Ty := ok_t [("count", TInt); ("tasks", TArr dead_letter_t)].

Definition replay_t : Ty :=
  ok_t [("action", TLit "replayed"); ("original_task_id", TStr); ("new_task_id", TStr)].

Definition purge_t : Ty := ok_t [("action", TLit "purged"); ("count", TInt)].

Definition queue_stats_t : Ty :=
  TRec [("total_enqueued", TInt); ("total_dequeued", TInt); ("total_acked", TInt);
        ("total_nacked", TInt); ("total_dead_lettered", TInt); ("in_flight", TInt);
        ("max_retries", TInt); ("queues", TMap TInt);
        ("dlq", TRec [("current_size", TInt); ("total_received", TInt); ("total_retried", TInt);
                      ("total_purged", TInt)])].

Definition registry_stats_t : Ty :=
  TRec [("total_workers", TInt); ("active_workers", TInt); ("total_evictions", TInt);
        ("total_tasks_reassigned", TInt);
        ("queue_latencies", TMap (TRec [("average_ms", TNum); ("sample_count", TInt)]));
        ("workers", TMap (TRec [("status", TStr); ("queues", TArr TStr); ("last_heartbeat", TNum);
                                ("in_flight_tasks", TInt)]))].

Definition shedder_stats_t : Ty :=
  TRec [("total_allowed", TInt); ("total_rejected", TInt); ("rejection_rate", TNum);
        ("buckets", TMap (TRec [("tokens", TNum); ("capacity", TNum); ("adjusted_rate", TNum)]))].

Definition metrics_stats_t : Ty :=
  TRec [("total_produced", TMap TInt); ("total_consumed", TMap TInt); ("total_acked", TMap TInt);
        ("total_nacked", TMap TInt); ("total_dlq", TMap TInt); ("uptime_seconds", TNum);
        ("tracked_in_flight", TInt)].

Definition stats_fields : list (string * Ty) :=
  [("queue_manager", queue_stats_t); ("worker_registry", registry_stats_t);
   ("load_shedder", shedder_stats_t); ("metrics", metrics_stats_t); ("active_connections", TInt)].

Definition wal_stats_t : Ty :=
  TRec [("tasks_by_status", TMap TInt); ("dlq_count", TInt); ("db_path", TStr)].

Definition stats_t : Ty := TOr (ok_t (stats_fields ++ [("wal_store", wal_stats_t)])) (ok_t stats_fields).

Definition queue_metrics_t : Ty :=
  TRec [("depth", TInt); ("produce_rate", TNum); ("throughput_per_second", TNum);
        ("p50_latency_ms", TNum); ("p95_latency_ms", TNum); ("p99_latency_ms", TNum);
        ("total_produced", TInt); ("total_acked", TInt); ("total_nacked", TInt)].

Definition metrics_t : Ty :=
  TRec [("queues", TMap queue_metrics_t);
        ("broker", TRec [("uptime_seconds", TNum); ("tracked_in_flight", TInt);
                         ("in_flight_tasks", TInt); ("active_connections", TInt)]);
        ("status", TLit "ok");
        ("workers", TRec [("active", TArr (TRec [("id", TStr); ("latency_ms", TInt); ("status", TStr)]));
                          ("evicted_count", TInt)]);
        ("dlq", TRec [("total_tasks", TInt)]);
        ("load_shedder", shedder_stats_t)].

Definition reply_types : dict string Ty :=
  [("PRODUCE", produce_t); ("CONSUME", consume_t); ("REGISTER", register_t);
   ("HEARTBEAT", ok_t []); ("ACK", ack_t); ("NACK", nack_t); ("DLQ_LIST", dlq_list_t);
   ("DLQ_REPLAY", replay_t); ("DLQ_PURGE", purge_t); ("STATS", stats_t); ("METRICS", metrics_t)].

(** Every command may also be refused. *)
Definition reply_type (m : Message) : Ty :=
  match given (m_command m) with
  | Some c => match dget c reply_types with Some t => TOr t error_t | None => error_t end
  | None => error_t
  end.

(** *** Typing rules *)

Lemma map_typed {A} t (f : A → string * Json) (l : list A) :
  (∀ x, has_type t (f x).2 = true) → has_type (TMap t) (JObj (f <$> l)) = true.
Proof.
  intros Hf. cbn. apply forallb_forall. intros p Hp%list_elem_of_In%list_elem_of_fmap.
  destruct Hp as (x&->&_). apply Hf.
Qed.

Lemma arr_typed {A} t (f : A → Json) (l : list A) :
  (∀ x, has_type t (f x) = true) → has_type (TArr t) (JArr (f <$> l)) = true.
Proof.
  intros Hf. cbn. apply forallb_forall. intros p Hp%list_elem_of_In%list_elem_of_fmap.
  destruct Hp as (x&->&_). apply Hf.
Qed.

Lemma rec_nil : has_type (TRec []) (JObj []) = true.
Proof. done. Qed.

Lemma rec_cons k t fs v o :
  has_type t v = true → has_type (TRec fs) (JObj o) = true →
  has_type (TRec ((k, t) :: fs)) (JObj ((k, v) :: o)) = true.
Proof. intros Ht Hr. cbn in *. by rewrite bool_decide_true, Ht by done. Qed.

Lemma or_left a b j : has_type a j = true → has_type (TOr a b) j = true.
Proof. cbn. by intros ->. Qed.

Lemma or_right a b j : has_type b j = true → has_type (TOr a b) j = true.
Proof. cbn. intros ->. apply orb_true_r. Qed.

Ltac typed :=
  repeat first
    [ reflexivity | assumption | apply rec_nil | apply rec_cons
    | apply map_typed; intros ?; cbn [snd] | apply arr_typed; intros ? ].

Lemma dlq_stats_typed d :
  has_type (TRec [("current_size", TInt); ("total_received", TInt); ("total_retried", TInt);
                  ("total_purged", TInt)]) (DLQ.get_stats d) = true.
Proof. reflexivity. Qed.

Lemma queue_stats_typed s : has_type queue_stats_t (QM.get_stats s) = true.
Proof. unfold queue_stats_t, QM.get_stats. typed. Qed.

Lemma registry_stats_typed r : has_type registry_stats_t (Registry.get_stats r) = true.
Proof. unfold registry_stats_t, Registry.get_stats. typed. Qed.

Lemma shedder_stats_typed sys now s :
  has_type shedder_stats_t (Shedder.get_stats sys now s).1 = true.
Proof. unfold shedder_stats_t, Shedder.get_stats. cbn [fst]. typed. Qed.

Lemma metrics_stats_typed now m : has_type metrics_stats_t (Metrics.get_stats now m) = true.
Proof. unfold metrics_stats_t, Metrics.get_stats, Metrics.counters_json. typed. Qed.

Lemma percentile_some qn p m :
  (0 <= p)%Q → is_Some (Metrics.percentile_latency qn p m).
Proof.
  intros Hp. unfold Metrics.percentile_latency. case_bool_decide as Hs; [eauto|].
  set (l := merge_sort Qle _). assert (0 < length l).
  { unfold l. rewrite (merge_sort_Permutation Qle). by destruct (default [] _); [|cbn; lia]. }
  pose proof (Metrics.percentile_index_range (length l) p H Hp).
  unfold Metrics.py_index. rewrite (proj2 (Z.ltb_ge _ _)) by lia.
  apply lookup_lt_is_Some. lia.
Qed.

Lemma queue_snapshot_some now name m : is_Some (Metrics.queue_snapshot now name m).1.
Proof.
  unfold Metrics.queue_snapshot. destruct (Metrics.produce_rate name now m) as [pr m1].
  destruct (Metrics.throughput name now m1) as [tp m2]. cbn [fst].
  unfold Metrics.p50_latency, Metrics.p95_latency, Metrics.p99_latency.
  destruct (percentile_some name 50 m2) as [? ->]; [by vm_compute|].
  destruct (percentile_some name 95 m2) as [? ->]; [by vm_compute|].
  destruct (percentile_some name 99 m2) as [? ->]; [by vm_compute|]. cbn. eauto.
Qed.

Lemma snapshot_queues_some now names acc m : is_Some (Metrics.snapshot_queues now names acc m).1.
Proof.
  revert acc m. induction names as [|name names IH]; intros acc m; cbn [Metrics.snapshot_queues].
  { by eexists. }
  destruct (queue_snapshot_some now name m) as [x Hx].
  destruct (Metrics.queue_snapshot now name m) as [o m']. cbn [fst] in Hx. subst o. apply IH.
Qed.

Lemma snapshot_some now names m : is_Some (Metrics.snapshot now names m).1.
Proof.
  unfold Metrics.snapshot. pose proof (snapshot_queues_some now names [] m) as H.
  destruct (Metrics.snapshot_queues now names [] m) as [o m']. cbn [fst] in *.
  by apply fmap_is_Some.
Qed.

(** ** Handlers that return *)

Section replies.
Context `{codec : JsonCodec}.

(** Every payload of the dead letter table parses. *)
Definition readable_db (db : Wal.Db) : Prop :=
  Forall (λ r, is_Some (loads (Wal.q_payload r))) (Wal.dead_letter_queue db).

(** [p]: persistence is on. *)
Definition ready (p : bool) (b : Broker) : Prop :=
  match wal_store b with Some db => p = true ∧ readable_db db | None => p = false end.

(** From a ready broker, [c] returns, with a result in [P], and leaves it
    ready. *)
Definition yields {A} (p : bool) (P : A → Prop) (c : M A) : Prop :=
  ∀ b, ready p b → ∃ a b', c b = (Some a, b') ∧ P a ∧ ready p b'.

Lemma yields_ret {A} p (P : A → Prop) a : P a → yields p P (mret a).
Proof. intros H b Hb. by exists a, b. Qed.

Lemma yields_bind {A B} p (P : A → Prop) (R : B → Prop) (c : M A) (k : A → M B) :
  yields p P c → (∀ a, P a → yields p R (k a)) → yields p R (c ≫= k).
Proof.
  intros Hc Hk b Hb. destruct (Hc b Hb) as (a&b1&E&Ha&Hb1).
  unfold mbind, M_bind. rewrite E. by apply Hk.
Qed.

Lemma yields_read {A} p (P : A → Prop) (f : Broker → A) : (∀ b, P (f b)) → yields p P (get f).
Proof. intros Hf b Hb. exists (f b), b. auto. Qed.

Lemma yields_get {A} p (f : Broker → A) : yields p (λ _, True) (get f).
Proof. by apply yields_read. Qed.

Lemma yields_qm {A} p (P : A → Prop) (f : QM.t → A * QM.t) :
  (∀ s, P (f s).1) → yields p P (on_qm f).
Proof. intros Hf b Hb. rewrite Recovery.on_qm_eq. eexists _, _. split_and!; [done|apply Hf|done]. Qed.

Lemma yields_registry {A} p (f : Registry.t → A * Registry.t) : yields p (λ _, True) (on_registry f).
Proof. intros b Hb. rewrite Recovery.on_registry_eq. by eexists _, _. Qed.

Lemma yields_shedder {A} p (P : A → Prop) (f : QM.t * Registry.t → Shedder.t → A * Shedder.t) :
  (∀ sys s, P (f sys s).1) → yields p P (on_shedder f).
Proof.
  intros Hf b Hb. unfold on_shedder.
  pose proof (Hf (queue_manager b, worker_registry b) (load_shedder b)) as H.
  destruct (f _ _) as [a s]. by eexists _, _.
Qed.

Lemma yields_metrics p f : yields p (λ _, True) (on_metrics f).
Proof. intros b Hb. by eexists _, _. Qed.

Lemma yields_snapshot p env names : yields p (λ _, True) (on_snapshot env names).
Proof.
  intros b Hb. unfold on_snapshot. pose proof (snapshot_some (e_mono env) names (metrics b)) as [x Hx].
  destruct (Metrics.snapshot _ _ _) as [o m]. cbn [fst] in Hx. subst o. by eexists _, _.
Qed.

Lemma yields_wal {A} (P : A → Prop) (f : Wal.Db → A * Wal.Db) :
  (∀ db, readable_db db → P (f db).1 ∧ readable_db (f db).2) → yields true P (on_wal f).
Proof.
  intros Hf b Hb. unfold ready in Hb. destruct (wal_store b) as [db|] eqn:E; [|done].
  destruct Hb as [_ Hb]. destruct (Hf db Hb). rewrite (Recovery.on_wal_eq _ _ _ E).
  by eexists _, _.
Qed.

Lemma yields_if_wal {A} p (P : A → Prop) (yes no : M A) :
  yields true P yes → yields false P no → yields p P (if_wal yes no).
Proof.
  intros Hy Hn b Hb. unfold if_wal. pose proof Hb as Hb'. unfold ready in Hb'.
  destruct (wal_store b) as [db|] eqn:E.
  - destruct Hb' as [-> _]. by apply Hy.
  - subst p. by apply Hn.
Qed.

Lemma yields_wal_same {A} (f : Wal.Db → A * Wal.Db) :
  (∀ db, Wal.dead_letter_queue (f db).2 = Wal.dead_letter_queue db) →
  yields true (λ _, True) (on_wal f).
Proof. intros Hf. apply yields_wal. intros db Hdb. unfold readable_db. by rewrite Hf. Qed.

Lemma yields_qm_any {A} p (f : QM.t → A * QM.t) : yields p (λ _, True) (on_qm f).
Proof. by apply yields_qm. Qed.

Lemma yields_any {A} p (P : A → Prop) c : yields p P c → yields p (λ _, True) c.
Proof. intros Hc b Hb. destruct (Hc b Hb) as (a&b'&E&_&?). by exists a, b'. Qed.

(** ** The database calls *)

Lemma readable_filter (P : Wal.DlqRow → Prop) `{!∀ r, Decision (P r)} l :
  Forall (λ r, is_Some (loads (Wal.q_payload r))) l →
  Forall (λ r, is_Some (loads (Wal.q_payload r))) (filter P l).
Proof. rewrite !Forall_forall. intros Hl r [_ Hr]%list_elem_of_filter. auto. Qed.

Lemma readable_add x now e db : readable_db db → readable_db (Wal.add_to_dlq x e now db).
Proof.
  unfold readable_db, Wal.add_to_dlq, Wal.upsert. cbn. intros H. apply Forall_app. split.
  - by apply readable_filter.
  - apply Forall_singleton. cbn. rewrite loads_dumps. eauto.
Qed.

Lemma readable_replay tid db :
  readable_db db →
  match (Wal.replay_dlq_task tid db).1 with Some r => is_Some (loads (Wal.q_payload r)) | None => True end
  ∧ readable_db (Wal.replay_dlq_task tid db).2.
Proof.
  unfold readable_db, Wal.replay_dlq_task, Wal.select_key. intros H.
  destruct (head _) as [r|] eqn:E; [|done]. cbn. split.
  - apply head_Some_elem_of, list_elem_of_filter in E as [_ E]. by apply (proj1 (Forall_forall _ _) H).
  - by apply readable_filter.
Qed.

Lemma readable_purge qn db : readable_db db → readable_db (Wal.purge_dlq qn db).2.
Proof.
  unfold readable_db, Wal.purge_dlq. cbn. intros H. destruct qn as [q|]; [|done].
  destruct (truthy_str q); [by apply readable_filter|done].
Qed.

(** ** The handlers *)

Definition answers p t (c : M Json) : Prop := yields p (λ j, has_type t j = true) c.

Lemma persist_enqueued_yields env qn tid : yields true (λ _, True) (persist_enqueued env qn tid).
Proof.
  unfold persist_enqueued. apply (yields_bind _ (λ _, True)); [apply yields_get|]. intros s _.
  case_match; [by apply yields_wal_same|by apply yields_ret].
Qed.

Lemma persist_nack_yields env tid r : yields true (λ _, True) (persist_nack env tid r).
Proof.
  unfold persist_nack. case_bool_decide.
  - apply (yields_bind _ (λ _, True)); [apply yields_get|]. intros s _.
    apply yields_wal. intros db Hdb. split; [done|by apply readable_add].
  - apply (yields_bind _ (λ _, True)); [by apply yields_wal_same|]. intros u _. by apply yields_ret.
Qed.

(** A handler is a sequence of calls of which only the last matters. *)
Ltac yield :=
  repeat first
    [ simple apply persist_enqueued_yields | simple apply persist_nack_yields
    | simple apply yields_get | simple apply yields_registry | simple apply yields_metrics
    | simple apply yields_snapshot | simple apply yields_qm_any
    | solve [simple apply yields_wal_same; done]
    | simple apply yields_if_wal
    | simple apply yields_ret; [solve [done | by apply or_right | apply or_left; typed]]
    | simple apply (yields_bind _ (λ _, True)); [|intros ? _] ].

Lemma produce_answers env m p : answers p (TOr produce_t error_t) (_handle_produce env m).
Proof.
  unfold answers, _handle_produce.
  destruct (given (m_queue m)) as [qn|]; [destruct (task_given (m_task m)) as [x|]|]; yield.
  - by apply (yields_shedder p (λ _, True)).
  - destruct a as [[] ra]; cbn [negb]; yield.
Qed.

Lemma consume_answers env m p : answers p (TOr consume_t error_t) (_handle_consume env m).
Proof.
  unfold answers, _handle_consume.
  destruct (given (m_queue m)) as [qn|]; [destruct (given (m_worker_id m)) as [w|]|]; yield.
  destruct a as [d|]; yield.
Qed.

Lemma register_answers env m p : answers p (TOr register_t error_t) (_handle_register env m).
Proof. unfold answers, _handle_register. destruct (given (m_worker_id m)) as [w|]; yield. Qed.

Lemma heartbeat_answers env m p : answers p (TOr (ok_t []) error_t) (_handle_heartbeat env m).
Proof.
  unfold answers, _handle_heartbeat. destruct (given (m_worker_id m)) as [w|]; yield.
  destruct a; yield.
Qed.

Lemma ack_answers env m p : answers p (TOr ack_t error_t) (_handle_ack env m).
Proof.
  unfold answers, _handle_ack. destruct (given (m_task_id m)) as [tid|]; yield. destruct a; yield.
Qed.

Definition action_known (o : option QM.NackResult) : Prop :=
  match o with
  | Some r => QM.n_action r = "requeued" ∨ QM.n_action r = "dead_lettered"
  | None => True
  end.

Lemma nack_action_known tid now s : action_known (QM.negative_acknowledge tid now s).1.
Proof.
  unfold QM.negative_acknowledge. destruct (QM.nack_take tid s) as [[x|] s']; [|done].
  unfold QM.nack_route. case_bool_decide; cbn; auto.
Qed.

Lemma nack_answers env m p : answers p (TOr nack_t error_t) (_handle_nack env m).
Proof.
  unfold answers, _handle_nack. destruct (given (m_task_id m)) as [tid|]; [|yield].
  apply (yields_bind _ action_known); [apply yields_qm; intros s; apply nack_action_known|]. intros [r|] Hr; yield.
  apply yields_ret, or_left. destruct Hr as [-> | ->]; typed.
Qed.

Lemma dlq_row_typed r : has_type dead_letter_t (dlq_row_json r) = true.
Proof.
  apply or_left. unfold dlq_row_json. typed. by destruct (Wal.q_final_error r).
Qed.

Lemma summary_typed d : has_type dead_letter_t (DLQ.summary_json d) = true.
Proof.
  apply or_right. unfold DLQ.summary_json. typed. by destruct (DLQ.s_dead_lettered_at d).
Qed.

Lemma listing_typed {A} (f : A → Json) l :
  (∀ x, has_type dead_letter_t (f x) = true) →
  has_type (TOr dlq_list_t error_t) (dlq_list_reply (f <$> l)) = true.
Proof.
  intros Hf. apply or_left. do 2 (apply rec_cons; [done|]). apply rec_cons; [by apply arr_typed|done].
Qed.

(** The limit of a listing fits into the integers of SQLite. *)
Definition bindable (m : Message) : bool := Wal.int64 (default 50%Z (m_limit m)).

Lemma dlq_list_answers m p :
  bindable m = true → answers p (TOr dlq_list_t error_t) (_handle_dlq_list m).
Proof.
  unfold bindable. intros Hm. unfold answers, _handle_dlq_list. apply yields_if_wal.
  - apply (yields_bind _ is_Some).
    + apply yields_wal. intros db Hdb. split; [|done]. unfold Wal.get_dlq_tasks. rewrite Hm. by eexists.
    + intros _ [rows ->]. apply yields_ret, listing_typed, dlq_row_typed.
  - yield. apply yields_ret, listing_typed, summary_typed.
Qed.

Definition payload_parses (o : option Wal.DlqRow) : Prop :=
  match o with Some r => is_Some (loads (Wal.q_payload r)) | None => True end.

Lemma replay_answers env m p : answers p (TOr replay_t error_t) (_handle_dlq_replay env m).
Proof.
  unfold answers, _handle_dlq_replay. destruct (given (m_task_id m)) as [tid|]; [|yield].
  apply yields_if_wal.
  - apply (yields_bind _ payload_parses); [apply yields_wal, readable_replay|].
    intros [r|] Hr; [|yield]. destruct Hr as [x ->]. yield.
  - yield. destruct a; yield.
Qed.

Lemma purge_answers m p : answers p (TOr purge_t error_t) (_handle_dlq_purge m).
Proof.
  unfold answers, _handle_dlq_purge. yield.
  - apply yields_wal. intros db Hdb. split; [done|by apply readable_purge].
  - case_match; yield.
Qed.

Definition typed_as t : Json → Prop := λ j, has_type t j = true.

Lemma stats_answers env m p : answers p (TOr stats_t error_t) (_handle_stats env m).
Proof.
  unfold answers, _handle_stats.
  apply (yields_bind _ (typed_as queue_stats_t));
    [apply yields_read; intros b; apply queue_stats_typed|intros q Hq].
  apply (yields_bind _ (typed_as registry_stats_t));
    [apply yields_read; intros b; apply registry_stats_typed|intros r Hr].
  apply (yields_bind _ (typed_as shedder_stats_t));
    [apply yields_shedder; intros sys s; apply shedder_stats_typed|intros l Hl].
  apply (yields_bind _ (typed_as metrics_stats_t));
    [apply yields_read; intros b; apply metrics_stats_typed|intros x Hx].
  unfold typed_as in *. yield; apply yields_ret, or_left; [apply or_left|apply or_right];
    unfold wal_stats_json; typed.
Qed.

Lemma metrics_answers env m p : answers p (TOr metrics_t error_t) (_handle_metrics env m).
Proof.
  unfold answers, _handle_metrics, _get_metrics_snapshot.
  do 6 (apply (yields_bind _ (λ _, True)); [first [apply yields_get | apply yields_snapshot]|intros ? _]).
  apply (yields_bind _ (typed_as shedder_stats_t));
    [apply yields_shedder; intros sys s; apply shedder_stats_typed|intros l Hl].
  unfold typed_as in *. apply yields_ret, or_left. typed.
Qed.

Lemma other_answers env m p :
  given (m_command m) ≠ Some "DLQ_LIST" → answers p (reply_type m) (_dispatch env m).
Proof.
  unfold _dispatch, reply_type. destruct (given (m_command m)) as [c|]; intros Hc; [|by apply yields_ret].
  destruct (dget c (handlers env)) as [h|] eqn:E.
  - apply dget_Some_in in E. unfold handlers in E.
    repeat apply elem_of_cons in E as [E|E]; try (by apply not_elem_of_nil in E);
      injection E as -> ->; cbn [dget reply_types];
      (by destruct Hc) || auto using produce_answers, consume_answers, register_answers,
        heartbeat_answers, ack_answers, nack_answers, replay_answers, purge_answers, stats_answers, metrics_answers.
  - destruct (dget c reply_types) as [t|] eqn:E'; [|by apply yields_ret].
    apply yields_ret. by apply or_right.
Qed.

(** A listing that SQLite cannot be asked for: the handler raises. *)
Definition overflows (m : Message) (b : Broker) : Prop :=
  given (m_command m) = Some "DLQ_LIST" ∧ is_Some (wal_store b) ∧ bindable m = false.

#[global] Instance overflows_dec m b : Decision (overflows m b).
Proof. unfold overflows. apply _. Defined.

Lemma overflow_raises env m b : overflows m b → _dispatch env m b = (None, b).
Proof.
  unfold overflows, bindable, _dispatch. intros (->&[db Hdb]&Hm). cbn [dget handlers]. repeat (rewrite decide_False by done).
  rewrite decide_True by done. unfold _handle_dlq_list, if_wal. rewrite Hdb.
  unfold mbind, M_bind, on_wal. rewrite Hdb. unfold Wal.get_dlq_tasks. rewrite Hm.
  unfold raise. f_equal. destruct b. cbn in *. by subst.
Qed.

(** A listing from memory takes any limit. *)
Lemma memory_list_answers m p b :
  wal_store b = None → ready p b →
  ∃ j b', _handle_dlq_list m b = (Some j, b') ∧ has_type (TOr dlq_list_t error_t) j = true ∧ ready p b'.
Proof.
  intros Hw Hp. unfold _handle_dlq_list, if_wal. rewrite Hw. unfold mbind, M_bind, get. eexists _, b.
  split_and!; [reflexivity|apply listing_typed, summary_typed|done].
Qed.

Lemma dispatch_answers env m p b :
  ready p b → ¬ overflows m b →
  ∃ j b', _dispatch env m b = (Some j, b') ∧ has_type (reply_type m) j = true ∧ ready p b'.
Proof.
  intros Hp Hm. destruct (decide (given (m_command m) = Some "DLQ_LIST")) as [Hc|Hc];
    [|by apply other_answers].
  unfold _dispatch, reply_type. rewrite Hc. cbn [dget handlers reply_types].
  repeat (rewrite decide_False by done). rewrite !decide_True by done.
  destruct (wal_store b) as [db|] eqn:Hw; [|by apply memory_list_answers].
  destruct (bindable m) eqn:Hb; [by apply dlq_list_answers|].
  destruct Hm. split_and!; [done| |done]. by rewrite Hw.
Qed.

(** ** Readable brokers *)

Definition readable (b : Broker) : Prop :=
  match wal_store b with Some db => readable_db db | None => True end.

Lemma readable_ready b : readable b ↔ ∃ p, ready p b.
Proof. unfold readable, ready. destruct (wal_store b); naive_solver. Qed.

Lemma readable_same b b' :
  (Wal.dead_letter_queue <$> wal_store b') = (Wal.dead_letter_queue <$> wal_store b) →
  readable b → readable b'.
Proof.
  unfold readable, readable_db. intros E.
  destruct (wal_store b), (wal_store b'); cbn in E; try done. by injection E as ->.
Qed.

Lemma recover_rows_dead env rows b :
  Wal.dead_letter_queue <$> wal_store (recover_rows env rows b).2 =
  Wal.dead_letter_queue <$> wal_store b.
Proof.
  revert b. induction rows as [|r rows IH]; intros b; [done|]. cbn [recover_rows].
  destruct (loads _) as [x|]; [|done]. unfold mbind at 1, M_bind at 1. rewrite Recovery.on_qm_eq.
  set (b1 := set_qm _ b). change (wal_store b) with (wal_store b1).
  unfold mbind at 1, M_bind at 1, on_wal. destruct (wal_store b1) as [db|] eqn:E; [|cbn [snd]; by rewrite E].
  unfold Wal.update_task_status. set (b2 := set_wal _ b1).
  transitivity (Wal.dead_letter_queue <$> wal_store b2); [|done]. rewrite <- (IH b2).
  unfold mbind, M_bind. by destruct (recover_rows env rows b2) as [[n|] b3].
Qed.

Lemma start_readable env db mono :
  match db with Some db => readable_db db | None => True end →
  readable (start_recovery env (new_broker db mono)).2.
Proof.
  intros H. apply (readable_same (new_broker db mono)); [|done].
  unfold start_recovery, if_wal. cbn [wal_store new_broker]. destruct db as [db|]; [|done].
  unfold mbind, M_bind, on_wal. cbn [wal_store new_broker]. by rewrite recover_rows_dead.
Qed.

Lemma operated_readable b : Recovery.operated b → readable b.
Proof.
  induction 1 as [mono|b b' _ IH Hs]; [by apply Forall_nil_2|]. destruct Hs as [env m b _| | | |env mono b].
  - destruct (decide (overflows m b)) as [Ho|Ho]; [by rewrite overflow_raises|].
    apply readable_ready in IH as [p Hp]. destruct (dispatch_answers env m p b Hp Ho) as (j&b'&->&_&Hb').
    apply readable_ready. by exists p.
  - eapply readable_same; [|exact IH]. unfold eviction_sweep.
    by destruct (Registry.evict_dead_workers _ _ _ _).
  - unfold _reset_handler, mbind, M_bind, if_wal, on_wal, readable. rewrite Recovery.on_qm_eq.
    cbn. destruct (wal_store b) as [db|] eqn:E; cbn; rewrite ?E; [|done]. by apply Forall_nil_2.
  - eapply readable_same; [|exact IH]. f_equal.
    assert (keeps wal_store (_crash_worker_handler env)) as Hk by (unfold _crash_worker_handler; keep).
    apply Hk.
  - by apply start_readable.
Qed.

(** C25.  Every request is answered, with a reply of the type its command
    promises or an error reply, provided the payloads of the dead letter
    table parse, and that still holds afterwards (every broker in operation
    has it).  The one exception is [DLQ_LIST] on a broker with persistence
    when its limit does not fit into 64 bits: [sqlite3] raises, nothing is
    sent, and nothing has changed. *)
Theorem replies_are_well_typed env m b :
  readable b →
  if decide (overflows m b) then _dispatch env m b = (None, b)
  else ∃ j b', _dispatch env m b = (Some j, b') ∧ has_type (reply_type m) j = true ∧ readable b'.
Proof.
  intros [p Hp]%readable_ready. case_decide as Ho; [by apply overflow_raises|].
  destruct (dispatch_answers env m p b Hp Ho) as (j&b'&E&Hj&Hb').
  exists j, b'. split_and!; [done|done|]. apply readable_ready. by exists p.
Qed.
End replies.

#[local] Existing Instance JsonText.codec.

Definition stats_msg : Message := mkMessage (Some "STATS") None None None None None None.

Definition huge_list_msg : Message :=
  mkMessage (Some "DLQ_LIST") None None None None None (Some (2 ^ 63)%Z).

Lemma replies_are_well_typed_witness :
  let b := Recovery.example_operated in let env := Recovery.env_at 5 "u5" in
  (∃ j b', _dispatch env stats_msg b = (Some j, b') ∧
     has_type (TOr stats_t error_t) j = true ∧ readable b') ∧
  _dispatch env huge_list_msg b = (None, b).
Proof.
  split.
  - apply (replies_are_well_typed (Recovery.env_at 5 "u5") stats_msg Recovery.example_operated).
    by apply Forall_nil_2.
  - apply (replies_are_well_typed (Recovery.env_at 5 "u5") huge_list_msg Recovery.example_operated).
    by apply Forall_nil_2.
Defined.
End Replies.
