(* ===== verification/ControlPlane.v ===== *)
(** * The control plane: queue manager and registry together

Supervision of workers depends on the queue manager and the worker
registry alone.  An [Action] is what one event does to this pair; every
event of the broker ([broker/server.py]: the commands, the eviction sweep
and the dashboard handlers) is shown to be exactly the action computed by
[event_action], whatever else it does to the load shedder, the metrics and
the database. *)

From S2P Require Import Prelude PyDict Json JsonText DeadLetter QueueManager QueueInvariant TaskConservation TaskLifecycle WorkerRegistry Eviction LoadShedder WalStore Metrics Server Frames Requests Recovery.
Import Server.

Module Control.

(** ** Actions *)

Definition Ctl : Type := QM.t * Registry.t.

Definition ctl (b : Broker) : Ctl := (queue_manager b, worker_registry b).

Inductive Action :=
  | Idle
  | Submit (qn : string) (p : Json) (uuid : string) (now : Q)
  | Poll (qn w : string) (mono : Q)
  | Join (w : string) (peer : string * Z) (qs : list string) (conn : nat) (now : Q)
  | Beat (w : string) (now : Q)
  | Finish (tid w : string) (mono : Q)
  | Refuse (tid w : string) (now mono : Q)
  | Revive (tids : list string)
  | Forget (qn : option string)
  | Sweep (iter : Registry.WorkerInfo → list string) (now : Q)
  | Age (i : Registry.WorkerInfo) (now : Q)
  | Wipe.

Definition act (a : Action) (c : Ctl) : Ctl :=
  let '(s, r) := c in
  match a with
  | Idle => c
  | Submit qn p uuid now => ((QM.enqueue qn p uuid now s).2, r)
  | Poll qn w mono =>
      let '(o, s) := QM.dequeue qn w s in
      (s, match o with Some d => Registry.assign_task w (QM.d_task_id d) mono r | None => r end)
  | Join w peer qs conn now => (s, (Registry.register w peer qs (Some conn) now now r).2)
  | Beat w now => (s, (Registry.record_heartbeat w now r).2)
  | Finish tid w mono =>
      let '(ok, s) := QM.acknowledge tid s in
      (s, if ok then Registry.complete_task w tid mono r else r)
  | Refuse tid w now mono =>
      let '(o, s) := QM.negative_acknowledge tid now s in
      (s, match o with Some _ => Registry.complete_task w tid mono r | None => r end)
  | Revive tids => ((retry_each tids s).2, r)
  | Forget (Some qn) => ((purge_queue qn s).2, r)
  | Forget None => ((QM.dlq_purge s).2, r)
  | Sweep iter now =>
      let '(r, o) := Registry.evict_dead_workers iter now r (Some s) in (default s o, r)
  | Age i now => (s, Registry.with_workers (dset (Registry.worker_id i) (age_worker now i)) r)
  | Wipe => (QM.reset s, r)
  end.

(** ** Events *)

Inductive Event :=
  | Request (env : Env) (m : Message)
  | Eviction (env : Env) (iter : Registry.WorkerInfo → list string)
  | CrashAction (env : Env)
  | ReplayAction
  | ResetAction (env : Env).

Section events.
Context `{codec : JsonCodec}.

Definition handle (e : Event) (b : Broker) : Broker :=
  match e with
  | Request env m => (_dispatch env m b).2
  | Eviction env iter => (eviction_sweep env iter b).2
  | CrashAction env => (_crash_worker_handler env b).2
  | ReplayAction => (_replay_dlq_handler b).2
  | ResetAction env => (_reset_handler env b).2
  end.

Definition produce_action (env : Env) (m : Message) (b : Broker) : Action :=
  match given (m_queue m), task_given (m_task m) with
  | Some qn, Some p =>
      if (Shedder.check_and_consume qn (queue_manager b, worker_registry b) (e_mono env) (e_mono env) (load_shedder b)).1.1
      then Submit qn p (e_uuid env) (e_time env) else Idle
  | _, _ => Idle
  end.

Definition consume_action (env : Env) (m : Message) (b : Broker) : Action :=
  match given (m_queue m), given (m_worker_id m) with
  | Some qn, Some w => Poll qn w (e_mono env)
  | _, _ => Idle
  end.

Definition register_action (env : Env) (m : Message) (b : Broker) : Action :=
  match given (m_worker_id m) with
  | Some w => Join w (e_peer env) (default [] (m_queues m)) (e_conn env) (e_time env)
  | None => Idle
  end.

Definition heartbeat_action (env : Env) (m : Message) (b : Broker) : Action :=
  match given (m_worker_id m) with Some w => Beat w (e_time env) | None => Idle end.

Definition ack_action (env : Env) (m : Message) (b : Broker) : Action :=
  match given (m_task_id m) with
  | Some tid => Finish tid (default "" (m_worker_id m)) (e_mono env)
  | None => Idle
  end.

Definition nack_action (env : Env) (m : Message) (b : Broker) : Action :=
  match given (m_task_id m) with
  | Some tid => Refuse tid (default "" (m_worker_id m)) (e_time env) (e_mono env)
  | None => Idle
  end.

(** With persistence a dead letter comes back as a new task. *)
Definition replay_action (env : Env) (m : Message) (b : Broker) : Action :=
  match given (m_task_id m), wal_store b with
  | Some tid, Some db =>
      match (Wal.replay_dlq_task tid db).1 with
      | Some row =>
          match loads (Wal.q_payload row) with
          | Some p => Submit (Wal.q_queue_name row) p (e_uuid env) (e_time env)
          | None => Idle
          end
      | None => Idle
      end
  | Some tid, None => Revive [tid]
  | None, _ => Idle
  end.

Definition purge_action (env : Env) (m : Message) (b : Broker) : Action :=
  match wal_store b with Some _ => Idle | None => Forget (given (m_queue m)) end.

Definition action_table : dict string (Env → Message → Broker → Action) :=
  [("PRODUCE", produce_action); ("CONSUME", consume_action); ("REGISTER", register_action);
   ("HEARTBEAT", heartbeat_action); ("ACK", ack_action); ("NACK", nack_action);
   ("DLQ_REPLAY", replay_action); ("DLQ_PURGE", purge_action)].

Definition request_action (env : Env) (m : Message) (b : Broker) : Action :=
  match given (m_command m) with
  | Some c => default (λ _ _ _, Idle) (dget c action_table) env m b
  | None => Idle
  end.

Definition event_action (e : Event) (b : Broker) : Action :=
  match e with
  | Request env m => request_action env m b
  | Eviction env iter => Sweep iter (e_time env)
  | CrashAction env =>
      let active := Registry.get_active_workers (worker_registry b) in
      match active !! (e_pick env `mod` length active) with
      | Some i => Age i (e_time env)
      | None => Idle
      end
  | ReplayAction => Revive (DLQ.s_task_id <$> DLQ.peek 1000 (QM.dead_letter_queue (queue_manager b)))
  | ResetAction env => Wipe
  end.

(** ** Every event is its action *)

Lemma keeps_ctl_idle {A} (c : M A) b : keeps ctl c → ctl (c b).2 = act Idle (ctl b).
Proof. intros Hk. exact (Hk b). Qed.

Lemma produce_acts env m b : ctl (_handle_produce env m b).2 = act (produce_action env m b) (ctl b).
Proof.
  unfold produce_action.
  destruct (given (m_queue m)) as [qn|] eqn:Eq; [destruct (task_given (m_task m)) as [p|] eqn:Ep|];
    [|unfold _handle_produce; by rewrite Eq, ?Ep..].
  destruct (Requests.handle_produce_spec env m b qn p Eq Ep) as (al&ra&sh&E&->).
  rewrite E. by destruct al.
Qed.

Lemma consume_acts env m b : ctl (_handle_consume env m b).2 = act (consume_action env m b) (ctl b).
Proof.
  unfold _handle_consume, consume_action.
  destruct (given (m_queue m)) as [qn|], (given (m_worker_id m)) as [w|]; try done.
  cbn [act ctl]. unfold mbind at 1, M_bind at 1. rewrite Recovery.on_qm_eq.
  destruct (QM.dequeue qn w (queue_manager b)) as [[d|] s]; cbn [fst snd]; [|done].
  unfold mbind at 1, M_bind at 1. rewrite Recovery.on_registry_eq. cbn [fst snd].
  match goal with |- ctl (?c ?b').2 = _ =>
    assert (keeps ctl c) as Hk by keep; rewrite (Hk b') end.
  done.
Qed.

(** What follows the call into a component, when it keeps both. *)
Lemma ctl_rest {A B} (c : M A) (k : A → M B) b b1 a :
  c b = (Some a, b1) → keeps ctl (k a) → ctl ((c ≫= k) b).2 = ctl b1.
Proof. intros E Hk. unfold mbind, M_bind. rewrite E. apply Hk. Qed.

Lemma register_acts env m b :
  ctl (_handle_register env m b).2 = act (register_action env m b) (ctl b).
Proof.
  unfold _handle_register, register_action. destruct (given (m_worker_id m)) as [w|]; [|done].
  unfold mbind, M_bind. by rewrite Recovery.on_registry_eq.
Qed.

Lemma heartbeat_acts env m b :
  ctl (_handle_heartbeat env m b).2 = act (heartbeat_action env m b) (ctl b).
Proof.
  unfold _handle_heartbeat, heartbeat_action. destruct (given (m_worker_id m)) as [w|]; [|done].
  unfold mbind, M_bind. rewrite Recovery.on_registry_eq. cbn [fst].
  by destruct (Registry.record_heartbeat w _ _).1.
Qed.

Lemma ack_acts env m b : ctl (_handle_ack env m b).2 = act (ack_action env m b) (ctl b).
Proof.
  unfold _handle_ack, ack_action. destruct (given (m_task_id m)) as [tid|]; [|done].
  unfold mbind at 1, M_bind at 1. rewrite Recovery.on_qm_eq. cbn [act ctl].
  destruct (QM.acknowledge tid (queue_manager b)) as [[] s]; cbn [fst snd]; [|done].
  erewrite ctl_rest; [|apply Recovery.on_registry_eq|keep]. done.
Qed.

Lemma nack_acts env m b : ctl (_handle_nack env m b).2 = act (nack_action env m b) (ctl b).
Proof.
  unfold _handle_nack, nack_action. destruct (given (m_task_id m)) as [tid|]; [|done].
  unfold mbind at 1, M_bind at 1. rewrite Recovery.on_qm_eq. cbn [act ctl].
  destruct (QM.negative_acknowledge tid _ (queue_manager b)) as [[r|] s]; cbn [fst snd]; [|done].
  erewrite ctl_rest; [|apply Recovery.on_registry_eq|keep]. done.
Qed.

Lemma replay_acts env m b :
  ctl (_handle_dlq_replay env m b).2 = act (replay_action env m b) (ctl b).
Proof.
  unfold _handle_dlq_replay, replay_action. destruct (given (m_task_id m)) as [tid|]; [|done].
  unfold if_wal. destruct (wal_store b) as [db|] eqn:W.
  - unfold mbind at 1, M_bind at 1. rewrite (Recovery.on_wal_eq _ _ _ W).
    destruct (Wal.replay_dlq_task tid db) as [[row|] db']; cbn [fst snd]; [|done].
    destruct (loads (Wal.q_payload row)) as [p|]; [|done].
    erewrite ctl_rest; [|apply Recovery.on_qm_eq|keep]. done.
  - unfold mbind, M_bind. rewrite Recovery.on_qm_eq. cbn [act ctl retry_each].
    by destruct (QM.dlq_retry tid (queue_manager b)) as [[] s].
Qed.

Lemma purge_acts env m b : ctl (_handle_dlq_purge m b).2 = act (purge_action env m b) (ctl b).
Proof.
  unfold _handle_dlq_purge, purge_action, if_wal, mbind, M_bind.
  destruct (wal_store b) as [db|] eqn:W.
  - by rewrite (Recovery.on_wal_eq _ _ _ W).
  - destruct (given (m_queue m)) as [qn|]; by rewrite Recovery.on_qm_eq.
Qed.

Lemma dispatch_acts env m b : ctl (_dispatch env m b).2 = act (request_action env m b) (ctl b).
Proof.
  unfold _dispatch, request_action. destruct (given (m_command m)) as [c|]; [|done].
  destruct (dget c (handlers env)) as [h|] eqn:E.
  - apply dget_Some_in in E. unfold handlers in E.
    repeat apply elem_of_cons in E as [E|E]; try (injection E as -> ->);
      auto using produce_acts, consume_acts, register_acts, heartbeat_acts, ack_acts, nack_acts,
        replay_acts, purge_acts; try by apply not_elem_of_nil in E.
    all: apply keeps_ctl_idle;
      unfold _handle_dlq_list, _handle_stats, _handle_metrics, _get_metrics_snapshot; keep.
  - destruct (dget c action_table) as [f|] eqn:E'; [|done].
    apply dget_Some_in in E'. unfold action_table in E'.
    repeat apply elem_of_cons in E' as [E'|E']; try (injection E' as -> ->; discriminate E).
    by apply not_elem_of_nil in E'.
Qed.

Lemma handle_acts e b : ctl (handle e b) = act (event_action e b) (ctl b).
Proof.
  destruct e as [env m|env iter|env| |env]; cbn [handle event_action].
  - apply dispatch_acts.
  - unfold eviction_sweep, ctl. cbn [act].
    by destruct (Registry.evict_dead_workers _ _ _ _) as [r o].
  - unfold _crash_worker_handler, mbind, M_bind. cbn [get fst snd].
    destruct (_ !! _) as [i|] eqn:E; [|done].
    by rewrite Recovery.on_registry_eq.
  - unfold _replay_dlq_handler, mbind, M_bind. by rewrite Recovery.on_qm_eq.
  - unfold _reset_handler, mbind, M_bind. rewrite Recovery.on_qm_eq. cbn [fst snd].
    unfold if_wal. cbn. destruct (wal_store b) eqn:W; [|done].
    unfold on_wal. cbn. by rewrite W.
Qed.
End events.
End Control.
