(* ===== verification/EventLoop.v ===== *)
(** * The event loop (asyncio, as [broker/] uses it)

Coroutines over shared data, with [asyncio.Lock]s, run by one event loop.
The loop switches to another task only when the running one suspends: at
an [await] that has to wait for the network or a timer, or at a lock that
somebody else holds.  A lock that is free is taken without a switch.

When no coroutine ever suspends inside a critical section, no lock is ever
found taken, and the tasks run from suspension to suspension as if each
such stretch were one step. *)

From S2P Require Import Prelude.

Module Loop.

Section loop.
(** [S]: what the tasks share. *)
Context {S Lock : Type} `{EqDecision Lock}.

(** ** Coroutines *)

(** [Sync c k]: code without [await]; [None] when it raises.  [Suspend]: an
    [await] of something that is not a lock. *)
Inductive Prog (A : Type) : Type :=
  | Ret (a : A)
  | Raise
  | Sync {X : Type} (c : S → option X * S) (k : option X → Prog A)
  | Acquire (l : Lock) (k : Prog A)
  | Release (l : Lock) (k : Prog A)
  | Suspend (k : Prog A).

#[global] Arguments Ret {A} a.
#[global] Arguments Raise {A}.
#[global] Arguments Sync {A X} c k.
#[global] Arguments Acquire {A} l k.
#[global] Arguments Release {A} l k.
#[global] Arguments Suspend {A} k.

(** [p] and then [f], which is told how [p] ended. *)
Fixpoint ending {A B} (p : Prog A) (f : option A → Prog B) : Prog B :=
  match p with
  | Ret a => f (Some a)
  | Raise => f None
  | Sync c k => Sync c (λ x, ending (k x) f)
  | Acquire l k => Acquire l (ending k f)
  | Release l k => Release l (ending k f)
  | Suspend k => Suspend (ending k f)
  end.

Definition from_option {A} (o : option A) : Prog A :=
  match o with Some a => Ret a | None => Raise end.

#[global] Instance prog_ret : MRet Prog := λ A, Ret.
#[global] Instance prog_bind : MBind Prog := λ A B f p,
  ending p (λ o, match o with Some a => f a | None => Raise end).

Definition sync {A} (c : S → option A * S) : Prog A := Sync c from_option.

(** [async with l: ..] *)
Definition async_with {A} (l : Lock) (p : Prog A) : Prog A :=
  Acquire l (ending p (λ o, Release l (from_option o))).

Definition locked {A} (l : Lock) (c : S → option A * S) : Prog A := async_with l (sync c).

(** [for x in xs: ..] *)
Fixpoint for_each {A} (f : A → Prog unit) (xs : list A) : Prog unit :=
  match xs with
  | [] => Ret tt
  | x :: xs => _ ← f x; for_each f xs
  end.

(** ** Tasks and the loop *)

Record World := mk {
  shared : S;
  held : list Lock;
  tasks : list (Prog unit);
  turn : option nat;
}.

Inductive step : World → World → Prop :=
  | resumes s h ts i p :
      ts !! i = Some p → step (mk s h ts None) (mk s h ts (Some i))
  | computes s h ts i X (c : S → option X * S) k :
      ts !! i = Some (Sync c k) →
      step (mk s h ts (Some i)) (mk (c s).2 h (<[i := k (c s).1]> ts) (Some i))
  | acquires s h ts i l k :
      ts !! i = Some (Acquire l k) → l ∉ h →
      step (mk s h ts (Some i)) (mk s (l :: h) (<[i := k]> ts) (Some i))
  | waits s h ts i l k :
      ts !! i = Some (Acquire l k) → l ∈ h → step (mk s h ts (Some i)) (mk s h ts None)
  | releases s h ts i l k :
      ts !! i = Some (Release l k) →
      step (mk s h ts (Some i)) (mk s (filter (λ l', l' ≠ l) h) (<[i := k]> ts) (Some i))
  | suspends s h ts i k :
      ts !! i = Some (Suspend k) → step (mk s h ts (Some i)) (mk s h (<[i := k]> ts) None)
  | returns s h ts i a :
      ts !! i = Some (Ret a) → step (mk s h ts (Some i)) (mk s h ts None)
  | raises s h ts i :
      ts !! i = Some Raise → step (mk s h ts (Some i)) (mk s h ts None).

Lemma filter_others (l : Lock) (h : list Lock) : l ∉ h → filter (λ l', l' ≠ l) h = h.
Proof.
  induction h as [|l' h IH]; [done|]. intros [Hne Hl]%not_elem_of_cons.
  by rewrite filter_cons_True, IH by done.
Qed.

(** ** Stretches as single steps *)

(** A task up to its next suspension, undisturbed. *)
Fixpoint burst {A} (p : Prog A) (s : S) : S * Prog A :=
  match p with
  | Sync c k => burst (k (c s).1) (c s).2
  | Acquire _ k | Release _ k => burst k s
  | Suspend k => (s, k)
  | Ret _ | Raise => (s, p)
  end.

Inductive serial : S * list (Prog unit) → S * list (Prog unit) → Prop :=
  | serial_burst s ts i p :
      ts !! i = Some p → serial (s, ts) ((burst p s).1, <[i := (burst p s).2]> ts).

(** With the locks [h] taken, [p] takes only locks that are free, innermost
    released first, and suspends and ends with none. *)
Fixpoint safe {A} (h : list Lock) (p : Prog A) : Prop :=
  match p with
  | Ret _ | Raise => h = []
  | Sync c k => ∀ x, safe h (k x)
  | Acquire l k => (l ∉ h) ∧ safe (l :: h) k
  | Release l k => ∃ h', h = l :: h' ∧ (l ∉ h') ∧ safe h' k
  | Suspend k => h = [] ∧ safe [] k
  end.

(** Where the loop may be: between two stretches of a serial run, or within
    one of them, with its locks. *)
Definition on_the_way (s0 : S) (ts0 : list (Prog unit)) (w : World) : Prop :=
  match turn w with
  | None =>
      held w = [] ∧ rtc serial (s0, ts0) (shared w, tasks w) ∧ Forall (safe []) (tasks w)
  | Some i => ∃ s ts p0 p,
      rtc serial (s0, ts0) (s, ts) ∧ Forall (safe []) ts ∧ ts !! i = Some p0 ∧
      tasks w = <[i := p]> ts ∧ safe (held w) p ∧ burst p (shared w) = burst p0 s
  end.

Lemma burst_safe {A} (p : Prog A) h s : safe h p → safe [] (burst p s).2.
Proof.
  revert h s. induction p as [a| |X c k IH|l k IH|l k IH|k IH]; intros h s; cbn; try done.
  - intros H. by eapply IH.
  - intros [_ H]. by eapply IH.
  - intros (h'&_&_&H). by eapply IH.
  - by intros [_ H].
Qed.

Lemma serial_step s0 ts0 s ts i p0 :
  rtc serial (s0, ts0) (s, ts) → Forall (safe []) ts → ts !! i = Some p0 →
  rtc serial (s0, ts0) ((burst p0 s).1, <[i := (burst p0 s).2]> ts) ∧
  Forall (safe []) (<[i := (burst p0 s).2]> ts).
Proof.
  intros Hr Hs Hi. split; [eapply rtc_r; [done|by constructor]|].
  apply Forall_insert; [done|]. eapply burst_safe. by apply (Forall_lookup_1 _ _ _ _ Hs Hi).
Qed.

Lemma step_on_the_way s0 ts0 w w' : on_the_way s0 ts0 w → step w w' → on_the_way s0 ts0 w'.
Proof.
  intros Hw Hst. destruct Hst as [s h ts i p Hi|s h ts i X c k Hi|s h ts i l k Hi Hl|s h ts i l k Hi Hl|
    s h ts i l k Hi|s h ts i k Hi|s h ts i a Hi|s h ts i Hi]; unfold on_the_way in *; cbn [turn shared held tasks] in *.
  { destruct Hw as (->&Hr&Hs). exists s, ts, p, p. split_and!; try done.
    - symmetry. by apply list_insert_id.
    - by apply (Forall_lookup_1 _ _ _ _ Hs Hi). }
  all: destruct Hw as (s1&ts1&p0&p&Hr&Hs&Hi0&->&Hp&Hb);
    rewrite list_lookup_insert_eq in Hi by (by eapply lookup_lt_Some); injection Hi as ->; cbn [safe burst] in Hp, Hb.
  - exists s1, ts1, p0, (k (c s).1). rewrite list_insert_insert_eq. by split_and!.
  - exists s1, ts1, p0, k. rewrite list_insert_insert_eq. destruct Hp. by split_and!.
  - by destruct Hp.
  - exists s1, ts1, p0, k. rewrite list_insert_insert_eq. destruct Hp as (h'&->&Hl&Hk).
    split_and!; try done. rewrite filter_cons_False by (by intros []).
    by rewrite filter_others.
  - destruct (serial_step _ _ _ _ _ _ Hr Hs Hi0) as [Hr' Hs']. rewrite <- Hb in Hr', Hs'.
    destruct Hp as [-> Hk]. rewrite list_insert_insert_eq. by split_and!.
  - destruct (serial_step _ _ _ _ _ _ Hr Hs Hi0) as [Hr' Hs']. rewrite <- Hb in Hr', Hs'. by split_and!.
  - destruct (serial_step _ _ _ _ _ _ Hr Hs Hi0) as [Hr' Hs']. rewrite <- Hb in Hr', Hs'. by split_and!.
Qed.

Lemma steps_on_the_way s ts w :
  Forall (safe []) ts → rtc step (mk s [] ts None) w → on_the_way s ts w.
Proof.
  intros Hs Hr. assert (H0 : on_the_way s ts (mk s [] ts None)) by (by split_and!).
  remember (mk s [] ts None) as w0 eqn:E. clear E.
  induction Hr as [w|w1 w2 w3 Hst _ IH]; [done|]. apply IH. by eapply step_on_the_way.
Qed.

(** Nobody waits for a lock. *)
Lemma never_contended s ts w i l k :
  Forall (safe []) ts → rtc step (mk s [] ts None) w →
  turn w = Some i → tasks w !! i = Some (Acquire l k) → l ∉ held w.
Proof.
  intros Hs Hr Ht Hi. pose proof (steps_on_the_way s ts w Hs Hr) as Hw. unfold on_the_way in Hw.
  rewrite Ht in Hw. destruct Hw as (s1&ts1&p0&p&_&_&Hi0&E&Hp&_). rewrite E in Hi.
  rewrite list_lookup_insert_eq in Hi by (by eapply lookup_lt_Some). injection Hi as ->.
  by destruct Hp.
Qed.

(** Conversely the loop can run every such stretch. *)
Lemma burst_steps (p : Prog unit) s h ts i :
  safe h p → ts !! i = Some p →
  rtc step (mk s h ts (Some i)) (mk (burst p s).1 [] (<[i := (burst p s).2]> ts) None).
Proof.
  revert s h ts. induction p as [a| |X c k IH|l k IH|l k IH|k IH]; intros s h ts Hp Hi; cbn [safe burst fst snd] in *.
  - subst h. rewrite list_insert_id by done. eapply rtc_once. by eapply returns.
  - subst h. rewrite list_insert_id by done. eapply rtc_once. by eapply raises.
  - eapply rtc_l; [by constructor|].
    rewrite <- (list_insert_insert_eq ts i (burst (k (c s).1) (c s).2).2 (k (c s).1)).
    apply IH; [apply Hp|]. apply list_lookup_insert_eq. by eapply lookup_lt_Some.
  - destruct Hp as [Hl Hp]. eapply rtc_l; [by constructor|].
    rewrite <- (list_insert_insert_eq ts i (burst k s).2 k).
    apply IH; [done|]. apply list_lookup_insert_eq. by eapply lookup_lt_Some.
  - destruct Hp as (h'&->&Hl&Hp). eapply rtc_l; [by constructor|].
    rewrite filter_cons_False by (by intros []). rewrite filter_others by done.
    rewrite <- (list_insert_insert_eq ts i (burst k s).2 k).
    apply IH; [done|]. apply list_lookup_insert_eq. by eapply lookup_lt_Some.
  - destruct Hp as [-> _]. eapply rtc_once. by eapply suspends.
Qed.

Fixpoint serial_run (order : list nat) (x : S * list (Prog unit)) : S * list (Prog unit) :=
  match order with
  | [] => x
  | i :: order =>
      match x.2 !! i with
      | Some p => serial_run order ((burst p x.1).1, <[i := (burst p x.1).2]> x.2)
      | None => serial_run order x
      end
  end.

Lemma serial_run_steps order s ts :
  Forall (safe []) ts →
  let '(s', ts') := serial_run order (s, ts) in rtc step (mk s [] ts None) (mk s' [] ts' None).
Proof.
  revert s ts. induction order as [|i order IH]; intros s ts Hs; cbn [serial_run snd fst]; [done|].
  destruct (ts !! i) as [p|] eqn:Hi; [|by apply IH].
  pose proof (Forall_lookup_1 _ _ _ _ Hs Hi) as Hp.
  specialize (IH (burst p s).1 (<[i := (burst p s).2]> ts)).
  destruct (serial_run order _) as [s' ts']. eapply rtc_l; [by eapply resumes|].
  etransitivity; [by apply burst_steps|]. apply IH.
  apply Forall_insert; [done|]. by eapply burst_safe.
Qed.

(** ** Code without suspensions *)

(** With the locks [h], [p] runs through to its end, where it has [h']. *)
Fixpoint calm {A} (h h' : list Lock) (p : Prog A) : Prop :=
  match p with
  | Ret _ | Raise => h = h'
  | Sync c k => ∀ x, calm h h' (k x)
  | Acquire l k => (l ∉ h) ∧ calm (l :: h) h' k
  | Release l k => ∃ h1, h = l :: h1 ∧ (l ∉ h1) ∧ calm h1 h' k
  | Suspend _ => False
  end.

Lemma calm_ending {A B} h h1 h2 (p : Prog A) (f : option A → Prog B) :
  calm h h1 p → (∀ o, calm h1 h2 (f o)) → calm h h2 (ending p f).
Proof.
  revert h. induction p as [a| |X c k IH|l k IH|l k IH|k IH]; intros h Hp Hf; cbn in *.
  - by subst.
  - by subst.
  - intros x. by apply IH.
  - destruct Hp. split; [done|]. by apply IH.
  - destruct Hp as (h'&->&?&?). exists h'. split_and!; [done..|]. by apply IH.
  - done.
Qed.

Lemma calm_bind {A B} h (p : Prog A) (f : A → Prog B) :
  calm h h p → (∀ a, calm h h (f a)) → calm h h (p ≫= f).
Proof. intros Hp Hf. eapply calm_ending; [done|]. by intros [a|]. Qed.

Lemma calm_ret {A} h (a : A) : calm h h (mret a : Prog A).
Proof. done. Qed.

Lemma calm_raise {A} h : calm h h (Raise : Prog A).
Proof. done. Qed.

Lemma calm_sync {A} h (c : S → option A * S) : calm h h (sync c).
Proof. by intros [a|]. Qed.

Lemma calm_async_with {A} h l (p : Prog A) : l ∉ h → calm (l :: h) (l :: h) p → calm h h (async_with l p).
Proof.
  intros Hl Hp. split; [done|]. eapply calm_ending; [done|]. intros o. exists h.
  split_and!; [done..|]. by destruct o.
Qed.

Lemma calm_locked {A} l (c : S → option A * S) : calm [] [] (locked l c).
Proof. apply calm_async_with; [by apply not_elem_of_nil|apply calm_sync]. Qed.

Lemma calm_for_each {A} h (f : A → Prog unit) xs : (∀ x, calm h h (f x)) → calm h h (for_each f xs).
Proof.
  intros Hf. induction xs as [|x xs IH]; [done|]. cbn [for_each]. by apply calm_bind; [|intros []].
Qed.

Lemma safe_ending {A B} h (p : Prog A) (f : option A → Prog B) :
  calm h [] p → (∀ o, safe [] (f o)) → safe h (ending p f).
Proof.
  revert h. induction p as [a| |X c k IH|l k IH|l k IH|k IH]; intros h Hp Hf; cbn in *.
  - by subst.
  - by subst.
  - intros x. by apply IH.
  - destruct Hp. split; [done|]. by apply IH.
  - destruct Hp as (h'&->&?&?). exists h'. split_and!; [done..|]. by apply IH.
  - done.
Qed.

(** What it computes. *)
Fixpoint alone {A} (p : Prog A) (s : S) : option A * S :=
  match p with
  | Ret a => (Some a, s)
  | Raise => (None, s)
  | Sync c k => alone (k (c s).1) (c s).2
  | Acquire _ k | Release _ k | Suspend k => alone k s
  end.

Lemma alone_ending {A B} (p : Prog A) (f : option A → Prog B) s :
  alone (ending p f) s = alone (f (alone p s).1) (alone p s).2.
Proof. revert s. by induction p; intros s; cbn. Qed.

Lemma burst_ending {A B} h h' (p : Prog A) (f : option A → Prog B) s :
  calm h h' p → burst (ending p f) s = burst (f (alone p s).1) (alone p s).2.
Proof.
  revert h s. induction p as [a| |X c k IH|l k IH|l k IH|k IH]; intros h s Hp; cbn in *; try done.
  - by eapply IH.
  - destruct Hp. by eapply IH.
  - destruct Hp as (h1&_&_&?). by eapply IH.
Qed.

Lemma alone_sync {A} (c : S → option A * S) s : alone (sync c) s = c s.
Proof. cbn. by destruct (c s) as [[a|] s']. Qed.

Lemma alone_async_with {A} l (p : Prog A) s : alone (async_with l p) s = alone p s.
Proof. cbn. rewrite alone_ending. cbn. by destruct (alone p s) as [[a|] s']. Qed.

Lemma alone_locked {A} l (c : S → option A * S) s : alone (locked l c) s = c s.
Proof. unfold locked. by rewrite alone_async_with, alone_sync. Qed.

(** [p] computes what the function [c] does. *)
Definition computing {A} (p : Prog A) (c : S → option A * S) : Prop := ∀ s, alone p s = c s.

Lemma computing_bind {A B} (p : Prog A) (f : A → Prog B) c (g : A → S → option B * S) :
  computing p c → (∀ a, computing (f a) (g a)) →
  computing (p ≫= f) (λ s, match c s with (Some a, s) => g a s | (None, s) => (None, s) end).
Proof.
  intros Hp Hf s. unfold mbind, prog_bind. rewrite alone_ending, Hp.
  destruct (c s) as [[a|] s']; cbn; [apply Hf|done].
Qed.
End loop.
End Loop.
