(* ===== verification/Serving.v ===== *)
(** * The broker's coroutines ([broker/server.py], [broker/queue_manager.py],
      [broker/worker_registry.py], [broker/dead_letter.py],
      [broker/load_shedder.py], [broker/http_api.py])

The command handlers, dashboard actions and the eviction sweep once more,
with every lock they take and every suspension around them, as tasks of
[EventLoop].  The handlers of [Server] are what they compute, and any
number of connections, dashboard requests and sweeps, interleaved by the
event loop, have the effect of running those one after another. *)

From S2P Require Import Prelude PyDict Json JsonText DeadLetter QueueManager QueueInvariant TaskConservation TaskLifecycle WorkerRegistry Eviction LoadShedder WalStore Metrics Server Frames Requests Recovery ControlPlane EventLoop.
Import Server Control Loop.

Module Serving.

(** The [_lock]s of the four components that have one. *)
Inductive Lock := QueueLock | DeadLock | RegistryLock | ShedderLock.

#[global] Instance Lock_eq_dec : EqDecision Lock.
Proof. solve_decision. Defined.

Abbreviation P := (Prog (S := Broker) (Lock := Lock)).

Definition if_wal {A} (yes no : P A) : P A :=
  w ← sync (get wal_store); match w with Some _ => yes | None => no end.

(** ** Methods of the components with more than one critical section *)

Definition negative_acknowledge (tid : string) (now : Q) : P (option QM.NackResult) :=
  x ← locked QueueLock (on_qm (QM.nack_take tid));
  match x with
  | None => mret None
  | Some x =>
      r ← locked (if bool_decide (status x = "dead_lettered") then DeadLock else QueueLock)
            (on_qm (QM.nack_route x now));
      mret (Some r)
  end.

Definition dlq_retry (tid : string) : P bool :=
  x ← locked DeadLock (on_qm (λ s,
        let '(x, d) := DLQ.retry_take tid (QM.dead_letter_queue s) in (x, QM.with_dlq d s)));
  match x with
  | None => mret false
  | Some x =>
      _ ← locked QueueLock (on_qm (λ s, (tt, QM.requeue (DLQ.retry_reset x) false s)));
      _ ← sync (on_qm (λ s, let d := QM.dead_letter_queue s in
            (tt, QM.with_dlq (DLQ.mk (DLQ._tasks d) (DLQ._total_received d) (DLQ._total_retried d + 1)
                                (DLQ._total_purged d)) s)));
      mret true
  end.

Section eviction.
Context (iter : Registry.WorkerInfo → list string).

Definition reassign_one (tid : string) : P unit :=
  requeued ← locked QueueLock (on_qm (QM.requeue_by_id tid));
  if requeued : bool then sync (on_registry (λ r, (tt, Registry.bump_reassigned r))) else mret tt.

Definition evict_one (x : string * Registry.WorkerInfo) : P unit :=
  _ ← for_each reassign_one (iter x.2);
  sync (on_registry (λ r, (tt, Registry.bump_evictions r))).

Definition evict_dead_workers (now : Q) : P unit :=
  dead ← locked RegistryLock (on_registry (λ r,
    let dead := Registry.dead_workers now (Registry._workers r) in
    (dead, Registry.with_workers (Registry.del_workers dead) r)));
  for_each evict_one dead.
End eviction.

(** ** Command handlers *)

Section handlers.
Context `{codec : JsonCodec} (env : Env).

Definition _handle_produce (m : Message) : P Json :=
  match given (m_queue m), task_given (m_task m) with
  | None, _ => mret (error "Missing 'queue' field")
  | Some _, None => mret (error "Missing 'task' field")
  | Some qn, Some p =>
      verdict ← locked ShedderLock
        (on_shedder (λ sys, Shedder.check_and_consume qn sys (e_mono env) (e_mono env)));
      let '(allowed, retry_after) := verdict in
      if negb allowed then
        mret (JObj [("status", JStr "rate_limited");
                    ("retry_after_seconds", JFloat retry_after);
                    ("reason", JStr "Queue overloaded. Please back off.")])
      else
        tid ← locked QueueLock (on_qm (QM.enqueue qn p (e_uuid env) (e_time env)));
        _ ← sync (on_metrics (Metrics.record_produce qn (e_mono env)));
        _ ← sync (Server.if_wal (persist_enqueued env qn tid) (mret tt));
        mret (JObj [("status", JStr "ok"); ("task_id", JStr tid)])
  end.

Definition _handle_consume (m : Message) : P Json :=
  match given (m_queue m), given (m_worker_id m) with
  | None, _ => mret (error "Missing 'queue' field")
  | Some _, None => mret (error "Missing 'worker_id' field")
  | Some qn, Some w =>
      task ← locked QueueLock (on_qm (QM.dequeue qn w));
      match task with
      | None => mret (JObj [("status", JStr "empty")])
      | Some d =>
          let tid := QM.d_task_id d in
          _ ← locked RegistryLock (on_registry (λ r, (tt, Registry.assign_task w tid (e_mono env) r)));
          _ ← sync (on_metrics (Metrics.record_consume qn tid (e_mono env)));
          _ ← sync (Server.if_wal
                (on_wal (Wal.update_task_status tid "in_flight" (Some (QM.d_attempts d))
                           (Some w) (e_time env)))
                (mret false));
          mret (JObj [("status", JStr "ok"); ("task", QM.delivery_json d)])
      end
  end.

Definition _handle_register (m : Message) : P Json :=
  match given (m_worker_id m) with
  | None => mret (error "Missing 'worker_id' field")
  | Some w =>
      is_new ← locked RegistryLock
        (on_registry (Registry.register w (e_peer env) (default [] (m_queues m))
                        (Some (e_conn env)) (e_time env) (e_time env)));
      mret (JObj [("status", JStr "ok"); ("registered", JBool is_new);
                  ("message", JStr ("Worker '" +:+ w +:+ "' registered"))])
  end.

Definition _handle_heartbeat (m : Message) : P Json :=
  match given (m_worker_id m) with
  | None => mret (error "Missing 'worker_id' field")
  | Some w =>
      found ← locked RegistryLock (on_registry (Registry.record_heartbeat w (e_time env)));
      if found : bool then mret (JObj [("status", JStr "ok")])
      else mret (error ("Unknown worker: " +:+ w))
  end.

Definition _handle_ack (m : Message) : P Json :=
  match given (m_task_id m) with
  | None => mret (error "Missing 'task_id' field")
  | Some tid =>
      success ← locked QueueLock (on_qm (QM.acknowledge tid));
      if success : bool then
        let w := default "" (m_worker_id m) in
        _ ← locked RegistryLock (on_registry (λ r, (tt, Registry.complete_task w tid (e_mono env) r)));
        let qn := default "unknown" (m_queue m) in
        _ ← sync (on_metrics (Metrics.record_ack qn tid (e_mono env)));
        _ ← sync (Server.if_wal (on_wal (Wal.update_task_status tid "done" None None (e_time env)))
                    (mret false));
        mret (JObj [("status", JStr "ok");
                    ("message", JStr ("Task " +:+ tid +:+ " acknowledged"))])
      else mret (error ("Task " +:+ tid +:+ " not found in-flight"))
  end.

Definition persist_nack (tid : string) (r : QM.NackResult) : P unit :=
  if bool_decide (QM.n_action r = "dead_lettered") then
    s ← locked DeadLock (get queue_manager);
    sync (on_wal (λ db, (tt, Wal.add_to_dlq
                         (task_stub env tid (QM.n_queue_name r) (stub_payload tid s)
                            (QM.n_attempts r))
                         "max retries exceeded" (e_time env) db)))
  else
    _ ← sync (on_wal (Wal.update_task_status tid "pending" (Some (QM.n_attempts r)) None
                        (e_time env)));
    mret tt.

Definition _handle_nack (m : Message) : P Json :=
  match given (m_task_id m) with
  | None => mret (error "Missing 'task_id' field")
  | Some tid =>
      result ← negative_acknowledge tid (e_time env);
      match result with
      | None => mret (error ("Task " +:+ tid +:+ " not found in-flight"))
      | Some r =>
          let w := default "" (m_worker_id m) in
          let dead := bool_decide (QM.n_action r = "dead_lettered") in
          _ ← locked RegistryLock (on_registry (λ g, (tt, Registry.complete_task w tid (e_mono env) g)));
          _ ← sync (on_metrics (Metrics.record_nack (QM.n_queue_name r) tid dead));
          _ ← if_wal (persist_nack tid r) (mret tt);
          mret (JObj [("status", JStr "ok"); ("action", JStr (QM.n_action r));
                      ("attempts", JInt (QM.n_attempts r));
                      ("message",
                         JStr (if dead then "Task " +:+ tid +:+ " moved to DLQ"
                               else "Task " +:+ tid +:+ " re-queued for retry"))])
      end
  end.
(** ** Administration and dashboard *)

Definition _handle_dlq_list (m : Message) : P Json :=
  let limit := default 50%Z (m_limit m) in
  if_wal
    (rows ← sync (on_wal (λ db, (Wal.get_dlq_tasks (m_queue m) limit db, db)));
     match rows with
     | Some rows => mret (dlq_list_reply (dlq_row_json <$> rows))
     | None => Raise
     end)
    (s ← locked DeadLock (get queue_manager);
     let tasks := DLQ.peek limit (QM.dead_letter_queue s) in
     let tasks := match given (m_queue m) with
                  | Some qn => filter (λ d, DLQ.s_queue_name d = qn) tasks
                  | None => tasks
                  end in
     mret (dlq_list_reply (DLQ.summary_json <$> tasks))).

Definition _handle_dlq_replay (m : Message) : P Json :=
  match given (m_task_id m) with
  | None => mret (error "Missing 'task_id' field")
  | Some tid =>
      if_wal
        (row ← sync (on_wal (Wal.replay_dlq_task tid));
         match row with
         | None => mret (error ("Task " +:+ tid +:+ " not found in DLQ"))
         | Some r =>
             match loads (Wal.q_payload r) with
             | None => Raise
             | Some p =>
                 new_tid ← locked QueueLock
                   (on_qm (QM.enqueue (Wal.q_queue_name r) p (e_uuid env) (e_time env)));
                 _ ← sync (persist_enqueued env (Wal.q_queue_name r) new_tid);
                 mret (replay_reply tid new_tid)
             end
         end)
        (success ← dlq_retry tid;
         if success : bool then mret (replay_reply tid tid)
         else mret (error ("Task " +:+ tid +:+ " not found in DLQ")))
  end.

Definition remove_one (tid : string) : P unit :=
  _ ← locked DeadLock (on_qm (QM.dlq_remove tid)); mret tt.

Definition purge_queue (qn : string) : P nat :=
  to_remove ← locked DeadLock (get (λ b,
    (filter (λ p, queue_name p.2 = qn) (DLQ._tasks (QM.dead_letter_queue (queue_manager b)))).*1));
  _ ← for_each remove_one to_remove;
  mret (length to_remove).

Definition _handle_dlq_purge (m : Message) : P Json :=
  purged ← if_wal
    (sync (on_wal (Wal.purge_dlq (m_queue m))))
    (match given (m_queue m) with
     | Some qn => purge_queue qn
     | None => locked DeadLock (on_qm QM.dlq_purge)
     end);
  mret (JObj [("status", JStr "ok"); ("action", JStr "purged");
              ("count", JInt (Z.of_nat purged))]).

Definition _get_metrics_snapshot : P Json :=
  names ← sync (get (dkeys ∘ QM._queues ∘ queue_manager));
  sn ← sync (on_snapshot env names);
  s ← sync (get queue_manager);
  let queues := fill_depths s names (Metrics.sn_queues sn) in
  r ← sync (get worker_registry);
  dlq ← if_wal (sync (get dlq_total)) (locked DeadLock (get dlq_total));
  n ← sync (get _active_connections);
  l ← sync (on_shedder (λ sys, Shedder.get_stats sys (e_mono env)));
  mret (JObj
    [("queues", JObj ((λ p, (p.1, Metrics.queue_metrics_json p.2)) <$> queues));
     ("broker",
        JObj [("uptime_seconds", JFloat (Metrics.sn_uptime sn));
              ("tracked_in_flight", JInt (Metrics.sn_tracked sn));
              ("in_flight_tasks", JInt (Z.of_nat (QM.in_flight_count s)));
              ("active_connections", JInt n)]);
     ("status", JStr "ok");
     ("workers",
        JObj [("active", JArr (worker_json <$> Registry.get_active_workers r));
              ("evicted_count", JInt (Registry._total_evictions r))]);
     ("dlq", JObj [("total_tasks", JInt (Z.of_nat dlq))]);
     ("load_shedder", l)]).

Fixpoint retry_each (tids : list string) : P nat :=
  match tids with
  | [] => mret 0
  | tid :: tids =>
      success ← dlq_retry tid;
      n ← retry_each tids;
      mret (if success : bool then Datatypes.S n else n)
  end.

Definition _replay_dlq_handler : P Json :=
  dlq_tasks ← locked DeadLock (get (λ b, DLQ.peek 1000 (QM.dead_letter_queue (queue_manager b))));
  n ← retry_each (DLQ.s_task_id <$> dlq_tasks);
  mret (JObj [("status", JStr "ok");
              ("message", JStr ("Replayed " +:+ pretty n +:+ " tasks"))]).

(** The one critical section of the server itself. *)
Definition _reset_handler : P Json :=
  _ ← async_with QueueLock
        (_ ← sync (on_qm (λ s, (tt, QM.reset s)));
         sync (Server.if_wal (on_wal (λ db, (tt, Wal.clear_all_data db))) (mret tt)));
  _ ← sync (on_metrics (Metrics.reset (e_mono env)));
  mret (JObj [("status", JStr "ok"); ("message", JStr "System fully reset to scratch")]).

Definition handlers : dict string (Message → P Json) :=
  [("PRODUCE", _handle_produce); ("CONSUME", _handle_consume);
   ("REGISTER", _handle_register); ("HEARTBEAT", _handle_heartbeat);
   ("ACK", _handle_ack); ("NACK", _handle_nack);
   ("DLQ_LIST", _handle_dlq_list); ("DLQ_REPLAY", _handle_dlq_replay);
   ("DLQ_PURGE", _handle_dlq_purge); ("STATS", λ m, sync (Server._handle_stats env m));
   ("METRICS", λ _, _get_metrics_snapshot)].

Definition _dispatch (m : Message) : P Json :=
  match given (m_command m) with
  | None => mret (error "Missing 'command' field")
  | Some c =>
      match dget c handlers with
      | None => mret (error ("Unknown command: " +:+ c))
      | Some h => h m
      end
  end.
End handlers.

(** ** The tasks of the event loop *)

Section tasks.
Context `{codec : JsonCodec}.

Definition forget {A} (p : P A) : P unit := _ ← p; mret tt.

(** What a request, a dashboard action or a sweep runs. *)
Definition job (e : Event) : P unit :=
  match e with
  | Request env m => forget (_dispatch env m)
  | Eviction env iter => evict_dead_workers iter (e_time env)
  | CrashAction env => forget (sync (_crash_worker_handler env))
  | ReplayAction => forget _replay_dlq_handler
  | ResetAction env => forget (_reset_handler env)
  end.

(** [self._active_connections += n] *)
Definition count (n : Z) : P unit := sync (λ b, (Some tt, add_connections n b)).

(** The [finally] block of [handle_connection]. *)
Definition leave : P unit := _ ← count (-1); Suspend (Ret tt).

(** The loop of [handle_connection]: it waits for the header and for the
    body of each message, to send the reply, and gives way after it.  [None]
    is a message that is not JSON; the end of the stream and an exception
    close the connection. *)
Fixpoint converse (requests : list (option (Env * Message))) : P unit :=
  match requests with
  | [] => Suspend leave
  | None :: requests => Suspend (Suspend (Suspend (converse requests)))
  | Some (env, m) :: requests =>
      Suspend (Suspend (ending (job (Request env m)) (λ o,
        match o with
        | Some _ => Suspend (Suspend (converse requests))
        | None => leave
        end)))
  end.

Definition handle_connection (requests : list (option (Env * Message))) : P unit :=
  _ ← count 1; converse requests.

(** A request to the HTTP server: read, act, send, close. *)
Definition handle_http (e : Event) : P unit :=
  Suspend (ending (job e) (λ _, Suspend (Suspend (Ret tt)))).

(** [while self._running: await asyncio.sleep(2); ..] *)
Fixpoint eviction_loop (rounds : list (Env * (Registry.WorkerInfo → list string))) : P unit :=
  match rounds with
  | [] => Ret tt
  | (env, iter) :: rounds =>
      Suspend (ending (job (Eviction env iter)) (λ o,
        match o with Some _ => eviction_loop rounds | None => Raise end))
  end.

Inductive Client :=
  | Connection (requests : list (option (Env * Message)))
  | Http (e : Event)
  | Sweeper (rounds : list (Env * (Registry.WorkerInfo → list string))).

Definition coroutine (c : Client) : P unit :=
  match c with
  | Connection requests => handle_connection requests
  | Http e => handle_http e
  | Sweeper rounds => eviction_loop rounds
  end.

(** What it asks of the broker, in order. *)
Definition script (c : Client) : list Event :=
  match c with
  | Connection requests => (λ r, Request r.1 r.2) <$> omap id requests
  | Http e => [e]
  | Sweeper rounds => (λ r, Eviction r.1 r.2) <$> rounds
  end.

(** What a coroutine does to the broker between two switches: whole handlers,
    and counting connections. *)
Inductive Deed := Do (e : Event) | Count (n : Z).

Definition perform (d : Deed) (b : Broker) : Broker :=
  match d with Do e => handle e b | Count n => add_connections n b end.

Definition perform_all (ds : list Deed) (b : Broker) : Broker := foldl (flip perform) b ds.

(** A client's deeds so far: its events in order, which a connection may
    break off, and for a connection an arrival before and a departure after
    them. *)
Definition conduct (c : Client) (ds : list Deed) : Prop :=
  ∃ es, es `prefix_of` script c ∧
    ds `prefix_of` match c with
                   | Connection _ => Count 1 :: (Do <$> es) ++ [Count (-1)]
                   | _ => Do <$> es
                   end.
End tasks.
End Serving.
