(* ===== verification/Supervision.v ===== *)
(** * Supervision of workers ([broker/server.py], [broker/worker_registry.py],
      [broker/queue_manager.py])

The registry's record of what each worker is processing and the queue
manager's in-flight table are kept by different components, in separate
calls of the same handlers.  Over histories of arbitrary events, this file
relates the two: what the registry must know for eviction to be able to
give every task back, what a punctual worker can rely on, and what happens
to the tasks of a worker the registry does not know. *)

From S2P Require Import Prelude PyDict Json JsonText DeadLetter QueueManager QueueInvariant TaskConservation TaskLifecycle WorkerRegistry Eviction LoadShedder WalStore Metrics Server Frames Requests Recovery ControlPlane.
Import Server Control.

Module Supervision.

Abbreviation worker w c := (Registry.get_worker w (snd c)).
Abbreviation flight c := (QM._in_flight (fst c)).

(** ** The in-flight table under each operation *)

Lemma ensure_flight qn s : QM._in_flight (QM._ensure_queue qn s) = QM._in_flight s.
Proof. unfold QM._ensure_queue. by destruct (dget _ _). Qed.

Lemma enqueue_flight qn p u now s : QM._in_flight (QM.enqueue qn p u now s).2 = QM._in_flight s.
Proof. cbn. apply ensure_flight. Qed.

Lemma target_flight qn s : QM._in_flight (QM.dequeue_target qn s).2 = QM._in_flight s.
Proof. unfold QM.dequeue_target. case_bool_decide; [done|]. cbn. apply ensure_flight. Qed.

Lemma dequeue_flight qn w s :
  shape s →
  match QM.dequeue qn w s with
  | (None, s') => QM._in_flight s' = QM._in_flight s
  | (Some d, s') => ∃ x, QM.d_task_id d = task_id x ∧ assigned_worker x = Some w ∧
      QM._in_flight s' = dset (task_id x) x (QM._in_flight s)
  end.
Proof.
  intros Hs. pose proof (target_flight qn s) as Ht.
  destruct (dequeue_cases qn w s Hs) as [(s'&E&_)|(q&s1&x&rest&Et&_&_&->)].
  - rewrite E. unfold QM.dequeue in E. destruct (QM.dequeue_target qn s) as [[q|] s1]; cbn in Ht;
      [destruct (QM.queue_of q s1)|]; by simplify_eq.
  - rewrite Et in Ht. cbn in Ht. exists (QM.deliver w x). cbn. by rewrite Ht.
Qed.

Lemma acknowledge_flight tid s :
  QM._in_flight (QM.acknowledge tid s).2 = ddel tid (QM._in_flight s) ∧
  (QM.acknowledge tid s).1 = bool_decide (is_Some (dget tid (QM._in_flight s))).
Proof.
  unfold QM.acknowledge. destruct (dget tid (QM._in_flight s)) eqn:E; cbn; split; try done.
  symmetry. by apply ddel_notin, dget_None.
Qed.

Lemma nack_route_flight x now s : QM._in_flight (QM.nack_route x now s).2 = QM._in_flight s.
Proof. unfold QM.nack_route. case_bool_decide; [done|]. cbn. apply ensure_flight. Qed.

Lemma negative_acknowledge_flight tid now s :
  QM._in_flight (QM.negative_acknowledge tid now s).2 = ddel tid (QM._in_flight s) ∧
  (is_Some (QM.negative_acknowledge tid now s).1 ↔ is_Some (dget tid (QM._in_flight s))).
Proof.
  unfold QM.negative_acknowledge, QM.nack_take. destruct (dget tid (QM._in_flight s)) as [x|] eqn:E; cbn.
  - destruct (_ >=? _)%Z; cbn;
      match goal with |- context [QM.nack_route ?x ?n ?s] =>
        pose proof (nack_route_flight x n s) as Hr; destruct (QM.nack_route x n s) end;
      cbn in *; (split; [done|]); split; eauto.
  - split; [|split; by intros []]. symmetry. by apply ddel_notin, dget_None.
Qed.

Lemma dlq_retry_flight tid s : QM._in_flight (QM.dlq_retry tid s).2 = QM._in_flight s.
Proof.
  destruct (dlq_retry_cases tid s) as [[_ ->]|(x&d&_&_&->)]; [done|]. cbn.
  unfold QM.requeue. cbn. apply ensure_flight.
Qed.

Lemma retry_each_flight tids s : QM._in_flight (retry_each tids s).2 = QM._in_flight s.
Proof.
  revert s. induction tids as [|tid tids IH]; intros s; [done|]. cbn [retry_each].
  rewrite <- (dlq_retry_flight tid s). destruct (QM.dlq_retry tid s) as [ok s1]. cbn [snd].
  rewrite <- (IH s1). by destruct (retry_each tids s1).
Qed.

Lemma dlq_remove_flight tid s : QM._in_flight (QM.dlq_remove tid s).2 = QM._in_flight s.
Proof. destruct (dlq_remove_cases tid s) as [[_ ->]|(x&d&_&_&->)]; done. Qed.

Lemma remove_each_flight tids s : QM._in_flight (remove_each tids s) = QM._in_flight s.
Proof.
  revert s. induction tids as [|tid tids IH]; intros s; [done|]. cbn [remove_each].
  by rewrite IH, dlq_remove_flight.
Qed.

(** ** The representation invariant is kept *)

Lemma retry_each_ind (P : QM.t → Prop) :
  (∀ tid s, P s → P (QM.dlq_retry tid s).2) → ∀ tids s, P s → P (retry_each tids s).2.
Proof.
  intros HP tids. induction tids as [|tid tids IH]; intros s Hs; [done|]. cbn [retry_each].
  pose proof (IH _ (HP tid s Hs)) as H. destruct (QM.dlq_retry tid s) as [ok s1]. cbn [snd] in H.
  by destruct (retry_each tids s1).
Qed.

Lemma remove_each_ind (P : QM.t → Prop) :
  (∀ tid s, P s → P (QM.dlq_remove tid s).2) → ∀ tids s, P s → P (remove_each tids s).
Proof.
  intros HP tids. induction tids as [|tid tids IH]; intros s Hs; [done|]. cbn. by apply IH, HP.
Qed.

(** What a sweep does to the in-flight table: the tasks tracked for dead
    workers leave it. *)
Definition released (iter : Registry.WorkerInfo → list string)
    (dead : dict string Registry.WorkerInfo) (tid : string) : Prop :=
  Exists (λ p, tid ∈ iter p.2) dead.

#[local] Instance released_dec iter dead tid : Decision (released iter dead tid).
Proof. unfold released. apply _. Defined.

Lemma reassign_all_flight tids r s :
  shape s →
  let '(r', s') := Registry.reassign_all tids r s in
  shape s' ∧
  (∀ tid, dget tid (QM._in_flight s') =
     if decide (tid ∈ tids) then None else dget tid (QM._in_flight s)) ∧
  (Registry._total_tasks_reassigned r' + Z.of_nat (length (QM._in_flight s')) =
   Registry._total_tasks_reassigned r + Z.of_nat (length (QM._in_flight s)))%Z ∧
  QM._total_dequeued s' = QM._total_dequeued s ∧ QM._total_acked s' = QM._total_acked s ∧
  QM._total_nacked s' = QM._total_nacked s.
Proof.
  revert r s. induction tids as [|tid0 tids IH]; intros r s Hs; cbn [Registry.reassign_all].
  { by split_and!. }
  change (reassign tid0 s) with (QM.requeue_by_id tid0 s).
  pose proof (requeue_by_id_shape tid0 s Hs) as Hs1.
  pose proof (requeue_by_id_flight tid0 s) as Hf.
  assert (QM._total_dequeued (QM.requeue_by_id tid0 s).2 = QM._total_dequeued s ∧
    QM._total_acked (QM.requeue_by_id tid0 s).2 = QM._total_acked s ∧
    QM._total_nacked (QM.requeue_by_id tid0 s).2 = QM._total_nacked s ∧
    ((if (QM.requeue_by_id tid0 s).1 then 1 else 0) +
     Z.of_nat (length (QM._in_flight (QM.requeue_by_id tid0 s).2)) =
     Z.of_nat (length (QM._in_flight s)))%Z) as (Hc1&Hc2&Hc3&Hlen).
  { rewrite Hf. unfold QM.requeue_by_id. destruct (dget tid0 (QM._in_flight s)) as [x|] eqn:E; cbn.
    - pose proof (length_ddel _ _ _ E). unfold QM._ensure_queue. cbn.
      destruct (dget (queue_name x) (QM._queues s)); cbn; split_and!; try done; lia.
    - rewrite ddel_notin by (by apply dget_None). done. }
  destruct (QM.requeue_by_id tid0 s) as [ok s1]. cbn [fst snd] in *.
  specialize (IH (if ok then Registry.bump_reassigned r else r) s1 Hs1).
  destruct (Registry.reassign_all tids _ s1) as [r' s']. destruct IH as (H1&H2&H3&->&->&->).
  split_and!; try done.
  - intros tid. rewrite H2, Hf. destruct (decide (tid ∈ tids)), (decide (tid ∈ tid0 :: tids)) as [Hd|Hd];
      try done; try (by destruct Hd; right).
    + apply elem_of_cons in Hd as [->|?]; [|done]. apply dget_ddel_eq, Hs.
    + apply not_elem_of_cons in Hd as [? _]. by rewrite dget_ddel_ne.
  - rewrite H3. destruct ok; cbn; lia.
Qed.

Lemma evict_each_flight iter dead r s :
  shape s →
  ∃ r' s', Registry.evict_each iter dead r (Some s) = (r', Some s') ∧ shape s' ∧
    Registry._workers r' = Registry._workers r ∧
    (∀ tid, dget tid (QM._in_flight s') =
       if decide (released iter dead tid) then None else dget tid (QM._in_flight s)) ∧
    (Registry._total_tasks_reassigned r' + Z.of_nat (length (QM._in_flight s')) =
     Registry._total_tasks_reassigned r + Z.of_nat (length (QM._in_flight s)))%Z ∧
    QM._total_dequeued s' = QM._total_dequeued s ∧ QM._total_acked s' = QM._total_acked s ∧
    QM._total_nacked s' = QM._total_nacked s.
Proof.
  revert r s. induction dead as [|[k i] dead IH]; intros r s Hs; cbn [Registry.evict_each].
  { exists r, s. by split_and!. }
  pose proof (reassign_all_flight (iter i) r s Hs) as H.
  pose proof (reassign_all_workers (iter i) r s) as (Hw&_).
  destruct (Registry.reassign_all (iter i) r s) as [r1 s1]. destruct H as (Hs1&H1&H2&Hc1&Hc2&Hc3).
  destruct (IH (Registry.bump_evictions r1) s1 Hs1) as (r'&s'&E&Hs'&Hw'&H3&H4&Hc1'&Hc2'&Hc3').
  cbn in H4, Hw, Hw'. exists r', s'. split_and!; try done; try congruence; try lia.
  intros tid. rewrite H3, H1. unfold released.
  destruct (decide (Exists _ dead)) as [Hd|Hd], (decide (Exists _ ((k, i) :: dead))) as [Hd'|Hd'],
    (decide (tid ∈ iter i)); rewrite Exists_cons in Hd'; cbn in Hd'; tauto.
Qed.

(** ** The registry under each operation *)

Lemma worker_dset u w i r :
  Registry.get_worker u (Registry.with_workers (dset w i) r) =
    if decide (u = w) then Some i else Registry.get_worker u r.
Proof.
  unfold Registry.get_worker. cbn. case_decide as H; [subst; apply dget_dset_eq|].
  apply dget_dset_ne. congruence.
Qed.

Lemma record_latencies_workers qs ms r :
  Registry._workers (Registry.record_latencies qs ms r) = Registry._workers r.
Proof.
  revert r. induction qs as [|qn qs IH]; intros r; [done|]. cbn. rewrite IH.
  unfold Registry._record_latency. cbn. by destruct (dget qn (Registry._queue_latencies r)).
Qed.

Lemma complete_worker u w tid mono r :
  Registry.get_worker u (Registry.complete_task w tid mono r) =
    if decide (u = w) then Registry.untrack tid <$> Registry.get_worker w r
    else Registry.get_worker u r.
Proof.
  unfold Registry.complete_task, Registry.get_worker.
  destruct (dget w (Registry._workers r)) as [i|] eqn:E; [|case_decide; subst; by rewrite ?E].
  transitivity (Registry.get_worker u (Registry.with_workers (dset w (Registry.untrack tid i)) r)).
  - unfold Registry.get_worker. destruct (dget tid _); [|done]. by rewrite record_latencies_workers.
  - by rewrite worker_dset.
Qed.

Lemma assign_worker u w tid mono r :
  Registry.get_worker u (Registry.assign_task w tid mono r) =
    if decide (u = w) then Registry.track tid mono <$> Registry.get_worker w r
    else Registry.get_worker u r.
Proof.
  unfold Registry.assign_task. destruct (dget w (Registry._workers r)) as [i|] eqn:E;
    unfold Registry.get_worker in *; cbn.
  - case_decide; [subst; by rewrite E, dget_dset_eq|by rewrite dget_dset_ne by congruence].
  - case_decide; subst; by rewrite ?E.
Qed.

Lemma beat_worker u w now r :
  Registry.get_worker u (Registry.record_heartbeat w now r).2 =
    if decide (u = w) then Registry.beat now <$> Registry.get_worker w r
    else Registry.get_worker u r.
Proof.
  unfold Registry.record_heartbeat. destruct (dget w (Registry._workers r)) as [i|] eqn:E;
    unfold Registry.get_worker in *; cbn.
  - case_decide; [subst; by rewrite E, dget_dset_eq|by rewrite dget_dset_ne by congruence].
  - case_decide; subst; by rewrite ?E.
Qed.

(** ** Soundness of the pair *)

Implicit Types (c : Ctl) (a : Action) (tid w u : string).

(** The two representation invariants. *)
Definition sound c : Prop :=
  shape c.1 ∧ dict_wf (Registry._workers c.2) ∧
  ∀ w i, worker w c = Some i → Registry.worker_id i = w.

(** A sweep iterates each set of tasks once; the dashboard's crash action
    picks a registered worker. *)
Definition genuine a c : Prop :=
  match a with
  | Sweep iter _ => ∀ i, iter i ≡ₚ elements (Registry.in_flight_tasks i)
  | Age i _ => worker (Registry.worker_id i) c = Some i
  | _ => True
  end.

Lemma sweep_effect iter now s r :
  shape s → dict_wf (Registry._workers r) →
  ∃ s' r', act (Sweep iter now) (s, r) = (s', r') ∧ shape s' ∧
    dict_wf (Registry._workers r') ∧
    (∀ u, Registry.get_worker u r' =
       match Registry.get_worker u r with
       | Some i => if Registry.is_dead now i then None else Some i
       | None => None
       end) ∧
    (∀ tid, dget tid (QM._in_flight s') =
       if decide (released iter (Registry.dead_workers now (Registry._workers r)) tid) then None
       else dget tid (QM._in_flight s)) ∧
    (Registry._total_tasks_reassigned r' + Z.of_nat (length (QM._in_flight s')) =
     Registry._total_tasks_reassigned r + Z.of_nat (length (QM._in_flight s)))%Z ∧
    QM._total_dequeued s' = QM._total_dequeued s ∧ QM._total_acked s' = QM._total_acked s ∧
    QM._total_nacked s' = QM._total_nacked s.
Proof.
  intros Hs Hw. cbn [act]. unfold Registry.evict_dead_workers.
  destruct (evict_each_flight iter (Registry.dead_workers now (Registry._workers r))
    (Registry.with_workers (Registry.del_workers (Registry.dead_workers now (Registry._workers r))) r)
    s Hs) as (r'&s'&->&Hs'&Hw'&Hf&Hc). cbn in Hw'.
  exists s', r'. split_and!; try done; try (by apply Hc).
  - rewrite Hw'. by apply del_workers_wf.
  - intros u. unfold Registry.get_worker. rewrite Hw'. rewrite swept_worker by done.
    destruct (dget u _) as [i|]; [|done]. done.
Qed.

(** Whom a sweep releases, in terms of the registry. *)
Lemma released_spec iter now r tid :
  dict_wf (Registry._workers r) →
  (∀ i, iter i ≡ₚ elements (Registry.in_flight_tasks i)) →
  released iter (Registry.dead_workers now (Registry._workers r)) tid ↔
  ∃ w i, Registry.get_worker w r = Some i ∧ Registry.is_dead now i = true ∧
    tid ∈ Registry.in_flight_tasks i.
Proof.
  intros Hw Hiter. unfold released, Registry.dead_workers. rewrite Exists_exists. split.
  - intros ([w i]&[Hd Hin]%list_elem_of_filter&Hx). exists w, i.
    split_and!; [by apply dget_in|done|]. cbn in Hx. rewrite Hiter in Hx. by apply elem_of_elements.
  - intros (w&i&Hg&Hd&Hx). exists (w, i). split.
    + apply list_elem_of_filter. split; [done|]. by apply dget_Some_in.
    + cbn. rewrite Hiter. by apply elem_of_elements.
Qed.

Lemma act_shape a c : sound c → shape (act a c).1.
Proof.
  destruct c as [s r]. intros (Hs&Hw&_). cbn [fst snd] in *.
  destruct a as [|qn p u now|qn w mono|w peer qs conn now|w now|tid w mono|tid w now mono|tids|[qn|]|
    iter now|i now|]; cbn [act fst]; auto with distrosync.
  - pose proof (dequeue_shape qn w s Hs) as H. by destruct (QM.dequeue qn w s).
  - pose proof (acknowledge_shape tid s Hs) as H. by destruct (QM.acknowledge tid s).
  - pose proof (negative_acknowledge_shape tid now s Hs) as H.
    by destruct (QM.negative_acknowledge tid now s).
  - apply (retry_each_ind shape); auto using dlq_retry_shape.
  - idtac. unfold purge_queue. cbn [snd]. apply (remove_each_ind shape); auto using dlq_remove_shape.
  - destruct (sweep_effect iter now s r Hs Hw) as (s'&r'&E&H&_). cbn [act] in E. by rewrite E.
  - apply reset_wf.
Qed.

(** Entries keep their keys. *)
Definition keyed (r : Registry.t) : Prop :=
  dict_wf (Registry._workers r) ∧ ∀ w i, Registry.get_worker w r = Some i → Registry.worker_id i = w.

Lemma keyed_dset w i r :
  keyed r → Registry.worker_id i = w → keyed (Registry.with_workers (dset w i) r).
Proof.
  intros [Hw Hk] Hi. split; [by apply dset_wf|]. intros u j. rewrite worker_dset.
  case_decide; [intros [= <-]; by subst|apply Hk].
Qed.

Lemma keyed_map w (f : Registry.WorkerInfo → Registry.WorkerInfo) r :
  (∀ i, Registry.worker_id (f i) = Registry.worker_id i) → keyed r →
  keyed (match dget w (Registry._workers r) with
         | Some i => Registry.with_workers (dset w (f i)) r | None => r end).
Proof.
  intros Hf Hr. destruct (dget w (Registry._workers r)) as [i|] eqn:E; [|done].
  apply keyed_dset; [done|]. rewrite Hf. by apply Hr.
Qed.

Lemma keyed_ext r r' : Registry._workers r' = Registry._workers r → keyed r → keyed r'.
Proof. unfold keyed, Registry.get_worker. by intros ->. Qed.

Lemma keyed_complete w tid mono r : keyed r → keyed (Registry.complete_task w tid mono r).
Proof.
  intros Hr. apply (keyed_map w (Registry.untrack tid)) in Hr; [|done].
  unfold Registry.complete_task. destruct (dget w (Registry._workers r)) as [i|]; [|done].
  destruct (dget tid _); [|done]. eapply keyed_ext; [|exact Hr]. apply record_latencies_workers.
Qed.

Lemma act_keyed a c : sound c → keyed (act a c).2.
Proof.
  destruct c as [s r]. intros (Hs&Hr). cbn [fst snd] in *. change (keyed r) in Hr.
  destruct a as [|qn p u now|qn w mono|w peer qs conn now|w now|tid w mono|tid w now mono|tids|[qn|]|
    iter now|i now|]; cbn [act snd]; try done.
  - destruct (QM.dequeue qn w s) as [[d|] s1]; [|done]. by apply keyed_map.
  - by apply keyed_dset.
  - unfold Registry.record_heartbeat. pose proof (keyed_map w (Registry.beat now) r) as H.
    destruct (dget w (Registry._workers r)) as [i|]; [|done]. by apply H.
  - destruct (QM.acknowledge tid s) as [[] s1]; [|done]. by apply keyed_complete.
  - destruct (QM.negative_acknowledge tid now s) as [[]s1]; [|done]. by apply keyed_complete.
  - destruct (sweep_effect iter now s r Hs (proj1 Hr)) as (s'&r'&E&_&H1&H2&_). cbn [act] in E.
    rewrite E. split; [done|]. cbn [snd]. intros w i Hi. rewrite H2 in Hi.
    destruct (Registry.get_worker w r) as [j|] eqn:Ej; [|done].
    destruct (Registry.is_dead now j); [done|]. injection Hi as <-. by apply Hr.
  - by apply keyed_dset.
Qed.

Lemma act_sound a c : sound c → sound (act a c).
Proof. intros Hc. split; [by apply act_shape|by apply act_keyed]. Qed.

(** ** The two views, action by action

[worker_after] and [holder_after] are what an action does to the registry's
entry of a worker and to the holder of a task. *)

Definition holder c tid : option string := dget tid (flight c) ≫= assigned_worker.

Definition tracks c w tid : Prop :=
  ∃ i, worker w c = Some i ∧ tid ∈ Registry.in_flight_tasks i.

Definition delivered qn w c : option string := QM.d_task_id <$> (QM.dequeue qn w c.1).1.

Definition worker_after a c u : option Registry.WorkerInfo :=
  match a with
  | Poll qn w mono =>
      match delivered qn w c with
      | Some tid => if decide (u = w) then Registry.track tid mono <$> worker w c else worker u c
      | None => worker u c
      end
  | Join w peer qs conn now =>
      if decide (u = w)
      then Some (Registry.mkWorker w qs peer now now ∅ [] (Some conn) "active") else worker u c
  | Beat w now => if decide (u = w) then Registry.beat now <$> worker w c else worker u c
  | Finish tid w _ | Refuse tid w _ _ =>
      if decide (is_Some (dget tid (flight c)) ∧ u = w)
      then Registry.untrack tid <$> worker w c else worker u c
  | Sweep iter now => i ← worker u c; if Registry.is_dead now i then None else Some i
  | Age i now =>
      if decide (u = Registry.worker_id i) then Some (age_worker now i) else worker u c
  | _ => worker u c
  end.

Definition holder_after a c tid : option string :=
  match a with
  | Poll qn w _ => if decide (delivered qn w c = Some tid) then Some w else holder c tid
  | Finish tid' _ _ | Refuse tid' _ _ _ => if decide (tid = tid') then None else holder c tid
  | Sweep iter now =>
      if decide (released iter (Registry.dead_workers now (Registry._workers c.2)) tid)
      then None else holder c tid
  | Wipe => None
  | _ => holder c tid
  end.

Lemma act_worker a c u : sound c → worker u (act a c) = worker_after a c u.
Proof.
  destruct c as [s r]. intros (Hs&Hw&_). cbn [fst snd] in *.
  destruct a as [|qn p u' now|qn w mono|w peer qs conn now|w now|tid w mono|tid w now mono|tids|[qn|]|
    iter now|i now|]; cbn [act fst snd worker_after]; try done.
  - unfold delivered. cbn [fst]. destruct (QM.dequeue qn w s) as [[d|] s']; cbn; [|done].
    apply assign_worker.
  - apply worker_dset.
  - apply beat_worker.
  - destruct (acknowledge_flight tid s) as [_ H]. destruct (QM.acknowledge tid s) as [ok s']; cbn in *.
    subst ok. case_bool_decide; cbn.
    + rewrite complete_worker. repeat case_decide; done || tauto.
    + case_decide; done || tauto.
  - destruct (negative_acknowledge_flight tid now s) as [_ H].
    destruct (QM.negative_acknowledge tid now s) as [[o|] s']; cbn in *.
    + rewrite complete_worker. repeat case_decide; done || naive_solver.
    + case_decide as Hd; [|done]. by destruct Hd as [[? [=]]%H _].
  - destruct (sweep_effect iter now s r Hs Hw) as (s'&r'&E&_&_&H&_). cbn [act] in E. rewrite E.
    cbn [snd]. rewrite H. by destruct (Registry.get_worker u r).
  - apply worker_dset.
Qed.

Lemma act_holder a c tid : sound c → holder (act a c) tid = holder_after a c tid.
Proof.
  destruct c as [s r]. intros (Hs&Hw&_). cbn [fst snd] in *. unfold holder.
  destruct a as [|qn p u' now|qn w mono|w peer qs conn now|w now|tid' w mono|tid' w now mono|tids|[qn|]|
    iter now|i now|]; cbn [act fst snd holder_after]; try done.
  - by rewrite enqueue_flight.
  - unfold delivered, holder. cbn [fst]. pose proof (dequeue_flight qn w s Hs) as H.
    destruct (QM.dequeue qn w s) as [[d|] s']; cbn in *; [|by rewrite H].
    destruct H as (x&->&Hx&->). case_decide as Hd.
    + injection Hd as <-. by rewrite dget_dset_eq.
    + rewrite dget_dset_ne by congruence. done.
  - destruct (acknowledge_flight tid' s) as [H _]. destruct (QM.acknowledge tid' s) as [ok s']; cbn in *.
    rewrite H. case_decide; subst; [by rewrite dget_ddel_eq by apply Hs|].
    by rewrite dget_ddel_ne by congruence.
  - destruct (negative_acknowledge_flight tid' now s) as [H _].
    destruct (QM.negative_acknowledge tid' now s) as [o s']; cbn in *.
    rewrite H. case_decide; subst; [by rewrite dget_ddel_eq by apply Hs|].
    by rewrite dget_ddel_ne by congruence.
  - by rewrite retry_each_flight.
  - unfold purge_queue. cbn [snd]. by rewrite remove_each_flight.
  - destruct (sweep_effect iter now s r Hs Hw) as (s'&r'&E&_&_&_&H&_). cbn [act] in E. rewrite E.
    cbn [fst]. rewrite H. unfold holder. cbn. by case_decide.
Qed.

(** ** Holding and tracking *)

(** [w] holds none of the tasks in flight. *)
Definition empty_handed w c : Prop := Forall (λ p, assigned_worker p.2 ≠ Some w) (flight c).

Lemma empty_handed_holder w c tid : empty_handed w c → holder c tid ≠ Some w.
Proof.
  unfold empty_handed, holder. intros H. destruct (dget tid (flight c)) as [x|] eqn:E; [|done].
  apply dget_Some_in in E. exact (proj1 (Forall_forall _ _) H _ E).
Qed.

Lemma holder_flight c tid w : holder c tid = Some w → is_Some (dget tid (flight c)).
Proof. unfold holder. by destruct (dget tid (flight c)). Qed.

Lemma flight_holder c tid : sound c → is_Some (dget tid (flight c)) → is_Some (holder c tid).
Proof.
  intros (Hs&_) [x Hx]. unfold holder. rewrite Hx. cbn.
  by destruct (shape_flight_get _ _ _ Hs Hx) as (_&_&?&_).
Qed.

(** Workers fetch tasks while registered, and register while they hold
    none. *)
Definition orderly a c : Prop :=
  match a with
  | Poll _ w _ => is_Some (worker w c)
  | Join w _ _ _ _ => empty_handed w c
  | _ => True
  end.

(** In addition a task is settled by its holder only, identifiers are
    fresh, and nobody wipes the broker. *)
Definition exclusive a c : Prop :=
  orderly a c ∧
  match a with
  | Submit _ _ uuid _ => uuid ∉ QM.ids c.1
  | Finish tid w _ | Refuse tid w _ _ => holder c tid = Some w
  | Wipe => False
  | _ => True
  end.

#[global] Instance orderly_dec a c : Decision (orderly a c).
Proof. unfold orderly, empty_handed. destruct a; apply _. Defined.
#[global] Instance exclusive_dec a c : Decision (exclusive a c).
Proof. unfold exclusive. destruct a; apply _. Defined.

(** Every task in flight is tracked for its holder; and nothing else is
    tracked. *)
Definition covered c : Prop := ∀ tid w, holder c tid = Some w → tracks c w tid.
Definition exact c : Prop := ∀ tid w, tracks c w tid → holder c tid = Some w.

Lemma covered_step a c :
  sound c → genuine a c → orderly a c → covered c → covered (act a c).
Proof.
  intros Hc Hg Ho Hcov tid u. unfold tracks. rewrite act_holder, act_worker by done. intros Hh.
  destruct a as [|qn p u' now|qn w mono|w peer qs conn now|w now|tid' w mono|tid' w now mono|tids|[qn|]|
    iter now|i now|]; cbn [holder_after worker_after orderly genuine] in *; try (by apply Hcov).
  - destruct (delivered qn w c) as [d|] eqn:Ed; [|rewrite decide_False in Hh by done; by apply Hcov].
    destruct Ho as [i Hi]. rewrite Hi. case_decide as Hd.
    + injection Hd as ->. injection Hh as ->. rewrite decide_True by done.
      exists (Registry.track tid mono i). split; [done|]. cbn. set_solver.
    + apply Hcov in Hh as (j&Hj&Hin). case_decide; [|by exists j]. subst.
      rewrite Hi in Hj. injection Hj as <-. exists (Registry.track d mono i).
      split; [done|]. cbn. set_solver.
  - rewrite decide_False; [by apply Hcov|]. intros ->. by apply (empty_handed_holder _ _ tid) in Ho.
  - apply Hcov in Hh as (j&Hj&Hin). case_decide; [|by exists j]. subst. rewrite Hj.
    by exists (Registry.beat now j).
  - case_decide; [done|]. apply Hcov in Hh as (j&Hj&Hin). case_decide as Hd; [|by exists j].
    destruct Hd as [_ ->]. rewrite Hj. exists (Registry.untrack tid' j). split; [done|]. cbn. set_solver.
  - case_decide; [done|]. apply Hcov in Hh as (j&Hj&Hin). case_decide as Hd; [|by exists j].
    destruct Hd as [_ ->]. rewrite Hj. exists (Registry.untrack tid' j). split; [done|]. cbn. set_solver.
  - case_decide as Hd; [done|].
    apply Hcov in Hh as (j&Hj&Hin). exists j. rewrite Hj. cbn.
    destruct (Registry.is_dead now j) eqn:Hdead; [|done].
    destruct Hd. apply released_spec; [apply Hc|done|]. by exists u, j.
  - apply Hcov in Hh as (j&Hj&Hin). case_decide; [|by exists j]. subst.
    exists (age_worker now i). split; [done|]. cbn. rewrite Hg in Hj. by injection Hj as ->.
Qed.

(** Identifiers of new tasks are fresh. *)
Definition fresh a c : Prop :=
  match a with Submit _ _ uuid _ => uuid ∉ QM.ids c.1 | _ => True end.

Lemma exclusive_fresh a c : exclusive a c → fresh a c.
Proof. intros [_ H]. by destruct a. Qed.

Lemma dlq_purge_wf s : wf s → wf (QM.dlq_purge s).2.
Proof.
  intros [Hs Hn]. split; [by apply dlq_purge_shape|]. unfold QM.ids in *.
  rewrite (dlq_purge_tasks s), fmap_app in Hn. by apply NoDup_app in Hn as (_&_&?).
Qed.

Lemma act_wf a c : wf c.1 → fresh a c → wf (act a c).1.
Proof.
  destruct c as [s r]. intros Hs. cbn [fst]. unfold fresh. cbn [fst].
  destruct a as [|qn p u now|qn w mono|w peer qs conn now|w now|tid w mono|tid w now mono|tids|[qn|]|
    iter now|i now|]; cbn [act fst]; intros Hf; try done.
  - by apply (exec_wf (OEnqueue qn p u now)).
  - pose proof (exec_wf (ODequeue qn w) s Hs I) as H. cbn in H. by destruct (QM.dequeue qn w s).
  - pose proof (exec_wf (OAck tid) s Hs I) as H. cbn in H. by destruct (QM.acknowledge tid s).
  - pose proof (exec_wf (ONack tid now) s Hs I) as H. cbn in H.
    by destruct (QM.negative_acknowledge tid now s).
  - apply (retry_each_ind wf); [|done]. intros tid s' H. by apply (exec_wf (ODlqRetry tid)).
  - unfold purge_queue. cbn [snd]. apply (remove_each_ind wf); [|done].
    intros tid s' H. by apply (exec_wf (ODlqRemove tid)).
  - by apply dlq_purge_wf.
  - unfold Registry.evict_dead_workers.
    destruct (evict_each_view iter (Registry.dead_workers now (Registry._workers r))
      (Registry.with_workers (Registry.del_workers (Registry.dead_workers now (Registry._workers r))) r)
      s Hs) as (r'&s'&->&H&_). done.
  - apply reset_wf.
Qed.

(** What is delivered was not in flight. *)
Lemma delivered_idle qn w c tid :
  wf c.1 → delivered qn w c = Some tid → dget tid (flight c) = None.
Proof.
  unfold delivered. intros Hs Hd. destruct (QM.dequeue qn w c.1) as [[d|] s'] eqn:E; [|done].
  injection Hd as <-. destruct (delivered_was_waiting _ _ _ _ _ Hs E) as (q&n&Hv&_).
  destruct (dget _ (flight c)) as [x|] eqn:Ex; [|done].
  destruct (shape_flight_get _ _ _ (proj1 Hs) Ex) as [Hid Hx].
  pose proof (view_lookup _ _ _ (proj2 Hs) (tasks_del_flight _ _ _ Ex)) as Hv'.
  destruct (lifecycle_flight _ Hx) as (?&_&Hl). rewrite <- Hid, Hv, Hl in Hv'. done.
Qed.

(** Settling a task held by [w] leaves no trace of it in the registry. *)
Lemma settled_exact c tid w tid' u :
  exact c → holder c tid' = Some w →
  (∃ i, (if decide (is_Some (dget tid' (flight c)) ∧ u = w)
         then Registry.untrack tid' <$> worker w c else worker u c) = Some i ∧
        tid ∈ Registry.in_flight_tasks i) →
  (if decide (tid = tid') then None else holder c tid) = Some u.
Proof.
  intros He Hh (i&Hi&Hin). pose proof (holder_flight _ _ _ Hh) as Hf.
  case_decide as Hd.
  - destruct Hd as [_ ->]. destruct (worker w c) as [j|] eqn:Hj; [|done]. injection Hi as <-.
    cbn in Hin. rewrite decide_False by set_solver. apply He. exists j. set_solver.
  - assert (Ht : holder c tid = Some u) by (apply He; by exists i).
    case_decide; [|done]. subst. destruct Hd. split; [done|congruence].
Qed.

Lemma exact_step a c :
  sound c → wf c.1 → genuine a c → exclusive a c → exact c → exact (act a c).
Proof.
  intros Hc Hs Hg [_ Hx] He tid u. unfold tracks. rewrite act_holder, act_worker by done. intros Ht.
  destruct a as [|qn p u' now|qn w mono|w peer qs conn now|w now|tid' w mono|tid' w now mono|tids|[qn|]|
    iter now|i now|]; cbn [holder_after worker_after genuine] in *; try (by apply He);
    try (by apply (settled_exact c tid w tid' u)); try done; destruct Ht as (j&Hj&Hin).
  - destruct (delivered qn w c) as [d|] eqn:Ed; [|rewrite decide_False by done; apply He; by exists j].
    pose proof (delivered_idle _ _ _ _ Hs Ed) as Hf.
    case_decide as Hu.
    + subst u. destruct (worker w c) as [k|] eqn:Hk; [|done]. injection Hj as <-.
      cbn in Hin. case_decide; [done|]. apply He. exists k. set_solver.
    + assert (Ht : holder c tid = Some u) by (apply He; by exists j).
      case_decide as Hd; [|done]. injection Hd as ->. apply holder_flight in Ht as [? ?]. congruence.
  - case_decide; [injection Hj as <-; cbn in Hin; set_solver|]. apply He. by exists j.
  - case_decide; [|apply He; by exists j]. subst. destruct (worker w c) as [k|] eqn:Hk; [|done].
    injection Hj as <-. apply He. by exists k.
  - destruct (worker u c) as [k|] eqn:Hk; [|done]. cbn in Hj.
    destruct (Registry.is_dead now k) eqn:Hdead; [done|]. injection Hj as <-.
    assert (Ht : holder c tid = Some u) by (apply He; by exists k).
    case_decide as Hd; [|done]. apply released_spec in Hd as (w&k'&Hk'&Hdead'&Hin'); [|apply Hc|done].
    assert (Hw : holder c tid = Some w) by (apply He; by exists k').
    rewrite Ht in Hw. injection Hw as <-. congruence.
  - case_decide; [|apply He; by exists j]. subst. injection Hj as <-. apply He. by exists i.
Qed.
End Supervision.
