(* ===== verification/Leases.v ===== *)
(** * Leases ([broker/server.py], [broker/worker_registry.py],
      [worker/base_worker.py])

A task in flight is leased to the worker that fetched it: the worker keeps
it as long as it is heard of in time, and loses it to an eviction sweep
otherwise.  Over histories of arbitrary events this file shows both halves,
and the case the program misses: a task fetched by a worker the registry
does not know is leased for ever. *)

From S2P Require Import Prelude PyDict Json JsonText DeadLetter QueueManager QueueInvariant TaskConservation TaskLifecycle WorkerRegistry Eviction LoadShedder WalStore Metrics Server Frames Requests Recovery ControlPlane Supervision.
Import Server Control Supervision.

Module Leases.

Section leases.
Context `{codec : JsonCodec}.

Implicit Types (b : Broker) (e : Event) (evs : list Event) (w u tid : string).

(** ** Histories *)

Fixpoint run evs b : Broker :=
  match evs with [] => b | e :: evs => run evs (handle e b) end.

(** [P] holds of every event and the state it finds. *)
Fixpoint along (P : Event → Broker → Prop) evs b : Prop :=
  match evs with [] => True | e :: evs => P e b ∧ along P evs (handle e b) end.

Lemma along_inv (P : Event → Broker → Prop) (I : Broker → Prop) evs b :
  (∀ e b, P e b → I b → I (handle e b)) → along P evs b → I b → I (run evs b).
Proof. intros HP. revert b. induction evs; cbn; [done|]. intros b [? ?] ?. eauto. Qed.

Lemma along_and (P R : Event → Broker → Prop) evs b :
  along P evs b → along R evs b → along (λ e b, P e b ∧ R e b) evs b.
Proof. revert b. induction evs; cbn; [done|]. intros b [? ?] [? ?]. eauto. Qed.

Lemma along_forall (P : Event → Prop) evs b : Forall P evs → along (λ e _, P e) evs b.
Proof. intros H. revert b. induction H; cbn; eauto. Qed.

#[global] Instance along_dec (P : Event → Broker → Prop) `{!∀ e b, Decision (P e b)} evs b :
  Decision (along P evs b).
Proof. revert b. induction evs; intros b; cbn; apply _. Defined.

Lemma run_app evs evs' b : run (evs ++ evs') b = run evs' (run evs b).
Proof. revert b. by induction evs; cbn. Qed.

Lemma along_app P evs evs' b :
  along P (evs ++ evs') b ↔ along P evs b ∧ along P evs' (run evs b).
Proof. revert b. induction evs as [|e evs IH]; intros b; cbn; [tauto|]. rewrite IH. tauto. Qed.

(** A broker as it starts: no worker is connected, no task in flight. *)
Definition idle_start b : Prop :=
  wf (queue_manager b) ∧ QM._in_flight (queue_manager b) = [] ∧
  worker_registry b = Registry.init.

(** A sweep iterates the set of each worker's tasks. *)
Definition enumerates e : Prop :=
  match e with
  | Eviction _ iter => ∀ i, iter i ≡ₚ elements (Registry.in_flight_tasks i)
  | _ => True
  end.

Lemma idle_start_sound b : idle_start b → sound (ctl b).
Proof.
  intros ([Hs _]&_&Hr). split; [done|]. cbn. rewrite Hr. split; [apply NoDup_nil_2|done].
Qed.

Lemma handle_sound e b : sound (ctl b) → sound (ctl (handle e b)).
Proof. rewrite handle_acts. apply act_sound. Qed.

Lemma run_sound evs b : sound (ctl b) → sound (ctl (run evs b)).
Proof. revert b. induction evs; cbn; auto using handle_sound. Qed.

(** The requests that refresh [w]'s entry. *)
Definition hears w e : bool :=
  match e with
  | Request env m =>
      bool_decide ((given (m_command m) = Some "HEARTBEAT" ∨ given (m_command m) = Some "REGISTER")
                   ∧ given (m_worker_id m) = Some w)
  | _ => false
  end.

(** What requests do to the registry: they neither sweep nor age, and the
    two that refresh an entry do it for the worker they name. *)
Lemma request_action_cases env m b :
  match request_action env m b with
  | Beat u now | Join u _ _ _ now => now = e_time env ∧ hears u (Request env m) = true
  | Sweep _ _ | Age _ _ | Wipe => False
  | _ => True
  end.
Proof.
  unfold request_action. destruct (given (m_command m)) as [cmd|] eqn:Ec; [|done].
  destruct (dget cmd action_table) as [f|] eqn:E; [|done].
  apply dget_Some_in in E. unfold action_table in E.
  repeat apply elem_of_cons in E as [E|E]; try (by apply not_elem_of_nil in E);
    injection E as -> ->; cbn.
  - unfold produce_action. destruct (given (m_queue m)), (task_given (m_task m)); try done.
    by destruct (Shedder.check_and_consume _ _ _ _ _).1.1.
  - unfold consume_action. by destruct (given (m_queue m)), (given (m_worker_id m)).
  - unfold register_action. destruct (given (m_worker_id m)) eqn:Ew; [|done].
    split; [done|]. apply bool_decide_eq_true. auto.
  - unfold heartbeat_action. destruct (given (m_worker_id m)) eqn:Ew; [|done].
    split; [done|]. apply bool_decide_eq_true. auto.
  - unfold ack_action. by destruct (given (m_task_id m)).
  - unfold nack_action. by destruct (given (m_task_id m)).
  - unfold replay_action. destruct (given (m_task_id m)), (wal_store b); try done.
    destruct (Wal.replay_dlq_task _ _).1 as [row|]; [|done]. by destruct (loads (Wal.q_payload row)).
  - unfold purge_action. by destruct (wal_store b).
Qed.

Lemma request_hears env m b w :
  hears w (Request env m) = true →
  request_action env m b = Beat w (e_time env) ∨
  ∃ peer qs conn, request_action env m b = Join w peer qs conn (e_time env).
Proof.
  intros [[Hc|Hc] Hw]%bool_decide_eq_true.
  - assert (request_action env m b = heartbeat_action env m b) as -> by
      (unfold request_action; by rewrite Hc).
    unfold heartbeat_action. rewrite Hw. by left.
  - assert (request_action env m b = register_action env m b) as -> by
      (unfold request_action; by rewrite Hc).
    unfold register_action. rewrite Hw. right. by eexists _, _, _.
Qed.

Lemma event_genuine e b :
  sound (ctl b) → enumerates e → genuine (event_action e b) (ctl b).
Proof.
  intros (_&Hw&Hk) He. destruct e as [env m|env iter|env| |env]; cbn in *; try done.
  - pose proof (request_action_cases env m b). by destruct (request_action env m b).
  - destruct (_ !! _) as [i|] eqn:E; [|done]. cbn.
    apply list_elem_of_lookup_2, list_elem_of_filter in E as [_ E].
    apply list_elem_of_fmap in E as ([k j]&->&Hin). cbn.
    apply dget_in in Hin; [|done]. pose proof (Hk _ _ Hin) as H. cbn in H. by rewrite H.
Qed.

(** ** Punctual workers *)

Definition reading e : option Q :=
  match e with
  | Request env _ | Eviction env _ | CrashAction env | ResetAction env => Some (e_time env)
  | ReplayAction => None
  end.

(** At each event less than [gap] has passed since the last heartbeat or
    registration of [w], and nobody presses the dashboard's crash button. *)
Fixpoint punctual (gap : Q) w (last : Q) evs : Prop :=
  match evs with
  | [] => True
  | e :: evs =>
      match e with CrashAction _ => False | _ => True end ∧
      match reading e with
      | Some now => (now - last <= gap)%Q ∧ punctual gap w (if hears w e then now else last) evs
      | None => punctual gap w last evs
      end
  end.

(** [w] is registered and was heard of at [last] or later. *)
Definition heard w (last : Q) b : Prop :=
  ∃ i, worker w (ctl b) = Some i ∧ (last <= Registry.last_heartbeat i)%Q.

Lemma heard_kept a w (last : Q) b :
  sound (ctl b) → heard w last b →
  match a with
  | Sweep _ now => (now - last <= Registry.HEARTBEAT_TIMEOUT_SECONDS)%Q
  | Age i _ => False
  | Join u _ _ _ _ | Beat u _ => u ≠ w
  | _ => True
  end →
  ∃ i, worker w (act a (ctl b)) = Some i ∧ (last <= Registry.last_heartbeat i)%Q.
Proof.
  intros Hc (i&Hi&Hl) Ha. rewrite act_worker by done.
  destruct a; cbn [worker_after] in *; try (by exists i); try done.
  - destruct (delivered _ _ _); [|by exists i]. case_decide; [|by exists i].
    subst. rewrite Hi. by eexists.
  - rewrite decide_False by congruence. by exists i.
  - rewrite decide_False by congruence. by exists i.
  - case_decide as Hd; [|by exists i]. destruct Hd as [_ ->]. rewrite Hi. by eexists.
  - case_decide as Hd; [|by exists i]. destruct Hd as [_ ->]. rewrite Hi. by eexists.
  - rewrite Hi. cbn. exists i. split; [|done].
    destruct (Registry.is_dead now i) eqn:Hd; [|done]. exfalso.
    unfold Registry.is_dead in Hd. apply Qltb_lt in Hd. lra.
Qed.

Lemma heard_step gap w (last : Q) e b :
  (gap <= Registry.HEARTBEAT_TIMEOUT_SECONDS)%Q →
  sound (ctl b) → heard w last b →
  match e with CrashAction _ => False | _ => True end →
  match reading e with
  | Some now => (now - last <= gap)%Q → heard w (if hears w e then now else last) (handle e b)
  | None => heard w last (handle e b)
  end.
Proof.
  intros Hgap Hc Hh He. unfold heard at 1 2. rewrite handle_acts.
  destruct e as [env m|env iter|env| |env]; cbn [event_action reading] in *; try done.
  - intros Ht. destruct (hears w (Request env m)) eqn:Hb.
    + destruct Hh as (i&Hi&_). destruct (request_hears env m b w Hb) as [->|(peer&qs&conn&->)];
        rewrite act_worker by done; cbn [worker_after]; rewrite decide_True by done.
      * rewrite Hi. eexists. split; [done|]. apply Qle_refl.
      * eexists. split; [done|]. apply Qle_refl.
    + apply heard_kept; [done..|]. pose proof (request_action_cases env m b) as H.
      destruct (request_action env m b); try done; destruct H as [_ H]; intros ->; congruence.
  - intros Ht. apply heard_kept; [done..|]. cbn. lra.
Qed.

Lemma punctual_heard gap w (last : Q) evs b :
  (gap <= Registry.HEARTBEAT_TIMEOUT_SECONDS)%Q →
  sound (ctl b) → heard w last b → punctual gap w last evs →
  ∃ i, worker w (ctl (run evs b)) = Some i.
Proof.
  intros Hgap. revert b last. induction evs as [|e evs IH]; intros b last Hc Hh Hp.
  { destruct Hh as (i&Hi&_). by exists i. }
  cbn [punctual] in Hp. destruct Hp as [He Hp]. cbn [run].
  pose proof (heard_step gap w last e b Hgap Hc Hh He) as H.
  destruct (reading e) as [now|]; [destruct Hp as [Ht Hp]|]; eauto using handle_sound.
Qed.

(** ** The tasks in flight of an orderly system *)

(** Workers fetch tasks while registered and register while they hold none;
    [e] and [b] determine the action. *)
Definition orderly_event e b : Prop := orderly (event_action e b) (ctl b).
Definition exclusive_event e b : Prop := exclusive (event_action e b) (ctl b).
Definition fresh_event e b : Prop := fresh (event_action e b) (ctl b).

#[global] Instance orderly_event_dec e b : Decision (orderly_event e b).
Proof. unfold orderly_event. apply _. Defined.
#[global] Instance exclusive_event_dec e b : Decision (exclusive_event e b).
Proof. unfold exclusive_event. apply _. Defined.
#[global] Instance fresh_event_dec e b : Decision (fresh_event e b).
Proof. unfold fresh_event, fresh. destruct (event_action e b); apply _. Defined.

Lemma idle_start_covered b : idle_start b → covered (ctl b) ∧ exact (ctl b).
Proof.
  intros (_&Hf&Hr). split; intros tid w; unfold holder, tracks, Registry.get_worker; cbn.
  - by rewrite Hf.
  - rewrite Hr. by intros (i&?&_).
Qed.

Lemma run_covered evs b :
  sound (ctl b) → covered (ctl b) → Forall enumerates evs → along orderly_event evs b →
  sound (ctl (run evs b)) ∧ covered (ctl (run evs b)).
Proof.
  intros Hc Hcov He Ha. pose proof (along_and _ _ _ _ (along_forall _ _ b He) Ha) as H.
  refine (along_inv _ (λ b, sound (ctl b) ∧ covered (ctl b)) evs b _ H (conj Hc Hcov)).
  intros e b' [He' Ho] [Hc' Hcov']. rewrite handle_acts. split; [by apply act_sound|].
  apply covered_step; auto using event_genuine.
Qed.

(** What a history of the strict discipline keeps. *)
Definition supervised b : Prop :=
  sound (ctl b) ∧ wf (queue_manager b) ∧ covered (ctl b) ∧ exact (ctl b).

Lemma supervised_step e b :
  enumerates e → exclusive_event e b → supervised b → supervised (handle e b).
Proof.
  intros He Hx (Hc&Hw&Hcov&Hex). pose proof (event_genuine e b Hc He) as Hg.
  unfold supervised. change (queue_manager (handle e b)) with (ctl (handle e b)).1.
  rewrite handle_acts. split_and!.
  - by apply act_sound.
  - apply act_wf; [done|]. by apply exclusive_fresh.
  - by apply covered_step; [..|apply Hx|].
  - by apply exact_step.
Qed.

Lemma run_supervised evs b :
  supervised b → Forall enumerates evs → along exclusive_event evs b → supervised (run evs b).
Proof.
  intros Hb He Ha. pose proof (along_and _ _ _ _ (along_forall _ _ b He) Ha) as H.
  refine (along_inv _ supervised evs b _ H Hb). intros e b' [? ?]. by apply supervised_step.
Qed.

Lemma idle_start_supervised b : idle_start b → supervised b.
Proof.
  intros H. pose proof (idle_start_covered b H) as [? ?]. pose proof (idle_start_sound b H).
  destruct H as [? _]. by split_and!.
Qed.

(** What ends the lease of [tid] other than an eviction. *)
Definition settles tid a : Prop :=
  match a with Finish t _ _ | Refuse t _ _ _ => t = tid | Wipe => True | _ => False end.

#[global] Instance settles_dec tid a : Decision (settles tid a).
Proof. unfold settles. destruct a; apply _. Defined.

Definition unsettled tid e b : Prop := ¬ settles tid (event_action e b).

#[global] Instance unsettled_dec tid e b : Decision (unsettled tid e b).
Proof. unfold unsettled. apply _. Defined.

(** A task in flight stays with its holder unless it is settled or
    released. *)
Lemma holder_kept a c tid w :
  sound c → wf c.1 → holder c tid = Some w → ¬ settles tid a →
  match a with
  | Sweep iter now => ¬ released iter (Registry.dead_workers now (Registry._workers c.2)) tid
  | _ => True
  end →
  holder (act a c) tid = Some w.
Proof.
  intros Hc Hw Hh Hs Hr. rewrite act_holder by done.
  destruct a as [|qn p u' now|qn u mono|u peer qs conn now|u now|t u mono|t u now mono|tids|[qn|]|
    iter now|i now|]; cbn [holder_after settles] in *; try done.
  - rewrite decide_False; [done|]. intros Hd. apply (delivered_idle _ _ _ _ Hw) in Hd.
    apply holder_flight in Hh as [? ?]. congruence.
  - by rewrite decide_False by congruence.
  - by rewrite decide_False by congruence.
  - by rewrite decide_False.
Qed.

(** A sweep does not take the task of a worker heard of in time. *)
Lemma unreleased env iter w tid gap (last : Q) b :
  supervised b → enumerates (Eviction env iter) → holder (ctl b) tid = Some w → heard w last b →
  (gap <= Registry.HEARTBEAT_TIMEOUT_SECONDS)%Q → (e_time env - last <= gap)%Q →
  ¬ released iter (Registry.dead_workers (e_time env) (Registry._workers (worker_registry b))) tid.
Proof.
  intros ((_&Hw&_)&_&_&Hex) He Hh (i&Hi&Hl) Hgap Ht Hr.
  apply released_spec in Hr as (w'&i'&Hi'&Hd&Hin); [|done..].
  assert (Hh' : holder (ctl b) tid = Some w') by (apply Hex; by exists i').
  rewrite Hh in Hh'. injection Hh' as <-. cbn in Hi. rewrite Hi' in Hi. injection Hi as ->.
  apply Qltb_lt in Hd. lra.
Qed.

Lemma lease_step gap w (last : Q) tid e b :
  (gap <= Registry.HEARTBEAT_TIMEOUT_SECONDS)%Q →
  supervised b → enumerates e → unsettled tid e b →
  heard w last b → holder (ctl b) tid = Some w →
  match reading e with Some now => (now - last <= gap)%Q | None => True end →
  holder (ctl (handle e b)) tid = Some w.
Proof.
  intros Hgap Hsup He Hu Hheard Hh Ht. rewrite handle_acts.
  apply holder_kept; [apply Hsup..|done|done|].
  destruct e as [env m|env iter|env| |env]; cbn [event_action].
  - pose proof (request_action_cases env m b). by destruct (request_action env m b).
  - by eapply unreleased.
  - by destruct (_ !! _).
  - done.
  - done.
Qed.

Lemma lease_kept gap w (last : Q) tid evs b :
  (gap <= Registry.HEARTBEAT_TIMEOUT_SECONDS)%Q →
  supervised b → Forall enumerates evs → along exclusive_event evs b →
  heard w last b → holder (ctl b) tid = Some w →
  punctual gap w last evs → along (unsettled tid) evs b →
  holder (ctl (run evs b)) tid = Some w.
Proof.
  intros Hgap. revert b last. induction evs as [|e evs IH]; intros b last Hs He Hx Hh Hw Hp Hu; [done|].
  apply Forall_cons in He as [He Hes]. destruct Hx as [Hx Hxs], Hu as [Hu Hus].
  cbn [punctual] in Hp. destruct Hp as [Hcrash Hp]. cbn [run].
  pose proof (heard_step gap w last e b Hgap (proj1 Hs) Hh Hcrash) as Hheard.
  pose proof (lease_step gap w last tid e b Hgap Hs He Hu Hh Hw) as Hlease.
  pose proof (supervised_step e b He Hx Hs) as Hs'.
  destruct (reading e) as [now|]; [destruct Hp as [Ht Hp]|]; eapply IH; eauto.
Qed.

Lemma undelivered qn u b tid w :
  wf (queue_manager b) → holder (ctl b) tid = Some w → delivered qn u (ctl b) ≠ Some tid.
Proof.
  intros Hw Hh Hd. apply (delivered_idle qn u (ctl b)) in Hd; [|done].
  apply holder_flight in Hh as [? ?]. congruence.
Qed.

(** *** Tasks nobody tracks *)

Definition stuck tid w b : Prop :=
  sound (ctl b) ∧ wf (queue_manager b) ∧ holder (ctl b) tid = Some w ∧
  ∀ u, ¬ tracks (ctl b) u tid.

(** Only a delivery starts tracking a task. *)
Lemma untracked_step a c tid :
  sound c → genuine a c → (∀ u, ¬ tracks c u tid) →
  match a with Poll qn w _ => delivered qn w c = Some tid → worker w c = None | _ => True end →
  ∀ u, ¬ tracks (act a c) u tid.
Proof.
  intros Hc Hg Hn Hp u. unfold tracks. rewrite act_worker by done. intros (j&Hj&Hin). apply (Hn u).
  destruct a as [|qn p u' now|qn w mono|w peer qs conn now|w now|t w mono|t w now mono|tids|[qn|]|
    iter now|i now|]; cbn [worker_after genuine] in *; try (by exists j).
  - destruct (delivered qn w c) as [d|]; [|by exists j]. case_decide; [|by exists j]. subst u.
    destruct (worker w c) as [k|] eqn:Hk; [|done]. injection Hj as <-. exists k. split; [done|].
    cbn in Hin. apply elem_of_union in Hin as [->%elem_of_singleton|]; [|done].
    by discriminate Hp.
  - case_decide; [|by exists j]. injection Hj as <-. set_solver.
  - case_decide; [|by exists j]. subst. destruct (worker w c) as [k|] eqn:Hk; [|done].
    injection Hj as <-. by exists k.
  - case_decide as Hd; [|by exists j]. destruct Hd as [_ ->].
    destruct (worker w c) as [k|] eqn:Hk; [|done]. injection Hj as <-. exists k. set_solver.
  - case_decide as Hd; [|by exists j]. destruct Hd as [_ ->].
    destruct (worker w c) as [k|] eqn:Hk; [|done]. injection Hj as <-. exists k. set_solver.
  - destruct (worker u c) as [k|] eqn:Hk; [|done]. cbn in Hj.
    destruct (Registry.is_dead now k); [done|]. injection Hj as <-. by exists k.
  - case_decide; [|by exists j]. subst. injection Hj as <-. by exists i.
Qed.

Lemma unknown_stuck e qn w mono tid b :
  sound (ctl b) → wf (queue_manager b) → exact (ctl b) →
  worker w (ctl b) = None → event_action e b = Poll qn w mono →
  delivered qn w (ctl b) = Some tid → stuck tid w (handle e b).
Proof.
  intros Hc Hw Hex Hn He Hd. unfold stuck.
  change (queue_manager (handle e b)) with (ctl (handle e b)).1. rewrite handle_acts, He.
  split_and!.
  - by apply act_sound.
  - by apply act_wf.
  - rewrite act_holder by done. cbn. by rewrite decide_True.
  - apply untracked_step; [done|done| |done]. intros u Ht%Hex%holder_flight.
    apply (delivered_idle qn w (ctl b) tid) in Hd; [|done]. destruct Ht as [? ?]. congruence.
Qed.

Lemma stuck_step tid w e b :
  enumerates e → fresh_event e b → unsettled tid e b → stuck tid w b → stuck tid w (handle e b).
Proof.
  intros He Hf Hu (Hc&Hw&Hh&Hn). pose proof (event_genuine e b Hc He) as Hg. unfold stuck.
  change (queue_manager (handle e b)) with (ctl (handle e b)).1. rewrite handle_acts. split_and!.
  - by apply act_sound.
  - by apply act_wf.
  - apply holder_kept; [done..|]. destruct (event_action e b) as [| | | | | | | | |iter now| |]; try done.
    intros (u&i&Hi&_&Hin)%released_spec; [|apply Hc|done]. apply (Hn u). by exists i.
  - apply untracked_step; [done..|]. destruct (event_action e b); try done.
    intros Hd. by eapply undelivered in Hd.
Qed.

Lemma run_stuck tid w evs b :
  stuck tid w b → Forall enumerates evs → along fresh_event evs b → along (unsettled tid) evs b →
  stuck tid w (run evs b).
Proof.
  intros Hs He Hf Hu. pose proof (along_and _ _ _ _ (along_forall _ _ b He)
    (along_and _ _ _ _ Hf Hu)) as H.
  refine (along_inv _ (stuck tid w) evs b _ H Hs). intros e b' (?&?&?). by apply stuck_step.
Qed.

(** ** Liveness of punctual workers *)

(** A worker is never evicted while it keeps being heard of: if at
    every event of a history at most [gap], no more than the eviction
    timeout, has passed since its last heartbeat or registration, it is
    still registered at the end, whatever other workers, producers and the
    dashboard do (its crash button apart). *)
Theorem punctual_worker_survives gap w (last : Q) evs b :
  (gap <= Registry.HEARTBEAT_TIMEOUT_SECONDS)%Q →
  sound (ctl b) → heard w last b → punctual gap w last evs →
  is_Some (Registry.get_worker w (worker_registry (run evs b))).
Proof. intros Hgap Hc Hh Hp. by destruct (punctual_heard gap w last evs b) as (i&?); eauto. Qed.

(** C13.  If workers only fetch tasks while registered and only register
    while they hold none, then after an eviction sweep every task in flight
    is held by a worker that is registered, was heard of in the last six
    seconds, and has the task in its set: no task is orphaned. *)
Theorem no_orphaned_tasks env iter evs b tid x :
  idle_start b → Forall enumerates (evs ++ [Eviction env iter]) → along orderly_event evs b →
  let b' := (eviction_sweep env iter (run evs b)).2 in
  dget tid (QM._in_flight (queue_manager b')) = Some x →
  ∃ w i, assigned_worker x = Some w ∧ Registry.get_worker w (worker_registry b') = Some i ∧
    tid ∈ Registry.in_flight_tasks i ∧
    (e_time env - Registry.last_heartbeat i <= Registry.HEARTBEAT_TIMEOUT_SECONDS)%Q.
Proof.
  intros Hb [He Hs]%Forall_app Ha b' Hx.
  destruct (run_covered evs b (idle_start_sound b Hb) (proj1 (idle_start_covered b Hb)) He Ha)
    as [Hc Hcov].
  apply Forall_cons in Hs as [Hs _]. set (e := Eviction env iter). change b' with (handle e (run evs b)) in *.
  assert (Hc' : sound (ctl (handle e (run evs b)))) by by apply handle_sound.
  assert (Hcov' : covered (ctl (handle e (run evs b)))).
  { rewrite handle_acts. by apply covered_step; [|apply event_genuine| |]. }
  destruct (flight_holder _ tid Hc' ltac:(eauto)) as [w Hw].
  destruct (Hcov' _ _ Hw) as (i&Hi&Hin). exists w, i.
  unfold holder in Hw. cbn in Hw, Hx. rewrite Hx in Hw. split_and!; try done.
  rewrite handle_acts, act_worker in Hi by done. cbn in Hi.
  destruct (Registry.get_worker w _) as [j|]; [|done]. cbn in Hi.
  destruct (Registry.is_dead (e_time env) j) eqn:Hd; [done|]. injection Hi as <-.
  by apply Qltb_ge in Hd.
Qed.

(** In a history in which tasks are settled by their holders, a task
    stays in flight with the worker that fetched it, and is delivered to
    nobody else, for as long as that worker is punctual and has not settled
    it. *)
Theorem punctual_worker_keeps_task gap w (last : Q) tid evs evs' b :
  idle_start b → Forall enumerates (evs ++ evs') → along exclusive_event (evs ++ evs') b →
  (gap <= Registry.HEARTBEAT_TIMEOUT_SECONDS)%Q →
  heard w last (run evs b) → holder (ctl (run evs b)) tid = Some w →
  punctual gap w last evs' → along (unsettled tid) evs' (run evs b) →
  holder (ctl (run (evs ++ evs') b)) tid = Some w ∧
  ∀ qn u, delivered qn u (ctl (run (evs ++ evs') b)) ≠ Some tid.
Proof.
  intros Hb [He He']%Forall_app Hx Hgap Hheard Hh Hp Hu.
  rewrite along_app in Hx. destruct Hx as [Hx Hx']. rewrite run_app.
  pose proof (run_supervised evs b (idle_start_supervised b Hb) He Hx) as Hs.
  pose proof (lease_kept gap w last tid evs' _ Hgap Hs He' Hx' Hheard Hh Hp Hu) as Hkept.
  split; [done|]. intros qn u. eapply undelivered; [|done].
  by apply (run_supervised evs' _ Hs He' Hx').
Qed.

(** C38.  A task that is handed to a worker the registry does not know is out
    of reach of the eviction sweeps.  In every further history of the
    running broker in which nobody ACKs or NACKs that task and there is no
    reset -- as when that worker dies -- the task stays in flight: however
    many sweeps come, none returns it to its queue, and nobody is given it
    again. *)
Theorem unknown_worker_strands_task env m w qn mono tid evs evs' b :
  idle_start b → Forall enumerates (evs ++ evs') → along exclusive_event evs b →
  let b1 := run evs b in
  Registry.get_worker w (worker_registry b1) = None →
  event_action (Request env m) b1 = Poll qn w mono → delivered qn w (ctl b1) = Some tid →
  let b2 := (_dispatch env m b1).2 in
  along fresh_event evs' b2 → along (unsettled tid) evs' b2 →
  holder (ctl (run evs' b2)) tid = Some w ∧
  ∀ qn u, delivered qn u (ctl (run evs' b2)) ≠ Some tid.
Proof.
  intros Hb [He He']%Forall_app Hx b1 Hw Hev Hd b2 Hf Hu.
  pose proof (run_supervised evs b (idle_start_supervised b Hb) He Hx) as (Hc&Hwf&_&Hex).
  assert (Hs : stuck tid w b2).
  { change b2 with (handle (Request env m) b1). by eapply unknown_stuck. }
  pose proof (run_stuck tid w evs' b2 Hs He' Hf Hu) as (_&Hwf'&Hh&_).
  split; [done|]. intros qn' u. by eapply undelivered.
Qed.
End leases.

(** ** A worker that beats, and one that was forgotten *)

#[local] Existing Instance JsonText.codec.

Definition register_msg (w : string) : Message :=
  mkMessage (Some "REGISTER") None None (Some w) None (Some ["emails"]) None.
Definition heartbeat_msg (w : string) : Message :=
  mkMessage (Some "HEARTBEAT") None None (Some w) None None None.

Definition at_ (now : Q) (m : Message) : Event := Request (Recovery.env_at now "u") m.
Definition sweep_at (now : Q) : Event :=
  Eviction (Recovery.env_at now "u") (λ i, elements (Registry.in_flight_tasks i)).

Definition early : list Event :=
  [at_ 0 (register_msg "w1");
   Request (Recovery.env_at 1 "t1") (Recovery.produce_msg "emails" (JObj [("to", JStr "a")]));
   at_ 2 (Recovery.consume_msg "emails" "w1")].
Definition late : list Event :=
  [at_ 2 (heartbeat_msg "w1"); sweep_at 4; at_ 6 (heartbeat_msg "w1"); sweep_at 8; sweep_at 12].

Lemma sweep_enumerates now : enumerates (sweep_at now).
Proof. by intros i. Qed.

#[local] Ltac enumerate :=
  repeat first [apply Forall_nil_2 | apply Forall_cons_2; [first [exact I | apply sweep_enumerates]|]].

Lemma example_idle_start : idle_start Recovery.empty_broker.
Proof. split_and!; [apply init_wf|done..]. Qed.

Lemma example_heard : heard "w1" 0 (run early Recovery.empty_broker).
Proof. eexists. split; [vm_compute; reflexivity|]. by vm_compute. Qed.

Lemma example_punctual : punctual 6 "w1" 0 late.
Proof. repeat split; by vm_compute. Qed.

Lemma punctual_worker_survives_witness :
  is_Some (Registry.get_worker "w1"
    (worker_registry (run late (run early Recovery.empty_broker)))).
Proof.
  apply (punctual_worker_survives 6 "w1" 0).
  - apply Qle_refl.
  - apply run_sound, idle_start_sound, example_idle_start.
  - apply example_heard.
  - apply example_punctual.
Defined.

Lemma punctual_worker_keeps_task_witness :
  holder (ctl (run (early ++ late) Recovery.empty_broker)) "t1" = Some "w1" ∧
  ∀ qn u, delivered qn u (ctl (run (early ++ late) Recovery.empty_broker)) ≠ Some "t1".
Proof.
  apply (punctual_worker_keeps_task 6 "w1" 0).
  - apply example_idle_start.
  - enumerate.
  - decide_by_compute.
  - apply Qle_refl.
  - apply example_heard.
  - vm_compute. reflexivity.
  - apply example_punctual.
  - decide_by_compute.
Defined.

Lemma no_orphaned_tasks_witness :
  let b' := (eviction_sweep (Recovery.env_at 6 "u") (λ i, elements (Registry.in_flight_tasks i))
    (run early Recovery.empty_broker)).2 in
  ∃ x, dget "t1" (QM._in_flight (queue_manager b')) = Some x ∧
  ∃ w i, assigned_worker x = Some w ∧ Registry.get_worker w (worker_registry b') = Some i ∧
    "t1" ∈ Registry.in_flight_tasks i ∧
    (6 - Registry.last_heartbeat i <= Registry.HEARTBEAT_TIMEOUT_SECONDS)%Q.
Proof.
  eexists. split; [vm_compute; reflexivity|].
  apply (no_orphaned_tasks (Recovery.env_at 6 "u")
    (λ i, elements (Registry.in_flight_tasks i)) early Recovery.empty_broker "t1").
  - apply example_idle_start.
  - enumerate.
  - decide_by_compute.
  - vm_compute. reflexivity.
Defined.

(** [w1] is silent for too long, is evicted, and goes on consuming. *)
Definition silent : list Event :=
  [at_ 0 (register_msg "w1");
   Request (Recovery.env_at 1 "t1") (Recovery.produce_msg "emails" (JObj [("to", JStr "a")]));
   sweep_at 8].

Definition stale_consume : Broker :=
  (_dispatch (Recovery.env_at 9 "u") (Recovery.consume_msg "emails" "w1")
    (run silent Recovery.empty_broker)).2.

Definition aftermath : list Event :=
  [sweep_at 30; at_ 40 (heartbeat_msg "w1"); at_ 50 (register_msg "w1"); sweep_at 60;
   at_ 70 (Recovery.consume_msg "emails" "w2")].

Lemma unknown_worker_strands_task_witness :
  holder (ctl (run aftermath stale_consume)) "t1" = Some "w1" ∧
  ∀ qn u, delivered qn u (ctl (run aftermath stale_consume)) ≠ Some "t1".
Proof.
  apply (unknown_worker_strands_task (Recovery.env_at 9 "u")
    (Recovery.consume_msg "emails" "w1") "w1" "emails" 9 "t1" silent aftermath
    Recovery.empty_broker).
  - apply example_idle_start.
  - enumerate.
  - decide_by_compute.
  - vm_compute. reflexivity.
  - reflexivity.
  - vm_compute. reflexivity.
  - decide_by_compute.
  - decide_by_compute.
Defined.
End Leases.
