(* ===== verification/Atomicity.v ===== *)
(** * Handlers are atomic ([broker/server.py] on the event loop)

The coroutines of [Serving] compute what the handlers of [Server] do; they
never suspend inside a critical section, nor anywhere between the arrival
of a request and its answer; so whatever the event loop interleaves has
the effect of whole handlers, one after another. *)

From S2P Require Import Prelude PyDict Json JsonText DeadLetter QueueManager QueueInvariant TaskConservation TaskLifecycle WorkerRegistry Eviction LoadShedder WalStore Metrics Server Frames Requests Recovery ControlPlane Supervision Leases EventLoop Serving.
Import Server Control Leases Loop Serving.

Module Atomicity.

(** ** The coroutines compute the handlers *)

Lemma computing_then {A B} (p : P A) (f : A → P B) (c : M A) (g : A → M B) :
  computing p c → (∀ a, computing (f a) (g a)) → computing (p ≫= f) (c ≫= g).
Proof. apply computing_bind. Qed.

Lemma computing_ret {A} (a : A) : computing (mret a : P A) (mret a : M A).
Proof. done. Qed.

Lemma computing_raise {A} : computing (Raise : P A) (raise : M A).
Proof. done. Qed.

Lemma computing_sync {A} (c : M A) : computing (sync c : P A) c.
Proof. intros b. apply alone_sync. Qed.

Lemma computing_locked {A} l (c : M A) : computing (locked l c : P A) c.
Proof. intros b. apply alone_locked. Qed.

Lemma computing_async_with {A} l (p : P A) (c : M A) : computing p c → computing (async_with l p) c.
Proof. intros H b. by rewrite alone_async_with. Qed.

Lemma computing_if_wal {A} (yes no : P A) (c d : M A) :
  computing yes c → computing no d → computing (if_wal yes no) (Server.if_wal c d).
Proof.
  intros Hy Hn b. unfold if_wal, Server.if_wal, mbind, prog_bind. rewrite alone_ending, alone_sync.
  cbn. destruct (wal_store b); [apply Hy|apply Hn].
Qed.

Lemma computing_ext {A} (p : P A) (c d : M A) : computing p c → (∀ b, c b = d b) → computing p d.
Proof. intros H E b. by rewrite H. Qed.

Create HintDb serving discriminated.
#[export] Hint Resolve @computing_ret @computing_raise @computing_sync @computing_locked : serving.

(** Follows the two programs statement by statement. *)
Ltac compute_along :=
  repeat first
    [ progress auto with serving
    | apply computing_then; [|intros ?]
    | apply computing_if_wal
    | apply computing_async_with
    | match goal with
      | |- computing (match ?x with _ => _ end) (match ?x with _ => _ end) => destruct x
      end ].

Lemma negative_acknowledge_computing tid now :
  computing (negative_acknowledge tid now) (on_qm (QM.negative_acknowledge tid now)).
Proof.
  eapply computing_ext.
  { unfold negative_acknowledge. apply (computing_then _ _ (on_qm (QM.nack_take tid))
      (λ x, match x with
            | None => mret None
            | Some x => on_qm (QM.nack_route x now) ≫= λ r, mret (Some r)
            end)); [auto with serving|]. intros [x|]; compute_along. }
  intros b. unfold mbind, M_bind, on_qm, QM.negative_acknowledge.
  destruct (QM.nack_take tid (queue_manager b)) as [[x|] s]; cbn; [|done].
  by destruct (QM.nack_route x now s).
Qed.

Lemma dlq_retry_computing tid : computing (dlq_retry tid) (on_qm (QM.dlq_retry tid)).
Proof.
  intros b. unfold dlq_retry, mbind, prog_bind. rewrite alone_ending, alone_locked.
  unfold on_qm, QM.dlq_retry, DLQ.retry, DLQ.retry_take.
  destruct (dget tid (DLQ._tasks (QM.dead_letter_queue (queue_manager b)))) as [x|]; cbn; [|done].
  unfold QM.requeue, QM._ensure_queue. cbn.
  by destruct (dget (queue_name x) (QM._queues (queue_manager b))).
Qed.

Lemma remove_each_computing tids :
  computing (for_each remove_one tids) (on_qm (λ s, (tt, remove_each tids s))).
Proof.
  induction tids as [|tid tids IH]; intros b; [by destruct b|].
  cbn [for_each]. unfold mbind at 1, prog_bind at 1. rewrite alone_ending.
  unfold remove_one, mbind, prog_bind. rewrite alone_ending, alone_locked.
  unfold on_qm at 1 2. destruct (QM.dlq_remove tid (queue_manager b)) as [ok s] eqn:E. cbn [fst snd alone mret prog_ret].
  rewrite IH. unfold on_qm. cbn. by rewrite E.
Qed.

Lemma purge_queue_computing qn : computing (purge_queue qn) (on_qm (Server.purge_queue qn)).
Proof.
  intros b. unfold purge_queue, mbind, prog_bind. rewrite alone_ending, alone_locked. cbn [get fst snd].
  rewrite alone_ending, remove_each_computing. done.
Qed.

Lemma retry_each_computing tids : computing (retry_each tids) (on_qm (Server.retry_each tids)).
Proof.
  induction tids as [|tid tids IH]; intros b; [by destruct b|].
  cbn [retry_each]. unfold mbind, prog_bind. rewrite alone_ending, dlq_retry_computing.
  unfold on_qm at 1 2. destruct (QM.dlq_retry tid (queue_manager b)) as [ok s] eqn:E. cbn [fst snd].
  rewrite alone_ending, IH. unfold on_qm. cbn. rewrite E. by destruct (Server.retry_each tids s).
Qed.

(** ** The sweep *)

Definition with_both (x : Registry.t * QM.t) (b : Broker) : Broker := set_registry x.1 (set_qm x.2 b).

Lemma reassign_one_computing tid b :
  alone (reassign_one tid) b =
    (Some tt, let '(ok, s) := QM.requeue_by_id tid (queue_manager b) in
              with_both (if ok : bool then Registry.bump_reassigned (worker_registry b)
                         else worker_registry b, s) b).
Proof.
  unfold reassign_one, mbind, prog_bind. rewrite alone_ending, alone_locked. unfold on_qm.
  destruct (QM.requeue_by_id tid (queue_manager b)) as [[] s]; cbn [fst snd]; [by rewrite alone_sync|].
  by destruct b.
Qed.

Lemma reassign_computing tids b :
  alone (for_each reassign_one tids) b =
    (Some tt, with_both (Registry.reassign_all tids (worker_registry b) (queue_manager b)) b).
Proof.
  revert b. induction tids as [|tid tids IH]; intros b; [by destruct b|].
  cbn [for_each Registry.reassign_all]. unfold mbind, prog_bind. rewrite alone_ending, reassign_one_computing.
  change (reassign tid (queue_manager b)) with (QM.requeue_by_id tid (queue_manager b)).
  destruct (QM.requeue_by_id tid (queue_manager b)) as [ok s]. cbn [fst snd]. by rewrite IH.
Qed.

Lemma evict_one_computing iter x b :
  alone (evict_one iter x) b =
    (Some tt, let '(r, s) := Registry.reassign_all (iter x.2) (worker_registry b) (queue_manager b) in
              with_both (Registry.bump_evictions r, s) b).
Proof.
  unfold evict_one, mbind, prog_bind. rewrite alone_ending, reassign_computing. cbn [fst snd].
  destruct (Registry.reassign_all (iter x.2) (worker_registry b) (queue_manager b)). by rewrite alone_sync.
Qed.

Lemma evict_each_computing iter dead b :
  ∃ r s, Registry.evict_each iter dead (worker_registry b) (Some (queue_manager b)) = (r, Some s) ∧
    alone (for_each (evict_one iter) dead) b = (Some tt, with_both (r, s) b).
Proof.
  revert b. induction dead as [|[k i] dead IH]; intros b.
  { exists (worker_registry b), (queue_manager b). split; [done|]. by destruct b. }
  cbn [for_each Registry.evict_each]. unfold mbind, prog_bind. rewrite alone_ending, evict_one_computing.
  cbn [fst snd]. destruct (Registry.reassign_all (iter i) (worker_registry b) (queue_manager b)) as [r1 s1].
  destruct (IH (with_both (Registry.bump_evictions r1, s1) b)) as (r&s&E&E'). exists r, s. by split.
Qed.

Lemma evict_computing iter env :
  computing (evict_dead_workers iter (e_time env)) (eviction_sweep env iter).
Proof.
  intros b. unfold evict_dead_workers, mbind, prog_bind. rewrite alone_ending, alone_locked.
  unfold eviction_sweep, Registry.evict_dead_workers. cbn [on_registry fst snd].
  set (dead := Registry.dead_workers _ _). set (r0 := Registry.with_workers _ _).
  destruct (evict_each_computing iter dead (set_registry r0 b)) as (r&s&E&->). cbn in E. by rewrite E.
Qed.
(** ** The handlers *)

#[export] Hint Resolve negative_acknowledge_computing dlq_retry_computing remove_each_computing
  purge_queue_computing retry_each_computing evict_computing : serving.

Section handlers.
Context `{codec : JsonCodec} (env : Env).

Lemma produce_computing m : computing (Serving._handle_produce env m) (Server._handle_produce env m).
Proof. unfold Serving._handle_produce, Server._handle_produce. compute_along. Qed.

Lemma consume_computing m : computing (Serving._handle_consume env m) (Server._handle_consume env m).
Proof. unfold Serving._handle_consume, Server._handle_consume. compute_along. Qed.

Lemma register_computing m : computing (Serving._handle_register env m) (Server._handle_register env m).
Proof. unfold Serving._handle_register, Server._handle_register. compute_along. Qed.

Lemma heartbeat_computing m : computing (Serving._handle_heartbeat env m) (Server._handle_heartbeat env m).
Proof. unfold Serving._handle_heartbeat, Server._handle_heartbeat. compute_along. Qed.

Lemma ack_computing m : computing (Serving._handle_ack env m) (Server._handle_ack env m).
Proof. unfold Serving._handle_ack, Server._handle_ack. compute_along. Qed.

Lemma persist_nack_computing tid r :
  computing (Serving.persist_nack env tid r) (Server.persist_nack env tid r).
Proof. unfold Serving.persist_nack, Server.persist_nack. compute_along. Qed.

Lemma nack_computing m : computing (Serving._handle_nack env m) (Server._handle_nack env m).
Proof.
  pose proof persist_nack_computing.
  unfold Serving._handle_nack, Server._handle_nack. compute_along.
Qed.

Lemma dlq_list_computing m : computing (Serving._handle_dlq_list m) (Server._handle_dlq_list m).
Proof. unfold Serving._handle_dlq_list, Server._handle_dlq_list. cbv zeta. compute_along. Qed.

Lemma dlq_replay_computing m : computing (Serving._handle_dlq_replay env m) (Server._handle_dlq_replay env m).
Proof. unfold Serving._handle_dlq_replay, Server._handle_dlq_replay. compute_along. Qed.

Lemma dlq_purge_computing m : computing (Serving._handle_dlq_purge m) (Server._handle_dlq_purge m).
Proof. unfold Serving._handle_dlq_purge, Server._handle_dlq_purge. compute_along. Qed.

(** Both ways of counting the dead letters read the same number. *)
Lemma dlq_total_computing :
  computing (Serving.if_wal (sync (get dlq_total)) (locked DeadLock (get dlq_total))) (get dlq_total).
Proof.
  eapply computing_ext; [apply computing_if_wal; auto with serving|].
  intros b. unfold Server.if_wal. by destruct (wal_store b).
Qed.

Lemma metrics_computing : computing (Serving._get_metrics_snapshot env) (Server._get_metrics_snapshot env).
Proof.
  pose proof dlq_total_computing.
  unfold Serving._get_metrics_snapshot, Server._get_metrics_snapshot. compute_along.
Qed.

Lemma replay_computing : computing Serving._replay_dlq_handler Server._replay_dlq_handler.
Proof.
  intros b. unfold Serving._replay_dlq_handler, mbind, prog_bind.
  rewrite alone_ending, alone_locked. cbn [get fst snd]. rewrite alone_ending, retry_each_computing.
  unfold Server._replay_dlq_handler, mbind, M_bind, on_qm. by destruct (Server.retry_each _ _).
Qed.

Lemma reset_computing : computing (Serving._reset_handler env) (Server._reset_handler env).
Proof.
  intros b. unfold Serving._reset_handler, mbind, prog_bind.
  rewrite alone_ending, alone_async_with, alone_ending, alone_sync. cbn [on_qm fst snd].
  rewrite alone_sync. unfold Server._reset_handler, mbind, M_bind, Server.if_wal, on_wal. cbn.
  by destruct (wal_store b).
Qed.

Lemma dispatch_computing m : computing (Serving._dispatch env m) (Server._dispatch env m).
Proof.
  unfold Serving._dispatch, Server._dispatch. destruct (given (m_command m)) as [c|]; [|done].
  unfold Serving.handlers, Server.handlers. cbn [dget].
  repeat (case_decide; [first [apply produce_computing|apply consume_computing|apply register_computing
    |apply heartbeat_computing|apply ack_computing|apply nack_computing|apply dlq_list_computing
    |apply dlq_replay_computing|apply dlq_purge_computing|apply computing_sync|apply metrics_computing]|]).
  done.
Qed.
End handlers.
(** ** No suspension within a handler *)

Create HintDb calm discriminated.
#[export] Hint Resolve @calm_ret @calm_raise @calm_sync @calm_locked : calm.

Ltac calm_along :=
  repeat first
    [ progress auto with calm
    | apply calm_bind; [|intros ?]
    | match goal with |- calm _ _ (match ?x with _ => _ end) => destruct x end ].

Lemma if_wal_calm {A} h (yes no : P A) : calm h h yes → calm h h no → calm h h (Serving.if_wal yes no).
Proof. intros Hy Hn. unfold Serving.if_wal. calm_along. Qed.

Lemma negative_acknowledge_calm tid now : calm [] [] (Serving.negative_acknowledge tid now).
Proof. unfold Serving.negative_acknowledge. calm_along. Qed.

Lemma dlq_retry_calm tid : calm [] [] (Serving.dlq_retry tid).
Proof. unfold Serving.dlq_retry. calm_along. Qed.

Lemma purge_queue_calm qn : calm [] [] (Serving.purge_queue qn).
Proof.
  unfold Serving.purge_queue. calm_along. apply calm_for_each. intros tid. unfold remove_one. calm_along.
Qed.

Lemma evict_calm iter now : calm [] [] (Serving.evict_dead_workers iter now).
Proof.
  unfold Serving.evict_dead_workers. calm_along. apply calm_for_each. intros x. unfold evict_one. calm_along.
  apply calm_for_each. intros tid. unfold reassign_one. calm_along.
Qed.

Lemma retry_each_calm tids : calm [] [] (Serving.retry_each tids).
Proof.
  pose proof dlq_retry_calm. induction tids as [|tid tids IH]; [done|]. cbn [Serving.retry_each]. calm_along.
Qed.

#[export] Hint Resolve negative_acknowledge_calm dlq_retry_calm purge_queue_calm evict_calm
  retry_each_calm : calm.
#[export] Hint Resolve if_wal_calm : calm.

Section calm.
Context `{codec : JsonCodec} (env : Env).

Lemma nack_calm m : calm [] [] (Serving._handle_nack env m).
Proof.
  assert (∀ tid r, calm [] [] (Serving.persist_nack env tid r)).
  { intros tid r. unfold Serving.persist_nack. calm_along. }
  unfold Serving._handle_nack. calm_along.
Qed.

Lemma reset_calm : calm [] [] (Serving._reset_handler env).
Proof.
  unfold Serving._reset_handler. calm_along. apply calm_async_with; [by apply not_elem_of_nil|]. calm_along.
Qed.

Lemma dispatch_calm m : calm [] [] (Serving._dispatch env m).
Proof.
  unfold Serving._dispatch. destruct (given (m_command m)) as [c|]; [|done].
  unfold Serving.handlers. cbn [dget].
  repeat (case_decide;
    [first [apply nack_calm
       |unfold Serving._handle_produce, Serving._handle_consume, Serving._handle_register,
          Serving._handle_heartbeat, Serving._handle_ack, Serving._handle_dlq_list,
          Serving._handle_dlq_replay, Serving._handle_dlq_purge, Serving._get_metrics_snapshot;
        calm_along; fail]|]); done.
Qed.
End calm.

(** ** Jobs *)

Section jobs.
Context `{codec : JsonCodec}.

Lemma job_calm e : calm [] [] (job e).
Proof.
  pose proof @dispatch_calm. pose proof @reset_calm.
  destruct e as [env m|env iter|env| |env]; cbn [job]; unfold forget, Serving._replay_dlq_handler; calm_along.
Qed.

Lemma forget_alone {A} (p : P A) (c : M A) b : computing p c → (alone (forget p) b).2 = (c b).2.
Proof.
  intros H. unfold forget, mbind, prog_bind. rewrite alone_ending, H. by destruct (c b) as [[a|] b'].
Qed.

Lemma job_handles e b : (alone (job e) b).2 = handle e b.
Proof.
  destruct e as [env m|env iter|env| |env]; cbn [job handle].
  - apply forget_alone, dispatch_computing.
  - by rewrite evict_computing.
  - apply forget_alone, computing_sync.
  - apply forget_alone, replay_computing.
  - apply forget_alone, reset_computing.
Qed.

Lemma job_burst e (f : option unit → P unit) b :
  burst (ending (job e) f) b = burst (f (alone (job e) b).1) (handle e b).
Proof. by rewrite (burst_ending _ _ _ _ _ (job_calm e)), job_handles. Qed.

(** ** What a task will still do *)

(** From here on the deeds of [p] are a word of [L]. *)
Inductive serves (L : list Deed → Prop) (p : P unit) : Prop :=
  | serves_over : L [] → (∀ b, burst p b = (b, p)) → serves L p
  | serves_on :
      L [] →
      (∀ b, ∃ ds L', (burst p b).1 = perform_all ds b ∧ (∀ w, L' w → L (ds ++ w)) ∧
         serves L' (burst p b).2) →
      serves L p.

Lemma serves_nil L p : serves L p → L [].
Proof. by intros []. Qed.

Lemma serves_suspend L p : serves L p → serves L (Suspend p).
Proof. intros H. apply serves_on; [by apply serves_nil in H|]. intros b. by exists [], L. Qed.

Lemma serves_ret L a : L [] → serves L (Ret a).
Proof. intros H. by apply serves_over. Qed.

(** [p] runs the job of [e], and then [f]. *)
Lemma serves_job L e f :
  L [] → (∀ o b, ∃ ds L', (burst (f o) b).1 = perform_all ds b ∧ (∀ w, L' w → L (Do e :: ds ++ w)) ∧
            serves L' (burst (f o) b).2) →
  serves L (ending (job e) f).
Proof.
  intros H0 H. apply serves_on; [done|]. intros b. rewrite job_burst.
  destruct (H (alone (job e) b).1 (handle e b)) as (ds&L'&E&HL&Hs). by exists (Do e :: ds), L'.
Qed.

(** The words of a connection with the requests [es] to come. *)
Definition talk (es : list Event) (ds : list Deed) : Prop :=
  ∃ es', es' `prefix_of` es ∧ ds `prefix_of` (Do <$> es') ++ [Count (-1)].

Lemma talk_nil es : talk es [].
Proof. exists []. split; apply prefix_nil. Qed.

Lemma talk_leave es w : w = [] → talk es (Count (-1) :: w).
Proof. intros ->. exists []. split; [apply prefix_nil|done]. Qed.

Lemma talk_do e es w : talk es w → talk (e :: es) (Do e :: w).
Proof. intros (es'&H1&H2). exists (e :: es'). split; by apply prefix_cons. Qed.

#[local] Hint Resolve talk_nil talk_leave talk_do : core.

Lemma leave_serves es : serves (talk es) leave.
Proof.
  apply serves_on; [done|]. intros b. exists [Count (-1)], (λ w, w = []). split_and!; [done|..].
  - intros w ->. by apply talk_leave.
  - by apply serves_ret.
Qed.

Lemma converse_serves requests : serves (talk (script (Connection requests))) (converse requests).
Proof.
  induction requests as [|[[env m]|] requests IH]; cbn [converse script omap list_omap].
  - apply serves_suspend, leave_serves.
  - do 2 apply serves_suspend. apply serves_job; [done|]. intros [u|] b.
    + exists [], (talk (script (Connection requests))). split_and!; [done|intros w; by apply talk_do|].
      by apply serves_suspend.
    + exists [Count (-1)], (λ w, w = []). split_and!; [done| |by apply serves_ret].
      intros w ->. by apply talk_do, talk_leave.
  - by do 3 apply serves_suspend.
Qed.

Lemma connection_serves requests :
  serves (conduct (Connection requests)) (handle_connection requests).
Proof.
  assert (H0 : conduct (Connection requests) []) by (exists []; split; apply prefix_nil).
  assert (H1 : ∀ w, talk (script (Connection requests)) w → conduct (Connection requests) (Count 1 :: w)).
  { intros w (es&H1&H2). exists es. split; [done|]. by apply prefix_cons. }
  pose proof (converse_serves requests) as Hc. apply serves_on; [done|]. intros b.
  change (burst (handle_connection requests) b) with (burst (converse requests) (add_connections 1 b)).
  destruct Hc as [Hn Ho|Hn Hg].
  - exists [Count 1], (talk (script (Connection requests))). rewrite Ho. split_and!; [done..|by apply serves_over].
  - destruct (Hg (add_connections 1 b)) as (ds&L'&->&HL&Hs). exists (Count 1 :: ds), L'. split_and!; [done| |done].
    intros w Hw. cbn [app]. by apply H1, HL.
Qed.

(** The words of a client that is no connection. *)
Definition events (es : list Event) (ds : list Deed) : Prop :=
  ∃ es', es' `prefix_of` es ∧ ds `prefix_of` (Do <$> es').

Lemma events_nil es : events es [].
Proof. exists []. split; apply prefix_nil. Qed.

Lemma events_do e es w : events es w → events (e :: es) (Do e :: w).
Proof. intros (es'&H1&H2). exists (e :: es'). split; by apply prefix_cons. Qed.

#[local] Hint Resolve events_nil events_do : core.

Lemma sweeper_serves rounds b :
  (burst (eviction_loop rounds) b).1 = b ∧
  serves (events (script (Sweeper rounds))) (burst (eviction_loop rounds) b).2.
Proof.
  revert b. induction rounds as [|[env iter] rounds IH]; intros b; (split; [done|]); [by apply serves_ret|].
  cbn [eviction_loop burst snd]. apply serves_job; [done|]. intros [u|] b'.
  - exists [], (events (script (Sweeper rounds))). destruct (IH b') as [-> Hs]. split_and!; [done| |done].
    intros w. by apply events_do.
  - exists [], (events []). split_and!; [done| |by apply serves_over].
    intros w (es'&->%prefix_nil_inv&->%prefix_nil_inv). by apply (events_do _ _ []).
Qed.

Lemma coroutine_serves c : serves (conduct c) (coroutine c).
Proof.
  destruct c as [requests|e|rounds]; cbn [coroutine].
  - apply connection_serves.
  - apply serves_suspend, serves_job; [by exists []; split; apply prefix_nil|]. intros o b.
    exists [], (events []). split_and!; [done| |by apply serves_suspend, serves_ret].
    intros w (es'&->%prefix_nil_inv&->%prefix_nil_inv). by exists [e].
  - apply serves_on; [exact (events_nil _)|]. intros b. exists [], (events (script (Sweeper rounds))).
    destruct (sweeper_serves rounds b) as [-> Hs]. by split_and!.
Qed.

Lemma leave_safe : safe [] leave.
Proof. by intros [u|]. Qed.

Lemma converse_safe requests : safe [] (converse requests).
Proof.
  pose proof leave_safe. induction requests as [|[[env m]|] requests IH]; cbn [converse]; [by split| |by repeat split].
  split; [done|]. split; [done|]. apply safe_ending; [apply job_calm|]. by intros [].
Qed.

Lemma coroutine_safe c : safe [] (coroutine c).
Proof.
  destruct c as [requests|e|rounds]; cbn [coroutine].
  - intros [u|]; [apply converse_safe|done].
  - split; [done|]. apply safe_ending; [apply job_calm|]. by intros [].
  - induction rounds as [|[env iter] rounds IH]; cbn [eviction_loop]; [done|].
    split; [done|]. apply safe_ending; [apply job_calm|]. by intros [].
Qed.

Lemma coroutines_safe clients : Forall (safe []) (coroutine <$> clients).
Proof. apply Forall_fmap, Forall_true. apply coroutine_safe. Qed.

(** ** The log *)

(** What task [i] has done. *)
Definition done_by (i : nat) (log : list (nat * Deed)) : list Deed :=
  (filter (λ x, x.1 = i) log).*2.

Lemma done_by_app i log j (ds : list Deed) :
  done_by i (log ++ ((λ d, (j, d)) <$> ds)) = done_by i log ++ (if decide (j = i) then ds else []).
Proof.
  unfold done_by. rewrite filter_app, fmap_app. f_equal. induction ds as [|d ds IH]; [by case_decide|].
  cbn [fmap list_fmap]. case_decide as H.
  - rewrite filter_cons_True by done. cbn [fmap list_fmap snd]. f_equal. exact IH.
  - rewrite filter_cons_False by done. exact IH.
Qed.

Definition logged (clients : list Client) (b0 b : Broker) (ts : list (P unit)) : Prop :=
  ∃ log, b = perform_all (log.*2) b0 ∧
    ∀ i p, ts !! i = Some p → ∃ c L, clients !! i = Some c ∧
      (∀ w, L w → conduct c (done_by i log ++ w)) ∧ serves L p.

Lemma logged_start clients b : logged clients b b (coroutine <$> clients).
Proof.
  exists []. split; [done|]. intros i p. rewrite list_lookup_fmap. destruct (clients !! i) as [c|]; [|done].
  intros [= <-]. exists c, (conduct c). split_and!; [done..|]. apply coroutine_serves.
Qed.

Lemma logged_step clients b0 b ts i p :
  logged clients b0 b ts → ts !! i = Some p →
  logged clients b0 (burst p b).1 (<[i := (burst p b).2]> ts).
Proof.
  intros (log&->&Hts) Hi. destruct (Hts i p Hi) as (c&L&Hc&HL&Hp). set (b := perform_all _ b0).
  assert (Hstep : ∃ ds L', (burst p b).1 = perform_all ds b ∧ (∀ w, L' w → L (ds ++ w)) ∧
    serves L' (burst p b).2).
  { destruct Hp as [Hn Ho|Hn Hg]; [|apply Hg]. exists [], L. rewrite Ho. split_and!; [done..|by apply serves_over]. }
  destruct Hstep as (ds&L'&->&HL'&Hs). exists (log ++ ((λ d, (i, d)) <$> ds)). split.
  { unfold b, perform_all. rewrite fmap_app, foldl_app, <- list_fmap_compose. f_equal. symmetry.
    apply list_fmap_id. }
  intros j q Hj. setoid_rewrite done_by_app. destruct (decide (j = i)) as [->|Hne].
  - rewrite list_lookup_insert_eq in Hj by by eapply lookup_lt_Some. injection Hj as <-.
    exists c, L'. rewrite decide_True by done. split_and!; [done| |done].
    intros w Hw. rewrite <- app_assoc. by apply HL, HL'.
  - rewrite list_lookup_insert_ne in Hj by done. rewrite decide_False by done. setoid_rewrite app_nil_r.
    by apply Hts.
Qed.

Lemma serial_logged clients b x :
  rtc serial (b, coroutine <$> clients) x → logged clients b x.1 x.2.
Proof.
  revert x. apply rtc_ind_r; [apply logged_start|]. intros x y _ Hst IH. destruct Hst.
  by apply logged_step.
Qed.

(** C12.  The broker's handlers are atomic.  Let any number of connections,
    each with any requests, of dashboard requests and of eviction loops run
    on the event loop, which may switch from one to another wherever a
    coroutine waits for the network or a timer, or for a lock somebody else
    holds.  Then no coroutine ever finds a lock taken; and whenever none is
    running, no lock is held and the broker is in the state that whole
    handlers, and the counting of connections as they come and go, produce
    when they run one after another, those of each connection in the order
    of its requests. *)
Theorem handlers_are_atomic clients b w :
  rtc step (mk b [] (coroutine <$> clients) None) w →
  (∀ i l k, turn w = Some i → tasks w !! i = Some (Acquire l k) → l ∉ held w) ∧
  (turn w = None → held w = [] ∧
     ∃ log, shared w = perform_all (log.*2) b ∧
       ∀ i c, clients !! i = Some c → conduct c (done_by i log)).
Proof.
  intros Hr. pose proof (coroutines_safe clients) as Hs.
  split; [intros i l k; by eapply never_contended|]. intros Ht.
  pose proof (steps_on_the_way _ _ _ Hs Hr) as Hw. unfold on_the_way in Hw. rewrite Ht in Hw.
  destruct Hw as (Hh&Hser&_). split; [done|].
  assert (Hlen : length (tasks w) = length clients).
  { rewrite <- (length_fmap coroutine clients). clear -Hser. remember (b, coroutine <$> clients) as x eqn:Ex.
    change (coroutine <$> clients) with (b, coroutine <$> clients).2. rewrite <- Ex. clear Ex.
    change (tasks w) with (shared w, tasks w).2. induction Hser as [|x y z Hst _ IH]; [done|].
    rewrite IH. destruct Hst. apply length_insert. }
  destruct (serial_logged _ _ _ Hser) as (log&Hrun&Hts). exists log. split; [done|].
  intros i c Hc. destruct (lookup_lt_is_Some_2 (tasks w) i) as [p Hp].
  { rewrite Hlen. by eapply lookup_lt_Some. }
  destruct (Hts i p Hp) as (c'&L&Hc'&HL&Hsv). rewrite Hc in Hc'. injection Hc' as <-.
  specialize (HL [] (serves_nil _ _ Hsv)). by rewrite app_nil_r in HL.
Qed.
End jobs.

(** ** Witness *)

#[local] Existing Instance JsonText.codec.

(** Two connections, a sweeper and a press of the replay button. *)
Definition crowd : list Client :=
  [Connection [Some (Recovery.env_at 1 "t1", Recovery.produce_msg "emails" (JInt 1)); None;
               Some (Recovery.env_at 2 "t2", Recovery.produce_msg "emails" (JInt 2))];
   Connection [Some (Recovery.env_at 2 "u", Recovery.consume_msg "emails" "w1")];
   Sweeper [(Recovery.env_at 3 "u", λ i, elements (Registry.in_flight_tasks i))];
   Http ReplayAction].

Definition interleaving : list nat := [0; 1; 2; 0; 3; 0; 1; 0; 3; 0; 1; 0; 2; 0; 0; 0; 3; 1; 0; 0].

Definition outcome : World :=
  let x := serial_run interleaving (Recovery.empty_broker, coroutine <$> crowd) in mk x.1 [] x.2 None.

Lemma handlers_are_atomic_witness :
  (∀ i l k, turn outcome = Some i → tasks outcome !! i = Some (Acquire l k) → l ∉ held outcome) ∧
  (turn outcome = None → held outcome = [] ∧
     ∃ log, shared outcome = perform_all (log.*2) Recovery.empty_broker ∧
       ∀ i c, crowd !! i = Some c → conduct c (done_by i log)).
Proof.
  apply (handlers_are_atomic crowd Recovery.empty_broker outcome). unfold outcome.
  pose proof (serial_run_steps interleaving Recovery.empty_broker (coroutine <$> crowd)) as H.
  destruct (serial_run interleaving _) as [s' ts']. apply H. exact (coroutines_safe crowd).
Defined.

Example crowd_outcome :
  (QM._total_enqueued (queue_manager (shared outcome)), QM._total_dequeued (queue_manager (shared outcome))) =
    (2, 1)%Z.
Proof. vm_compute. reflexivity. Qed.
End Atomicity.
