(* ===== verification/Ledger.v ===== *)
(** * The books ([broker/queue_manager.py], [broker/worker_registry.py])

The statistics counters are kept by different components.  This file shows
that they add up at every point of every history: each delivery is
acknowledged, refused, still running or taken back by an eviction, and each
submission is waiting, running, acknowledged or buried. *)

From S2P Require Import Prelude PyDict Json JsonText DeadLetter QueueManager QueueInvariant TaskConservation TaskLifecycle WorkerRegistry Eviction LoadShedder WalStore Metrics Server Frames Requests Recovery ControlPlane Supervision Leases.
Import Server Control Supervision Leases.

Module Ledger.

(** ** Tallies *)

(** The counters and sizes the balances are made of. *)
Record Tally := mkTally {
  enqueued : Z; dequeued : Z; acked : Z; nacked : Z; buried : Z; revived : Z;
  waiting : Z; running : Z;
}.

Definition tally (s : QM.t) : Tally :=
  mkTally (QM._total_enqueued s) (QM._total_dequeued s) (QM._total_acked s) (QM._total_nacked s)
    (QM._total_dead_lettered s) (DLQ._total_retried (QM.dead_letter_queue s))
    (Z.of_nat (length (QM.pending s))) (Z.of_nat (length (QM._in_flight s))).

Definition add (e d a n l r w f : Z) (t : Tally) : Tally :=
  mkTally (enqueued t + e) (dequeued t + d) (acked t + a) (nacked t + n) (buried t + l)
    (revived t + r) (waiting t + w) (running t + f).

(** Deliveries neither resolved nor running, and submissions and revivals
    that are nowhere. *)
Definition released_count (t : Tally) : Z := dequeued t - acked t - nacked t - running t.
Definition missing (t : Tally) : Z :=
  enqueued t + revived t - waiting t - running t - acked t - buried t.

(** [k] more deliveries were taken back; nothing else is unaccounted for. *)
Definition balanced (k : Z) (s s' : QM.t) : Prop :=
  released_count (tally s') = (released_count (tally s) + k)%Z ∧
  missing (tally s') = missing (tally s).

Lemma balanced_refl s : balanced 0 s s.
Proof. split; lia. Qed.

Lemma balanced_trans k k' s s' s'' :
  balanced k s s' → balanced k' s' s'' → balanced (k + k') s s''.
Proof. unfold balanced. lia. Qed.

Lemma balanced_eq k k' s s' : k = k' → balanced k s s' → balanced k' s s'.
Proof. by intros ->. Qed.

Ltac tally_eq := unfold add, tally; cbn -[QM.pending Z.of_nat] in *; f_equal; lia.

(** ** The tally under each update *)

Lemma tally_bump e d a n l s : tally (QM.bump e d a n l s) = add e d a n l 0 0 0 (tally s).
Proof. unfold tally at 1. change (QM.pending (QM.bump e d a n l s)) with (QM.pending s). tally_eq. Qed.

Lemma tally_ensure qn s : tally (QM._ensure_queue qn s) = tally s.
Proof.
  unfold tally. rewrite QM.ensure_queue_pending.
  unfold QM._ensure_queue. by destruct (dget qn (QM._queues s)).
Qed.

Lemma tally_append qn x s : tally (QM.queue_append qn x s) = add 0 0 0 0 0 0 1 0 (tally s).
Proof. unfold tally at 1. rewrite QM.queue_append_pending. tally_eq. Qed.

Lemma tally_appendleft qn x s : tally (QM.queue_appendleft qn x s) = add 0 0 0 0 0 0 1 0 (tally s).
Proof. unfold tally at 1. rewrite QM.queue_appendleft_pending. tally_eq. Qed.

Lemma tally_popleft qn x rest s :
  QM.queue_of qn s = x :: rest →
  tally (QM.with_queues (dset qn rest) s) = add 0 0 0 0 0 0 (-1) 0 (tally s).
Proof.
  intros E. apply QM.queue_popleft_pending, Permutation_length in E. unfold tally at 1. tally_eq.
Qed.

Lemma tally_set_flight x s :
  dget (task_id x) (QM._in_flight s) = None →
  tally (QM.with_in_flight (dset (task_id x) x) s) = add 0 0 0 0 0 0 0 1 (tally s).
Proof.
  intros E. unfold tally at 1. change (QM.pending (QM.with_in_flight _ s)) with (QM.pending s).
  cbn [QM._in_flight QM.with_in_flight]. rewrite dset_new, length_app by done. tally_eq.
Qed.

Lemma tally_del_flight tid x s :
  dget tid (QM._in_flight s) = Some x →
  tally (QM.with_in_flight (ddel tid) s) = add 0 0 0 0 0 0 0 (-1) (tally s).
Proof.
  intros E. apply length_ddel in E. unfold tally at 1.
  change (QM.pending (QM.with_in_flight _ s)) with (QM.pending s).
  cbn [QM._in_flight QM.with_in_flight]. tally_eq.
Qed.

Lemma tally_completed f s : tally (QM.with_completed f s) = tally s.
Proof. done. Qed.

Lemma tally_dlq d s :
  tally (QM.with_dlq d s) =
    add 0 0 0 0 0 (DLQ._total_retried d - DLQ._total_retried (QM.dead_letter_queue s)) 0 0 (tally s).
Proof. unfold tally at 1. change (QM.pending (QM.with_dlq d s)) with (QM.pending s). tally_eq. Qed.
(** ** Every operation balances *)

Ltac balance := split; unfold released_count, missing, add; cbn -[tally]; lia.

Lemma enqueue_balanced qn p u now s : balanced 0 s (QM.enqueue qn p u now s).2.
Proof.
  unfold QM.enqueue, balanced. cbn [snd]. rewrite tally_bump, tally_append, tally_ensure. balance.
Qed.

Lemma recover_balanced qn tid p n now s : balanced 0 s (QM.enqueue_recovered qn tid p n now s).2.
Proof.
  unfold QM.enqueue_recovered, balanced. cbn [snd]. rewrite tally_bump, tally_append, tally_ensure.
  balance.
Qed.

Lemma target_tally qn s : tally (QM.dequeue_target qn s).2 = tally s.
Proof. unfold QM.dequeue_target. case_bool_decide; [done|]. cbn. apply tally_ensure. Qed.

Lemma dequeue_balanced qn w s : wf s → balanced 0 s (QM.dequeue qn w s).2.
Proof.
  intros Hs. pose proof (target_tally qn s) as Ht. unfold balanced.
  destruct (dequeue_cases qn w s (proj1 Hs)) as [(s'&E&_)|(q&s1&x&rest&Et&Eq&_&E)].
  - unfold QM.dequeue in *. destruct (QM.dequeue_target qn s) as [[q|] s1]; cbn [snd] in Ht;
      [destruct (QM.queue_of q s1)|]; try done; cbn [snd]; rewrite Ht; lia.
  - assert (Hf : dget (task_id x) (QM._in_flight s1) = None).
    { pose proof (delivered_idle qn w (s, Registry.init) (task_id x) Hs) as H.
      unfold delivered in H. cbn in H. rewrite E in H. specialize (H eq_refl).
      pose proof (target_flight qn s) as Hf. rewrite Et in Hf. cbn in Hf. by rewrite Hf. }
    rewrite E. cbn [snd]. rewrite Et in Ht. cbn [snd] in Ht.
    rewrite tally_bump, (tally_set_flight (QM.deliver w x)), (tally_popleft _ _ _ _ Eq), Ht by done.
    balance.
Qed.

Lemma acknowledge_balanced tid s : balanced 0 s (QM.acknowledge tid s).2.
Proof.
  unfold QM.acknowledge. destruct (dget tid (QM._in_flight s)) as [x|] eqn:E; [|apply balanced_refl].
  unfold balanced. cbn [snd]. rewrite tally_bump, tally_completed, (tally_del_flight _ _ _ E). balance.
Qed.

Lemma nack_route_tally x now s :
  tally (QM.nack_route x now s).2 =
    add 0 0 0 0 0 0 (if bool_decide (status x = "dead_lettered") then 0 else 1) 0 (tally s).
Proof.
  unfold QM.nack_route. case_bool_decide; cbn [snd].
  - rewrite tally_dlq. cbn. tally_eq.
  - by rewrite tally_appendleft, tally_ensure.
Qed.

Lemma negative_acknowledge_balanced tid now s :
  shape s → balanced 0 s (QM.negative_acknowledge tid now s).2.
Proof.
  intros Hs. unfold QM.negative_acknowledge, QM.nack_take.
  destruct (dget tid (QM._in_flight s)) as [x|] eqn:E; [|apply balanced_refl].
  destruct (shape_flight_get _ _ _ Hs E) as [_ (Hst&_)].
  destruct (_ >=? _)%Z;
    match goal with |- context [QM.nack_route ?x ?n ?s] =>
      pose proof (nack_route_tally x n s) as Hr; destruct (QM.nack_route x n s) end;
    cbn [snd] in *; unfold balanced; rewrite Hr.
  - rewrite bool_decide_true by done. rewrite !tally_bump, (tally_del_flight _ _ _ E). balance.
  - rewrite bool_decide_false by by rewrite Hst. rewrite tally_bump, (tally_del_flight _ _ _ E). balance.
Qed.

Lemma requeue_by_id_balanced tid s :
  balanced (if (QM.requeue_by_id tid s).1 then 1 else 0) s (QM.requeue_by_id tid s).2.
Proof.
  unfold QM.requeue_by_id. destruct (dget tid (QM._in_flight s)) as [x|] eqn:E; [|apply balanced_refl].
  unfold balanced. cbn [fst snd]. rewrite tally_appendleft, tally_ensure, (tally_del_flight _ _ _ E).
  balance.
Qed.

Lemma dlq_retry_balanced tid s : balanced 0 s (QM.dlq_retry tid s).2.
Proof.
  unfold QM.dlq_retry, DLQ.retry, DLQ.retry_take.
  destruct (dget tid (DLQ._tasks (QM.dead_letter_queue s))) as [x|]; unfold balanced; cbn [snd];
    rewrite tally_dlq; [|split; unfold released_count, missing, add; cbn; lia].
  change (requeue_task ?x ?f ?s) with (QM.requeue x f s). rewrite requeue_dlq. unfold QM.requeue.
  rewrite tally_append, tally_ensure. split; unfold released_count, missing, add; cbn; lia.
Qed.

Lemma with_dlq_balanced d s :
  DLQ._total_retried d = DLQ._total_retried (QM.dead_letter_queue s) →
  balanced 0 s (QM.with_dlq d s).
Proof.
  intros H. unfold balanced. rewrite tally_dlq, H. balance.
Qed.

Lemma dlq_remove_balanced tid s : balanced 0 s (QM.dlq_remove tid s).2.
Proof.
  unfold QM.dlq_remove, DLQ.remove.
  destruct (dget tid (DLQ._tasks (QM.dead_letter_queue s))); by apply with_dlq_balanced.
Qed.

Lemma dlq_purge_balanced s : balanced 0 s (QM.dlq_purge s).2.
Proof. by apply with_dlq_balanced. Qed.

Lemma retry_each_balanced tids s : balanced 0 s (retry_each tids s).2.
Proof.
  apply (retry_each_ind (balanced 0 s)); [|apply balanced_refl].
  intros tid s' H. apply (balanced_trans 0 0 _ s'); [done|apply dlq_retry_balanced].
Qed.

Lemma remove_each_balanced tids s : balanced 0 s (remove_each tids s).
Proof.
  apply (remove_each_ind (balanced 0 s)); [|apply balanced_refl].
  intros tid s' H. apply (balanced_trans 0 0 _ s'); [done|apply dlq_remove_balanced].
Qed.

Lemma reassign_all_balanced tids r s :
  let '(r', s') := Registry.reassign_all tids r s in
  balanced (Registry._total_tasks_reassigned r' - Registry._total_tasks_reassigned r) s s'.
Proof.
  revert r s. induction tids as [|tid tids IH]; intros r s; cbn [Registry.reassign_all].
  { rewrite Z.sub_diag. apply balanced_refl. }
  change (reassign tid s) with (QM.requeue_by_id tid s).
  pose proof (requeue_by_id_balanced tid s) as H. destruct (QM.requeue_by_id tid s) as [ok s1].
  cbn [fst snd] in H. specialize (IH (if ok then Registry.bump_reassigned r else r) s1).
  destruct (Registry.reassign_all tids _ s1) as [r' s'].
  eapply balanced_eq; [|exact (balanced_trans _ _ _ _ _ H IH)]. destruct ok; cbn; lia.
Qed.

Lemma evict_each_balanced iter dead r s :
  ∃ r' s', Registry.evict_each iter dead r (Some s) = (r', Some s') ∧
    balanced (Registry._total_tasks_reassigned r' - Registry._total_tasks_reassigned r) s s'.
Proof.
  revert r s. induction dead as [|[k i] dead IH]; intros r s; cbn [Registry.evict_each].
  { exists r, s. split; [done|]. rewrite Z.sub_diag. apply balanced_refl. }
  pose proof (reassign_all_balanced (iter i) r s) as H.
  destruct (Registry.reassign_all (iter i) r s) as [r1 s1].
  destruct (IH (Registry.bump_evictions r1) s1) as (r'&s'&E&H').
  exists r', s'. split; [done|]. cbn in H'.
  eapply balanced_eq; [|exact (balanced_trans _ _ _ _ _ H H')]. lia.
Qed.

(** ** The books of the pair *)

Definition books (c : Ctl) : Z * Z :=
  (released_count (tally c.1) - Registry._total_tasks_reassigned c.2, missing (tally c.1))%Z.

Lemma books_balanced s r s' r' :
  balanced (Registry._total_tasks_reassigned r' - Registry._total_tasks_reassigned r) s s' →
  books (s', r') = books (s, r).
Proof. unfold balanced, books. cbn [fst snd]. intros [H1 H2]. f_equal; [lia|done]. Qed.

Lemma books_same s r s' r' :
  balanced 0 s s' →
  Registry._total_tasks_reassigned r' = Registry._total_tasks_reassigned r →
  books (s', r') = books (s, r).
Proof. intros Hb Hr. apply books_balanced. by rewrite Hr, Z.sub_diag. Qed.

Lemma record_latencies_reassigned qs ms r :
  Registry._total_tasks_reassigned (Registry.record_latencies qs ms r) =
  Registry._total_tasks_reassigned r.
Proof.
  revert r. induction qs as [|qn qs IH]; intros r; [done|]. cbn. rewrite IH.
  unfold Registry._record_latency. cbn. by destruct (dget qn (Registry._queue_latencies r)).
Qed.

Lemma complete_task_reassigned w tid mono r :
  Registry._total_tasks_reassigned (Registry.complete_task w tid mono r) =
  Registry._total_tasks_reassigned r.
Proof.
  unfold Registry.complete_task. destruct (dget w (Registry._workers r)) as [i|]; [|done].
  destruct (dget tid _); [|done]. by rewrite record_latencies_reassigned.
Qed.

Lemma act_books a c : wf c.1 → a ≠ Wipe → books (act a c) = books c.
Proof.
  destruct c as [s r]. intros Hs Ha. cbn [fst] in Hs.
  destruct a as [|qn p u now|qn w mono|w peer qs conn now|w now|tid w mono|tid w now mono|tids|[qn|]|
    iter now|i now|]; cbn [act]; try done.
  - apply books_same; [apply enqueue_balanced|done].
  - pose proof (dequeue_balanced qn w s Hs) as H. destruct (QM.dequeue qn w s) as [o s'].
    apply books_same; [done|]. destruct o; [|done].
    unfold Registry.assign_task. by destruct (dget w (Registry._workers r)).
  - apply books_same; [apply balanced_refl|].
    unfold Registry.record_heartbeat. by destruct (dget w (Registry._workers r)).
  - pose proof (acknowledge_balanced tid s) as H. destruct (QM.acknowledge tid s) as [o s'].
    apply books_same; [done|]. destruct o; [|done]. apply complete_task_reassigned.
  - pose proof (negative_acknowledge_balanced tid now s (proj1 Hs)) as H.
    destruct (QM.negative_acknowledge tid now s) as [o s'].
    apply books_same; [done|]. destruct o; [|done]. apply complete_task_reassigned.
  - apply books_same; [apply retry_each_balanced|done].
  - apply books_same; [apply remove_each_balanced|done].
  - unfold Registry.evict_dead_workers.
    destruct (evict_each_balanced iter (Registry.dead_workers now (Registry._workers r))
      (Registry.with_workers (Registry.del_workers (Registry.dead_workers now (Registry._workers r))) r)
      s) as (r'&s'&->&H). by apply books_balanced.
Qed.

Section ledger.
Context `{codec : JsonCodec}.

(** ** Start-up *)

Lemma on_wal_ctl {A} (f : Wal.Db → A * Wal.Db) b : ctl (on_wal f b).2 = ctl b.
Proof. apply (keeps_wal ctl). Qed.

Lemma recover_rows_books env rows b : books (ctl (recover_rows env rows b).2) = books (ctl b).
Proof.
  revert b. induction rows as [|row rows IH]; intros b; [done|].
  cbn [recover_rows]. destruct (loads _) as [p|]; [|done].
  unfold mbind at 1, M_bind at 1. rewrite Recovery.on_qm_eq.
  set (b1 := set_qm _ b).
  assert (books (ctl b1) = books (ctl b)) as <-.
  { apply books_same; [|done]. apply recover_balanced. }
  unfold mbind at 1, M_bind at 1.
  match goal with |- context [on_wal ?f b1] =>
    pose proof (on_wal_ctl f b1) as H; destruct (on_wal f b1) as [[u|] b2] end; cbn [snd] in H;
    rewrite <- H; [|done].
  unfold mbind at 1, M_bind at 1. rewrite <- (IH b2).
  by destruct (recover_rows env rows b2) as [[n|] b3].
Qed.

Lemma start_books env db mono :
  books (ctl (start_recovery env (new_broker db mono)).2) = (0, 0)%Z.
Proof.
  unfold start_recovery, if_wal. cbn [wal_store new_broker]. destruct db as [db|]; [|done].
  unfold mbind, M_bind. unfold on_wal at 1. cbn. apply recover_rows_books.
Qed.

Definition kept_event e b : Prop := event_action e b ≠ Wipe.

#[global] Instance kept_event_dec e b : Decision (kept_event e b).
Proof. unfold kept_event. destruct (event_action e b); (left; done) || (right; by intros []). Defined.

Lemma run_books evs b :
  wf (queue_manager b) → along fresh_event evs b → along kept_event evs b →
  books (ctl (run evs b)) = books (ctl b).
Proof.
  intros Hw Hf Hk. pose proof (along_and _ _ _ _ Hf Hk) as H.
  refine (proj2 (along_inv _ (λ b', wf (ctl b').1 ∧ books (ctl b') = books (ctl b)) evs b _ H (conj Hw eq_refl))).
  intros e b' [Hf' Hk'] [Hw' <-]. rewrite handle_acts. split; [by apply act_wf|by apply act_books].
Qed.

(** C15.  The statistics add up.  From the start of the broker (recovered
    tasks included) and at every point of every history without a reset,
    each delivery has been acknowledged, refused, or taken back by an
    eviction, or is still in flight; and each submission, counting a dead
    letter that was revived as a new one, is waiting, in flight,
    acknowledged or dead-lettered. *)
Theorem statistics_add_up env db mono evs :
  let b0 := (start_recovery env (new_broker db mono)).2 in
  wf (queue_manager b0) → along fresh_event evs b0 → along kept_event evs b0 →
  let s := queue_manager (run evs b0) in
  let r := worker_registry (run evs b0) in
  (QM._total_dequeued s =
     QM._total_acked s + QM._total_nacked s + Z.of_nat (QM.in_flight_count s)
     + Registry._total_tasks_reassigned r ∧
   QM._total_enqueued s + DLQ._total_retried (QM.dead_letter_queue s) =
     Z.of_nat (length (QM.pending s)) + Z.of_nat (QM.in_flight_count s)
     + QM._total_acked s + QM._total_dead_lettered s)%Z.
Proof.
  intros b0 Hw Hf Hk s r. pose proof (run_books evs b0 Hw Hf Hk) as H.
  pose proof (start_books env db mono) as H0. fold b0 in H0. rewrite H0 in H. injection H as H1 H2.
  unfold released_count, missing, tally in H1, H2.
  cbn -[QM.pending Z.of_nat run] in H1, H2. fold s r in H1. fold s in H2.
  unfold QM.in_flight_count. lia.
Qed.
End ledger.

#[local] Existing Instance JsonText.codec.

(** Two tasks recovered, one evicted and delivered again, one refused. *)
Definition busy : list Event :=
  [at_ 10 (register_msg "w1"); at_ 10 (Recovery.consume_msg "emails" "w1"); sweep_at 20;
   at_ 21 (register_msg "w2"); at_ 21 (Recovery.consume_msg "emails" "w2");
   at_ 22 (Recovery.nack_msg "t1"); at_ 23 (Recovery.consume_msg "*" "w2")].

Lemma statistics_add_up_witness :
  let b0 := (start_recovery (Recovery.env_at 9 "u")
    (new_broker (wal_store Recovery.example_operated) 9)).2 in
  let s := queue_manager (run busy b0) in
  let r := worker_registry (run busy b0) in
  (QM._total_dequeued s =
     QM._total_acked s + QM._total_nacked s + Z.of_nat (QM.in_flight_count s)
     + Registry._total_tasks_reassigned r ∧
   QM._total_enqueued s + DLQ._total_retried (QM.dead_letter_queue s) =
     Z.of_nat (length (QM.pending s)) + Z.of_nat (QM.in_flight_count s)
     + QM._total_acked s + QM._total_dead_lettered s)%Z.
Proof.
  apply (statistics_add_up (Recovery.env_at 9 "u") (wal_store Recovery.example_operated) 9 busy);
    decide_by_compute.
Defined.
End Ledger.
