(* ===== verification/Limits.v ===== *)
(** * Where the dead letter copies part ([broker/server.py])

A dead letter is kept in memory and in the database, and the two copies
are used by different commands.  These theorems delimit what the
persistence layer guarantees for them: the payload that is stored, the
count the dashboard shows, and the dashboard's replay action. *)

From S2P Require Import Prelude PyDict Json JsonText DeadLetter QueueManager QueueInvariant TaskConservation TaskLifecycle WorkerRegistry Eviction LoadShedder WalStore Durability Metrics Server Requests Recovery.
Import Server Recovery.

Module Limits.

(** ** The payload of a persisted dead letter *)

Lemma filter_fresh_summary tid (l : list Task) :
  tid ∉ task_id <$> l → filter (λ d, DLQ.s_task_id d = tid) (DLQ.summarize <$> l) = [].
Proof.
  intros Hn. apply Metrics.filter_none, Forall_fmap, Forall_forall. cbn. intros x Hx <-.
  apply Hn. by apply list_elem_of_fmap_2.
Qed.

Lemma stub_payload_spec tid s l x :
  dvalues (DLQ._tasks (QM.dead_letter_queue s)) = l ++ [x] → task_id x = tid →
  tid ∉ task_id <$> l →
  stub_payload tid s = if decide (length l < 100) then payload x else JObj [].
Proof.
  intros E Hx Hn. unfold stub_payload, DLQ.peek. rewrite E.
  change (py_slice_to 100 (l ++ [x])) with (take 100 (l ++ [x])). rewrite take_app, fmap_app, filter_app.
  rewrite filter_fresh_summary.
  2: { intros (y&->&Hy)%list_elem_of_fmap. apply Hn, list_elem_of_fmap_2.
       by eapply elem_of_take in Hy as (i&Hi&_); eapply list_elem_of_lookup_2. }
  cbn [app]. case_decide as Hl.
  - replace (take (100 - length l) [x]) with [x]
      by (by destruct (100 - length l) as [|[|?]] eqn:E'; [lia|..]).
    cbn [fmap list_fmap]. by rewrite filter_cons_True.
  - by replace (100 - length l) with 0 by lia.
Qed.

Lemma flight_not_dead s tid y :
  wf s → dget tid (QM._in_flight s) = Some y →
  task_id y = tid ∧ dget tid (DLQ._tasks (QM.dead_letter_queue s)) = None ∧
  (tid ∉ task_id <$> dvalues (DLQ._tasks (QM.dead_letter_queue s))).
Proof.
  intros Hw Hg. destruct (shape_flight_get _ _ _ (proj1 Hw) Hg) as [-> _].
  assert (task_id y ∉ task_id <$> dvalues (DLQ._tasks (QM.dead_letter_queue s))) as Hn.
  { pose proof (proj2 Hw) as Hnd. unfold QM.ids, QM.all_tasks in Hnd. rewrite !fmap_app in Hnd.
    apply NoDup_app in Hnd as (_&_&(_&Hd&_)%NoDup_app). intros Hin. apply (Hd (task_id y)).
    - apply list_elem_of_fmap_2. apply dget_Some_in in Hg.
      by apply (list_elem_of_fmap_2 snd) in Hg.
    - apply elem_of_app. by right. }
  split_and!; [done| |done].
  destruct (dget (task_id y) (DLQ._tasks _)) as [z|] eqn:E; [|done]. destruct Hn.
  destruct (shape_dead_get _ _ _ (proj1 Hw) E) as [-> _]. apply list_elem_of_fmap_2.
  apply dget_Some_in in E. by apply (list_elem_of_fmap_2 snd) in E.
Qed.

Lemma nack_buries tid now s y :
  wf s → dget tid (QM._in_flight s) = Some y → (QM.max_retries s <= attempts y)%Z →
  ∃ s', QM.negative_acknowledge tid now s =
      (Some (QM.mkNack "dead_lettered" tid (attempts y) None (queue_name y)), s') ∧
    dvalues (DLQ._tasks (QM.dead_letter_queue s')) =
      dvalues (DLQ._tasks (QM.dead_letter_queue s)) ++
        [DLQ.dead_task now (set_status "dead_lettered" y)].
Proof.
  intros Hw Hg Hm. destruct (flight_not_dead s tid y Hw Hg) as (<-&Hn&_).
  unfold QM.negative_acknowledge, QM.nack_take, QM.nack_route. rewrite Hg. cbn -[DLQ.add].
  rewrite Z.geb_leb, (proj2 (Z.leb_le _ _)) by done. cbn -[DLQ.add].
  eexists. split; [done|]. cbn -[DLQ.add].
  by apply (DLQ.add_fresh (set_status "dead_lettered" y)).
Qed.

Section limits.
  Context `{codec : JsonCodec}.

Lemma nack_dead_letter_row env m b db tid y :
  wf (queue_manager b) → Tx.db_wf db → wal_store b = Some db →
  given (m_task_id m) = Some tid →
  dget tid (QM._in_flight (queue_manager b)) = Some y →
  (QM.max_retries (queue_manager b) <= attempts y)%Z →
  ∃ db', wal_store (_handle_nack env m b).2 = Some db' ∧
    (tid ∉ db_ids db') ∧
    Wal.select_key Wal.q_task_id tid (Wal.dead_letter_queue db') =
      Some (Wal.mkDlqRow tid (queue_name y)
        (dumps (if decide (length (DLQ._tasks (QM.dead_letter_queue (queue_manager b))) < 100)
                then payload y else JObj []))
        (Some "max retries exceeded") (attempts y) (e_time env)).
Proof.
  intros Hw Hwf Hdb Hm Hg Hmax.
  destruct (nack_buries tid (e_time env) _ y Hw Hg Hmax) as (s'&E&Hdl).
  destruct (flight_not_dead _ _ _ Hw Hg) as (Hid&_&Hn).
  pose proof (stub_payload_spec tid s' _ _ Hdl Hid Hn) as Hstub.
  unfold dvalues in Hstub. rewrite length_fmap in Hstub.
  unfold _handle_nack. rewrite Hm. unfold mbind, M_bind. rewrite on_qm_eq, E.
  unfold if_wal, persist_nack, on_wal, mbind, M_bind. cbn -[stub_payload Wal.add_to_dlq].
  rewrite Hdb, bool_decide_eq_true_2 by done. cbn -[stub_payload Wal.add_to_dlq].
  rewrite Hdb. cbn -[stub_payload Wal.add_to_dlq]. eexists. split_and!; [done| |].
  - unfold db_ids. cbn -[stub_payload]. intros (r&->&Hr)%list_elem_of_fmap.
    apply Wal.delete_key_elem in Hr. by destruct Hr.
  - rewrite Hstub. apply Wal.select_key_Some; [|split; [|done]].
    + by apply (Tx.denote_wf (Tx.AddToDlq _ _ _)).
    + apply Wal.upsert_elem. by left.
Qed.

(** C40.  What a dead-lettering [NACK] leaves on disk: the task's row is
    gone from [tasks], and the dead letter table has one row for it with
    its queue, its attempt count and its payload, provided fewer than a
    hundred dead letters were in memory; from the hundredth on the handler
    does not find the task in its listing of the first hundred and the
    empty object is stored as payload. *)
Theorem dead_letter_payload_persisted env m b db tid y :
  operated b → wal_store b = Some db → given (m_task_id m) = Some tid →
  dget tid (QM._in_flight (queue_manager b)) = Some y →
  (QM.max_retries (queue_manager b) <= attempts y)%Z →
  ∃ db', wal_store (_handle_nack env m b).2 = Some db' ∧
    (tid ∉ db_ids db') ∧
    Wal.select_key Wal.q_task_id tid (Wal.dead_letter_queue db') =
      Some (Wal.mkDlqRow tid (queue_name y)
        (dumps (if decide (length (DLQ._tasks (QM.dead_letter_queue (queue_manager b))) < 100)
                then payload y else JObj []))
        (Some "max retries exceeded") (attempts y) (e_time env)).
Proof.
  intros (db0&Hdb0&Hw&Hwf&_)%operated_durable Hdb. rewrite Hdb in Hdb0. injection Hdb0 as <-.
  by apply (nack_dead_letter_row env m b db).
Qed.

(** The dead letter count of the metrics snapshot: with persistence
    it is the number of rows, cut off at 100. *)
Theorem dashboard_dlq_count_saturates b db :
  wal_store b = Some db →
  dlq_total b = min 100 (length (Wal.dead_letter_queue db)).
Proof.
  intros Hdb. unfold dlq_total, Wal.get_dlq_tasks, Wal.sql_limit. rewrite Hdb.
  change (Wal.int64 100) with true. change (100 <? 0)%Z with false. cbv iota. change (Z.to_nat 100) with 100.
  cbn [default from_option id]. rewrite length_take. unfold Wal.order_desc.
  by rewrite (Permutation_length (Wal.order_asc_perm _ _)).
Qed.
End limits.

(** ** Concrete runs *)

#[local] Existing Instance JsonText.codec.

(** One task, delivered three times and refused twice. *)
Definition three_deliveries : list (Env * Message) :=
  [(env_at 1 "t1", produce_msg "q" (JObj [("k", JInt 7)]));
   (env_at 2 "u1", consume_msg "q" "w"); (env_at 3 "u2", nack_msg "t1");
   (env_at 4 "u3", consume_msg "q" "w"); (env_at 5 "u4", nack_msg "t1");
   (env_at 6 "u5", consume_msg "q" "w")].

Definition third_delivery : Broker := run_requests three_deliveries empty_broker.

Definition third_delivery_task : Task :=
  mkTask "t1" "q" (JObj [("k", JInt 7)]) "in_flight" 1 (Some "w") 3 None.

Definition third_delivery_db : Wal.Db := default Wal.empty_db (wal_store third_delivery).

Lemma dead_letter_payload_persisted_witness :
  ∃ db', wal_store (_handle_nack (env_at 7 "u6") (nack_msg "t1") third_delivery).2 = Some db' ∧
    ("t1" ∉ db_ids db') ∧
    Wal.select_key Wal.q_task_id "t1" (Wal.dead_letter_queue db') =
      Some (Wal.mkDlqRow "t1" (queue_name third_delivery_task)
        (dumps (if decide (length (DLQ._tasks (QM.dead_letter_queue
                                     (queue_manager third_delivery))) < 100)
                then payload third_delivery_task else JObj []))
        (Some "max retries exceeded") (attempts third_delivery_task) (e_time (env_at 7 "u6"))).
Proof.
  apply (dead_letter_payload_persisted (env_at 7 "u6") (nack_msg "t1") third_delivery
    third_delivery_db "t1" third_delivery_task).
  - apply operated_requests; [apply first_start|]. vm_compute. reflexivity.
  - vm_compute. reflexivity.
  - reflexivity.
  - vm_compute. reflexivity.
  - vm_compute. discriminate.
Defined.

Lemma dashboard_dlq_count_saturates_witness :
  dlq_total third_delivery = min 100 (length (Wal.dead_letter_queue third_delivery_db)).
Proof.
  apply (dashboard_dlq_count_saturates third_delivery third_delivery_db).
  vm_compute. reflexivity.
Defined.

(** The task is dead-lettered and the dashboard's replay button pressed. *)
Definition before_replay : Broker :=
  run_requests (three_deliveries ++ [(env_at 7 "u6", nack_msg "t1")]) empty_broker.

(** The dashboard's replay action works on memory only.  There is a
    run after which it puts a task back in its queue while the database
    still has it as a dead letter and has no row of it to recover: a crash
    before the task finishes loses it, and replaying the persisted dead
    letter as well would run it twice. *)
Theorem dashboard_replay_is_not_durable :
  ∃ b b' db, operated b ∧ b' = (_replay_dlq_handler b).2 ∧ wal_store b' = Some db ∧
    task_id <$> QM.pending (queue_manager b') = ["t1"] ∧
    Wal.load_pending_tasks db = [] ∧
    Wal.q_task_id <$> Wal.dead_letter_queue db = ["t1"].
Proof.
  exists before_replay, (_replay_dlq_handler before_replay).2,
    (default Wal.empty_db (wal_store before_replay)).
  split_and!; [|done|vm_compute; reflexivity..].
  apply operated_requests; [apply first_start|]. vm_compute. reflexivity.
Qed.
End Limits.
