(* ===== verification/Wire.v ===== *)
(** * Wire protocol ([broker/server.py], [producer/client.py],
      [worker/base_worker.py])

Length-prefixed JSON: four bytes, big endian, then the text.  The broker's
read loop, its [_send_response] and the clients' [_send] use the same
framing.  A stream is the list of bytes the peer sends before it closes;
[readexactly] on a shorter stream is [IncompleteReadError].  The text form
of [json.dumps] is ASCII, so [encode] is the identity on characters. *)

From Stdlib Require Import Ascii.
From Stdlib Require String.
From S2P Require Import Prelude PyDict Json JsonText DeadLetter QueueManager WorkerRegistry LoadShedder WalStore Metrics Server.
Import Server.

Module Wire.

Abbreviation bytes := (list ascii).

(** ** Integers *)

(** [int.from_bytes(l, byteorder="big")] *)
Definition int_from_bytes (l : bytes) : Z :=
  foldl (λ acc c, acc * 256 + Z.of_N (N_of_ascii c))%Z 0%Z l.

(** The [n] low bytes of [v], most significant first. *)
Fixpoint low_bytes (n : nat) (v : Z) : bytes :=
  match n with
  | O => []
  | S n => low_bytes n (v / 256) ++ [ascii_of_N (Z.to_N (v mod 256))]
  end.

(** [v.to_bytes(n, byteorder="big")]; [None] is [OverflowError]. *)
Definition to_bytes (n : nat) (v : Z) : option bytes :=
  if bool_decide (0 <= v < 256 ^ Z.of_nat n)%Z then Some (low_bytes n v) else None.

(** ** Messages *)

Definition MAX_MESSAGE : Z := 10 * 1024 * 1024.

(** [reader.readexactly(n)] *)
Definition readexactly (n : nat) (l : bytes) : option (bytes * bytes) :=
  if bool_decide (n ≤ length l) then Some (take n l, drop n l) else None.

Section wire.
  Context `{codec : JsonCodec}.

Definition encode_text (j : Json) : bytes := String.list_ascii_of_string (dumps j).

(** [len(encoded).to_bytes(4, "big") + encoded] *)
Definition frame (j : Json) : option bytes :=
  let encoded := encode_text j in
  prefix ← to_bytes 4 (Z.of_nat (length encoded));
  Some (prefix ++ encoded).

(** One iteration of the broker's read loop, up to the parsed message. *)
Inductive Received :=
  | Incomplete                       (* IncompleteReadError *)
  | Oversized                        (* error reply, connection closed *)
  | Malformed (rest : bytes)         (* error reply, loop continues *)
  | Received_ (j : Json) (rest : bytes).

Definition receive (l : bytes) : Received :=
  match readexactly 4 l with
  | None => Incomplete
  | Some (raw_len, l) =>
      let msg_len := int_from_bytes raw_len in
      if (MAX_MESSAGE <? msg_len)%Z then Oversized
      else
        match readexactly (Z.to_nat msg_len) l with
        | None => Incomplete
        | Some (raw_msg, l) =>
            match loads (String.string_of_list_ascii raw_msg) with
            | None => Malformed l
            | Some j => Received_ j l
            end
        end
  end.

(** ** Fields *)

(** A decoded object as the handlers read it; [None] when some field they
    use has a type outside the model. *)
Definition str_field (k : string) (o : dict string Json) : option (option string) :=
  match dget k o with
  | None => Some None
  | Some (JStr s) => Some (Some s)
  | Some _ => None
  end.

Definition str_of (j : Json) : option string :=
  match j with JStr s => Some s | _ => None end.

Definition strs_field (k : string) (o : dict string Json) : option (option (list string)) :=
  match dget k o with
  | None => Some None
  | Some (JArr l) => Some <$> mapM str_of l
  | Some _ => None
  end.

Definition int_field (k : string) (o : dict string Json) : option (option Z) :=
  match dget k o with
  | None => Some None
  | Some (JInt z) => Some (Some z)
  | Some _ => None
  end.

Definition message_of (o : dict string Json) : option Message :=
  c ← str_field "command" o;
  q ← str_field "queue" o;
  w ← str_field "worker_id" o;
  i ← str_field "task_id" o;
  qs ← strs_field "queues" o;
  n ← int_field "limit" o;
  Some (mkMessage c q (dget "task" o) w i qs n).

(** ** The connection loop *)

(** How [handle_connection] ends.  [OutOfModel] is a message with a field
    of an unexpected type. *)
Inductive Ending := PeerClosed | TooLarge | HandlerRaised | OutOfModel.

(** The [while True] loop: the environment of the [i]-th request is the
    head of [envs].  Every round reads at least the four prefix bytes, so
    [length l] rounds are enough. *)
Fixpoint serve (fuel : nat) (envs : nat → Env) (l : bytes) (b : Broker) :
    option (list Json * Ending * Broker) :=
  match fuel with
  | O => None
  | S fuel =>
      match receive l with
      | Incomplete => Some ([], PeerClosed, b)
      | Oversized => Some ([error "Message too large"], TooLarge, b)
      | Malformed l =>
          '(rs, e, b) ← serve fuel envs l b;
          Some (error "Invalid JSON" :: rs, e, b)
      | Received_ j l =>
          match j with
          | JObj o =>
              match message_of o with
              | None => Some ([], OutOfModel, b)
              | Some m =>
                  match _dispatch (envs 0) m b with
                  | (None, b) => Some ([], HandlerRaised, b)
                  | (Some r, b) =>
                      '(rs, e, b) ← serve fuel (λ i, envs (S i)) l b;
                      Some (r :: rs, e, b)
                  end
              end
          | _ => Some ([], HandlerRaised, b)
          end
      end
  end.

Definition handle_connection (envs : nat → Env) (l : bytes) (b : Broker) :
    option (list Json * Ending * Broker) :=
  '(rs, e, b) ← serve (S (length l)) envs l (add_connections 1 b);
  Some (rs, e, add_connections (-1) b).

(** The clients' side of [_send]: what the response bytes decode to. *)
Definition read_response (l : bytes) : option (Json * bytes) :=
  '(raw_len, l) ← readexactly 4 l;
  '(raw, l) ← readexactly (Z.to_nat (int_from_bytes raw_len)) l;
  j ← loads (String.string_of_list_ascii raw);
  Some (j, l).
End wire.
End Wire.
