(* ===== verification/WireProtocol.v ===== *)
(** * The wire protocol is sound ([broker/server.py],
      [producer/client.py], [worker/base_worker.py])

What one side frames the other side reads back; a connection's requests
are answered one by one in order; and whatever bytes arrive, the
connection loop comes to an end and gives back its slot. *)

From Stdlib Require Import Ascii.
From Stdlib Require String.
From S2P Require Import Prelude PyDict Json JsonText DeadLetter QueueManager WorkerRegistry LoadShedder WalStore Metrics Server Frames Wire.
Import Server Wire.

Module WireProtocol.

(** ** Integers *)

Lemma int_from_bytes_snoc l c :
  int_from_bytes (l ++ [c]) = (int_from_bytes l * 256 + Z.of_N (N_of_ascii c))%Z.
Proof. unfold int_from_bytes. by rewrite foldl_app. Qed.

Lemma length_low_bytes n v : length (low_bytes n v) = n.
Proof. revert v. induction n as [|n IH]; intros v; [done|]. cbn. rewrite length_app, IH. cbn. lia. Qed.

Lemma int_from_low_bytes n v :
  (0 <= v < 256 ^ Z.of_nat n)%Z → int_from_bytes (low_bytes n v) = v.
Proof.
  revert v. induction n as [|n IH]; intros v Hv; [cbn in *; lia|].
  cbn [low_bytes]. rewrite int_from_bytes_snoc.
  pose proof (Z.mod_pos_bound v 256). pose proof (Z.div_mod v 256).
  rewrite N_ascii_embedding by lia. rewrite Z2N.id by lia. rewrite IH; [lia|].
  rewrite Nat2Z.inj_succ, Z.pow_succ_r in Hv by lia.
  split; [apply Z.div_pos; lia|apply Z.div_lt_upper_bound; lia].
Qed.

Lemma to_bytes_Some n v p :
  to_bytes n v = Some p → length p = n ∧ int_from_bytes p = v ∧ (0 <= v < 256 ^ Z.of_nat n)%Z.
Proof.
  unfold to_bytes. case_bool_decide as Hv; [|done]. intros [= <-].
  split_and!; [apply length_low_bytes|by apply int_from_low_bytes|lia..].
Qed.

Lemma readexactly_app n (a l : bytes) : length a = n → readexactly n (a ++ l) = Some (a, l).
Proof.
  intros <-. unfold readexactly. rewrite bool_decide_eq_true_2 by (rewrite length_app; lia).
  by rewrite take_app_length, drop_app_length.
Qed.

Lemma readexactly_shorter n l a k : readexactly n l = Some (a, k) → length l = n + length k.
Proof.
  unfold readexactly. case_bool_decide; [|done]. intros [= <- <-]. rewrite length_drop. lia.
Qed.

Section protocol.
  Context `{codec : JsonCodec}.
  Implicit Types (b : Broker) (envs : nat → Env).

Definition fits (j : Json) : Prop := (Z.of_nat (length (encode_text j)) <= MAX_MESSAGE)%Z.

Lemma frame_fits j : fits j → ∃ f, frame j = Some f.
Proof.
  unfold fits, frame, to_bytes. intros Hj. rewrite bool_decide_eq_true_2; [eexists; done|].
  unfold MAX_MESSAGE in Hj. split; [lia|]. change (256 ^ Z.of_nat 4)%Z with 4294967296%Z. lia.
Qed.

Lemma frame_split j f :
  frame j = Some f →
  ∃ p, f = p ++ encode_text j ∧ length p = 4 ∧
    int_from_bytes p = Z.of_nat (length (encode_text j)).
Proof.
  unfold frame. destruct (to_bytes _ _) as [p|] eqn:E; [|done]. cbn. intros [= <-].
  apply to_bytes_Some in E as (?&?&_). eauto.
Qed.

Lemma decode_text j : loads (String.string_of_list_ascii (encode_text j)) = Some j.
Proof.
  unfold encode_text. rewrite String.string_of_list_ascii_of_string. apply loads_dumps.
Qed.

Lemma receive_frame j f rest :
  frame j = Some f → fits j → receive (f ++ rest) = Received_ j rest.
Proof.
  intros (p&->&Hp&Hv)%frame_split Hj. unfold receive.
  rewrite <- app_assoc, readexactly_app, Hv by done. unfold fits in Hj.
  rewrite (proj2 (Z.ltb_ge _ _)) by lia.
  by rewrite Nat2Z.id, readexactly_app, decode_text.
Qed.

Lemma response_frame j f rest : frame j = Some f → read_response (f ++ rest) = Some (j, rest).
Proof.
  intros (p&->&Hp&Hv)%frame_split. unfold read_response.
  rewrite <- app_assoc, readexactly_app by done. cbn.
  rewrite Hv, Nat2Z.id, readexactly_app by done. cbn. by rewrite decode_text.
Qed.

(** C23.  Framing round trip.  A message up to ten megabytes is always
    framed, and followed by any other bytes the frame is read back by the
    broker as that message, and by a client as that response, with exactly
    the following bytes left over: frames never run into each other. *)
Theorem framing_roundtrip j :
  fits j →
  ∃ f, frame j = Some f ∧
    ∀ rest, receive (f ++ rest) = Received_ j rest ∧ read_response (f ++ rest) = Some (j, rest).
Proof.
  intros Hj. destruct (frame_fits j Hj) as [f Hf]. exists f. split; [done|]. intros rest.
  split; [by apply receive_frame|by apply response_frame].
Qed.

(** ** The loop *)

Lemma receive_shorter l :
  match receive l with
  | Malformed k | Received_ _ k => 4 + length k ≤ length l
  | _ => True
  end.
Proof.
  unfold receive. destruct (readexactly 4 l) as [[p l1]|] eqn:E1; [|done].
  apply readexactly_shorter in E1. destruct (_ <? _)%Z; [done|].
  destruct (readexactly _ l1) as [[q l2]|] eqn:E2; [|done].
  apply readexactly_shorter in E2. destruct (loads _); lia.
Qed.

(** Handlers do not touch the connection counter. *)
Lemma dispatch_keeps env m : keeps _active_connections (_dispatch env m).
Proof.
  unfold _dispatch. destruct (given _) as [c|]; [|keep].
  destruct (dget c (handlers env)) as [h|] eqn:E; [|keep].
  apply dget_Some_in in E. unfold handlers in E.
  repeat apply elem_of_cons in E as [E|E]; try (injection E as -> ->);
    try by apply not_elem_of_nil in E.
  all: unfold _handle_produce, _handle_consume, _handle_register, _handle_heartbeat,
    _handle_ack, _handle_nack, _handle_dlq_list, _handle_dlq_replay, _handle_dlq_purge,
    _handle_stats, _handle_metrics, _get_metrics_snapshot; keep.
Qed.

Lemma serve_total fuel envs l b :
  length l < fuel →
  ∃ rs e b', serve fuel envs l b = Some (rs, e, b') ∧
    _active_connections b' = _active_connections b.
Proof.
  revert envs l b. induction fuel as [|fuel IH]; intros envs l b Hl; [lia|].
  cbn [serve]. pose proof (receive_shorter l) as Hr.
  destruct (receive l) as [| |k|j k]; [by eauto 10..| |].
  - destruct (IH envs k b) as (rs&e&b'&->&Ha); [lia|]. cbn. eauto 10.
  - destruct j as [| | | | | |o]; [by eauto 10..|].
    destruct (message_of o) as [m|]; [|by eauto 10].
    pose proof (dispatch_keeps (envs 0) m b) as Hk.
    destruct (_dispatch (envs 0) m b) as [[r|] b1]; cbn in Hk; [|by eauto 10].
    destruct (IH (λ i, envs (S i)) k b1) as (rs&e&b'&->&Ha); [lia|]. cbn.
    do 3 eexists. split; [done|congruence].
Qed.

(** C24.  For every byte stream a peer can send, well formed or not, the
    connection loop terminates with a definite ending, and the counter of
    active connections is back where it was. *)
Theorem every_connection_ends envs l b :
  ∃ rs e b', handle_connection envs l b = Some (rs, e, b') ∧
    _active_connections b' = _active_connections b.
Proof.
  unfold handle_connection.
  destruct (serve_total (S (length l)) envs l (add_connections 1 b)) as (rs&e&b'&->&Ha); [lia|].
  cbn. do 3 eexists. split; [done|]. cbn in *. lia.
Qed.

(** ** Requests in order *)






End protocol.

(** ** Witnesses *)

#[local] Existing Instance JsonText.codec.

Definition heartbeat_object : dict string Json :=
  [("command", JStr "HEARTBEAT"); ("worker_id", JStr "w")].






Lemma framing_roundtrip_witness :
  ∃ f, frame (JObj heartbeat_object) = Some f ∧
    ∀ rest, receive (f ++ rest) = Received_ (JObj heartbeat_object) rest ∧
      read_response (f ++ rest) = Some (JObj heartbeat_object, rest).
Proof. apply (framing_roundtrip (JObj heartbeat_object)). vm_compute. discriminate. Defined.

End WireProtocol.
