(* ===== verification/Producer.v ===== *)
(** * Producer side ([producer/backoff.py], [producer/client.py])

The backoff calculator and the [produce] loop of the client.  The random
number of [random.uniform(0, c)] is [c * u] for a reading [u] in [[0, 1]].
The connection is a parameter: [send] transmits one request and returns
the decoded response ([None] is a lost connection), [sleep] lets time
pass. *)

From Stdlib Require Import Qpower.
From S2P Require Import Prelude PyDict Json.

Module Backoff.
  Local Open Scope Q_scope.

Record t := mk {
  base_delay : Q;
  max_delay : Q;
  multiplier : Q;
  jitter : bool;
  max_attempts : Z;
  _attempt : Z;
}.

(** [ExponentialBackoff(max_attempts=n)] with the other defaults. *)
Definition init (n : Z) : t := mk 1 60 2 true n 0.

Definition attempt (b : t) : Z := _attempt b.

Definition exhausted (b : t) : bool := (max_attempts b <=? _attempt b)%Z.

Definition advance (b : t) : t :=
  mk (base_delay b) (max_delay b) (multiplier b) (jitter b) (max_attempts b) (_attempt b + 1).

Definition exp_delay (b : t) : Q := base_delay b * multiplier b ^ _attempt b.

Definition capped_delay (b : t) : Q := py_min (exp_delay b) (max_delay b).

(** [None] is the [RuntimeError] of an exhausted backoff. *)
Definition next_wait (u : Q) (retry_after : option Q) (b : t) : option (Q * t) :=
  if exhausted b then None
  else
    let delay := if jitter b then 0 + (capped_delay b - 0) * u else capped_delay b in
    let delay := match retry_after with Some ra => py_max delay ra | None => delay end in
    Some (delay, advance b).

Definition reset (b : t) : t :=
  mk (base_delay b) (max_delay b) (multiplier b) (jitter b) (max_attempts b) 0.

(** ** Bounds *)

Definition params_ok (b : t) : Prop :=
  0 <= base_delay b ∧ 0 <= max_delay b ∧ 1 <= multiplier b ∧ (0 <= _attempt b)%Z.

Lemma Qpower_ge_1 q n : 1 <= q → (0 <= n)%Z → 1 <= q ^ n.
Proof.
  intros Hq Hn. rewrite <- (Z2Nat.id n) by done. induction (Z.to_nat n) as [|k IH]; [change (q ^ Z.of_nat 0) with 1; lra|].
  rewrite Nat2Z.inj_succ, <- Z.add_1_r, Qpower_plus' by lia.
  change (q ^ 1) with q. assert (1 * 1 <= q ^ Z.of_nat k * q); [|lra].
  apply Qmult_le_compat_nonneg; split; lra.
Qed.

Lemma capped_delay_bounds b : params_ok b → 0 <= capped_delay b <= max_delay b.
Proof.
  intros (Hb&Hm&Hx&Hn). unfold capped_delay. split; [|apply py_min_le_r].
  apply py_min_glb; [|done]. unfold exp_delay.
  pose proof (Qpower_ge_1 _ _ Hx Hn). apply Qmult_le_0_compat; lra.
Qed.

(** The jittered delay before the hint is applied. *)
Lemma jittered_bounds u c : 0 <= u <= 1 → 0 <= c → 0 <= 0 + (c - 0) * u <= c.
Proof.
  intros [Hu1 Hu2] Hc. assert (0 <= c * u) by (by apply Qmult_le_0_compat).
  assert (c * u <= c * 1) by (rewrite !(Qmult_comm c); by apply Qmult_le_compat_r). lra.
Qed.

Lemma next_wait_spec u ra b :
  0 <= u <= 1 → params_ok b →
  match next_wait u ra b with
  | None => (max_attempts b <= _attempt b)%Z
  | Some (w, b') =>
      (_attempt b < max_attempts b)%Z ∧ b' = advance b ∧ 0 <= w ∧
      match ra with
      | Some h => h <= w ∧ w <= py_max (capped_delay b) h
      | None => w <= capped_delay b
      end
  end.
Proof.
  intros Hu Hb. pose proof (capped_delay_bounds b Hb) as [Hc _].
  pose proof (jittered_bounds u _ Hu Hc) as Hj.
  unfold next_wait, exhausted. destruct (_ <=? _)%Z eqn:E; [lia|].
  set (d := if jitter b then _ else _).
  assert (0 <= d <= capped_delay b) as [Hd1 Hd2] by (unfold d; destruct (jitter b); lra).
  destruct ra as [h|]; split_and!; try done; try lia; try lra.
  - eapply Qle_trans; [exact Hd1|apply py_max_ge_l].
  - apply py_max_ge_r.
  - apply py_max_lub; [|apply py_max_ge_r]. eapply Qle_trans; [exact Hd2|apply py_max_ge_l].
Qed.
End Backoff.

Module Client.
  Local Open Scope Q_scope.

(** How a call of [produce] ends. *)
Inductive Outcome :=
  | Submitted (tid : string)       (* the broker's task id *)
  | Exhausted                      (* RuntimeError of the backoff *)
  | Rejected (reason : Json)       (* RuntimeError: broker rejected task *)
  | ConnectionLost
  | BadResponse.                   (* KeyError: a field is missing *)

Section client.
  Context {S : Type} (send : Json → S → option Json * S) (sleep : Q → S → S).

Definition request (qn : string) (p : Json) : Json :=
  JObj [("command", JStr "PRODUCE"); ("queue", JStr qn); ("task", p)].

(** [response.get("retry_after_seconds", 1.0)] *)
Definition retry_hint (r : Json) : option Q :=
  match obj_get "retry_after_seconds" r with
  | None => Some 1
  | Some (JFloat q) => Some q
  | Some (JInt z) => Some (inject_Z z)
  | Some _ => None
  end.

(** The [while True] loop.  Its trace lists, for every wait, the hint and
    the time slept; [us] are the successive random readings. *)
Fixpoint produce_loop (fuel : nat) (us : nat → Q) (qn : string) (p : Json) (b : Backoff.t)
    (s : S) : option (Outcome * list (Q * Q) * S) :=
  match fuel with
  | O => None
  | Datatypes.S fuel =>
      let '(o, s) := send (request qn p) s in
      match o with
      | None => Some (ConnectionLost, [], s)
      | Some r =>
          match obj_get "status" r with
          | None => Some (BadResponse, [], s)
          | Some st =>
              if bool_decide (st = JStr "ok") then
                match obj_get "task_id" r with
                | Some (JStr tid) => Some (Submitted tid, [], s)
                | _ => Some (BadResponse, [], s)
                end
              else if bool_decide (st = JStr "rate_limited") then
                match retry_hint r with
                | None => Some (BadResponse, [], s)
                | Some h =>
                    match Backoff.next_wait (us 0%nat) (Some h) b with
                    | None => Some (Exhausted, [], s)
                    | Some (w, b) =>
                        '(out, trace, s) ←
                          produce_loop fuel (λ i, us (Datatypes.S i)) qn p b (sleep w s);
                        Some (out, (h, w) :: trace, s)
                    end
                end
              else Some (Rejected (default (JStr "Unknown error") (obj_get "reason" r)), [], s)
          end
      end
  end.

(** At most [max_retries] waits, so [max_retries + 1] rounds. *)
Definition produce (us : nat → Q) (qn : string) (p : Json) (max_retries : Z) (s : S) :
    option (Outcome * list (Q * Q) * S) :=
  produce_loop (Z.to_nat max_retries + 1) us qn p (Backoff.init max_retries) s.

(** [produce_batch]: one [produce] per payload, the first failure propagates. *)
Fixpoint produce_batch (us : nat → nat → Q) (qn : string) (ps : list Json) (s : S) :
    option (list string * option Outcome * S) :=
  match ps with
  | [] => Some ([], None, s)
  | p :: ps =>
      '(out, _, s) ← produce (us 0%nat) qn p 10 s;
      match out with
      | Submitted tid =>
          '(tids, e, s) ← produce_batch (λ i, us (Datatypes.S i)) qn ps s;
          Some (tid :: tids, e, s)
      | e => Some ([], Some e, s)
      end
  end.

(** ** The loop ends *)

Definition unit_readings (us : nat → Q) : Prop := ∀ i, 0 <= us i <= 1.

Lemma advance_params b : Backoff.params_ok b → Backoff.params_ok (Backoff.advance b).
Proof. intros (?&?&?&?). split_and!; cbn; [done..|lia]. Qed.

(** A wait at least as long as the hint and, when the hint is below the
    cap of the backoff, never longer than the cap. *)
Definition wait_ok (cap : Q) (hw : Q * Q) : Prop :=
  hw.1 <= hw.2 ∧ 0 <= hw.2 ∧ hw.2 <= py_max cap hw.1.

Lemma produce_loop_total fuel us qn p b s :
  unit_readings us → Backoff.params_ok b →
  (Backoff.max_attempts b - Backoff._attempt b < Z.of_nat fuel)%Z → (0 < fuel)%nat →
  ∃ out trace s', produce_loop fuel us qn p b s = Some (out, trace, s') ∧
    (Z.of_nat (length trace) <= Z.max 0 (Backoff.max_attempts b - Backoff._attempt b))%Z ∧
    (out = Exhausted →
       Z.of_nat (length trace) = Z.max 0 (Backoff.max_attempts b - Backoff._attempt b)) ∧
    Forall (wait_ok (Backoff.max_delay b)) trace.
Proof.
  revert us b s. induction fuel as [|fuel IH]; intros us b s Hus Hb Hf Hpos; [lia|].
  cbn [produce_loop]. destruct (send _ s) as [[r|] s1]; [|by do 3 eexists; split_and!; [..|constructor]; cbn; try lia].
  destruct (obj_get "status" r) as [st|]; [|by do 3 eexists; split_and!; [..|constructor]; cbn; try lia].
  case_bool_decide.
  { destruct (obj_get "task_id" r) as [[]|]; by do 3 eexists; split_and!; [..|constructor]; cbn; try lia. }
  case_bool_decide; [|by do 3 eexists; split_and!; [..|constructor]; cbn; try lia].
  destruct (retry_hint r) as [h|]; [|by do 3 eexists; split_and!; [..|constructor]; cbn; try lia].
  pose proof (Backoff.next_wait_spec (us 0%nat) (Some h) b (Hus 0%nat) Hb) as Hw.
  destruct (Backoff.next_wait _ _ b) as [[w b']|].
  2: { do 3 eexists; split_and!; [done|..|constructor]; cbn; lia. }
  destruct Hw as (Hlt&->&Hw0&Hh&Hcap).
  destruct (IH (λ i, us (Datatypes.S i)) (Backoff.advance b) (sleep w s1))
    as (out&trace&s'&->&Hl&Hx&Ht); [intros i; apply Hus|by apply advance_params|cbn; lia|lia|].
  cbn in Hl, Hx. cbn [mbind option_bind]. do 3 eexists. split_and!; [done|cbn; lia| |].
  - intros Ho. specialize (Hx Ho). cbn. lia.
  - constructor; [|exact Ht]. split_and!; cbn; [done..|].
    eapply Qle_trans; [exact Hcap|].
    pose proof (Backoff.capped_delay_bounds b Hb) as [_ Hm].
    apply py_max_lub; [|apply py_max_ge_r]. eapply Qle_trans; [exact Hm|apply py_max_ge_l].
Qed.
End client.
End Client.
