(* ===== verification/Session.v ===== *)
(** * The producer's connection ([producer/client.py])

The life of a [ProducerClient]: [connect], requests, [close], and the
[async with] statement.  Operating system handles (sockets here, process
pools in [Deployment]) are numbers in a set of open handles, so that a
handle nobody closes shows.  Open are the handles that neither the program
nor asyncio, on a reset, has closed; a finalizer (the garbage collector's,
or [StreamWriter.__del__] from Python 3.12 on) may still close one that
nothing refers to any more, which the program does not count on and which
is not modelled. *)

From S2P Require Import Prelude PyDict Json Producer.

(** ** Handles *)

Module Os.

Record table := mkTable { open_handles : gset nat; next_handle : nat }.

Definition acquire (o : table) : nat * table :=
  (next_handle o, mkTable ({[next_handle o]} ∪ open_handles o) (S (next_handle o))).

Definition release (h : nat) (o : table) : table := mkTable (open_handles o ∖ {[h]}) (next_handle o).

(** asyncio closes the socket of a connection by itself when the peer resets
    the connection, not when the peer merely ends its stream. *)
Definition lose (reset : bool) (h : option nat) (o : table) : table :=
  match h with Some h => if reset then release h o else o | None => o end.

(** Handles are numbered in the order they are opened. *)
Definition wf (o : table) : Prop := ∀ h, h ∈ open_handles o → h < next_handle o.

Lemma acquire_wf o : wf o → wf (acquire o).2.
Proof. intros Ho h. cbn. intros [->%elem_of_singleton|Hh%Ho]%elem_of_union; lia. Qed.

Lemma release_wf h o : wf o → wf (release h o).
Proof. intros Ho h'. cbn. intros [Hh _]%elem_of_difference. by apply Ho. Qed.

Lemma lose_wf reset h o : wf o → wf (lose reset h o).
Proof. intros Ho. destruct h, reset; [by apply release_wf|done..]. Qed.

Lemma acquire_release o : wf o → open_handles (release (acquire o).1 (acquire o).2) = open_handles o.
Proof.
  intros Ho. cbn. assert (next_handle o ∉ open_handles o) as Hn by (intros ?%Ho; lia).
  apply set_eq. set_solver.
Qed.
End Os.

Module Session.

Record t := mk {
  host : string;
  port : Z;
  _reader : option nat;
  _writer : option nat;
  _connected : bool;
}.

(** [ProducerClient(host, port)]; the defaults are ["localhost"] and [5555]. *)
Definition init (h : string) (p : Z) : t := mk h p None None false.

Definition set_connected (b : bool) (c : t) : t := mk (host c) (port c) (_reader c) (_writer c) b.

Definition is_connected (c : t) : bool := _connected c.

(** What can come out of the calls: [ConnectionRefusedError], another
    [OSError] of [open_connection], what [produce] raises, an error of
    [wait_closed]. *)
Inductive Exn := Refused | NetworkError | Failed (out : Client.Outcome) | CloseError.

(** How an attempt to open a connection ends. *)
Inductive Dial := Answered | TurnedAway | Unreachable.

Section session.
Context {S : Type} (dial : string → Z → S → Dial).
Context (send : Json → S → option Json * S) (sleep : Q → S → S).

Definition World : Type := Os.table * S.

(** [asyncio.open_connection] *)
Definition open_connection (h : string) (p : Z) (w : World) : (Exn + nat) * World :=
  match dial h p w.2 with
  | Answered => let '(fd, o) := Os.acquire w.1 in (inr fd, (o, w.2))
  | TurnedAway => (inl Refused, w)
  | Unreachable => (inl NetworkError, w)
  end.

Definition connect (c : t) (w : World) : option Exn * t * World :=
  match open_connection (host c) (port c) w with
  | (inl e, w) => (Some e, c, w)
  | (inr fd, w) => (None, mk (host c) (port c) (Some fd) (Some fd) true, w)
  end.

(** [None] is an exception: the guard's [ConnectionError], or the end of the
    stream. *)
Definition _send (c : t) (message : Json) (s : S) : option Json * S :=
  if negb (_connected c) || bool_decide (_writer c = None) then (None, s) else send message s.

Definition produce (c : t) (us : nat → Q) (qn : string) (p : Json) (retries : Z) (w : World) :
    option (Client.Outcome * World) :=
  '(out, _, s) ← Client.produce (_send c) sleep us qn p retries w.2; Some (out, (w.1, s)).

Definition produce_batch (c : t) (us : nat → nat → Q) (qn : string) (ps : list Json) (w : World) :
    option (list string * option Client.Outcome * World) :=
  '(tids, e, s) ← Client.produce_batch (_send c) sleep us qn ps w.2; Some (tids, e, (w.1, s)).

(** [flushed]: whether [wait_closed] returns. *)
Definition close (flushed : bool) (c : t) (w : World) : option Exn * t * World :=
  match _writer c with
  | Some fd =>
      if _connected c then
        let w := (Os.release fd w.1, w.2) in
        if flushed then (None, set_connected false c, w) else (Some CloseError, c, w)
      else (None, c, w)
  | None => (None, c, w)
  end.

(** ** A block of calls on one client *)

(** [reset]: whether the peer resets the connection during the call. *)
Inductive Call :=
  | Connect
  | Produce (us : nat → Q) (qn : string) (p : Json) (retries : Z) (reset : bool)
  | ProduceBatch (us : nat → nat → Q) (qn : string) (ps : list Json) (reset : bool)
  | Close (flushed : bool).

Definition call (k : Call) (c : t) (w : World) : option (option Exn * t * World) :=
  match k with
  | Connect => Some (connect c w)
  | Produce us qn p retries reset =>
      match produce c us qn p retries w with
      | Some (out, (o, s)) =>
          let w := (Os.lose reset (_writer c) o, s) in
          Some (match out with Client.Submitted _ => None | out => Some (Failed out) end, c, w)
      | None => None
      end
  | ProduceBatch us qn ps reset =>
      match produce_batch c us qn ps w with
      | Some (_, e, (o, s)) => Some (Failed <$> e, c, (Os.lose reset (_writer c) o, s))
      | None => None
      end
  | Close flushed => Some (close flushed c w)
  end.

(** The first exception ends the block. *)
Fixpoint block (ks : list Call) (c : t) (w : World) : option (option Exn * t * World) :=
  match ks with
  | [] => Some (None, c, w)
  | k :: ks =>
      match call k c w with
      | Some (Some e, c, w) => Some (Some e, c, w)
      | Some (None, c, w) => block ks c w
      | None => None
      end
  end.

Definition __aenter__ := connect.
Definition __aexit__ := close.

(** [async with ProducerClient(..) as c: block].  When [__aenter__] raises,
    [__aexit__] is not called; [__aexit__] returns [None], so an exception
    of the block propagates, unless closing raises one of its own. *)
Definition async_with (ks : list Call) (flushed : bool) (c : t) (w : World) :
    option (option Exn * t * World) :=
  match __aenter__ c w with
  | (Some e, c, w) => Some (Some e, c, w)
  | (None, c, w) =>
      match block ks c w with
      | Some (e, c, w) =>
          let '(e', c, w) := __aexit__ flushed c w in
          Some (match e' with Some e' => Some e' | None => e end, c, w)
      | None => None
      end
  end.

(** ** The block ends *)

Definition call_ok (k : Call) : Prop :=
  match k with
  | Produce us _ _ _ _ => Client.unit_readings us
  | ProduceBatch us _ _ _ => ∀ i, Client.unit_readings (us i)
  | Connect | Close _ => True
  end.

Lemma init_params_ok n : Backoff.params_ok (Backoff.init n).
Proof. unfold Backoff.params_ok. cbn. split_and!; try lra. done. Qed.

Lemma produce_total (send' : Json → S → option Json * S) us qn p n s :
  Client.unit_readings us →
  ∃ out trace s', Client.produce send' sleep us qn p n s = Some (out, trace, s').
Proof.
  intros Hus.
  destruct (Client.produce_loop_total send' sleep (Z.to_nat n + 1) us qn p (Backoff.init n) s)
    as (out&trace&s'&E&_); [done|apply init_params_ok|cbn; lia|lia|]. by exists out, trace, s'.
Qed.

Lemma produce_batch_total (send' : Json → S → option Json * S) us qn ps s :
  (∀ i, Client.unit_readings (us i)) →
  ∃ tids e s', Client.produce_batch send' sleep us qn ps s = Some (tids, e, s').
Proof.
  revert us s. induction ps as [|p ps IH]; intros us s Hus; [by do 3 eexists|].
  cbn [Client.produce_batch].
  destruct (produce_total send' (us 0) qn p 10 s (Hus 0)) as (out&tr&s1&->). cbn [mbind option_bind].
  destruct out; try (by do 3 eexists).
  destruct (IH (λ i, us (Datatypes.S i)) s1) as (tids&e&s2&->); [intros i; apply Hus|].
  by do 3 eexists.
Qed.

(** ** Sockets nobody closes *)

(** The client's socket, if it is still open. *)
Definition current (c : t) (w : World) : gset nat :=
  match _writer c with Some fd => {[fd]} ∩ Os.open_handles w.1 | None => ∅ end.

(** The open sockets a block forgets: a [connect] that succeeds overwrites
    the socket of the connection before. *)
Fixpoint overwritten (ks : list Call) (c : t) (w : World) : gset nat :=
  match ks with
  | [] => ∅
  | k :: ks =>
      match call k c w with
      | Some (None, c', w') =>
          match k with Connect => current c w | _ => ∅ end ∪ overwritten ks c' w'
      | _ => ∅
      end
  end.

(** Open are the handles of [o] and perhaps the client's current socket,
    which is closed once the client is disconnected. *)
Definition holds (o : gset nat) (c : t) (w : World) : Prop :=
  ∃ fd, _writer c = Some fd ∧ (fd ∉ o) ∧ Os.wf w.1 ∧ (∀ h, h ∈ o → h ∈ Os.open_handles w.1) ∧
    (∀ h, h ∈ Os.open_handles w.1 → h ∈ o ∨ h = fd) ∧
    (_connected c = false → fd ∉ Os.open_handles w.1).

Lemma holds_lose reset o c w s :
  holds o c w → holds o c (Os.lose reset (_writer c) w.1, s).
Proof.
  intros (fd&Hw&Hfd&Hwf&Hin&Hout&Hc). exists fd. rewrite Hw.
  destruct reset; cbn; [|by split_and!]. split_and!; try done; [by apply Os.release_wf|..].
  - intros h Hh. apply elem_of_difference. split; [by apply Hin|]. intros ->%elem_of_singleton. done.
  - intros h [Hh _]%elem_of_difference. auto.
  - set_solver.
Qed.

Lemma connect_holds o c w c' w' :
  Os.wf w.1 → (∀ h, h ∈ o ↔ h ∈ Os.open_handles w.1) → connect c w = (None, c', w') → holds o c' w'.
Proof.
  intros Hw Ho. unfold connect, open_connection. destruct (dial _ _ _); try done.
  intros [= <- <-]. exists (Os.next_handle w.1). cbn. split_and!; try done.
  - intros Hn%Ho%Hw. lia.
  - by apply (Os.acquire_wf w.1).
  - intros h Hh. apply elem_of_union. right. by apply Ho.
  - intros h [->%elem_of_singleton|Hh]%elem_of_union; [by right|left; by apply Ho].
Qed.

Lemma holds_open o c w h :
  holds o c w → h ∈ o ∪ current c w ↔ h ∈ Os.open_handles w.1.
Proof.
  intros (fd&Hw&Hfd&Hwf&Hin&Hout&Hc). unfold current. rewrite Hw. split.
  - intros [Hh|Hh]%elem_of_union; [by apply Hin|set_solver].
  - intros Hh. destruct (Hout h Hh) as [?| ->]; set_solver.
Qed.

Lemma close_holds flushed o c w :
  holds o c w →
  let '(e, c', w') := close flushed c w in
  holds o c' w' ∧ Os.open_handles w'.1 = o ∧
  e = (if flushed || negb (_connected c) then None else Some CloseError) ∧
  _connected c' = negb flushed && _connected c.
Proof.
  intros Hh. pose proof (holds_lose true o c w w.2 Hh) as Hl.
  destruct Hh as (fd&Hw&Hfd&Hwf&Hin&Hout&Hc). unfold close. rewrite Hw in *. cbn [Os.lose] in Hl.
  assert (Hopen : Os.open_handles (Os.release fd w.1) = o).
  { apply set_eq. intros h. cbn. rewrite elem_of_difference, elem_of_singleton. split.
    - intros [Hh Hne]. by destruct (Hout h Hh).
    - intros Hh. split; [by apply Hin|]. by intros ->. }
  destruct (_connected c) eqn:Ec.
  - destruct flushed; (split_and!; [|done..]); [|exact Hl].
    destruct Hl as (fd'&Hw'&H1&H2&H3&H4&_). rewrite Hw in Hw'. injection Hw' as <-. exists fd.
    split_and!; try done. intros _. cbn. set_solver.
  - split_and!; [by exists fd; split_and!; auto| |by destruct flushed|by rewrite Ec; destruct flushed].
    rewrite <- Hopen. apply set_eq. intros h. cbn. specialize (Hc eq_refl). set_solver.
Qed.

Lemma call_holds k o c w :
  call_ok k → holds o c w →
  ∃ e c' w', call k c w = Some (e, c', w') ∧
    holds (o ∪ match k, e with Connect, None => current c w | _, _ => ∅ end) c' w'.
Proof.
  intros Hk Hh.
  destruct k as [|us qn p n reset|us qn ps reset|flushed]; cbn [call call_ok] in *; rewrite ?(right_id_L ∅ (∪)).
  - destruct (connect c w) as [[[e|] c'] w'] eqn:E; do 3 eexists; (split; [reflexivity|]).
    + cbn iota. rewrite (right_id_L ∅ (∪)). unfold connect, open_connection in E.
      destruct (dial _ _ _); by simplify_eq.
    + eapply connect_holds; [by destruct Hh as (?&_&_&?&_)| |exact E]. intros h. by apply holds_open.
  - unfold produce. destruct (produce_total (_send c) us qn p n w.2 Hk) as (out&tr&s'&->).
    cbn [mbind option_bind]. do 3 eexists. split; [reflexivity|]. by apply holds_lose.
  - unfold produce_batch. destruct (produce_batch_total (_send c) us qn ps w.2 Hk) as (tids&e&s'&->).
    cbn [mbind option_bind]. do 3 eexists. split; [reflexivity|]. by apply holds_lose.
  - pose proof (close_holds flushed o c w Hh) as H. destruct (close flushed c w) as [[e c'] w'].
    do 3 eexists. split; [reflexivity|]. apply H.
Qed.

Lemma block_holds ks o c w :
  Forall call_ok ks → holds o c w →
  ∃ e c' w', block ks c w = Some (e, c', w') ∧ holds (o ∪ overwritten ks c w) c' w'.
Proof.
  intros Hks. revert o c w. induction Hks as [|k ks Hk _ IH]; intros o c w Hh; cbn [block overwritten].
  { do 3 eexists. split; [reflexivity|]. by rewrite (right_id_L ∅ (∪)). }
  destruct (call_holds k o c w Hk Hh) as ([e|]&c'&w'&->&Hh').
  - do 3 eexists. split; [reflexivity|]. by destruct k.
  - rewrite (assoc_L (∪)). by apply IH; destruct k.
Qed.

Lemma no_connect_overwrites ks c w : Connect ∉ ks → overwritten ks c w = ∅.
Proof.
  revert c w. induction ks as [|k ks IH]; intros c w Hk; [done|]. cbn [overwritten].
  apply not_elem_of_cons in Hk as [Hne Hk].
  destruct (call k c w) as [[[[e|] c'] w']|]; [done| |done]. rewrite IH by done.
  rewrite (right_id_L ∅ (∪)). by destruct k.
Qed.

(** C34.  What [async with ProducerClient(..)] does with its connection.
    For every block of calls -- whether it succeeds, is rate limited to
    exhaustion, loses the connection, closes the client itself or calls
    [connect] again -- the statement ends with the sockets open that were
    open before it and those that a further [connect] of the block has
    overwritten while they were open; so a block that does not call
    [connect] leaks nothing.  If the connection cannot be opened, that
    exception propagates; otherwise the block's does, unless the client is
    still connected and [wait_closed] raises, whose exception then takes its
    place and which leaves the client marked as connected.  (Open are the
    sockets nobody has closed, finalizers apart.) *)
Theorem async_with_closes ks flushed h p w :
  Os.wf w.1 → Forall call_ok ks →
  ∃ e c' w', async_with ks flushed (init h p) w = Some (e, c', w') ∧
    match connect (init h p) w with
    | (Some e1, _, _) => e = Some e1 ∧ Os.open_handles w'.1 = Os.open_handles w.1
    | (None, c1, w1) =>
        Os.open_handles w'.1 = Os.open_handles w.1 ∪ overwritten ks c1 w1 ∧
        (Connect ∉ ks → Os.open_handles w'.1 = Os.open_handles w.1) ∧
        ∃ e2 c2 w2, block ks c1 w1 = Some (e2, c2, w2) ∧
          e = (if flushed || negb (is_connected c2) then e2 else Some CloseError) ∧
          is_connected c' = negb flushed && is_connected c2
    end.
Proof.
  intros Hw Hks. unfold async_with, __aenter__, __aexit__.
  destruct (connect (init h p) w) as [[[e|] c1] w1] eqn:E.
  - exists (Some e), c1, w1. unfold connect, open_connection in E.
    destruct (dial _ _ _); by simplify_eq.
  - pose proof (connect_holds (Os.open_handles w.1) _ _ _ _ Hw (λ _, iff_refl _) E) as Hh.
    destruct (block_holds ks _ c1 w1 Hks Hh) as (e&c2&w2&->&Hh2).
    pose proof (close_holds flushed _ c2 w2 Hh2) as H.
    destruct (close flushed c2 w2) as [[e' c'] w']. destruct H as (_&Ho&->&Hc).
    do 3 eexists. split; [reflexivity|]. split_and!; [done| |].
    + intros Hk. by rewrite Ho, no_connect_overwrites, (right_id_L ∅ (∪)).
    + exists e, c2, w2. split_and!; [done| |done]. unfold is_connected. by destruct (_ || _).
Qed.
End session.

(** A peer that answers the first request and then goes away. *)
Definition fading (m : Json) (n : nat) : option Json * nat :=
  match n with
  | O => (None, O)
  | S n => (Some (JObj [("status", JStr "ok"); ("task_id", JStr "t")]), n)
  end.

(** The second request fails, after a second [connect]. *)
Lemma async_with_closes_witness :
  let dial _ _ _ := Answered in let w := (Os.mkTable {[3]} 4, 1) in
  let ks := [Produce (λ _, 0%Q) "q" (JObj []) 3 false; Connect; Produce (λ _, 0%Q) "q" (JObj []) 3 true] in
  ∃ e c' w', async_with dial fading (λ _ n, n) ks true (init "localhost" 5555) w = Some (e, c', w') ∧
    match connect dial (init "localhost" 5555) w with
    | (Some e1, _, _) => e = Some e1 ∧ Os.open_handles w'.1 = Os.open_handles w.1
    | (None, c1, w1) =>
        Os.open_handles w'.1 = Os.open_handles w.1 ∪ overwritten dial fading (λ _ n, n) ks c1 w1 ∧
        (Connect ∉ ks → Os.open_handles w'.1 = Os.open_handles w.1) ∧
        ∃ e2 c2 w2, block dial fading (λ _ n, n) ks c1 w1 = Some (e2, c2, w2) ∧
          e = (if true || negb (is_connected c2) then e2 else Some CloseError) ∧
          is_connected c' = negb true && is_connected c2
    end.
Proof.
  intros dial w ks. apply (async_with_closes dial fading (λ _ n, n)).
  - intros h Hh. cbn in *. apply elem_of_singleton in Hh. lia.
  - repeat constructor; by vm_compute.
Defined.

(** The first socket stays open; the exception is that of the request. *)
Example reconnect_leaks :
  (λ r, (r.1.1, elements (Os.open_handles r.2.1))) <$>
    async_with (λ _ _ _, Answered) fading (λ _ n, n)
      [Connect; Produce (λ _, 0%Q) "q" (JObj []) 3 false; Produce (λ _, 0%Q) "q" (JObj []) 3 false]
      true (init "localhost" 5555) (Os.mkTable {[3]} 4, 1) =
  Some (Some (Failed Client.ConnectionLost), [4; 3]).
Proof. vm_compute. reflexivity. Qed.
End Session.
