(* ===== verification/ServerLife.v ===== *)
(** * Starting and stopping the broker ([broker/server.py],
      [broker/http_api.py])

[BrokerServer.start] recovers the stored tasks, then opens the TCP and the
HTTP listener and starts the eviction task; [stop] undoes it in reverse.
Listeners are handles of [Os]; which ports are free is up to the
environment. *)

From S2P Require Import Prelude PyDict Json JsonText DeadLetter QueueManager WorkerRegistry LoadShedder WalStore Metrics Server Recovery ControlPlane Supervision Leases Producer Session.
Import Server Control Leases.

Module ServerLife.

(** [_http]: the [HTTPAPIServer] once it exists, with its listener.
    [_store_open]: whether the store holds a connection. *)
Record t := mk {
  broker : Broker;
  _server : option nat;
  _http : option (option nat);
  _eviction_task : bool;
  _store_open : bool;
}.

(** [BrokerServer(db_path=..)] *)
Definition init (db : option Wal.Db) (mono : Q) : t :=
  mk (new_broker db mono) None None false (bool_decide (is_Some db)).

Inductive StartEnd := Serving | RecoveryFailed | TcpPortBusy | HttpPortBusy.

Definition start_server (free : bool) (o : Os.table) : option nat * Os.table :=
  if free then let '(fd, o) := Os.acquire o in (Some fd, o) else (None, o).

Section life.
Context `{codec : JsonCodec}.

(** [start], up to [serve_forever]. *)
Definition start (env : Env) (tcp_free http_free : bool) (s : t) (o : Os.table) : StartEnd * t * Os.table :=
  match start_recovery env (broker s) with
  | (None, b) => (RecoveryFailed, mk b (_server s) (_http s) (_eviction_task s) (_store_open s), o)
  | (Some _, b) =>
      match start_server tcp_free o with
      | (None, o) => (TcpPortBusy, mk b (_server s) (_http s) (_eviction_task s) (_store_open s), o)
      | (Some tcp, o) =>
          match start_server http_free o with
          | (None, o) => (HttpPortBusy, mk b (Some tcp) (Some None) (_eviction_task s) (_store_open s), o)
          | (Some http, o) =>
              let b := set_registry (Registry.set_running true (worker_registry b)) b in
              (Serving, mk b (Some tcp) (Some (Some http)) true (_store_open s), o)
          end
      end
  end.

Definition http_stop (h : option (option nat)) (o : Os.table) : Os.table :=
  match h with Some (Some fd) => Os.release fd o | _ => o end.

Definition stop (s : t) (o : Os.table) : t * Os.table :=
  match _server s with
  | None => (s, o)
  | Some tcp =>
      let b := broker s in
      let b := set_registry (Registry.stop_eviction_loop (worker_registry b)) b in
      let o := http_stop (_http s) o in
      let o := Os.release tcp o in
      (mk b (_server s) (_http s) false
         (match wal_store b with Some _ => false | None => _store_open s end), o)
  end.

(** Requests and sweeps between the two. *)
Definition serve (evs : list Event) (s : t) : t :=
  mk (Leases.run evs (broker s)) (_server s) (_http s) (_eviction_task s) (_store_open s).

(** A broker that has served any history and is stopped has closed both
    listeners, ended its eviction task and closed its store, and has
    changed nothing else. *)
Lemma stop_undoes_start env db mono tcp_free http_free evs o e s1 o1 :
  Os.wf o → start env tcp_free http_free (init db mono) o = (e, s1, o1) →
  e = Serving ∨ e = HttpPortBusy →
  let '(s2, o2) := stop (serve evs s1) o1 in
  Os.open_handles o2 = Os.open_handles o ∧
  _eviction_task s2 = false ∧ Registry._running (worker_registry (broker s2)) = false ∧
  queue_manager (broker s2) = queue_manager (broker (serve evs s1)) ∧
  wal_store (broker s2) = wal_store (broker (serve evs s1)) ∧
  (is_Some (wal_store (broker s2)) → _store_open s2 = false).
Proof.
  intros Ho. unfold start. destruct (start_recovery env _) as [[n|] b]; [|by intros [= <- _ _] [?|?]].
  unfold start_server. destruct tcp_free; [|by intros [= <- _ _] [?|?]].
  pose proof (Os.acquire_wf o Ho) as Ho1. pose proof (Os.acquire_release o Ho) as H0.
  destruct (Os.acquire o) as [tcp o'] eqn:Et. cbn [fst snd] in *.
  destruct http_free.
  - pose proof (Os.acquire_release o' Ho1) as H1.
    destruct (Os.acquire o') as [http o''] eqn:Eh. cbn [fst snd] in *.
    intros [= <- <- <-] _. unfold stop, serve. cbn.
    split_and!; try done; [|by intros [? ->]].
    cbn in H0. rewrite <- H0. f_equal. exact H1.
  - intros [= <- <- <-] _. unfold stop, serve. cbn. split_and!; try done. by intros [? ->].
Qed.

(** [stop] before [start] does nothing. *)
Lemma stop_unstarted db mono o : stop (init db mono) o = (init db mono, o).
Proof. done. Qed.
End life.
End ServerLife.
