(* ===== verification/EndToEnd.v ===== *)
(** * Producers against the broker ([producer/client.py],
      [broker/server.py], [broker/load_shedder.py])

The client's retry loop is bounded whatever the other side does, and
against a broker that no one else is loading it gets its task in by the
second request. *)

From S2P Require Import Prelude PyDict Json JsonText DeadLetter QueueManager QueueOrder WorkerRegistry LoadShedder AdmissionControl WalStore Metrics Server Requests Wire Producer.
Import Server.

Module EndToEnd.
  Local Open Scope Q_scope.
  Import Client.

Lemma init_params n : Backoff.params_ok (Backoff.init n).
Proof. unfold Backoff.params_ok. cbn. split_and!; try lra. done. Qed.

(** [ProducerClient.produce] against an arbitrary peer: it always
    returns (a task id, or one of its errors) after at most
    [max_retries + 1] requests and [max_retries] waits; it reports
    exhaustion only after all the waits; and every wait is at least the
    broker's hint and at most the larger of the hint and 60 seconds. *)
Theorem produce_is_bounded {S} (send : Json → S → option Json * S) (sleep : Q → S → S)
    us qn p n s :
  unit_readings us → (0 <= n)%Z →
  ∃ out trace s', produce send sleep us qn p n s = Some (out, trace, s') ∧
    (Z.of_nat (length trace) <= n)%Z ∧
    (out = Exhausted → Z.of_nat (length trace) = n) ∧
    Forall (wait_ok 60) trace.
Proof.
  intros Hus Hn.
  destruct (produce_loop_total send sleep (Z.to_nat n + 1) us qn p (Backoff.init n) s)
    as (out&trace&s'&E&Hl&Hx&Ht); [done|apply init_params|cbn; lia|lia|].
  cbn in *. exists out, trace, s'. split_and!; [done|lia| |done].
  intros Ho. specialize (Hx Ho). lia.
Qed.

(** ** A broker as the peer *)

Section peer.
  Context `{codec : JsonCodec} (env_at : Q → Env).
  Hypothesis env_clock : ∀ t, e_mono (env_at t) = t.

(** Requests are handled at once; the clock moves while the client sleeps. *)
Definition broker_send (j : Json) (st : Broker * Q) : option Json * (Broker * Q) :=
  match j with
  | JObj o =>
      match Wire.message_of o with
      | Some m => let '(r, b) := _dispatch (env_at st.2) m st.1 in (r, (b, st.2))
      | None => (None, st)
      end
  | _ => (None, st)
  end.

Definition broker_sleep (w : Q) (st : Broker * Q) : Broker * Q := (st.1, st.2 + w).

Definition produce_message (qn : string) (p : Json) : Message :=
  mkMessage (Some "PRODUCE") (Some qn) (Some p) None None None None.

Lemma broker_send_request qn p b t :
  broker_send (request qn p) (b, t) =
    let '(r, b) := _handle_produce (env_at t) (produce_message qn p) b in (r, (b, t)).
Proof. reflexivity. Qed.

Lemma given_name qn : qn ≠ "" → given (Some qn) = Some qn.
Proof. intros Hq. cbn. by rewrite (proj2 (truthy_str_true qn) Hq). Qed.

Lemma task_given_ok p : p ≠ JNull → task_given (Some p) = Some p.
Proof. by destruct p. Qed.

Lemma check_keeps_tuning qn sys now0 now s :
  Shedder.tuning (Shedder.check_and_consume qn sys now0 now s).2 = Shedder.tuning s.
Proof.
  unfold Shedder.check_and_consume, Shedder._get_or_create_bucket.
  destruct (dget qn (Shedder._buckets s)); destruct (Shedder.consume _) as [[] b']; done.
Qed.

(** One round that is admitted. *)
Lemma produce_admitted fuel us qn p bo b t al sh :
  qn ≠ "" → p ≠ JNull →
  Shedder.check_and_consume qn (queue_manager b, worker_registry b) t t (load_shedder b)
    = ((true, al), sh) →
  produce_loop broker_send broker_sleep (S fuel) us qn p bo (b, t) =
    Some (Submitted (e_uuid (env_at t)), [], (Requests.produced (env_at t) qn p sh b, t)).
Proof.
  intros Hq Hp E. cbn [produce_loop]. rewrite broker_send_request.
  destruct (Requests.handle_produce_spec (env_at t) (produce_message qn p) b qn p)
    as (al'&ra'&sh'&E'&->); [by apply given_name|by apply task_given_ok|].
  rewrite env_clock, E in E'. by injection E' as <- <- <-.
Qed.

Lemma unopposed_produce us qn p n b t :
  unit_readings us → qn ≠ "" → p ≠ JNull → (1 <= n)%Z → shedder_ok t (load_shedder b) →
  ∃ trace b' t', produce broker_send broker_sleep us qn p n (b, t) =
      Some (Submitted (e_uuid (env_at t')), trace, (b', t')) ∧
    (length trace <= 1)%nat ∧ t <= t' ∧
    QM.queue_of qn (queue_manager b') =
      QM.queue_of qn (queue_manager b) ++ [new_task (e_uuid (env_at t')) qn p (e_time (env_at t'))].
Proof.
  intros Hus Hq Hp Hn Hok. unfold produce. replace (Z.to_nat n + 1)%nat with (S (S (Z.to_nat n - 1))) by lia.
  destruct (Shedder.check_and_consume qn (queue_manager b, worker_registry b) t t (load_shedder b))
    as [[[] h] sh] eqn:E.
  { erewrite produce_admitted by done. do 3 eexists. split_and!; [done|cbn; lia|lra|].
    cbn -[QM.enqueue]. by rewrite queue_of_enqueue, decide_True. }
  remember (S (Z.to_nat n - 1)) as rounds eqn:Er.
  cbn [produce_loop]. rewrite broker_send_request.
  destruct (Requests.handle_produce_spec (env_at t) (produce_message qn p) b qn p)
    as (al&ra&sh'&E'&->); [by apply given_name|by apply task_given_ok|].
  rewrite env_clock, E in E'. injection E' as <- <- <-. cbv beta iota.
  change (obj_get "status" (Requests.rate_limited_reply h)) with (Some (JStr "rate_limited")).
  change (retry_hint (Requests.rate_limited_reply h)) with (Some h).
  cbv beta iota. rewrite bool_decide_eq_false_2, bool_decide_eq_true_2 by done.
  pose proof (Backoff.next_wait_spec (us 0%nat) (Some h) _ (Hus 0%nat) (init_params n)) as Hw.
  destruct (Backoff.next_wait _ _ _) as [[w bo]|]; [|cbn in Hw; lia].
  destruct Hw as (_&_&Hw0&Hh&_).
  unfold broker_sleep at 2. cbn [fst snd].
  destruct (Shedder.check_and_consume qn (queue_manager (set_shedder sh b),
    worker_registry (set_shedder sh b)) (t + w) (t + w) (load_shedder (set_shedder sh b)))
    as [[ok al] sh2] eqn:E2.
  assert (ok = true) as ->.
  { pose proof (retry_admitted qn (queue_manager b, worker_registry b)
      (queue_manager b, worker_registry b) t t (t + w) h (load_shedder b) sh Hok) as Hr.
    cbn in E2. rewrite E2 in Hr. cbn [fst] in Hr.
    assert ((ok, al) = (true, 0)) as Heq; [|congruence]. apply Hr; [lra|done|lra|].
    pose proof (check_keeps_tuning qn (queue_manager b, worker_registry b) t t (load_shedder b)) as Ht.
    rewrite E in Ht. cbn in Ht. unfold Shedder._compute_adjusted_rate. rewrite Ht. lra. }
  rewrite Er. erewrite produce_admitted by done. cbn [mbind option_bind].
  do 3 eexists. split_and!; [done|cbn; lia|lra|].
  cbn -[QM.enqueue]. by rewrite queue_of_enqueue, decide_True.
Qed.

(** A producer alone with the broker: whatever the state of the
    queues, the depth, the latencies and the token bucket, [produce] with
    at least one retry succeeds after at most one wait, and its task is
    then at the end of its queue. *)
Theorem unopposed_producer_succeeds us qn p n b t :
  unit_readings us → qn ≠ "" → p ≠ JNull → (1 <= n)%Z → shedder_ok t (load_shedder b) →
  ∃ trace b' t', produce broker_send broker_sleep us qn p n (b, t) =
      Some (Submitted (e_uuid (env_at t')), trace, (b', t')) ∧
    (length trace <= 1)%nat ∧ t <= t' ∧
    QM.queue_of qn (queue_manager b') =
      QM.queue_of qn (queue_manager b) ++ [new_task (e_uuid (env_at t')) qn p (e_time (env_at t'))].
Proof. apply unopposed_produce. Qed.
End peer.

(** ** Witnesses *)

#[local] Existing Instance JsonText.codec.

Definition half (i : nat) : Q := 1 # 2.

Lemma half_unit : unit_readings half.
Proof. intros i. unfold half. lra. Qed.

(** A peer that always sheds load; its state counts the requests. *)
Definition shedding_peer (j : Json) (n : nat) : option Json * nat :=
  (Some (JObj [("status", JStr "rate_limited"); ("retry_after_seconds", JFloat 3)]), S n).

Lemma produce_is_bounded_witness :
  ∃ out trace s', produce shedding_peer (λ _ n, n) half "q" (JObj []) 2 0%nat
      = Some (out, trace, s') ∧
    (Z.of_nat (length trace) <= 2)%Z ∧
    (out = Exhausted → Z.of_nat (length trace) = 2%Z) ∧
    Forall (wait_ok 60) trace.
Proof.
  apply (produce_is_bounded shedding_peer (λ _ n, n) half "q" (JObj []) 2 0%nat);
    [exact half_unit|lia].
Defined.

Definition clock_env (t : Q) : Env := mkEnv t t "t1" ("10.0.0.7", 40000%Z) 1 0 "tasks.db".

Lemma unopposed_producer_succeeds_witness :
  ∃ trace b' t', produce (broker_send clock_env) broker_sleep half "q" (JObj []) 3
      (new_broker None 0, 0) = Some (Submitted (e_uuid (clock_env t')), trace, (b', t')) ∧
    (length trace <= 1)%nat ∧ 0 <= t' ∧
    QM.queue_of "q" (queue_manager b') =
      QM.queue_of "q" (queue_manager (new_broker None 0)) ++
        [new_task (e_uuid (clock_env t')) "q" (JObj []) (e_time (clock_env t'))].
Proof.
  apply (unopposed_producer_succeeds clock_env (λ t, eq_refl) half "q" (JObj []) 3
    (new_broker None 0) 0); [exact half_unit|discriminate|discriminate|lia|].
  split; [exact Shedder.default_tuning_ok|constructor].
Defined.
End EndToEnd.
