(* ===== verification/Worker.v ===== *)
(** * Worker ([worker/base_worker.py])

The registration, the consume/execute/acknowledge loop and one beat of the
heartbeat loop.  As for the producer, the connection is a parameter:
[send] transmits a request and returns the decoded response ([None] is the
[ConnectionError]); each request and its response are one step, which
[Connection] justifies with [_conn_lock], and the heartbeat task runs
between two of them.  [execute]
is the method the subclass provides; [inl e] is an exception with text
[e]. *)

From S2P Require Import Prelude PyDict Json.

Module Worker.

Record t := mk {
  worker_id : string;
  queue_name : string;
  host : string;
  port : Z;
  poll_interval : Q;
  heartbeat_interval : Q;
  _connected : bool;
  _running : bool;
  _tasks_completed : Z;
  _tasks_failed : Z;
}.

(** [BaseWorker(queue_name, worker_id=wid)]; [uuid4] is the identifier used when
    none, or an empty one, is given. *)
Definition init (qn : string) (wid : option string) (uuid4 : string) : t :=
  let id := match wid with Some i => if truthy_str i then i else uuid4 | None => uuid4 end in
  mk id qn "localhost" 5555 (1 # 10) 2 false false 0 0.

Definition set_connected (c : bool) (w : t) : t :=
  mk (worker_id w) (queue_name w) (host w) (port w) (poll_interval w) (heartbeat_interval w)
    c (_running w) (_tasks_completed w) (_tasks_failed w).

Definition set_running (r : bool) (w : t) : t :=
  mk (worker_id w) (queue_name w) (host w) (port w) (poll_interval w) (heartbeat_interval w)
    (_connected w) r (_tasks_completed w) (_tasks_failed w).

Definition count_completed (w : t) : t :=
  mk (worker_id w) (queue_name w) (host w) (port w) (poll_interval w) (heartbeat_interval w)
    (_connected w) (_running w) (_tasks_completed w + 1) (_tasks_failed w).

Definition count_failed (w : t) : t :=
  mk (worker_id w) (queue_name w) (host w) (port w) (poll_interval w) (heartbeat_interval w)
    (_connected w) (_running w) (_tasks_completed w) (_tasks_failed w + 1).

(** Exceptions that end [run]. *)
Inductive RunError :=
  | LostConnection (* [ConnectionError], or the end of the stream *)
  | RegistrationFailed (reason : Json)
  | BadResponse. (* [KeyError] or [TypeError] on a response that is not as expected *)

(** How one round of the loop ends. *)
Inductive Round := Continue | Stop (e : RunError).

(** ** Messages *)

Definition register_message (w : t) : Json :=
  JObj [("command", JStr "REGISTER"); ("worker_id", JStr (worker_id w));
        ("queues", JArr [JStr (queue_name w)])].

Definition heartbeat_message (w : t) : Json :=
  JObj [("command", JStr "HEARTBEAT"); ("worker_id", JStr (worker_id w))].

Definition consume_message (w : t) : Json :=
  JObj [("command", JStr "CONSUME"); ("queue", JStr (queue_name w));
        ("worker_id", JStr (worker_id w))].

Definition ack_message (w : t) (tid : string) : Json :=
  JObj [("command", JStr "ACK"); ("task_id", JStr tid); ("queue", JStr (queue_name w));
        ("worker_id", JStr (worker_id w))].

Definition nack_message (w : t) (tid err : string) : Json :=
  JObj [("command", JStr "NACK"); ("task_id", JStr tid); ("queue", JStr (queue_name w));
        ("worker_id", JStr (worker_id w)); ("error", JStr err)].

(** [task = response["task"]; task_id = task["task_id"]; .. task_id[:8]], and
    the payload, which is only looked up inside the [try]. *)
Definition received_task (r : Json) : option (string * option Json) :=
  task ← obj_get "task" r;
  tid ← obj_get "task_id" task;
  match tid with JStr tid => Some (tid, obj_get "payload" task) | _ => None end.

Section worker.
Context {S : Type} (send : Json → S → option Json * S) (sleep : Q → S → S).
Context (execute : Json → string + Json).

(** The text of the exception a lost connection raises. *)
Context (lost : string).

Definition _send (w : t) (message : Json) (s : S) : option Json * S :=
  if _connected w then send message s else (None, s).

Definition connect (w : t) (s : S) : option RunError * t * S :=
  let w := set_connected true w in
  let '(o, s) := _send w (register_message w) s in
  match o with
  | None => (Some LostConnection, w, s)
  | Some r =>
      if bool_decide (obj_get "status" r = Some (JStr "ok")) then (None, w, s)
      else (Some (RegistrationFailed (default (JStr "unknown") (obj_get "reason" r))), w, s)
  end.

(** The [except] branch around [execute] and the ACK. *)
Definition report_failure (w : t) (tid err : string) (s : S) : Round * t * S :=
  let '(o, s) := _send w (nack_message w tid err) s in
  match o with
  | Some _ => (Continue, count_failed w, s)
  | None => (Stop LostConnection, w, s)
  end.

(** One iteration of the consume loop. *)
Definition round (w : t) (s : S) : Round * t * S :=
  let '(o, s) := _send w (consume_message w) s in
  match o with
  | None => (Stop LostConnection, w, s)
  | Some r =>
      match obj_get "status" r with
      | None => (Stop BadResponse, w, s)
      | Some st =>
          if bool_decide (st = JStr "empty") then (Continue, w, sleep (poll_interval w) s)
          else if negb (bool_decide (st = JStr "ok")) then (Continue, w, sleep (poll_interval w) s)
          else
            match received_task r with
            | None => (Stop BadResponse, w, s)
            | Some (tid, p) =>
                match (match p with Some p => execute p | None => inl "'payload'" end) with
                | inr _ =>
                    let '(o, s) := _send w (ack_message w tid) s in
                    match o with
                    | Some _ => (Continue, count_completed w, s)
                    | None => report_failure w tid lost s
                    end
                | inl err => report_failure w tid err s
                end
            end
      end
  end.

(** The first [n] iterations of [while self._running]. *)
Fixpoint work (n : nat) (w : t) (s : S) : Round * t * S :=
  match n with
  | O => (Continue, w, s)
  | Datatypes.S n =>
      if _running w then
        match round w s with
        | (Continue, w, s) => work n w s
        | r => r
        end
      else (Continue, w, s)
  end.

(** One beat of [_heartbeat_loop] after its sleep; failures are only logged. *)
Definition heartbeat (w : t) (s : S) : S :=
  if _running w then (_send w (heartbeat_message w) s).2 else s.

(** [finally: self._running = False; ..; await self._close()] *)
Definition close (w : t) : t := set_connected false (set_running false w).

(** [run], stopped after [n] rounds. *)
Definition run (n : nat) (w : t) (s : S) : option RunError * t * S :=
  match connect w s with
  | (Some e, w, s) => (Some e, w, s)
  | (None, w, s) =>
      let '(r, w, s) := work n (set_running true w) s in
      (match r with Continue => None | Stop e => Some e end, close w, s)
  end.
End worker.

Definition shutdown (w : t) : t := set_running false w.

Definition get_stats (w : t) : Json :=
  JObj [("worker_id", JStr (worker_id w)); ("queue_name", JStr (queue_name w));
        ("connected", JBool (_connected w)); ("running", JBool (_running w));
        ("tasks_completed", JInt (_tasks_completed w)); ("tasks_failed", JInt (_tasks_failed w))].
End Worker.
