(* ===== verification/Coroutines.v ===== *)
(** * Client coroutines ([worker/base_worker.py],
      [benchmarks/raw_throughput.py])

The clients are coroutines: they run from one [await] to the next, and
anything may happen in between.  A coroutine is given here by what it
waits for at each point and by how it goes on when that arrives.  Driven
alone, each is shown to be the loop of [Worker] or [LoadGen]; [Fleet] and
[Benchmark] drive many of them at once, in any order.

The [asyncio.sleep(0)] at the end of a round has no other effect than the
suspension, which every [await] is here. *)

From S2P Require Import Prelude PyDict Json Worker.

Module Coroutine.

(** What a suspended coroutine waits for, and what it is resumed with. *)
Inductive Await :=
  | Request (message : Json)     (* [await self._send(message)] *)
  | Timer (seconds : Q)          (* [await asyncio.sleep(seconds)] *)
  | Work (payload : Json)        (* [await self.execute(payload)] *)
  | Returned.                    (* nothing: the coroutine is over *)

Inductive Answer :=
  | Reply (response : option Json)   (* [None]: [ConnectionError] *)
  | Woken
  | Result (r : string + Json).

(** ** The consume loop *)

Inductive Point :=
  | Polling
  | Pausing
  | Executing (tid : string) (payload : Json)
  | Acking (tid : string)
  | Nacking (tid err : string)
  | Stopped (r : Worker.Round).

(** [while self._running] *)
Definition again (w : Worker.t) : Point :=
  if Worker._running w then Polling else Stopped Worker.Continue.

Definition awaits (w : Worker.t) (p : Point) : Await :=
  match p with
  | Polling => Request (Worker.consume_message w)
  | Pausing => Timer (Worker.poll_interval w)
  | Executing _ payload => Work payload
  | Acking tid => Request (Worker.ack_message w tid)
  | Nacking tid err => Request (Worker.nack_message w tid err)
  | Stopped _ => Returned
  end.

(** The response to CONSUME. *)
Definition consumed (o : option Json) : Point :=
  match o with
  | None => Stopped (Worker.Stop Worker.LostConnection)
  | Some r =>
      match obj_get "status" r with
      | None => Stopped (Worker.Stop Worker.BadResponse)
      | Some st =>
          if bool_decide (st = JStr "empty") then Pausing
          else if negb (bool_decide (st = JStr "ok")) then Pausing
          else
            match Worker.received_task r with
            | None => Stopped (Worker.Stop Worker.BadResponse)
            | Some (tid, Some payload) => Executing tid payload
            | Some (tid, None) => Nacking tid "'payload'"
            end
      end
  end.

(** [lost] is the text of the exception of a lost connection. *)
Definition resume (lost : string) (w : Worker.t) (p : Point) (a : Answer) : Worker.t * Point :=
  match p, a with
  | Polling, Reply o => (w, consumed o)
  | Pausing, Woken => (w, again w)
  | Executing tid _, Result (inr _) => (w, Acking tid)
  | Executing tid _, Result (inl err) => (w, Nacking tid err)
  | Acking _, Reply (Some _) => let w := Worker.count_completed w in (w, again w)
  | Acking tid, Reply None => (w, Nacking tid lost)
  | Nacking _ _, Reply (Some _) => let w := Worker.count_failed w in (w, again w)
  | Nacking _ _, Reply None => (w, Stopped (Worker.Stop Worker.LostConnection))
  | p, _ => (w, p)
  end.

(** ** The heartbeat loop *)

Inductive BeatPoint := Resting | Beating | Over.

Definition beat_again (w : Worker.t) : BeatPoint :=
  if Worker._running w then Resting else Over.

Definition beat_awaits (w : Worker.t) (p : BeatPoint) : Await :=
  match p with
  | Resting => Timer (Worker.heartbeat_interval w)
  | Beating => Request (Worker.heartbeat_message w)
  | Over => Returned
  end.

(** A response other than ok and an exception are only logged. *)
Definition beat_resume (w : Worker.t) (p : BeatPoint) (a : Answer) : BeatPoint :=
  match p, a with
  | Resting, Woken => if Worker._running w then Beating else Over
  | Beating, Reply _ => beat_again w
  | p, _ => p
  end.

(** ** A coroutine on its own *)

Section alone.
Context {S : Type} (send : Json → S → option Json * S) (sleep : Q → S → S) (lost : string).

(** What arrives when nothing else runs; [execute] is what the subclass's
    method does this time. *)
Definition serve (execute : Json → string + Json) (w : Worker.t) (a : Await) (s : S) :
    option Answer * S :=
  match a with
  | Request m => let '(o, s) := Worker._send send w m s in (Some (Reply o), s)
  | Timer d => (Some Woken, sleep d s)
  | Work p => (Some (Result (execute p)), s)
  | Returned => (None, s)
  end.

Definition turn (execute : Json → string + Json) (c : Worker.t * Point * S) :
    Worker.t * Point * S :=
  let '(w, p, s) := c in
  match serve execute w (awaits w p) s with
  | (Some a, s) => (resume lost w p a, s)
  | (None, s) => (w, p, s)
  end.

Definition beat_turn (w : Worker.t) (c : BeatPoint * S) : BeatPoint * S :=
  let '(p, s) := c in
  match serve inr w (beat_awaits w p) s with
  | (Some a, s) => (beat_resume w p a, s)
  | (None, s) => (p, s)
  end.

(** ** It is the loop of the source *)

Context (execute : Json → string + Json).
Abbreviation round := (Worker.round send sleep execute lost).
Abbreviation work := (Worker.work send sleep execute lost).

Definition turns (k : nat) : Worker.t * Point * S → Worker.t * Point * S := Nat.iter k (turn execute).

Lemma turns_add j k c : turns (j + k) c = turns j (turns k c).
Proof. apply Nat.iter_add. Qed.

(** Where a round leaves the loop. *)
Definition after (w : Worker.t) (r : Worker.Round) : Point :=
  match r with Worker.Continue => again w | r => Stopped r end.

Lemma nacking_turn tid err w s :
  let '(r, w', s') := Worker.report_failure send w tid err s in
  turn execute (w, Nacking tid err, s) = (w', after w' r, s').
Proof. unfold Worker.report_failure, turn; cbn. by destruct (Worker._send send w _ s) as [[]?]. Qed.

(** A round is between one and four turns. *)
Lemma round_turns w s :
  let '(r, w', s') := round w s in
  ∃ k, 1 ≤ k ≤ 4 ∧ turns k (w, Polling, s) = (w', after w' r, s').
Proof.
  unfold Worker.round. destruct (Worker._send send w (Worker.consume_message w) s) as [o s1] eqn:E.
  assert (Hp : turn execute (w, Polling, s) = (w, consumed o, s1)) by (unfold turn; cbn; by rewrite E).
  destruct o as [m|]; [|by exists 1; split; [lia|]].
  unfold consumed in Hp. destruct (obj_get "status" m) as [st|]; [|by exists 1; split; [lia|]].
  assert (Hpause : turn execute (w, Polling, s) = (w, Pausing, s1) →
    ∃ k, 1 ≤ k ≤ 4 ∧ turns k (w, Polling, s) = (w, again w, sleep (Worker.poll_interval w) s1)).
  { intros H. exists 2. split; [lia|]. unfold turns. cbn [Nat.iter nat_rect]. by rewrite H. }
  case_bool_decide; [by apply Hpause|]. case_bool_decide; cbn [negb] in *; [|by apply Hpause].
  destruct (Worker.received_task m) as [[tid [p|]]|]; [| |by exists 1; split; [lia|]].
  - destruct (execute p) as [err|res] eqn:Ex.
    + pose proof (nacking_turn tid err w s1) as Hn.
      destruct (Worker.report_failure send w tid err s1) as [[r w'] s'].
      exists 3. split; [lia|]. unfold turns. cbn [Nat.iter nat_rect]. rewrite Hp.
      unfold turn at 2. cbn. rewrite Ex. done.
    + destruct (Worker._send send w (Worker.ack_message w tid) s1) as [[m'|] s2] eqn:Ea.
      * exists 3. split; [lia|]. unfold turns. cbn [Nat.iter nat_rect]. rewrite Hp.
        unfold turn at 2. cbn. rewrite Ex. cbn. by rewrite Ea.
      * pose proof (nacking_turn tid lost w s2) as Hn.
        destruct (Worker.report_failure send w tid lost s2) as [[r w'] s'].
        exists 4. split; [lia|]. unfold turns. cbn [Nat.iter nat_rect]. rewrite Hp.
        unfold turn at 3. cbn. rewrite Ex. cbn. by rewrite Ea.
  - pose proof (nacking_turn tid "'payload'" w s1) as Hn.
    destruct (Worker.report_failure send w tid "'payload'" s1) as [[r w'] s'].
    exists 2. split; [lia|]. unfold turns. cbn [Nat.iter nat_rect]. by rewrite Hp.
Qed.

(** The consume loop, driven alone, is the loop of the source: for every
    number of rounds there is a number of turns with the same outcome. *)
Lemma work_turns n w s :
  let '(r, w', s') := work n w s in
  ∃ k, turns k (w, again w, s) = (w', after w' r, s').
Proof.
  revert w s. induction n as [|n IH]; intros w s; cbn [Worker.work]; [by exists 0|].
  unfold again at 1. destruct (Worker._running w) eqn:Hr; [|exists 0; cbn; unfold again; by rewrite Hr].
  pose proof (round_turns w s) as H. destruct (round w s) as [[r w1] s1].
  destruct H as (j&_&Hj). destruct r as [|e]; [|by exists j].
  specialize (IH w1 s1). destruct (work n w1 s1) as [[r' w'] s'].
  destruct IH as (k&Hk). exists (k + j). by rewrite turns_add, Hj.
Qed.

(** Two turns of the heartbeat loop are its sleep and one beat. *)
Lemma beat_turns w s :
  Worker._running w = true →
  Nat.iter 2 (beat_turn w) (Resting, s) =
    (Resting, Worker.heartbeat send w (sleep (Worker.heartbeat_interval w) s)).
Proof.
  intros Hr. unfold beat_turn, Worker.heartbeat, beat_again. cbn. rewrite Hr. cbn.
  destruct (Worker._send send w _ _). cbn. unfold beat_again. by rewrite Hr.
Qed.
End alone.
End Coroutine.
