(* ===== verification/Connection.v ===== *)
(** * The connection lock ([worker/base_worker.py])

A worker's consume loop and its heartbeat loop share one TCP connection,
on which replies come back in the order of the requests and carry nothing
that says which request they answer.  Here [_send] is taken apart into its
suspensions: waiting for [_conn_lock], the request under way, the reply
under way.  The lock makes up for all of it: whatever the interleaving,
the two loops behave as if every [_send] were one step. *)

From S2P Require Import Prelude PyDict Json Worker Coroutines.
Import Coroutine.

Module Connection.

(** The two coroutines of a worker. *)
Inductive Role := Consumer | Heart.

#[global] Instance role_eq_dec : EqDecision Role.
Proof. solve_decision. Defined.

(** Where a coroutine is in [_send]: not in it, suspended at the lock, or
    holding the lock and suspended at the reply. *)
Inductive Call := Out | Queued (m : Json) | Reading (m : Json).

Section line.
Context {S : Type} (send : Json → S → option Json * S) (lost : string).

(** The other end: it answers requests, or hangs up for good. *)
Context (closed : S → bool).
Hypothesis hangs_up : ∀ m s s', send m s = (None, s') → closed s' = true.
Hypothesis stays_closed : ∀ m s, closed s = true → send m s = (None, s).

(** [lock] and [waiters] are the [asyncio.Lock]; [requests] are the messages
    written and not yet handled, [replies] those written by the broker and
    not yet read. *)
Record Line := mkLine {
  self : Worker.t;
  point : Point;
  beat : BeatPoint;
  loop_call : Call;
  beat_call : Call;
  lock : option Role;
  waiters : list Role;
  requests : list Json;
  replies : list Json;
  peer : S;
}.

Definition call_of (r : Role) (l : Line) : Call :=
  match r with Consumer => loop_call l | Heart => beat_call l end.

Definition pending (r : Role) (l : Line) : Await :=
  match r with
  | Consumer => awaits (self l) (point l)
  | Heart => beat_awaits (self l) (beat l)
  end.

Definition set_call (r : Role) (c : Call) (l : Line) : Line :=
  match r with
  | Consumer => mkLine (self l) (point l) (beat l) c (beat_call l) (lock l) (waiters l)
                  (requests l) (replies l) (peer l)
  | Heart => mkLine (self l) (point l) (beat l) (loop_call l) c (lock l) (waiters l)
               (requests l) (replies l) (peer l)
  end.

(** What a coroutine is resumed with, and what that does to the worker. *)
Definition resumed (r : Role) (a : Answer) (c : Worker.t * Point * BeatPoint) : Worker.t * Point * BeatPoint :=
  let '(w, p, q) := c in
  match r with
  | Consumer => let '(w, p) := resume lost w p a in (w, p, q)
  | Heart => (w, p, beat_resume w q a)
  end.

Definition set_core (c : Worker.t * Point * BeatPoint) (l : Line) : Line :=
  let '(w, p, q) := c in
  mkLine w p q (loop_call l) (beat_call l) (lock l) (waiters l) (requests l) (replies l) (peer l).

Definition core (l : Line) : Worker.t * Point * BeatPoint := (self l, point l, beat l).

Definition deliver (r : Role) (a : Answer) (l : Line) : Line := set_core (resumed r a (core l)) l.

Definition set_lock (o : option Role) (ws : list Role) (l : Line) : Line :=
  mkLine (self l) (point l) (beat l) (loop_call l) (beat_call l) o ws (requests l) (replies l)
    (peer l).

Definition set_wire (reqs reps : list Json) (s : S) (l : Line) : Line :=
  mkLine (self l) (point l) (beat l) (loop_call l) (beat_call l) (lock l) (waiters l) reqs reps s.

(** The lock is taken and the message written. *)
Definition acquire (r : Role) (m : Json) (ws : list Role) (l : Line) : Line :=
  set_call r (Reading m)
    (set_wire (requests l ++ [m]) (replies l) (peer l) (set_lock (Some r) ws l)).

(** The end of the [async with], normal or by an exception. *)
Definition release (r : Role) (l : Line) : Line := set_call r Out (set_lock None (waiters l) l).

(** ** Steps *)

Inductive Move :=
  | Enter (r : Role)     (* the coroutine calls [_send] *)
  | Grant                (* the lock is given to the first that waits *)
  | Handle               (* the broker handles the next request *)
  | Read (r : Role)      (* the coroutine reads the next reply, or the end of the stream *)
  | Wake (r : Role)      (* its sleep is over *)
  | Finish (x : string + Json)   (* [execute] returns or raises *)
  | Elsewhere (f : S → S).       (* the broker is busy with something else *)

(** [None]: the move is not possible.  [asyncio.Lock] admits at once when it
    is free and nobody waits. *)
Definition step (v : Move) (l : Line) : option Line :=
  match v with
  | Enter r =>
      match call_of r l, pending r l with
      | Out, Request m =>
          if negb (Worker._connected (self l)) then Some (deliver r (Reply None) l)
          else if bool_decide (lock l = None ∧ waiters l = []) then Some (acquire r m [] l)
          else Some (set_call r (Queued m) (set_lock (lock l) (waiters l ++ [r]) l))
      | _, _ => None
      end
  | Grant =>
      match lock l, waiters l with
      | None, r :: ws =>
          match call_of r l with Queued m => Some (acquire r m ws l) | _ => None end
      | _, _ => None
      end
  | Handle =>
      match requests l with
      | m :: reqs =>
          let '(o, s) := send m (peer l) in
          Some (set_wire reqs (replies l ++ match o with Some x => [x] | None => [] end) s l)
      | [] => None
      end
  | Read r =>
      match call_of r l with
      | Reading _ =>
          match replies l with
          | x :: reps =>
              Some (deliver r (Reply (Some x)) (release r (set_wire (requests l) reps (peer l) l)))
          | [] =>
              if closed (peer l)
              then Some (deliver r (Reply None) (release r (set_wire [] [] (peer l) l)))
              else None
          end
      | _ => None
      end
  | Wake r =>
      match pending r l with Timer _ => Some (deliver r Woken l) | _ => None end
  | Finish x =>
      match pending Consumer l with Work _ => Some (deliver Consumer (Result x) l) | _ => None end
  | Elsewhere f =>
      if implb (closed (peer l)) (closed (f (peer l)))
      then Some (set_wire (requests l) (replies l) (f (peer l)) l) else None
  end.

Fixpoint run (vs : list Move) (l : Line) : option Line :=
  match vs with [] => Some l | v :: vs => step v l ≫= run vs end.

(** ** The worker without a connection: [_send] is one step *)

Definition Whole : Type := Worker.t * Point * BeatPoint * S.

Inductive Turn := Turns (r : Role) (x : string + Json) | Aside (f : S → S).

Definition take_turn (t : Turn) (c : Whole) : Whole :=
  let '(w, p, q, s) := c in
  match t with
  | Turns Consumer x => let '(w, p, s) := turn send (λ _ s, s) lost (λ _, x) (w, p, s) in (w, p, q, s)
  | Turns Heart _ => let '(q, s) := beat_turn send (λ _ s, s) w (q, s) in (w, p, q, s)
  | Aside f => (w, p, q, f s)
  end.

Fixpoint take_turns (ts : list Turn) (c : Whole) : Whole :=
  match ts with [] => c | t :: ts => take_turns ts (take_turn t c) end.

Lemma take_turns_app ts ts' c : take_turns (ts ++ ts') c = take_turns ts' (take_turns ts c).
Proof. revert c. by induction ts; cbn. Qed.

(** The turn a move stands for.  A request takes effect when it is handled;
    one that nobody handles any more, when that is noticed. *)
Definition shadow (v : Move) (l : Line) : list Turn :=
  match v with
  | Enter r => if Worker._connected (self l) then [] else [Turns r (inr JNull)]
  | Grant => []
  | Handle => match lock l with Some r => [Turns r (inr JNull)] | None => [] end
  | Read r =>
      match replies l, requests l with [], _ :: _ => [Turns r (inr JNull)] | _, _ => [] end
  | Wake r => [Turns r (inr JNull)]
  | Finish x => [Turns Consumer x]
  | Elsewhere f => [Aside f]
  end.

Fixpoint shadows (vs : list Move) (l : Line) : list Turn :=
  match vs with
  | [] => []
  | v :: vs => shadow v l ++ match step v l with Some l' => shadows vs l' | None => [] end
  end.

(** The reply under way, if any, is delivered at once. *)
Definition answer_of (l : Line) : option (Role * Answer) :=
  r ← lock l;
  match replies l, requests l with
  | x :: _, _ => Some (r, Reply (Some x))
  | [], [] => Some (r, Reply None)
  | [], _ :: _ => None
  end.

Definition whole (l : Line) : Whole :=
  (match answer_of l with Some (r, a) => resumed r a (core l) | None => core l end, peer l).

(** ** What the lock guarantees *)

Definition core_pending (r : Role) (c : Worker.t * Point * BeatPoint) : Await :=
  let '(w, p, q) := c in match r with Consumer => awaits w p | Heart => beat_awaits w q end.

(** At most one request or reply is under way, and it is that of the
    coroutine that holds the lock. *)
Definition inv (l : Line) : Prop :=
  (∀ r, match call_of r l with
        | Out => True
        | Queued m | Reading m => pending r l = Request m ∧ Worker._connected (self l) = true
        end) ∧
  match lock l with
  | None => requests l = [] ∧ replies l = [] ∧ ∀ r m, call_of r l ≠ Reading m
  | Some r =>
      ∃ m, call_of r l = Reading m ∧ (∀ r' m', r' ≠ r → call_of r' l ≠ Reading m') ∧
        (requests l = [m] ∧ replies l = [] ∨
         requests l = [] ∧ (∃ x, replies l = [x]) ∨
         requests l = [] ∧ replies l = [] ∧ closed (peer l) = true)
  end.

(** Both coroutines outside [_send]. *)
Definition fresh (w : Worker.t) (p : Point) (q : BeatPoint) (s : S) : Line :=
  mkLine w p q Out Out None [] [] [] s.

Lemma fresh_inv w p q s : inv (fresh w p q s).
Proof. split; [by intros []|]. by split_and!; [..|intros []]. Qed.

Lemma resumed_self r a c :
  Worker._running (resumed r a c).1.1 = Worker._running c.1.1 ∧
  Worker._connected (resumed r a c).1.1 = Worker._connected c.1.1 ∧
  Worker.worker_id (resumed r a c).1.1 = Worker.worker_id c.1.1 ∧
  Worker.heartbeat_interval (resumed r a c).1.1 = Worker.heartbeat_interval c.1.1.
Proof.
  destruct c as [[w p] q], r; [|by split_and!]. cbn.
  by destruct p as [| | | | |], a as [[]| |[]]; split_and!.
Qed.

(** The two coroutines do not disturb each other. *)
Lemma resumed_comm r r' a a' c :
  r ≠ r' → resumed r a (resumed r' a' c) = resumed r' a' (resumed r a c).
Proof.
  destruct c as [[w p] q].
  assert (H : ∀ a a', resumed Consumer a (resumed Heart a' (w, p, q)) =
    resumed Heart a' (resumed Consumer a (w, p, q))).
  { clear a a'. intros a a'. pose proof (resumed_self Consumer a (w, p, q)) as (Hr&_).
    cbn in *. destruct (resume lost w p a) as [w' p']. cbn in *. f_equal.
    unfold beat_resume, beat_again. by rewrite Hr. }
  intros Hne. destruct r, r'; try done.
Qed.

Lemma resumed_pending r r' a c : r ≠ r' → core_pending r (resumed r' a c) = core_pending r c.
Proof.
  destruct c as [[w p] q]. intros Hne. destruct r, r'; try done; cbn.
  pose proof (resumed_self Consumer a (w, p, q)) as (_&_&Hi&Hh). cbn in *.
  destruct (resume lost w p a) as [w' p']. cbn in *. unfold beat_awaits, Worker.heartbeat_message.
  by rewrite Hi, Hh.
Qed.

(** A turn is the answer to what the coroutine waits for. *)
Lemma take_turn_serves r x c s :
  take_turn (Turns r x) (c, s) =
    match serve send (λ _ s, s) (λ _, x) c.1.1 (core_pending r c) s with
    | (Some a, s) => (resumed r a c, s)
    | (None, s) => (c, s)
    end.
Proof.
  destruct c as [[w p] q], r; cbn.
  - destruct (serve _ _ _ w _ s) as [[a|] s']; [|done]. by destruct (resume lost w p a).
  - unfold beat_turn. destruct q; cbn; [done| |done]. by destruct (Worker._send send w _ s).
Qed.

Lemma request_turn r x c s m :
  core_pending r c = Request m → Worker._connected c.1.1 = true →
  take_turn (Turns r x) (c, s) = let '(o, s) := send m s in (resumed r (Reply o) c, s).
Proof.
  intros Hp Hc. rewrite take_turn_serves, Hp. cbn. unfold Worker._send. rewrite Hc.
  by destruct (send m s).
Qed.

(** ** Every move is the turn it stands for *)

Definition simulates (v : Move) (l l' : Line) : Prop :=
  inv l' ∧ whole l' = take_turns (shadow v l) (whole l).

Lemma inv_reading r m l : inv l → call_of r l = Reading m → lock l = Some r.
Proof.
  intros [_ H] Hc. destruct (lock l) as [r'|]; [|by destruct H as (_&_&H); destruct (H r m)].
  destruct H as (m'&_&H&_). destruct (decide (r = r')) as [->|Hne]; [done|]. by destruct (H r m Hne).
Qed.

Lemma core_set_call r c l : core (set_call r c l) = core l.
Proof. by destruct r. Qed.

(** Something happens to a coroutine outside [_send]. *)
Lemma deliver_out r a l :
  inv l → call_of r l = Out →
  inv (deliver r a l) ∧ core (deliver r a l) = resumed r a (core l) ∧
  ∀ r' b, answer_of l = Some (r', b) → r' ≠ r.
Proof.
  intros Hi Ho. assert (Hne : ∀ r' b, answer_of l = Some (r', b) → r' ≠ r).
  { intros r' b Ha ->. destruct Hi as [_ H]. unfold answer_of in Ha.
    destruct (lock l) as [r0|]; [|done]. cbn in Ha. destruct H as (m&Hm&_).
    destruct (replies l), (requests l); simplify_eq; congruence. }
  assert (Hc : core (deliver r a l) = resumed r a (core l)).
  { unfold deliver, set_core, core. by destruct (resumed r a _) as [[? ?] ?]. }
  split_and!; [|done|done].
  assert (Hcall : ∀ r', call_of r' (deliver r a l) = call_of r' l).
  { intros r'. unfold deliver, set_core. destruct (resumed r a _) as [[? ?] ?]. by destruct r'. }
  assert (Hrest : lock (deliver r a l) = lock l ∧ requests (deliver r a l) = requests l ∧
    replies (deliver r a l) = replies l ∧ peer (deliver r a l) = peer l).
  { unfold deliver, set_core. by destruct (resumed r a _) as [[? ?] ?]. }
  destruct Hrest as (Hl&Hq&Hp&Hs). destruct Hi as [H1 H2]. split.
  - intros r'. rewrite Hcall. specialize (H1 r'). destruct (decide (r' = r)) as [->|Hr]; [by rewrite Ho|].
    assert (pending r' (deliver r a l) = pending r' l) as ->.
    { change (pending r' (deliver r a l)) with (core_pending r' (core (deliver r a l))).
      rewrite Hc, resumed_pending by done. done. }
    assert (Worker._connected (self (deliver r a l)) = Worker._connected (self l)) as ->.
    { change (self (deliver r a l)) with ((core (deliver r a l)).1.1). rewrite Hc.
      by destruct (resumed_self r a (core l)) as (_&->&_). }
    done.
  - rewrite Hl, Hq, Hp, Hs. destruct (lock l) as [r0|].
    + destruct H2 as (m&?&H&?). exists m. rewrite Hcall. split_and!; [done| |done].
      intros r' m'. rewrite Hcall. apply H.
    + destruct H2 as (?&?&H). split_and!; [done..|]. intros r' m'. rewrite Hcall. apply H.
Qed.

(** The resumption of one coroutine under the early reply of the other. *)
Lemma whole_deliver r a l :
  inv l → call_of r l = Out → whole (deliver r a l) = (resumed r a (whole l).1, peer l).
Proof.
  intros Hi Ho. destruct (deliver_out r a l Hi Ho) as (_&Hc&Hne). unfold whole.
  assert (answer_of (deliver r a l) = answer_of l ∧ peer (deliver r a l) = peer l) as [-> ->].
  { unfold deliver, set_core. by destruct (resumed r a _) as [[? ?] ?]. }
  rewrite Hc. cbn [fst]. destruct (answer_of l) as [[r' b]|] eqn:E; [|done].
  by rewrite resumed_comm by eauto.
Qed.

(** What a coroutine outside [_send] waits for is not affected either. *)
Lemma whole_pending r l :
  inv l → call_of r l = Out →
  core_pending r (whole l).1 = pending r l ∧
  Worker._connected (whole l).1.1.1 = Worker._connected (self l).
Proof.
  intros Hi Ho. destruct (deliver_out r Woken l Hi Ho) as (_&_&Hne). unfold whole. cbn [fst].
  destruct (answer_of l) as [[r' b]|] eqn:E; [|done].
  rewrite resumed_pending by (intros ->; by eapply Hne).
  by destruct (resumed_self r' b (core l)) as (_&->&_).
Qed.

Lemma deliver_simulates v r a x l :
  inv l → call_of r l = Out → shadow v l = [Turns r x] →
  serve send (λ _ s, s) (λ _, x) (whole l).1.1.1 (pending r l) (peer l) = (Some a, peer l) →
  simulates v l (deliver r a l).
Proof.
  intros Hi Ho Hv Hs. split; [by apply deliver_out|]. rewrite Hv, whole_deliver by done.
  cbn [take_turns]. change (whole l) with ((whole l).1, peer l).
  rewrite take_turn_serves. destruct (whole_pending r l Hi Ho) as [Hp _].
  by rewrite Hp, Hs.
Qed.

Lemma acquire_simulates v r m ws l :
  inv l → lock l = None → (call_of r l = Out ∨ call_of r l = Queued m) →
  pending r l = Request m → Worker._connected (self l) = true → shadow v l = [] →
  simulates v l (acquire r m ws l).
Proof.
  intros [H1 H2] Hl Hc Hp Hcon Hv. rewrite Hl in H2. destruct H2 as (Hreq&Hrep&Hn). split.
  - split.
    + intros r'. destruct (decide (r' = r)) as [->|Hne]; [by destruct r|].
      specialize (H1 r'). by destruct r, r'.
    + assert (lock (acquire r m ws l) = Some r) as -> by by destruct r.
      exists m. split_and!; [by destruct r| |].
      * intros r' m' Hne. specialize (Hn r' m'). by destruct r, r'.
      * left. destruct r; cbn; by rewrite Hreq, Hrep.
  - rewrite Hv. unfold whole, answer_of. rewrite Hl. cbn.
    destruct r; cbn; by rewrite Hreq, Hrep.
Qed.

Lemma queue_simulates v r m l :
  inv l → call_of r l = Out → pending r l = Request m → Worker._connected (self l) = true →
  shadow v l = [] →
  simulates v l (set_call r (Queued m) (set_lock (lock l) (waiters l ++ [r]) l)).
Proof.
  intros [H1 H2] Ho Hp Hcon Hv. split.
  - split.
    + intros r'. destruct (decide (r' = r)) as [->|Hne]; [by destruct r|].
      specialize (H1 r'). by destruct r, r'.
    + assert (Hcall : ∀ r', r' ≠ r →
        call_of r' (set_call r (Queued m) (set_lock (lock l) (waiters l ++ [r]) l)) = call_of r' l)
        by (intros [] ?; by destruct r).
      assert (Hown : call_of r (set_call r (Queued m) (set_lock (lock l) (waiters l ++ [r]) l)) = Queued m)
        by by destruct r.
      replace (lock (set_call r _ _)) with (lock l) by by destruct r.
      replace (requests (set_call r _ _)) with (requests l) by by destruct r.
      replace (replies (set_call r _ _)) with (replies l) by by destruct r.
      replace (peer (set_call r _ _)) with (peer l) by by destruct r.
      destruct (lock l) as [r0|].
      * destruct H2 as (m0&Hm0&Hn&Hw). assert (r0 ≠ r) by congruence.
        exists m0. rewrite Hcall by done. split_and!; [done| |done].
        intros r' m' Hne. destruct (decide (r' = r)) as [->|]; [by rewrite Hown|].
        rewrite Hcall by done. auto.
      * destruct H2 as (?&?&Hn). split_and!; [done..|]. intros r' m'.
        destruct (decide (r' = r)) as [->|]; [by rewrite Hown|]. rewrite Hcall by done. auto.
  - rewrite Hv. unfold whole, answer_of. by destruct r.
Qed.

Lemma handle_simulates l l' : inv l → step Handle l = Some l' → simulates Handle l l'.
Proof.
  intros [H1 H2] E. cbn in E. destruct (requests l) as [|m reqs] eqn:Hreq; [done|].
  destruct (lock l) as [r|] eqn:Hl; [|by destruct H2]. destruct H2 as (m'&Hm&Hn&Hw).
  destruct Hw as [[Hr Hrep]|[[? _]|[? _]]]; [|done..]. injection Hr as -> ->.
  pose proof (H1 r) as Hr. rewrite Hm in Hr. destruct Hr as [Hp Hcon].
  pose proof (request_turn r (inr JNull) (core l) (peer l) m' Hp Hcon) as Ht.
  assert (Hwl : whole l = (core l, peer l)).
  { unfold whole, answer_of. rewrite Hl. cbn. by rewrite Hrep, Hreq. }
  destruct (send m' (peer l)) as [o s] eqn:Es. injection E as <-. split.
  - split; [exact H1|]. cbn. rewrite Hl. exists m'. split_and!; [done..|]. rewrite Hrep. right.
    destruct o as [x|]; [left; split; [done|by exists x]|right]. by apply hangs_up in Es.
  - cbn [shadow]. rewrite Hl, Hwl. cbn [take_turns]. rewrite Ht. unfold whole, answer_of. cbn.
    rewrite Hl. cbn. rewrite Hrep. by destruct o.
Qed.

Lemma read_simulates r l l' : inv l → step (Read r) l = Some l' → simulates (Read r) l l'.
Proof.
  intros Hi E. cbn in E. destruct (call_of r l) as [| |m0] eqn:Hc; [done..|].
  pose proof (inv_reading r m0 l Hi Hc) as Hl. pose proof Hi as [H1 H2]. rewrite Hl in H2.
  destruct H2 as (m&Hm&Hn&Hw). pose proof (H1 r) as Hr. rewrite Hm in Hr. destruct Hr as [Hp Hcon].
  assert (Hrel : ∀ reps s, inv (release r (set_wire [] [] s l)) ∧
    call_of r (release r (set_wire [] reps s l)) = Out ∧
    core (release r (set_wire [] reps s l)) = core l).
  { intros reps s. split_and!; [|by destruct r|by destruct r]. split.
    - intros r'. destruct (decide (r' = r)) as [->|Hne]; [by destruct r|].
      specialize (H1 r'). by destruct r, r'.
    - assert (lock (release r (set_wire [] [] s l)) = None) as -> by by destruct r.
      split_and!; [by destruct r..|]. intros r' m'.
      destruct (decide (r' = r)) as [->|Hne]; [by destruct r|]. specialize (Hn r' m' Hne).
      by destruct r, r'. }
  assert (Hend : ∀ a, (let l2 := deliver r a (release r (set_wire [] [] (peer l) l)) in
    inv l2 ∧ whole l2 = (resumed r a (core l), peer l))).
  { intros a. destruct (Hrel [] (peer l)) as (Hi2&Ho2&Hcore). split; [by apply deliver_out|].
    rewrite whole_deliver by done. unfold whole. rewrite <- Hcore. by destruct r. }
  destruct (replies l) as [|x reps] eqn:Hrep.
  - destruct (closed (peer l)) eqn:Hcl; [|done]. injection E as <-.
    destruct (Hend (Reply None)) as [Hi' Hw']. split; [exact Hi'|]. rewrite Hw'.
    cbn [shadow]. rewrite Hrep. unfold whole, answer_of. rewrite Hl. cbn [mbind option_bind].
    rewrite Hrep. destruct Hw as [[Hq _]|[[_ [? ?]]|(Hq&_)]]; [|done|by rewrite Hq].
    rewrite Hq. cbn [take_turns]. rewrite (request_turn _ _ _ _ m) by done.
    by rewrite stays_closed.
  - destruct Hw as [[_ ?]|[[Hq [y Hy]]|(_&?&_)]]; [done| |done]. injection Hy as -> ->.
    rewrite Hq in E. injection E as <-. destruct (Hend (Reply (Some y))) as [Hi' Hw'].
    split; [exact Hi'|]. rewrite Hw'. cbn [shadow]. rewrite Hrep. unfold whole, answer_of.
    rewrite Hl. cbn. by rewrite Hrep.
Qed.

Lemma step_simulates v l l' : inv l → step v l = Some l' → simulates v l l'.
Proof.
  intros Hi E. pose proof Hi as [H1 _].
  assert (Hout : ∀ r, (∀ m, pending r l ≠ Request m) → call_of r l = Out).
  { intros r Hp. specialize (H1 r). destruct (call_of r l); [done|..]; destruct H1 as [H1 _]; by destruct (Hp _ H1). }
  destruct v as [r| | |r|r|x|f]; [| |by apply handle_simulates|by apply read_simulates|..].
  - cbn in E. destruct (call_of r l) eqn:Hc; [|done..]. destruct (pending r l) as [m| | |] eqn:Hp; [|done..].
    destruct (Worker._connected (self l)) eqn:Hcon; cbn in E.
    + case_bool_decide as Hf; injection E as <-.
      * destruct Hf as [? _]. apply acquire_simulates; auto. cbn. by rewrite Hcon.
      * apply queue_simulates; auto. cbn. by rewrite Hcon.
    + injection E as <-. apply (deliver_simulates _ r _ (inr JNull)); auto.
      { cbn. by rewrite Hcon. }
      rewrite Hp. cbn [serve]. unfold Worker._send. destruct (whole_pending r l Hi Hc) as [_ ->]. by rewrite Hcon.
  - cbn in E. destruct (lock l) eqn:Hl; [done|]. destruct (waiters l) as [|r ws]; [done|].
    destruct (call_of r l) as [|m|] eqn:Hc; [done| |done]. injection E as <-.
    specialize (H1 r). rewrite Hc in H1. destruct H1. by apply acquire_simulates; auto.
  - cbn in E. destruct (pending r l) as [|d| |] eqn:Hp; [done| |done..]. injection E as <-.
    apply (deliver_simulates _ r _ (inr JNull)); auto; [apply Hout; congruence|]. by rewrite Hp.
  - cbn [step] in E. destruct (pending Consumer l) as [| |p|] eqn:Hp; [done..| |done]. injection E as <-.
    apply (deliver_simulates _ Consumer _ x); auto; [apply Hout; congruence|]. by rewrite Hp.
  - cbn in E. destruct (implb _ _) eqn:Hcl; [|done]. injection E as <-. split.
    2: { transitivity ((whole l).1, f (peer l)); [done|]. cbn [shadow take_turns].
         change (whole l) with ((whole l).1, peer l) at 2. by destruct (whole l).1 as [[? ?] ?]. }
    destruct Hi as [_ H2]. split; [done|]. cbn. destruct (lock l); [|done].
    destruct H2 as (m&?&?&H). exists m. split_and!; [done..|].
    destruct H as [?|[?|(?&?&Hc)]]; [auto..|]. right. right. split_and!; [done..|].
    by rewrite Hc in Hcl.
Qed.

(** C11.  The connection lock makes [_send] one step.  However the two
    coroutines of a worker, the broker and the network interleave, with
    requests and replies of both on the one connection, the worker and the
    broker end up as after a sequence of turns in which every request is
    sent, handled and answered at once to the coroutine that made it: no
    coroutine ever reads a reply that is not its own. *)
Theorem lock_makes_send_atomic w p q s vs l :
  run vs (fresh w p q s) = Some l →
  whole l = take_turns (shadows vs (fresh w p q s)) (w, p, q, s).
Proof.
  intros E. change (w, p, q, s) with (whole (fresh w p q s)).
  pose proof (fresh_inv w p q s) as Hi. revert Hi E. generalize (fresh w p q s).
  induction vs as [|v vs IH]; intros l0 Hi E; cbn in *; [by injection E as ->|].
  destruct (step v l0) as [l1|] eqn:Es; [|done]. destruct (step_simulates v l0 l1 Hi Es) as [Hi1 Hw].
  rewrite take_turns_app, <- Hw. by apply IH.
Qed.
End line.

(** ** Witness *)

(** Answers [n] requests, then hangs up. *)
Definition brief (m : Json) (n : nat) : option Json * nat :=
  match n with
  | O => (None, 0)
  | S n =>
      (Some (JObj [("status", JStr (if bool_decide (obj_get "command" m = Some (JStr "HEARTBEAT"))
                                    then "ok" else "empty"))]), n)
  end.

Definition hung_up (n : nat) : bool := bool_decide (n = 0).

Lemma brief_hangs_up m n n' : brief m n = (None, n') → hung_up n' = true.
Proof. by destruct n; [intros [= <-]|]. Qed.

Lemma brief_stays_closed m n : hung_up n = true → brief m n = (None, n).
Proof. by intros ->%bool_decide_eq_true. Qed.

Definition busy_worker : Worker.t :=
  Worker.set_running true (Worker.set_connected true (Worker.init "tasks" (Some "w1") "u")).

(** The heartbeat comes while a CONSUME is under way and waits for the
    lock; the broker hangs up during the request that follows. *)
Definition contention : list (Move (S := nat)) :=
  [Wake Heart; Enter Consumer; Enter Heart; Handle; Read Consumer; Grant; Handle; Read Heart;
   Wake Consumer; Enter Consumer; Handle; Read Consumer].

Lemma lock_makes_send_atomic_witness :
  ∃ l, run brief "lost" hung_up contention (fresh busy_worker Polling Resting 2) = Some l ∧
    whole "lost" l = take_turns brief "lost"
      (shadows brief "lost" hung_up contention (fresh busy_worker Polling Resting 2))
      (busy_worker, Polling, Resting, 2) ∧
    (point l, beat l) = (Stopped (Worker.Stop Worker.LostConnection), Resting).
Proof.
  eexists. split; [vm_compute; reflexivity|]. split; [|reflexivity].
  apply (lock_makes_send_atomic brief "lost" hung_up brief_hangs_up brief_stays_closed).
  vm_compute. reflexivity.
Defined.
End Connection.
