(* ===== verification/Conversation.v ===== *)
(** * Clients and broker understand each other ([producer/client.py],
      [worker/base_worker.py], [broker/server.py])

The clients index into replies without checking them, so a reply of the
wrong form would end them with a [KeyError] or a [TypeError].  Against any
peer whose replies have the type of their command ([TypedPeer], which the
broker is), neither client ever fails that way. *)

From S2P Require Import Prelude PyDict Json JsonText DeadLetter QueueManager WorkerRegistry LoadShedder WalStore Metrics Server Requests Recovery Replies Wire Producer EndToEnd Worker.
Import Server Replies.

(** A peer that answers each message with a reply of its type, as long as
    the connection lasts and no limit of a listing is too large. *)
Class TypedPeer {S : Type} (send : Json → S → option Json * S) := {
  peer_ok : S → Prop;
  peer_typed : ∀ o m s, Wire.message_of o = Some m → bindable m = true → peer_ok s →
    peer_ok (send (JObj o) s).2 ∧
    match (send (JObj o) s).1 with Some r => has_type (reply_type m) r = true | None => True end;
}.

Module Conversation.

(** ** Reading typed replies *)

Lemma rec_cons_inv k t fs j :
  has_type (TRec ((k, t) :: fs)) j = true →
  ∃ v o, j = JObj ((k, v) :: o) ∧ has_type t v = true ∧ has_type (TRec fs) (JObj o) = true.
Proof.
  destruct j as [| | | | | |[|[k' v] o]]; try done. cbn. intros H.
  apply andb_true_iff in H as [[H1 H2]%andb_true_iff H3]. apply bool_decide_eq_true in H1 as ->.
  by exists v, o.
Qed.

Lemma or_inv a b j : has_type (TOr a b) j = true → has_type a j = true ∨ has_type b j = true.
Proof. cbn. apply orb_true_iff. Qed.

Lemma lit_inv s j : has_type (TLit s) j = true → j = JStr s.
Proof. destruct j; try done. cbn. by intros ->%bool_decide_eq_true. Qed.

Lemma str_inv j : has_type TStr j = true → ∃ s, j = JStr s.
Proof. destruct j; try done. eauto. Qed.

(** The status of a reply, and what comes with it. *)
Lemma status_inv s fs j :
  has_type (TRec (("status", TLit s) :: fs)) j = true →
  ∃ o, j = JObj (("status", JStr s) :: o) ∧ has_type (TRec fs) (JObj o) = true.
Proof. intros (v&o&->&->%lit_inv&H)%rec_cons_inv. by exists o. Qed.

Lemma produce_reply_cases j :
  has_type (TOr produce_t error_t) j = true →
  (∃ tid o, j = JObj (("status", JStr "ok") :: ("task_id", JStr tid) :: o)) ∨
  (∃ h o, j = JObj (("status", JStr "rate_limited") :: ("retry_after_seconds", h) :: o) ∧
     has_type TNum h = true) ∨
  (∃ o, j = JObj (("status", JStr "error") :: o)).
Proof.
  intros [[(o&->&(v&o'&[= ->]&(tid&->)%str_inv&_)%rec_cons_inv)%status_inv
         |(o&->&(v&o'&[= ->]&Hv&_)%rec_cons_inv)%status_inv]%or_inv|(o&->&_)%status_inv]%or_inv; eauto 6.
Qed.

Lemma consume_reply_cases j :
  has_type (TOr consume_t error_t) j = true →
  (∃ o, j = JObj (("status", JStr "empty") :: o)) ∨
  (∃ tid o o', j = JObj (("status", JStr "ok") :: ("task", JObj (("task_id", JStr tid) :: o)) :: o')) ∨
  (∃ o, j = JObj (("status", JStr "error") :: o)).
Proof.
  intros [[(o&->&_)%status_inv
         |(o&->&(v&o'&[= ->]&(tid&o''&->&(id&->)%str_inv&_)%rec_cons_inv&_)%rec_cons_inv)%status_inv]%or_inv
         |(o&->&_)%status_inv]%or_inv; eauto 7.
Qed.

Lemma obj_get_head k v o : obj_get k (JObj ((k, v) :: o)) = Some v.
Proof. cbn. by rewrite decide_True. Qed.

Lemma obj_get_tail k k' v o : k' ≠ k → obj_get k (JObj ((k', v) :: o)) = obj_get k (JObj o).
Proof. intros H. cbn. by rewrite decide_False. Qed.

Ltac read_in E :=
  repeat first
    [ rewrite obj_get_head in E | rewrite obj_get_tail in E by done
    | rewrite bool_decide_true in E by done | rewrite bool_decide_false in E by done
    | progress cbv beta iota in E ].

Section clients.
Context {S : Type} (send : Json → S → option Json * S) `{!TypedPeer send} (sleep : Q → S → S).
Context (sleep_ok : ∀ w s, peer_ok s → peer_ok (sleep w s)).

(** ** The producer *)

Lemma produce_loop_understands fuel us qn p bo s out trace s' :
  peer_ok s → Client.produce_loop send sleep fuel us qn p bo s = Some (out, trace, s') →
  out ≠ Client.BadResponse.
Proof.
  revert us bo s trace. induction fuel as [|fuel IH]; intros us bo s trace Hs E; [done|].
  cbn [Client.produce_loop] in E.
  destruct (peer_typed _ _ s (eq_refl : Wire.message_of [("command", JStr "PRODUCE"); ("queue", JStr qn);
    ("task", p)] = Some (EndToEnd.produce_message qn p)) eq_refl Hs) as [Hs1 Ht].
  change (JObj [("command", JStr "PRODUCE"); ("queue", JStr qn); ("task", p)])
    with (Client.request qn p) in *.
  destruct (send (Client.request qn p) s) as [[r|] s1]; cbn [fst snd] in *; [|by simplify_eq].
  apply produce_reply_cases in Ht as [(tid&o&->)|[(h&o&->&Hh)|(o&->)]]; read_in E;
    [by simplify_eq| |by simplify_eq].
  unfold Client.retry_hint in E. read_in E.
  destruct h as [| | |h| | |]; try done; cbn in E;
    (destruct (Backoff.next_wait _ _ _) as [[w bo']|]; [|by simplify_eq]);
    destruct (Client.produce_loop _ _ fuel _ _ _ _ _) as [[[out' trace'] s2]|] eqn:El; try done;
    cbn in E; simplify_eq; refine (IH _ _ _ _ _ El); auto.
Qed.

(** ** The worker *)

Context (execute : Json → string + Json) (lost : string).

(** A message the worker sends, over the guarded [_send]. *)
Lemma worker_send w o m s :
  Wire.message_of o = Some m → bindable m = true → peer_ok s →
  peer_ok (Worker._send send w (JObj o) s).2 ∧
  match (Worker._send send w (JObj o) s).1 with
  | Some r => has_type (reply_type m) r = true
  | None => True
  end.
Proof. intros Hm Hl Hs. unfold Worker._send. destruct (Worker._connected w); [by apply peer_typed|done]. Qed.

Ltac exchange Hs Hs' Ht :=
  match goal with |- context [Worker._send send ?w (JObj ?o) ?s] =>
    destruct (worker_send w o _ s eq_refl eq_refl Hs) as [Hs' Ht];
    destruct (Worker._send send w (JObj o) s) as [[?r|] ?s]; cbn [fst snd] in Hs', Ht
  end.

Lemma report_failure_understands w tid err s :
  peer_ok s →
  (Worker.report_failure send w tid err s).1.1 ≠ Worker.Stop Worker.BadResponse ∧
  peer_ok (Worker.report_failure send w tid err s).2.
Proof.
  intros Hs. unfold Worker.report_failure, Worker.nack_message. by exchange Hs Hs' Ht.
Qed.

Lemma round_understands w s :
  peer_ok s →
  (Worker.round send sleep execute lost w s).1.1 ≠ Worker.Stop Worker.BadResponse ∧
  peer_ok (Worker.round send sleep execute lost w s).2.
Proof.
  intros Hs. unfold Worker.round, Worker.consume_message. exchange Hs Hs' Ht; [|done].
  apply consume_reply_cases in Ht as [(o&->)|[(tid&o&o'&->)|(o&->)]]; rewrite obj_get_head.
  - rewrite bool_decide_true by done. split; [done|]. cbn. auto.
  - rewrite bool_decide_false by done. rewrite bool_decide_true by done. cbn [negb].
    unfold Worker.received_task. rewrite obj_get_tail by done. rewrite obj_get_head. cbn [mbind option_bind].
    rewrite obj_get_head. cbn [mbind option_bind].
    destruct (match obj_get "payload" _ with Some p => _ | None => _ end) as [err|res].
    + by apply report_failure_understands.
    + unfold Worker.ack_message. exchange Hs' Hs2 Ht2; [done|]. by apply report_failure_understands.
  - rewrite !bool_decide_false by done. split; [done|]. cbn. auto.
Qed.

Lemma work_understands n w s :
  peer_ok s →
  (Worker.work send sleep execute lost n w s).1.1 ≠ Worker.Stop Worker.BadResponse ∧
  peer_ok (Worker.work send sleep execute lost n w s).2.
Proof.
  revert w s. induction n as [|n IH]; intros w s Hs; [done|]. cbn [Worker.work].
  destruct (Worker._running w); [|done]. pose proof (round_understands w s Hs) as [Hr Hs'].
  destruct (Worker.round send sleep execute lost w s) as [[[|e] w'] s1]; cbn [fst snd] in *; auto.
Qed.

Lemma connect_understands w s :
  peer_ok s →
  (Worker.connect send w s).1.1 ≠ Some Worker.BadResponse ∧ peer_ok (Worker.connect send w s).2.
Proof.
  intros Hs. unfold Worker.connect, Worker.register_message. exchange Hs Hs' Ht; [|done].
  by case_bool_decide.
Qed.
End clients.

(** ** The broker is such a peer *)

Section broker.
Context `{codec : JsonCodec} (env_at : Q → Env).

Lemma broker_send_typed o m st :
  Wire.message_of o = Some m → bindable m = true → readable st.1 →
  readable (EndToEnd.broker_send env_at (JObj o) st).2.1 ∧
  match (EndToEnd.broker_send env_at (JObj o) st).1 with
  | Some r => has_type (reply_type m) r = true
  | None => True
  end.
Proof.
  destruct st as [b t]. intros Hm Hl [p Hp]%readable_ready. cbn [fst] in Hp.
  unfold EndToEnd.broker_send. rewrite Hm. cbn [fst snd].
  assert (Ho : ¬ overflows m b) by (intros (_&_&H); congruence).
  destruct (dispatch_answers (env_at t) m p b Hp Ho) as (j&b'&->&Hj&Hb'). split; [|done].
  apply readable_ready. by exists p.
Qed.

#[export] Instance broker_typed : TypedPeer (EndToEnd.broker_send env_at) :=
  {| peer_ok st := readable st.1; peer_typed := broker_send_typed |}.
End broker.

(** C26.  Neither client can be surprised by a reply.  Against any peer that
    answers each message with a reply of the type of its command, as the
    broker does, [produce] ends (with a task id or one of its documented
    errors) and the worker's [run] only ever stops because the connection
    was lost or its registration was refused; neither fails on a missing
    or ill-typed field. *)
Theorem clients_understand_replies {S} (send : Json → S → option Json * S) `{!TypedPeer send}
    (sleep : Q → S → S) (execute : Json → string + Json) (lost : string) us qn p k n w s :
  (∀ d s, peer_ok s → peer_ok (sleep d s)) → peer_ok s →
  Client.unit_readings us → (0 <= k)%Z →
  (∃ out trace s', Client.produce send sleep us qn p k s = Some (out, trace, s') ∧
     out ≠ Client.BadResponse) ∧
  (Worker.run send sleep execute lost n w s).1.1 ≠ Some Worker.BadResponse.
Proof.
  intros Hsleep Hs Hus Hk. split.
  - destruct (Client.produce_loop_total send sleep (Z.to_nat k + 1) us qn p (Backoff.init k) s)
      as (out&trace&s'&E&_); [done|apply EndToEnd.init_params|cbn; lia|lia|].
    exists out, trace, s'. split; [done|]. by eapply produce_loop_understands.
  - unfold Worker.run. pose proof (connect_understands send w s Hs) as [Hc Hs1].
    destruct (Worker.connect send w s) as [[[e|] w1] s1]; cbn [fst snd] in *; [done|].
    pose proof (work_understands send sleep Hsleep execute lost n (Worker.set_running true w1) s1 Hs1)
      as [Hr _].
    destruct (Worker.work send sleep execute lost n _ s1) as [[[|e] w2] s2]; cbn in *; congruence.
Qed.

#[local] Existing Instance JsonText.codec.

Lemma clients_understand_replies_witness :
  let env_at t := mkEnv t t "u" ("10.0.0.7", 40000%Z) 1 0 "tasks.db" in
  let send := EndToEnd.broker_send env_at in
  let start := (new_broker (Some Wal.empty_db) 0, 0%Q) in
  (∃ out trace s', Client.produce send EndToEnd.broker_sleep (λ _, 0%Q) "q" (JObj []) 3 start =
     Some (out, trace, s') ∧ out ≠ Client.BadResponse) ∧
  (Worker.run send EndToEnd.broker_sleep (λ _, inr JNull) "lost" 5
    (Worker.init "q" (Some "w1") "u") start).1.1 ≠ Some Worker.BadResponse.
Proof.
  intros env_at send start.
  apply (clients_understand_replies send EndToEnd.broker_sleep).
  - by intros d [b t].
  - by apply Forall_nil_2.
  - intros i. split; by vm_compute.
  - lia.
Defined.
End Conversation.
