(* ===== verification/LoadGen.v ===== *)
(** * Load generators ([run_load.py], [benchmarks/raw_throughput.py],
      [tests/load/load_simulator.py])

One producer of each of the three load generators, written like the client
over a peer, and the percentiles they print.  Against the broker, what a
generator reports as accepted is what the broker enqueued. *)

From S2P Require Import Prelude PyDict Json JsonText DeadLetter QueueManager QueueOrder WorkerRegistry LoadShedder WalStore Metrics Server Requests Recovery Replies Wire Producer Session EndToEnd Conversation.
Import Server.

Module LoadGen.

Section generators.
Context {S : Type} (send : Json → S → option Json * S) (sleep : Q → S → S) (monotonic : S → Q).

(** ** [run_load.run_producer] *)

Definition flood_queue (prefix : string) (i : nat) : string :=
  if Nat.even i then prefix +:+ "tasks" else prefix +:+ "emails".

Definition flood_payload (prod_id : Z) (i : nat) : Json :=
  JObj [("test", JBool true); ("prod_id", JInt prod_id); ("seq", JInt (Z.of_nat i))].

(** The loop from [i] for [n] more tasks.  The two [RuntimeError]s of
    [produce] are ignored; any other exception ends the loop and is its
    result. *)
Fixpoint flood (us : nat → nat → Q) (prod_id : Z) (prefix : string) (delay : Q) (n i : nat) (s : S) :
    option (option Client.Outcome * S) :=
  match n with
  | O => Some (None, s)
  | Datatypes.S n =>
      match Client.produce send sleep (us i) (flood_queue prefix i) (flood_payload prod_id i) 0 s with
      | None => None
      | Some (out, _, s) =>
          match out with
          | Client.ConnectionLost | Client.BadResponse => Some (Some out, s)
          | _ =>
              let s := if Qltb 0 delay then sleep delay s else s in
              flood us prod_id prefix delay n (Datatypes.S i) s
          end
      end
  end.

(** ** [raw_throughput.producer] *)

Definition bench_payload (i : nat) : Json := JObj [("i", JInt (Z.of_nat i))].

(** [latencies] and [failures] are the shared lists the producer appends to. *)
Fixpoint bench (us : nat → nat → Q) (n i : nat) (latencies : list Q) (failures : list nat) (s : S) :
    option (list Q * list nat * S) :=
  match n with
  | O => Some (latencies, failures, s)
  | Datatypes.S n =>
      let start := monotonic s in
      match Client.produce send sleep (us i) "bench" (bench_payload i) 5 s with
      | None => None
      | Some (Client.Submitted _, _, s) =>
          bench us n (Datatypes.S i) (latencies ++ [((monotonic s - start) * 1000)%Q]) failures s
      | Some (_, _, s) => bench us n (Datatypes.S i) latencies (failures ++ [i]) s
      end
  end.

(** ** [load_simulator.simulate_producer] *)

Record Report := mkReport { latencies : list Q; accepted : nat; rate_limited : nat }.

Definition simulate_payload (producer_id : Z) (i : nat) : Json :=
  JObj [("job", JInt (Z.of_nat i)); ("producer", JInt producer_id)].

(** Both [except] clauses count the task as rate limited. *)
Fixpoint simulate (us : nat → nat → Q) (producer_id : Z) (n i : nat) (r : Report) (s : S) :
    option (Report * S) :=
  match n with
  | O => Some (r, s)
  | Datatypes.S n =>
      let start := monotonic s in
      match Client.produce send sleep (us i) "load_test" (simulate_payload producer_id i) 5 s with
      | None => None
      | Some (Client.Submitted _, _, s) =>
          simulate us producer_id n (Datatypes.S i)
            (mkReport (latencies r ++ [((monotonic s - start) * 1000)%Q]) (accepted r + 1)
               (rate_limited r)) s
      | Some (_, _, s) =>
          simulate us producer_id n (Datatypes.S i)
            (mkReport (latencies r) (accepted r) (rate_limited r + 1)) s
      end
  end.

Definition simulate_tasks (us : nat → nat → Q) (producer_id : Z) (tasks_count : nat) (s : S) :
    option (Report * S) :=
  simulate us producer_id tasks_count 0 (mkReport [] 0 0) s.
End generators.

(** ** With their connections *)

Section connected.
Context {S : Type} (dial : string → Z → S → Session.Dial).
Context (send : Json → S → option Json * S) (sleep : Q → S → S) (monotonic : S → Q).

Abbreviation World := (Os.table * S)%type.

(** [connect], a loop, [close].  The loop's exception, if any, skips the
    [close], which is not in a [finally].  [reset]: whether the peer has
    reset the connection when the loop fails. *)
Definition with_client {R} (host : string) (port : Z) (reset flushed : bool)
    (loop : (Json → S → option Json * S) → S → option (option Client.Outcome * R * S)) (w : World) :
    option (option Session.Exn * option R * World) :=
  match Session.connect dial (Session.init host port) w with
  | (Some e, _, w) => Some (Some e, None, w)
  | (None, c, w) =>
      match loop (Session._send send c) w.2 with
      | None => None
      | Some (Some out, r, s) =>
          Some (Some (Session.Failed out), Some r, (Os.lose reset (Session._writer c) w.1, s))
      | Some (None, r, s) =>
          let '(e, _, w) := Session.close flushed c (w.1, s) in Some (e, Some r, w)
      end
  end.

Definition run_producer (us : nat → nat → Q) (prod_id : Z) (num_tasks : nat) (host : string)
    (port : Z) (queue_prefix : string) (delay : Q) (reset flushed : bool) (w : World) :
    option (option Session.Exn * option unit * World) :=
  with_client host port reset flushed
    (λ send s, '(e, s) ← flood send sleep us prod_id queue_prefix delay num_tasks 0 s;
               Some (e, tt, s)) w.

(** The two shared lists are returned. *)
Definition producer (us : nat → nat → Q) (port : Z) (n : nat) (lat : list Q) (fail : list nat)
    (reset flushed : bool) (w : World) :
    option (option Session.Exn * option (list Q * list nat) * World) :=
  with_client "127.0.0.1" port reset flushed
    (λ send s, '(lat, fail, s) ← bench send sleep monotonic us n 0 lat fail s;
               Some (None, (lat, fail), s)) w.

Definition simulate_producer (us : nat → nat → Q) (producer_id : Z) (tasks_count : nat)
    (host : string) (port : Z) (reset flushed : bool) (w : World) :
    option (option Session.Exn * option Report * World) :=
  with_client host port reset flushed
    (λ send s, '(r, s) ← simulate_tasks send sleep monotonic us producer_id tasks_count s;
               Some (None, r, s)) w.

(** The socket is closed unless the loop raised on a connection that was not
    reset. *)
Lemma with_client_sockets {R} host port reset flushed loop w e (r : option R) w' :
  Os.wf w.1 → with_client host port reset flushed loop w = Some (e, r, w') →
  Os.open_handles w'.1 =
    match e with
    | Some (Session.Failed _) =>
        if reset then Os.open_handles w.1 else {[Os.next_handle w.1]} ∪ Os.open_handles w.1
    | _ => Os.open_handles w.1
    end.
Proof.
  intros Hw. unfold with_client, Session.connect, Session.open_connection.
  destruct (dial _ _ _); [|by intros [= <- <- <-]..]. cbn.
  destruct (loop _ w.2) as [[[[out|] x] s]|]; [intros [= <- <- <-]| |done].
  { destruct reset; [by apply Os.acquire_release|done]. }
  unfold Session.close. cbn. destruct flushed; intros [= <- <- <-]; by apply Os.acquire_release.
Qed.
End connected.

(** ** Percentiles *)

(** [pct] of the benchmark: [None] is an [IndexError], [Some None] the
    [nan] of an empty list. *)
Definition pct (lat : list Q) (p : Q) : option (option Q) :=
  if bool_decide (lat = []) then Some None
  else Some <$> Metrics.py_index lat (Metrics.py_int (p * inject_Z (Z.of_nat (length lat) - 1))).

(** [sorted_lat[int(n * p)]] of the simulator. *)
Definition report_percentile (sorted_lat : list Q) (p : Q) : option Q :=
  Metrics.py_index sorted_lat (Metrics.py_int (inject_Z (Z.of_nat (length sorted_lat)) * p)).

Lemma py_index_some {A} (l : list A) (i : Z) :
  (0 <= i < Z.of_nat (length l))%Z → is_Some (Metrics.py_index l i).
Proof.
  intros Hi. unfold Metrics.py_index. rewrite (proj2 (Z.ltb_ge _ _)) by lia.
  apply lookup_lt_is_Some. lia.
Qed.

(** [int(x)] of a number in [[0, k]]. *)
Lemma py_int_range x (k : Z) :
  (0 <= x)%Q → (x <= inject_Z k)%Q → (0 <= Metrics.py_int x <= k)%Z.
Proof.
  intros H0 Hk. destruct (Metrics.py_int_nonneg x H0) as [-> ?]. split; [done|].
  apply Qfloor_resp_le in Hk. by rewrite Qfloor_Z in Hk.
Qed.

Lemma pct_defined lat p : (0 <= p)%Q → (p <= 1)%Q → is_Some (pct lat p).
Proof.
  intros Hp0 Hp1. unfold pct. case_bool_decide as Hl; [eauto|]. apply fmap_is_Some, py_index_some.
  assert (0 <= Z.of_nat (length lat) - 1)%Z as Hn by (destruct lat; [done|cbn; lia]).
  assert (0 <= inject_Z (Z.of_nat (length lat) - 1))%Q as HnQ by (change 0%Q with (inject_Z 0); by rewrite <- Zle_Qle).
  assert (0 <= p * inject_Z (Z.of_nat (length lat) - 1))%Q as H0 by (by apply Qmult_le_0_compat).
  assert (p * inject_Z (Z.of_nat (length lat) - 1) <= inject_Z (Z.of_nat (length lat) - 1))%Q as H1.
  { rewrite <- (Qmult_1_l (inject_Z _)) at 2. by apply Qmult_le_compat_r. }
  pose proof (py_int_range _ _ H0 H1). lia.
Qed.

Lemma report_percentile_defined lat p :
  lat ≠ [] → (0 <= p)%Q → (p < 1)%Q → is_Some (report_percentile lat p).
Proof.
  intros Hl Hp0 Hp1. apply py_index_some.
  assert (0 < Z.of_nat (length lat))%Z as Hn by (destruct lat; [done|cbn; lia]).
  set (n := Z.of_nat (length lat)) in *.
  assert (0 < inject_Z n)%Q as HnQ by (change 0%Q with (inject_Z 0); by rewrite <- Zlt_Qlt).
  assert (0 <= inject_Z n * p)%Q as H0 by (apply Qmult_le_0_compat; [lra|done]).
  assert (inject_Z n * p < inject_Z n)%Q as H1.
  { rewrite <- (Qmult_1_r (inject_Z n)) at 2. by apply Qmult_lt_l. }
  destruct (Metrics.py_int_nonneg _ H0) as [-> ?]. split; [done|].
  apply Z.lt_nge. intros Hle. rewrite Zle_Qle in Hle. pose proof (Qfloor_le (inject_Z n * p)). lra.
Qed.

(** ** Against the broker *)

Section broker.
Context `{codec : JsonCodec} (env_at : Q → Env).

Abbreviation bsend := (EndToEnd.broker_send env_at).

(** What one PRODUCE request does to the tasks. *)
Lemma request_effect qn p b t :
  ∃ r b', bsend (Client.request qn p) (b, t) = (Some r, (b', t)) ∧
    ((r = JObj [("status", JStr "ok"); ("task_id", JStr (e_uuid (env_at t)))] ∧
      queue_manager b' =
        (QM.enqueue qn p (e_uuid (env_at t)) (e_time (env_at t)) (queue_manager b)).2) ∨
     (∃ h, r = Requests.rate_limited_reply h ∧ queue_manager b' = queue_manager b) ∨
     (∃ reason, r = error reason ∧ queue_manager b' = queue_manager b)).
Proof.
  set (m := EndToEnd.produce_message qn p).
  change (bsend (Client.request qn p) (b, t))
    with (let '(r, b) := _handle_produce (env_at t) m b in (r, (b, t))).
  destruct (given (m_queue m)) as [q|] eqn:Eq; [destruct (task_given (m_task m)) as [x|] eqn:Ex|].
  - destruct (Requests.handle_produce_spec (env_at t) m b q x Eq Ex) as (al&ra&sh&_&->).
    assert (q = qn) as -> by (cbn in Eq; destruct (truthy_str qn); by simplify_eq).
    assert (x = p) as -> by (cbn in Ex; destruct p; by simplify_eq).
    destruct al; do 2 eexists; (split; [reflexivity|]); [by left|]. right. left. by eexists.
  - unfold _handle_produce. rewrite Eq, Ex. do 2 eexists. split; [reflexivity|]. right. right. by eexists.
  - unfold _handle_produce. rewrite Eq. do 2 eexists. split; [reflexivity|]. right. right. by eexists.
Qed.

(** How [produce] leaves the tasks of the broker. *)
Definition submitted_as (qn : string) (p : Json) (out : Client.Outcome) (s s' : QM.t) : Prop :=
  match out with
  | Client.Submitted tid =>
      ∃ t, tid = e_uuid (env_at t) ∧ s' = (QM.enqueue qn p tid (e_time (env_at t)) s).2
  | Client.Exhausted | Client.Rejected _ => s' = s
  | Client.ConnectionLost | Client.BadResponse => False
  end.

Lemma produce_loop_once fuel us qn p bo b t out trace b' t' :
  Client.produce_loop bsend EndToEnd.broker_sleep fuel us qn p bo (b, t) =
    Some (out, trace, (b', t')) →
  submitted_as qn p out (queue_manager b) (queue_manager b').
Proof.
  revert us bo b t trace. induction fuel as [|fuel IH]; intros us bo b t trace E; [done|].
  cbn [Client.produce_loop] in E.
  destruct (request_effect qn p b t) as (r&b1&Es&Hr). rewrite Es in E. cbv beta iota in E.
  destruct Hr as [[-> Hq]|[(h&->&Hq)|(reason&->&Hq)]]; unfold Requests.rate_limited_reply, error in E;
    Conversation.read_in E.
  - simplify_eq. by exists t'.
  - unfold Client.retry_hint in E. Conversation.read_in E.
    destruct (Backoff.next_wait _ _ _) as [[w bo']|]; [|by simplify_eq].
    unfold EndToEnd.broker_sleep in E. cbn [fst snd] in E.
    destruct (Client.produce_loop _ _ fuel _ _ _ _ _) as [[[out' trace'] [b2 t2]]|] eqn:El; [|done].
    cbn in E. simplify_eq. rewrite <- Hq. by eapply IH.
  - by simplify_eq.
Qed.

(** C27.  Over a connection that lasts, [produce] submits its task exactly
    once or not at all: it always returns, and when it returns a task id
    the broker has enqueued the task under that id once, however many
    requests were rate limited before; when it raises, the broker's tasks
    are unchanged. *)
Theorem produce_submits_exactly_once us qn p n b t :
  Client.unit_readings us →
  ∃ out trace b' t',
    Client.produce bsend EndToEnd.broker_sleep us qn p n (b, t) = Some (out, trace, (b', t')) ∧
    match out with
    | Client.Submitted tid =>
        ∃ t0, tid = e_uuid (env_at t0) ∧
          queue_manager b' = (QM.enqueue qn p tid (e_time (env_at t0)) (queue_manager b)).2
    | Client.Exhausted | Client.Rejected _ => queue_manager b' = queue_manager b
    | Client.ConnectionLost | Client.BadResponse => False
    end.
Proof.
  intros Hus.
  destruct (Session.produce_total EndToEnd.broker_sleep bsend us qn p n (b, t) Hus)
    as (out&trace&[b' t']&E).
  exists out, trace, b', t'. split; [done|]. exact (produce_loop_once _ _ _ _ _ _ _ _ _ _ _ E).
Qed.

(** What a generator sees of [n] tasks, [k] of them accepted. *)
Definition enqueued (qn : string) (k : nat) (s s' : QM.t) : Prop :=
  QM._total_enqueued s' = (QM._total_enqueued s + Z.of_nat k)%Z ∧
  QM.queue_depth qn s' = QM.queue_depth qn s + k.

Lemma enqueued_refl qn s : enqueued qn 0 s s.
Proof. split; lia. Qed.

Lemma enqueued_trans qn k k' s s' s'' :
  enqueued qn k s s' → enqueued qn k' s' s'' → enqueued qn (k + k') s s''.
Proof. unfold enqueued. lia. Qed.

Lemma enqueue_enqueued qn p tid now s : enqueued qn 1 s (QM.enqueue qn p tid now s).2.
Proof.
  split.
  - cbn. unfold QM._ensure_queue. by destruct (dget qn (QM._queues s)).
  - unfold QM.queue_depth. rewrite queue_of_enqueue, decide_True, length_app by done. done.
Qed.

Lemma submitted_enqueued qn p out s s' :
  submitted_as qn p out s s' →
  enqueued qn (match out with Client.Submitted _ => 1 | _ => 0 end) s s'.
Proof.
  destruct out; cbn; [intros (t&_&->); apply enqueue_enqueued|intros ->; apply enqueued_refl..|done|done].
Qed.

Lemma simulate_accounts us id n i r b t :
  (∀ i, Client.unit_readings (us i)) →
  ∃ k ls b' t',
    simulate bsend EndToEnd.broker_sleep snd us id n i r (b, t) =
      Some (mkReport (latencies r ++ ls) (accepted r + k) (rate_limited r + (n - k)), (b', t')) ∧
    k ≤ n ∧ length ls = k ∧ enqueued "load_test" k (queue_manager b) (queue_manager b').
Proof.
  intros Hus. revert i r b t. induction n as [|n IH]; intros i r b t; cbn [simulate].
  { exists 0, [], b, t. destruct r. cbn. rewrite app_nil_r, !Nat.add_0_r.
    split_and!; [done..|apply enqueued_refl]. }
  destruct (Session.produce_total EndToEnd.broker_sleep bsend (us i) "load_test"
    (simulate_payload id i) 5 (b, t) (Hus i)) as (out&trace&[b1 t1]&E).
  pose proof (submitted_enqueued _ _ _ _ _ (produce_loop_once _ _ _ _ _ _ _ _ _ _ _ E)) as He.
  rewrite E. cbn [snd]. destruct out as [tid| | | |].
  1: set (r1 := mkReport _ (accepted r + 1) _); destruct (IH (S i) r1 b1 t1)
       as (k&ls&b'&t'&->&Hk&Hl&He'); exists (S k), (((t1 - t) * 1000)%Q :: ls), b', t'.
  2-5: set (r1 := mkReport _ _ (rate_limited r + 1)); destruct (IH (S i) r1 b1 t1)
       as (k&ls&b'&t'&->&Hk&Hl&He'); exists k, ls, b', t'.
  all: split_and!; [|lia|cbn; lia|exact (enqueued_trans _ _ _ _ _ _ He He')].
  all: unfold r1; cbn [latencies accepted rate_limited]; do 2 f_equal; f_equal; try lia.
  by rewrite <- app_assoc.
Qed.

(** The simulator's figures are right: a producer alone with the broker
    reports every task as accepted or rate limited, one latency per
    accepted task, and the broker has enqueued exactly the accepted ones on
    the test's queue. *)
Theorem simulation_accounts us id n b t :
  (∀ i, Client.unit_readings (us i)) →
  ∃ r b' t', simulate_tasks bsend EndToEnd.broker_sleep snd us id n (b, t) = Some (r, (b', t')) ∧
    accepted r + rate_limited r = n ∧ length (latencies r) = accepted r ∧
    QM._total_enqueued (queue_manager b') =
      (QM._total_enqueued (queue_manager b) + Z.of_nat (accepted r))%Z ∧
    QM.queue_depth "load_test" (queue_manager b') =
      QM.queue_depth "load_test" (queue_manager b) + accepted r.
Proof.
  intros Hus. destruct (simulate_accounts us id n 0 (mkReport [] 0 0) b t Hus)
    as (k&ls&b'&t'&E&Hk&Hl&He).
  exists (mkReport ls k (n - k)), b', t'. split_and!; [exact E|cbn; lia|done|apply He|apply He].
Qed.

Lemma bench_accounts us n i lat fail b t :
  (∀ i, Client.unit_readings (us i)) →
  ∃ ls fs b' t', bench bsend EndToEnd.broker_sleep snd us n i lat fail (b, t) =
      Some (lat ++ ls, fail ++ fs, (b', t')) ∧
    length ls + length fs = n ∧
    enqueued "bench" (length ls) (queue_manager b) (queue_manager b').
Proof.
  intros Hus. revert i lat fail b t. induction n as [|n IH]; intros i lat fail b t; cbn [bench].
  { exists [], [], b, t. rewrite !app_nil_r. split_and!; [done..|apply enqueued_refl]. }
  destruct (Session.produce_total EndToEnd.broker_sleep bsend (us i) "bench"
    (bench_payload i) 5 (b, t) (Hus i)) as (out&trace&[b1 t1]&E).
  pose proof (submitted_enqueued _ _ _ _ _ (produce_loop_once _ _ _ _ _ _ _ _ _ _ _ E)) as He.
  rewrite E. cbn [snd]. destruct out as [tid| | | |].
  1: destruct (IH (S i) (lat ++ [((t1 - t) * 1000)%Q]) fail b1 t1) as (ls&fs&b'&t'&->&Hl&He');
     exists (((t1 - t) * 1000)%Q :: ls), fs, b', t'.
  2-5: destruct (IH (S i) lat (fail ++ [i]) b1 t1) as (ls&fs&b'&t'&->&Hl&He');
     exists ls, (i :: fs), b', t'.
  all: rewrite <- !app_assoc; split_and!; [done|cbn; lia|exact (enqueued_trans _ _ _ _ _ _ He He')].
Qed.

(** A flood against the broker is never interrupted. *)
Lemma flood_completes us id prefix delay n i b t :
  (∀ i, Client.unit_readings (us i)) →
  ∃ b' t', flood bsend EndToEnd.broker_sleep us id prefix delay n i (b, t) = Some (None, (b', t')).
Proof.
  intros Hus. revert i b t. induction n as [|n IH]; intros i b t; cbn [flood]; [by do 2 eexists|].
  destruct (Session.produce_total EndToEnd.broker_sleep bsend (us i) (flood_queue prefix i)
    (flood_payload id i) 0 (b, t) (Hus i)) as (out&trace&[b1 t1]&E).
  pose proof (produce_loop_once _ _ _ _ _ _ _ _ _ _ _ E) as Hs. rewrite E.
  destruct out; try done; destruct (Qltb 0 delay); apply IH.
Qed.
End broker.

#[local] Existing Instance JsonText.codec.

Definition bench_env (t : Q) : Env := mkEnv t t "u" ("127.0.0.1", 40000%Z) 1 0 "tasks.db".

Lemma produce_submits_exactly_once_witness :
  ∃ out trace b' t',
    Client.produce (EndToEnd.broker_send bench_env) EndToEnd.broker_sleep (λ _, 0%Q) "q" (JObj []) 3
      (new_broker None 0, 0%Q) = Some (out, trace, (b', t')) ∧
    match out with
    | Client.Submitted tid =>
        ∃ t0, tid = e_uuid (bench_env t0) ∧
          queue_manager b' = (QM.enqueue "q" (JObj []) tid (e_time (bench_env t0))
            (queue_manager (new_broker None 0))).2
    | Client.Exhausted | Client.Rejected _ => queue_manager b' = queue_manager (new_broker None 0)
    | Client.ConnectionLost | Client.BadResponse => False
    end.
Proof.
  apply (produce_submits_exactly_once bench_env). intros i. split; by vm_compute.
Defined.

Lemma simulation_accounts_witness :
  ∃ r b' t', simulate_tasks (EndToEnd.broker_send bench_env) EndToEnd.broker_sleep snd
      (λ _ _, 0%Q) 7 3 (new_broker None 0, 0%Q) = Some (r, (b', t')) ∧
    accepted r + rate_limited r = 3 ∧ length (latencies r) = accepted r ∧
    QM._total_enqueued (queue_manager b') =
      (QM._total_enqueued (queue_manager (new_broker None 0)) + Z.of_nat (accepted r))%Z ∧
    QM.queue_depth "load_test" (queue_manager b') =
      QM.queue_depth "load_test" (queue_manager (new_broker None 0)) + accepted r.
Proof.
  apply (simulation_accounts bench_env). intros i j. split; by vm_compute.
Defined.
End LoadGen.
