(* ===== verification/WorkerDrain.v ===== *)
(** * A worker against the broker ([worker/base_worker.py],
      [broker/server.py], [broker/queue_manager.py])

The consume loop of a worker, run against the broker's handlers: it works
its queue off.  Every task ends up completed or dead-lettered according to
what [execute] does with its payload, within a number of rounds that is
known in advance. *)

From S2P Require Import Prelude PyDict Json JsonText DeadLetter QueueManager QueueInvariant TaskConservation TaskLifecycle RetryPolicy QueueOrder WorkerRegistry LoadShedder WalStore Metrics Server Wire EndToEnd Worker.
Import Server.

Module WorkerDrain.

(** ** One round at the queue manager *)

Lemma dequeue_view qn w s x rest :
  wf s → qn ≠ "*" → QM.queue_of qn s = x :: rest →
  let s1 := exec (ODequeue qn w) s in
  wf s1 ∧ QM.queue_of qn s1 = rest ∧ dget (task_id x) (QM._in_flight s1) = Some (QM.deliver w x) ∧
  view s1 = <[task_id x := Running qn w (attempts x + 1)]> (view s).
Proof.
  intros Hw Hqn E s1. assert (wf s1) as Hw1 by (by apply exec_wf).
  assert (pending_ok qn x) as Hx by (apply (shape_queue_in s); [apply Hw|rewrite E; left]).
  pose proof (dequeue_named qn w s x rest Hqn E) as Ed.
  assert (s1 = (QM.dequeue qn w s).2) as Hs1 by done. split_and!; [done|..].
  - by rewrite Hs1, (queue_of_dequeue _ _ _ _ x rest), decide_True.
  - rewrite Hs1, Ed. cbn. by rewrite dget_dset_eq.
  - assert (QM.dequeue qn w s = (Some (QM.delivery (QM.deliver w x)), s1)) as Ed'
      by (rewrite Hs1, Ed; done).
    destruct (dequeue_moves qn w s _ _ Hw Ed') as (x0&rest0&E1&E2&Hd&_&Hx0).
    injection Hd as Hid Hq Hp Ha.
    destruct (moved_view s s1 x0 (QM.deliver w x0) rest0) as [_ ->]; try done; [apply Hw1|].
    rewrite Hid. f_equal. unfold lifecycle. cbn.
    destruct Hx as [Hqx _]. replace (queue_name x0) with qn by congruence.
    by replace (attempts x0) with (attempts x) by lia.
Qed.

Lemma success_view qn w s x rest :
  wf s → qn ≠ "*" → QM.queue_of qn s = x :: rest →
  let s2 := exec (OAck (task_id x)) (exec (ODequeue qn w) s) in
  QM.acknowledge (task_id x) (exec (ODequeue qn w) s) = (true, s2) ∧
  wf s2 ∧ QM.max_retries s2 = QM.max_retries s ∧ QM.queue_of qn s2 = rest ∧
  view s2 = <[task_id x := Completed]> (view s).
Proof.
  intros Hw Hqn E. destruct (dequeue_view qn w s x rest Hw Hqn E) as (Hw1&Hq1&Hg1&Hv1).
  set (s1 := exec (ODequeue qn w) s) in *. intros s2.
  assert (wf s2) as Hw2 by (by apply exec_wf).
  assert (QM.acknowledge (task_id x) s1 = (true, s2)) as Ea.
  { unfold s2. cbn [exec]. unfold QM.acknowledge. by rewrite Hg1. }
  split_and!; [done|done| | |].
  - unfold s2, s1. by rewrite !exec_max_retries.
  - unfold s2. cbn [exec]. unfold QM.acknowledge. rewrite Hg1. exact Hq1.
  - destruct (acknowledge_moves _ _ _ Hw1 Ea) as (y&rest0&Hg&Hid&E1&E2).
    destruct (moved_view s1 s2 y (set_status "done" y) rest0) as [_ ->]; try done; [apply Hw2|].
    rewrite Hid, Hv1, insert_insert_eq. done.
Qed.

(** The next lifecycle state of a task that failed its [n]-th attempt. *)
Definition failed_state (qn : string) (retries n : Z) : TState :=
  if (n >=? retries)%Z then Dead qn n else Waiting qn n.

Lemma failure_view qn w now s x rest :
  wf s → qn ≠ "*" → QM.queue_of qn s = x :: rest →
  let s2 := fail_once qn w (task_id x) now s in
  (∃ res, QM.negative_acknowledge (task_id x) now (exec (ODequeue qn w) s) = (Some res, s2)) ∧
  wf s2 ∧ QM.max_retries s2 = QM.max_retries s ∧
  QM.queue_of qn s2 = (if (attempts x + 1 >=? QM.max_retries s)%Z then rest
                       else set_attempts (attempts x + 1) x :: rest) ∧
  view s2 = <[task_id x := failed_state qn (QM.max_retries s) (attempts x + 1)]> (view s).
Proof.
  intros Hw Hqn E. destruct (dequeue_view qn w s x rest Hw Hqn E) as (Hw1&_&Hg1&Hv1).
  pose proof (fail_once_cases qn w now s x rest Hw Hqn E) as Hc. intros s2.
  assert (wf s2) as Hw2 by (by apply fail_once_wf).
  assert (∃ res, QM.negative_acknowledge (task_id x) now (exec (ODequeue qn w) s) = (Some res, s2))
    as [res En].
  { unfold s2, fail_once. cbn [exec]. set (s1 := (QM.dequeue qn w s).2) in *.
    change (exec (ODequeue qn w) s) with s1 in Hg1.
    destruct (QM.negative_acknowledge (task_id x) now s1) as [[res|] s3] eqn:En; [eauto|].
    unfold QM.negative_acknowledge in En.
    destruct (nack_take_cases (task_id x) s1) as [[Hn _]|(y&s4&_&E'&_)]; [congruence|].
    rewrite E' in En. by destruct (QM.nack_route _ _ s4). }
  split_and!; [by exists res|done|by apply fail_once_max_retries| |].
  - fold s2 in Hc. by destruct (_ >=? _)%Z; [destruct Hc|].
  - destruct (negative_acknowledge_moves _ _ _ _ _ Hw1 En) as (y&rest0&Hg&Hid&Hf&E1&E2).
    rewrite Hg1 in Hg. injection Hg as <-.
    destruct (moved_view _ s2 _ _ rest0 Hw1 (proj2 Hw2) E1 E2) as [_ ->];
      [by autorewrite with distrosync|].
    rewrite (lifecycle_nacked _ _ _ Hf), Hid, Hv1, insert_insert_eq.
    rewrite exec_max_retries. unfold failed_state. cbn [QM.deliver set_attempts attempts queue_name].
    assert (pending_ok qn x) as [Hqx _] by (apply (shape_queue_in s); [apply Hw|rewrite E; left]).
    cbn. by rewrite Hqx.
Qed.

(** ** One round over the connection *)

Section drain.
Context `{codec : JsonCodec} (env_at : Q → Env).
Context (execute : Json → string + Json) (lost : string).

Abbreviation send := (EndToEnd.broker_send env_at).
Abbreviation sleep := EndToEnd.broker_sleep.
Abbreviation round := (Worker.round send sleep execute lost).
Abbreviation work := (Worker.work send sleep execute lost).

Definition succeeds (p : Json) : bool := match execute p with inr _ => true | inl _ => false end.

(** Replies of the three handlers and their effect on the queue manager. *)
Lemma consume_reply env m b qn w d s' :
  given (m_queue m) = Some qn → given (m_worker_id m) = Some w →
  QM.dequeue qn w (queue_manager b) = (Some d, s') →
  ∃ b', _handle_consume env m b =
      (Some (JObj [("status", JStr "ok"); ("task", QM.delivery_json d)]), b') ∧
    queue_manager b' = s'.
Proof.
  intros Hq Hw E. unfold _handle_consume, mbind, M_bind. rewrite Hq, Hw. unfold on_qm.
  rewrite E. unfold if_wal, on_wal. cbn. destruct (wal_store b) eqn:W; cbn; rewrite ?W; by eexists.
Qed.

Lemma ack_reply env m b tid s' :
  given (m_task_id m) = Some tid → QM.acknowledge tid (queue_manager b) = (true, s') →
  ∃ r b', _handle_ack env m b = (Some r, b') ∧ queue_manager b' = s'.
Proof.
  intros Ht E. unfold _handle_ack, mbind, M_bind. rewrite Ht. unfold on_qm. rewrite E.
  unfold if_wal, on_wal. cbn. destruct (wal_store b) eqn:W; cbn; rewrite ?W; by do 2 eexists.
Qed.

Lemma nack_reply env m b tid res s' :
  given (m_task_id m) = Some tid →
  QM.negative_acknowledge tid (e_time env) (queue_manager b) = (Some res, s') →
  ∃ r b', _handle_nack env m b = (Some r, b') ∧ queue_manager b' = s'.
Proof.
  intros Ht E. unfold _handle_nack, mbind, M_bind. rewrite Ht. unfold on_qm. rewrite E.
  unfold if_wal, persist_nack, on_wal, mbind, M_bind. cbn.
  destruct (wal_store b) eqn:W; [|by do 2 eexists].
  destruct (bool_decide _); cbn; rewrite W; by do 2 eexists.
Qed.

(** [c] more tasks completed and [f] more failed. *)
Definition tally (c f : nat) (w : Worker.t) : Worker.t :=
  Worker.mk (Worker.worker_id w) (Worker.queue_name w) (Worker.host w) (Worker.port w)
    (Worker.poll_interval w) (Worker.heartbeat_interval w) (Worker._connected w)
    (Worker._running w) (Worker._tasks_completed w + Z.of_nat c)
    (Worker._tasks_failed w + Z.of_nat f).

Lemma tally_tally c f c' f' w : tally c f (tally c' f' w) = tally (c' + c) (f' + f) w.
Proof. unfold tally. cbn. f_equal; lia. Qed.

Lemma tally_0 w : tally 0 0 w = w.
Proof. destruct w. unfold tally. cbn. f_equal; lia. Qed.

Definition counted (ok : bool) (w : Worker.t) : Worker.t :=
  if ok then tally 1 0 w else tally 0 1 w.

Lemma counted_counts ok w :
  counted ok w = if ok then Worker.count_completed w else Worker.count_failed w.
Proof.
  destruct ok; unfold counted, tally, Worker.count_completed, Worker.count_failed; f_equal; lia.
Qed.

(** The state of the queue manager after a round on a queue with head [x]. *)
Definition round_result (qn w : string) (now : Q) (x : Task) (s : QM.t) : QM.t :=
  if succeeds (payload x) then exec (OAck (task_id x)) (exec (ODequeue qn w) s)
  else fail_once qn w (task_id x) now s.

Lemma round_spec w b t x rest :
  wf (queue_manager b) → Worker.queue_name w ≠ "*" → Worker.queue_name w ≠ "" →
  Worker.worker_id w ≠ "" → Worker._connected w = true →
  QM.queue_of (Worker.queue_name w) (queue_manager b) = x :: rest → task_id x ≠ "" →
  ∃ b', round w (b, t) = (Worker.Continue, counted (succeeds (payload x)) w, (b', t)) ∧
    queue_manager b' = round_result (Worker.queue_name w) (Worker.worker_id w)
                         (e_time (env_at t)) x (queue_manager b).
Proof.
  intros Hwf Hstar Hq Hw Hcon E Hid. set (qn := Worker.queue_name w) in *.
  pose proof (dequeue_named qn (Worker.worker_id w) _ x rest Hstar E) as Ed.
  set (s1 := exec (ODequeue qn (Worker.worker_id w)) (queue_manager b)).
  assert (QM.dequeue qn (Worker.worker_id w) (queue_manager b) =
    (Some (QM.delivery (QM.deliver (Worker.worker_id w) x)), s1)) as Ed1.
  { unfold s1. cbn [exec]. by rewrite Ed. }
  destruct (consume_reply (env_at t) (mkMessage (Some "CONSUME") (Some qn) None
    (Some (Worker.worker_id w)) None None None) b qn (Worker.worker_id w)
    (QM.delivery (QM.deliver (Worker.worker_id w) x)) s1)
    as (b1&Ec&Hb1); [by apply EndToEnd.given_name..|exact Ed1|].
  assert (send (Worker.consume_message w) (b, t) =
    (Some (JObj [("status", JStr "ok"); ("task", QM.delivery_json
       (QM.delivery (QM.deliver (Worker.worker_id w) x)))]), (b1, t))) as Es1.
  { transitivity (let '(r, b0) := _handle_consume (env_at t) (mkMessage (Some "CONSUME") (Some qn)
      None (Some (Worker.worker_id w)) None None None) b in (r, (b0, t))); [done|by rewrite Ec]. }
  unfold Worker.round, Worker._send. rewrite Hcon, Es1.
  change (obj_get "status" _) with (Some (JStr "ok")).
  change (Worker.received_task _) with (Some (task_id x, Some (payload x))).
  cbv beta iota. rewrite bool_decide_eq_false_2, bool_decide_eq_true_2 by done. cbn [negb].
  unfold round_result. rewrite counted_counts.
  unfold succeeds. destruct (execute (payload x)) as [err|res].
  - destruct (failure_view qn (Worker.worker_id w) (e_time (env_at t)) _ x rest Hwf Hstar E)
      as ([nr En]&_).
    destruct (nack_reply (env_at t) (mkMessage (Some "NACK") (Some qn) None
      (Some (Worker.worker_id w)) (Some (task_id x)) None None) b1 (task_id x) nr
      (fail_once qn (Worker.worker_id w) (task_id x) (e_time (env_at t)) (queue_manager b)))
      as (r&b2&Ek&Hb2); [by apply EndToEnd.given_name|by rewrite Hb1|].
    exists b2. split; [|done]. unfold Worker.report_failure, Worker._send. rewrite Hcon.
    replace (send (Worker.nack_message w (task_id x) err) (b1, t)) with (Some r, (b2, t)); [done|].
    transitivity (let '(r, b0) := _handle_nack (env_at t) (mkMessage (Some "NACK") (Some qn) None
      (Some (Worker.worker_id w)) (Some (task_id x)) None None) b1 in (r, (b0, t))); [by rewrite Ek|done].
  - destruct (success_view qn (Worker.worker_id w) _ x rest Hwf Hstar E) as (Ea&_).
    destruct (ack_reply (env_at t) (mkMessage (Some "ACK") (Some qn) None
      (Some (Worker.worker_id w)) (Some (task_id x)) None None) b1 (task_id x)
      (exec (OAck (task_id x)) s1)) as (r&b2&Ek&Hb2);
      [by apply EndToEnd.given_name|by rewrite Hb1|].
    exists b2. split; [|done].
    replace (send (Worker.ack_message w (task_id x)) (b1, t)) with (Some r, (b2, t)); [done|].
    transitivity (let '(r, b0) := _handle_ack (env_at t) (mkMessage (Some "ACK") (Some qn) None
      (Some (Worker.worker_id w)) (Some (task_id x)) None None) b1 in (r, (b0, t))); [by rewrite Ek|done].
Qed.

(** ** Working the queue off *)

(** Deliveries a waiting task still needs. *)
Definition deliveries (retries : Z) (x : Task) : nat :=
  if succeeds (payload x) then 1 else Z.to_nat (Z.max 1 (retries - attempts x)).

Definition rounds_needed (qn : string) (s : QM.t) : nat :=
  sum_list_with (deliveries (QM.max_retries s)) (QM.queue_of qn s).

(** Waiting tasks whose execution succeeds. *)
Definition successes (qn : string) (s : QM.t) : nat :=
  sum_list_with (λ x, if succeeds (payload x) then 1 else 0) (QM.queue_of qn s).

(** Where a waiting task ends up. *)
Definition fate (retries : Z) (qn : string) (x : Task) : TState :=
  if succeeds (payload x) then Completed else Dead qn (Z.max retries (attempts x + 1)).

Lemma queue_ids_nodup qn s : wf s → NoDup (task_id <$> QM.queue_of qn s).
Proof.
  intros [_ Hn]. unfold QM.ids, QM.all_tasks in Hn. rewrite fmap_app in Hn.
  apply NoDup_app in Hn as (Hn&_). unfold QM.pending in Hn.
  rewrite (QM.pending_split qn), fmap_app in Hn. by apply NoDup_app in Hn as (?&_).
Qed.

(** A round decreases the work left by one and settles or advances the head. *)
Lemma round_result_spec qn w now s x rest :
  wf s → qn ≠ "*" → QM.queue_of qn s = x :: rest →
  let s' := round_result qn w now x s in
  wf s' ∧ QM.max_retries s' = QM.max_retries s ∧
  rounds_needed qn s = S (rounds_needed qn s') ∧
  successes qn s = (if succeeds (payload x) then 1 else 0) + successes qn s' ∧
  (∀ tid, tid ≠ task_id x → view s' !! tid = view s !! tid) ∧
  (QM.queue_of qn s' = rest ∧ view s' !! task_id x = Some (fate (QM.max_retries s) qn x) ∨
   ∃ x', QM.queue_of qn s' = x' :: rest ∧ task_id x' = task_id x ∧ 
     fate (QM.max_retries s) qn x' = fate (QM.max_retries s) qn x).
Proof.
  intros Hw Hstar E s'. unfold rounds_needed, successes, fate, deliveries. rewrite E. cbn [sum_list_with].
  unfold s', round_result. destruct (succeeds (payload x)) eqn:Ex.
  - destruct (success_view qn w s x rest Hw Hstar E) as (_&Hw'&Hm&Hq&Hv).
    rewrite Hm, Hq, Hv. split_and!; [done|done|done|done| |left].
    + intros tid Hne. by rewrite lookup_insert_ne.
    + by rewrite lookup_insert_eq.
  - destruct (failure_view qn w now s x rest Hw Hstar E) as (_&Hw'&Hm&Hq&Hv).
    rewrite Hm, Hv. unfold failed_state in *.
    destruct (attempts x + 1 >=? QM.max_retries s)%Z eqn:Ea; rewrite Hq.
    + split_and!; [done|done|lia|done| |left].
      * intros tid Hne. by rewrite lookup_insert_ne.
      * rewrite lookup_insert_eq. split; [done|]. do 2 f_equal. lia.
    + split_and!; [done|done| |by cbn [sum_list_with set_attempts payload]; rewrite Ex|intros tid Hne; by rewrite lookup_insert_ne|right].
      * cbn [sum_list_with set_attempts payload attempts]. rewrite Ex. lia.
      * eexists. split_and!; [done|done|]. cbn [set_attempts payload attempts]. rewrite Ex.
        f_equal. lia.
Qed.

(** Deliveries are completions or failures, and no task completes twice. *)
Lemma successes_le qn s : successes qn s ≤ rounds_needed qn s.
Proof.
  unfold successes, rounds_needed. induction (QM.queue_of qn s) as [|x q IH]; cbn; [done|].
  unfold deliveries at 1. destruct (succeeds (payload x)); lia.
Qed.

Lemma work_drains n w b t :
  wf (queue_manager b) → Worker.queue_name w ≠ "*" → Worker.queue_name w ≠ "" →
  Worker.worker_id w ≠ "" → Worker._running w = true → Worker._connected w = true →
  Forall (λ x, task_id x ≠ "") (QM.queue_of (Worker.queue_name w) (queue_manager b)) →
  rounds_needed (Worker.queue_name w) (queue_manager b) = n →
  ∃ b', work n w (b, t) =
      (Worker.Continue,
       tally (successes (Worker.queue_name w) (queue_manager b))
         (n - successes (Worker.queue_name w) (queue_manager b)) w, (b', t)) ∧
    QM.queue_of (Worker.queue_name w) (queue_manager b') = [] ∧
    (∀ x, x ∈ QM.queue_of (Worker.queue_name w) (queue_manager b) →
       view (queue_manager b') !! task_id x
         = Some (fate (QM.max_retries (queue_manager b)) (Worker.queue_name w) x)) ∧
    (∀ tid, tid ∉ task_id <$> QM.queue_of (Worker.queue_name w) (queue_manager b) →
       view (queue_manager b') !! tid = view (queue_manager b) !! tid).
Proof.
  revert w b. induction n as [|n IH]; intros w b Hw Hstar Hq Hwid Hrun Hcon Hids Hn;
    set (qn := Worker.queue_name w) in *;
    destruct (QM.queue_of qn (queue_manager b)) as [|x rest] eqn:E.
  - exists b. unfold successes. rewrite E. cbn [sum_list_with Worker.work]. rewrite tally_0.
    split_and!; [done|done|intros x Hx; by apply not_elem_of_nil in Hx|done].
  - destruct (round_result_spec qn "" 0 _ x rest Hw Hstar E) as (_&_&Hr&_). lia.
  - unfold rounds_needed in Hn. by rewrite E in Hn.
  - apply Forall_cons in Hids as [Hid Hids].
    destruct (round_spec w b t x rest Hw Hstar Hq Hwid Hcon E Hid) as (b1&Er&Hb1).
    destruct (round_result_spec qn (Worker.worker_id w) (e_time (env_at t)) _ x rest Hw Hstar E)
      as (Hw1&Hm1&Hn1&Hs1&Hother&Hhead). fold qn in Hb1. rewrite <- Hb1 in *.
    pose proof (successes_le qn (queue_manager b1)) as Hle.
    assert (counted (succeeds (payload x)) w =
      tally (if succeeds (payload x) then 1 else 0) (if succeeds (payload x) then 0 else 1) w) as Ec
      by (unfold counted; by destruct (succeeds _)).
    destruct (IH (counted (succeeds (payload x)) w) b1) as (b'&Ew&Hq'&Hfate&Hframe);
      rewrite ?Ec; try done; try (change (Worker.queue_name (tally _ _ w)) with qn; lia).
    { change (Worker.queue_name (tally _ _ w)) with qn.
      destruct Hhead as [[-> _]|(x'&->&Hx'&_)]; [done|]. constructor; [congruence|done]. }
    rewrite Ec, tally_tally in Ew. rewrite Ec in Hfate, Hframe, Hq', Er.
    change (Worker.queue_name (tally _ _ w)) with qn in *.
    exists b'. cbn [Worker.work]. rewrite Hrun, Er.
    pose proof (queue_ids_nodup qn _ Hw) as Hnd. rewrite E, fmap_cons in Hnd.
    apply NoDup_cons in Hnd as [Hx _]. rewrite Hm1 in Hfate. split_and!; [|done| |].
    + rewrite Ew. do 3 f_equal; destruct (succeeds (payload x)); lia.
    + intros y [->|Hy]%elem_of_cons.
      * destruct Hhead as [[Hq1 Hv]|(x'&Hq1&Hx'&Hf')]; rewrite Hq1 in *.
        -- by rewrite Hframe.
        -- rewrite <- Hx', <- Hf'. apply Hfate. left.
      * apply Hfate. destruct Hhead as [[-> _]|(x'&->&_)]; [done|by right].
    + intros tid [Hne Htid]%not_elem_of_cons. rewrite Hframe; [by apply Hother|].
      destruct Hhead as [[-> _]|(x'&->&Hx'&_)]; [done|]. rewrite fmap_cons, Hx'.
      by apply not_elem_of_cons.
Qed.

(** Registration succeeds and does not touch the queues. *)
Lemma connect_spec w b t :
  Worker.worker_id w ≠ "" →
  ∃ b', Worker.connect send w (b, t) = (None, Worker.set_connected true w, (b', t)) ∧
    queue_manager b' = queue_manager b.
Proof.
  intros Hw. set (m := mkMessage (Some "REGISTER") None None (Some (Worker.worker_id w)) None
    (Some [Worker.queue_name w]) None).
  unfold Worker.connect.
  replace (Worker._send send _ _ (b, t)) with
    (let '(r, b0) := _handle_register (env_at t) m b in (r, (b0, t))) by reflexivity.
  unfold _handle_register, mbind, M_bind, on_registry.
  change (m_worker_id m) with (Some (Worker.worker_id w)). rewrite EndToEnd.given_name by done.
  destruct (Registry.register _ _ _ _ _ _ _) as [n reg]. by eexists.
Qed.

(** A new worker alone with the broker registers and empties its queue,
    in exactly as many rounds as the waiting tasks need deliveries: one for a
    task whose execution succeeds, and the rest of the retry budget for one
    whose execution fails.  Then every task that was waiting is completed if
    [execute] succeeds on its payload, and otherwise a dead letter with its
    budget used up; no other task has changed state; and the worker's two
    counters add up to the rounds. *)
Theorem worker_drains_queue qn wid uuid b t :
  wf (queue_manager b) → qn ≠ "*" → qn ≠ "" → wid ≠ "" →
  Forall (λ x, task_id x ≠ "") (QM.queue_of qn (queue_manager b)) →
  let n := rounds_needed qn (queue_manager b) in
  ∃ w' b', Worker.run send sleep execute lost n (Worker.init qn (Some wid) uuid) (b, t)
      = (None, w', (b', t)) ∧
    QM.queue_of qn (queue_manager b') = [] ∧
    (∀ x, x ∈ QM.queue_of qn (queue_manager b) →
       view (queue_manager b') !! task_id x = Some (fate (QM.max_retries (queue_manager b)) qn x)) ∧
    (∀ tid, tid ∉ task_id <$> QM.queue_of qn (queue_manager b) →
       view (queue_manager b') !! tid = view (queue_manager b) !! tid) ∧
    Worker._tasks_completed w' = Z.of_nat (successes qn (queue_manager b)) ∧
    (Worker._tasks_completed w' + Worker._tasks_failed w')%Z = Z.of_nat n ∧
    Worker._connected w' = false.
Proof.
  intros Hw Hstar Hq Hwid Hids n. set (w := Worker.init qn (Some wid) uuid).
  assert (Worker.worker_id w = wid) as Hid
    by (cbn; by rewrite (proj2 (truthy_str_true wid) Hwid)).
  destruct (connect_spec w b t) as (b1&Ec&Hb1); [by rewrite Hid|].
  destruct (work_drains n (Worker.set_running true (Worker.set_connected true w)) b1 t)
    as (b'&Ew&Hq'&Hfate&Hframe); rewrite ?Hb1; try done; [by cbn [Worker.worker_id]; rewrite <- Hid in Hwid|].
  rewrite Hb1 in *. unfold Worker.run. rewrite Ec, Ew. do 2 eexists.
  pose proof (successes_le qn (queue_manager b)) as Hle. fold n in Hle.
  split_and!; [done|done|done|done|done|cbn|done].
  change (Worker.queue_name _) with qn. lia.
Qed.
End drain.

(** ** Witness *)

#[local] Existing Instance JsonText.codec.

(** Fails on everything but integers. *)
Definition picky (p : Json) : string + Json :=
  match p with JInt _ => inr JNull | _ => inl "bad" end.

Definition drain_broker : Broker :=
  set_qm (exec (OEnqueue "q" JNull "b" 1) (exec (OEnqueue "q" (JInt 7) "a" 0) (QM.init 3)))
    (new_broker None 0).

Lemma worker_drains_queue_witness :
  let n := rounds_needed picky "q" (queue_manager drain_broker) in
  ∃ w' b', Worker.run (EndToEnd.broker_send EndToEnd.clock_env) EndToEnd.broker_sleep picky "lost"
      n (Worker.init "q" (Some "w") "id") (drain_broker, 5%Q) = (None, w', (b', 5%Q)) ∧
    QM.queue_of "q" (queue_manager b') = [] ∧
    (∀ x, x ∈ QM.queue_of "q" (queue_manager drain_broker) →
       view (queue_manager b') !! task_id x
         = Some (fate picky (QM.max_retries (queue_manager drain_broker)) "q" x)) ∧
    (∀ tid, tid ∉ task_id <$> QM.queue_of "q" (queue_manager drain_broker) →
       view (queue_manager b') !! tid = view (queue_manager drain_broker) !! tid) ∧
    Worker._tasks_completed w' = Z.of_nat (successes picky "q" (queue_manager drain_broker)) ∧
    (Worker._tasks_completed w' + Worker._tasks_failed w')%Z = Z.of_nat n ∧
    Worker._connected w' = false.
Proof.
  apply (worker_drains_queue EndToEnd.clock_env picky "lost" "q" "w" "id" drain_broker 5%Q);
    [decide_by_compute|done|done|done|decide_by_compute].
Defined.

(** Four rounds: one for the task that succeeds, three for the other. *)
Example drain_rounds : rounds_needed picky "q" (queue_manager drain_broker) = 4.
Proof. reflexivity. Qed.
End WorkerDrain.
