(* ===== verification/Fleet.v ===== *)
(** * A fleet of workers against the broker ([worker/base_worker.py],
      [broker/server.py], [broker/worker_registry.py])

Any number of worker processes, each a coroutine of [Coroutines] with its
heartbeats, against one broker that is also busy with producers, sweeps
and the dashboard, in any order.  A worker may die at any point, be shut down, lose its
connection -- between two requests, with the reply to one, or by the
dashboard's crash button -- and be started again
by the launcher [run_worker.py].  The
discipline that [Leases] asks of workers is shown to be the one the
program's workers keep, and so nothing comes between a worker and its
task: what the workers believe they have done is what the broker has
counted, but for the replies that were lost. *)

From S2P Require Import Prelude PyDict Json JsonText DeadLetter QueueManager QueueInvariant TaskConservation TaskLifecycle RetryPolicy QueueOrder WorkerRegistry Eviction LoadShedder WalStore Metrics Server Frames Requests Recovery ControlPlane Supervision Leases Wire EndToEnd Worker Coroutines WorkerDrain.
Import Server Control Supervision Leases Coroutine.

Module Fleet.

(** ** Processes *)

(** Before [connect]; in [run]; in [run], with a connection that is dead;
    killed; at the end of [run]. *)
Inductive Status :=
  | Starting
  | AtWork (p : Point)
  | Cut (p : Point)
  | Gone
  | Left (r : Worker.Round).

(** [last_beat]: when it was last heard of, as the broker has it. *)
Record Node := mkNode { proc : Worker.t; status : Status; last_beat : Q }.

Record t := mk { nodes : list Node; broker : Broker }.

(** What happens next.  The environment of a request holds the readings of
    the broker's clocks; [x] is what [execute] does, when it is its turn. *)
Inductive Move :=
  | Enrol (i : nat) (env : Env)
  | Turn (i : nat) (env : Env) (x : string + Json)
  | Pulse (i : nat) (env : Env)
  | Quit (i : nat)
  | Crash (i : nat)
  | Sever (i : nat)
  | Lose (i : nat) (env : Env)
  | Button (env : Env)
  | Other (e : Event).

(** A consume loop at its next point, or at its end: [run] closes the
    connection and is over. *)
Definition stand_as (at_ : Point → Status) (w : Worker.t) (p : Point) (beat : Q) : Node :=
  match p with
  | Stopped r => mkNode (Worker.close w) (Left r) beat
  | p => mkNode w (at_ p) beat
  end.

Abbreviation stand := (stand_as AtWork).

Section fleet.
Context `{codec : JsonCodec} (lost : string).

(** One request of a worker, handled by the broker. *)
Definition ask (env : Env) (m : Json) (b : Broker) : option Json * Broker :=
  let '(o, (b, _)) := EndToEnd.broker_send (λ _, env) m (b, 0%Q) in (o, b).

Definition set_node (i : nat) (n : Node) (b : Broker) (f : t) : t :=
  mk (<[i := n]> (nodes f)) b.

(** A request on a connection that is dead. *)
Definition unheard (_ : Json) (b : Broker) : option Json * Broker := (None, b).

(** A request that reaches the broker before the connection dies, and whose
    reply does not come back. *)
Definition unanswered (env : Env) (m : Json) (b : Broker) : option Json * Broker :=
  (None, (ask env m b).2).

(** The launcher calls [run] until it returns. *)
Definition to_run (n : Node) : bool :=
  match status n with Starting | Left (Worker.Stop _) => true | _ => false end.

Definition enrol (env : Env) (n : Node) (b : Broker) : Node * Broker :=
  match Worker.connect (ask env) (proc n) b with
  | (None, w, b) =>
      let w := Worker.set_running true w in (stand w (again w) (e_time env), b)
  | (Some _, w, b) => (mkNode w Gone (last_beat n), b)
  end.

(** Once [shutdown] was called the heartbeat loop is over; the consume loop
    sees the flag at the end of its round.  That the connection is dead the
    worker learns from its next request. *)
Definition step_node (v : Move) (n : Node) (b : Broker) : Node * Broker :=
  match v, status n with
  | Enrol _ env, _ => if to_run n then enrol env n b else (n, b)
  | Turn _ env x, AtWork p =>
      let '(w, p, b) := turn (ask env) (λ _ b, b) lost (λ _, x) (proc n, p, b) in
      (stand w p (last_beat n), b)
  | Turn _ _ x, Cut p =>
      let '(w, p, b) := turn unheard (λ _ b, b) lost (λ _, x) (proc n, p, b) in
      (stand_as Cut w p (last_beat n), b)
  | Pulse _ env, AtWork p =>
      if Worker._running (proc n)
      then (mkNode (proc n) (AtWork p) (e_time env), Worker.heartbeat (ask env) (proc n) b)
      else (n, b)
  | Quit _, AtWork p => (mkNode (Worker.shutdown (proc n)) (AtWork p) (last_beat n), b)
  | Pulse _ _, Cut _ => (n, Worker.heartbeat unheard (proc n) b)
  | Quit _, Cut p => (mkNode (Worker.shutdown (proc n)) (Cut p) (last_beat n), b)
  | Crash _, _ => (mkNode (proc n) Gone (last_beat n), b)
  | Sever _, AtWork p => (mkNode (proc n) (Cut p) (last_beat n), b)
  | Lose _ env, AtWork p =>
      match awaits (proc n) p with
      | Request _ =>
          let '(w, p, b) := turn (unanswered env) (λ _ b, b) lost inr (proc n, p, b) in
          (stand_as Cut w p (last_beat n), b)
      | _ => (n, b)
      end
  | _, _ => (n, b)
  end.

(** The worker the crash button picks: its connection is closed, and it is
    given a last heartbeat of ten seconds ago. *)
Definition picked (env : Env) (b : Broker) : option Registry.WorkerInfo :=
  let active := Registry.get_active_workers (worker_registry b) in
  active !! (e_pick env `mod` length active).

Definition press (env : Env) (w : string) (n : Node) : Node :=
  if bool_decide (Worker.worker_id (proc n) = w) then
    mkNode (proc n) (match status n with AtWork p => Cut p | st => st end) (e_time env - 10)
  else n.

Definition step (v : Move) (f : t) : t :=
  match v with
  | Enrol i _ | Turn i _ _ | Pulse i _ | Quit i | Crash i | Sever i | Lose i _ =>
      match nodes f !! i with
      | Some n => let '(n, b) := step_node v n (broker f) in set_node i n b f
      | None => f
      end
  | Button env =>
      mk (match picked env (broker f) with
          | Some w => press env (Registry.worker_id w) <$> nodes f
          | None => nodes f
          end) (handle (CrashAction env) (broker f))
  | Other e => mk (nodes f) (handle e (broker f))
  end.

Definition steps (vs : list Move) (f : t) : t := foldl (λ f v, step v f) f vs.

Lemma steps_app vs vs' f : steps (vs ++ vs') f = steps vs' (steps vs f).
Proof. apply foldl_app. Qed.

(** ** What the workers' requests are to the broker *)

Definition consume_msg (w : Worker.t) : Message :=
  mkMessage (Some "CONSUME") (Some (Worker.queue_name w)) None (Some (Worker.worker_id w)) None None None.
Definition register_msg (w : Worker.t) : Message :=
  mkMessage (Some "REGISTER") None None (Some (Worker.worker_id w)) None
    (Some [Worker.queue_name w]) None.
Definition heartbeat_msg (w : Worker.t) : Message :=
  mkMessage (Some "HEARTBEAT") None None (Some (Worker.worker_id w)) None None None.
Definition ack_msg (w : Worker.t) (tid : string) : Message :=
  mkMessage (Some "ACK") (Some (Worker.queue_name w)) None (Some (Worker.worker_id w)) (Some tid)
    None None.
Definition nack_msg (w : Worker.t) (tid : string) : Message :=
  mkMessage (Some "NACK") (Some (Worker.queue_name w)) None (Some (Worker.worker_id w)) (Some tid)
    None None.

(** Reads the fields of these messages. *)
Ltac named :=
  cbn [consume_msg register_msg heartbeat_msg ack_msg nack_msg m_command m_queue m_task m_worker_id
       m_task_id m_queues default];
  rewrite ?EndToEnd.given_name by done.

Lemma ask_dispatch env o m b : Wire.message_of o = Some m → ask env (JObj o) b = _dispatch env m b.
Proof. intros E. unfold ask. cbn. rewrite E. by destruct (_dispatch env m b). Qed.

(** The consume loop polls: it takes the task the queue manager hands out. *)
Lemma poll_turn env x w b :
  Worker._connected w = true → Worker.queue_name w ≠ "" → Worker.worker_id w ≠ "" →
  turn (ask env) (λ _ b, b) lost (λ _, x) (w, Polling, b) =
    (w, match (QM.dequeue (Worker.queue_name w) (Worker.worker_id w) (queue_manager b)).1 with
        | Some d => Executing (QM.d_task_id d) (QM.d_payload d)
        | None => Pausing
        end, handle (Control.Request env (consume_msg w)) b).
Proof.
  intros Hc Hq Hw. unfold turn. cbn [awaits serve]. unfold Worker._send. rewrite Hc.
  unfold Worker.consume_message. rewrite (ask_dispatch _ _ (consume_msg w)) by done.
  cbn [handle]. change (_dispatch env (consume_msg w) b) with (_handle_consume env (consume_msg w) b).
  destruct (QM.dequeue (Worker.queue_name w) (Worker.worker_id w) (queue_manager b)) as [[d|] s'] eqn:E.
  - destruct (WorkerDrain.consume_reply env (consume_msg w) b (Worker.queue_name w)
      (Worker.worker_id w) d s') as (b'&->&_); [by apply EndToEnd.given_name..|done|].
    cbn [fst snd resume consumed]. change (obj_get "status" _) with (Some (JStr "ok")).
    change (Worker.received_task _) with (Some (QM.d_task_id d, Some (QM.d_payload d))).
    cbv beta iota. by rewrite bool_decide_eq_false_2, bool_decide_eq_true_2 by done.
  - unfold _handle_consume, mbind, M_bind. named. unfold on_qm. by rewrite E.
Qed.

(** The outcome of an execution. *)
Lemma execute_turn env x w b tid p :
  turn (ask env) (λ _ b, b) lost (λ _, x) (w, Executing tid p, b) =
    (w, match x with inr _ => Acking tid | inl err => Nacking tid err end, b).
Proof. unfold turn. cbn. by destruct x. Qed.

Lemma ack_turn env x w b tid s' :
  Worker._connected w = true → tid ≠ "" →
  QM.acknowledge tid (queue_manager b) = (true, s') →
  turn (ask env) (λ _ b, b) lost (λ _, x) (w, Acking tid, b) =
    (Worker.count_completed w, again w, handle (Control.Request env (ack_msg w tid)) b).
Proof.
  intros Hc Ht E. unfold turn. cbn [awaits serve]. unfold Worker._send. rewrite Hc.
  unfold Worker.ack_message. rewrite (ask_dispatch _ _ (ack_msg w tid)) by done.
  cbn [handle]. change (_dispatch env (ack_msg w tid) b) with (_handle_ack env (ack_msg w tid) b).
  destruct (WorkerDrain.ack_reply env (ack_msg w tid) b tid s') as (r&b'&->&_);
    [by apply EndToEnd.given_name|done|]. done.
Qed.

Lemma nack_turn env x w b tid err res s' :
  Worker._connected w = true → tid ≠ "" →
  QM.negative_acknowledge tid (e_time env) (queue_manager b) = (Some res, s') →
  turn (ask env) (λ _ b, b) lost (λ _, x) (w, Nacking tid err, b) =
    (Worker.count_failed w, again w, handle (Control.Request env (nack_msg w tid)) b).
Proof.
  intros Hc Ht E. unfold turn. cbn [awaits serve]. unfold Worker._send. rewrite Hc.
  unfold Worker.nack_message. rewrite (ask_dispatch _ _ (nack_msg w tid)) by done.
  cbn [handle]. change (_dispatch env (nack_msg w tid) b) with (_handle_nack env (nack_msg w tid) b).
  destruct (WorkerDrain.nack_reply env (nack_msg w tid) b tid res s') as (r&b'&->&_);
    [by apply EndToEnd.given_name|done|]. done.
Qed.

(** A request on a dead connection does not reach the broker. *)
Definition cut_next (x : string + Json) (w : Worker.t) (p : Point) : Point :=
  match p with
  | Polling => Stopped (Worker.Stop Worker.LostConnection)
  | Pausing => again w
  | Executing tid _ => match x with inr _ => Acking tid | inl err => Nacking tid err end
  | Acking tid => Nacking tid lost
  | Nacking _ _ => Stopped (Worker.Stop Worker.LostConnection)
  | Stopped r => Stopped r
  end.

Lemma cut_turn x w b p :
  Worker._connected w = true → (∀ r, p ≠ Stopped r) →
  turn unheard (λ _ b, b) lost (λ _, x) (w, p, b) = (w, cut_next x w p, b).
Proof.
  intros Hc Hp. unfold turn.
  destruct p; cbn [awaits serve]; unfold Worker._send; rewrite ?Hc; try done. by destruct x.
Qed.

(** The request a loop waits for the reply to. *)
Definition request_of (w : Worker.t) (p : Point) : option Message :=
  match p with
  | Polling => Some (consume_msg w)
  | Acking tid => Some (ack_msg w tid)
  | Nacking tid _ => Some (nack_msg w tid)
  | _ => None
  end.

Lemma lose_step_node i env n p b :
  status n = AtWork p → Worker._connected (proc n) = true →
  step_node (Lose i env) n b =
    match request_of (proc n) p with
    | Some m => (stand_as Cut (proc n) (cut_next (inr JNull) (proc n) p) (last_beat n),
                 handle (Control.Request env m) b)
    | None => (n, b)
    end.
Proof.
  intros Hst Hc. unfold step_node. rewrite Hst.
  destruct p as [| |tid q|tid|tid err|r]; cbn [awaits request_of]; try done;
    unfold turn; cbn [awaits serve]; unfold Worker._send; rewrite Hc; unfold unanswered;
    unfold Worker.consume_message, Worker.ack_message, Worker.nack_message.
  - by rewrite (ask_dispatch _ _ (consume_msg (proc n))) by done.
  - by rewrite (ask_dispatch _ _ (ack_msg (proc n) tid)) by done.
  - by rewrite (ask_dispatch _ _ (nack_msg (proc n) tid)) by done.
Qed.

Lemma cut_pulse w (b : Broker) : Worker.heartbeat unheard w b = b.
Proof. unfold Worker.heartbeat, Worker._send. by destruct (Worker._running w), (Worker._connected w). Qed.

Lemma enrol_connects env w b :
  Worker.worker_id w ≠ "" →
  Worker.connect (ask env) w b =
    (None, Worker.set_connected true w, handle (Control.Request env (register_msg w)) b).
Proof.
  intros Hw. unfold Worker.connect, Worker._send. cbn [Worker._connected Worker.set_connected].
  unfold Worker.register_message. rewrite (ask_dispatch _ _ (register_msg w)) by done.
  cbn [handle]. change (_dispatch env (register_msg w) b) with (_handle_register env (register_msg w) b).
  unfold _handle_register, mbind, M_bind, on_registry. named.
  by destruct (Registry.register _ _ _ _ _ _ _).
Qed.

Lemma pulse_beats env w b :
  Worker._connected w = true → Worker._running w = true →
  Worker.heartbeat (ask env) w b = handle (Control.Request env (heartbeat_msg w)) b.
Proof.
  intros Hc Hr. unfold Worker.heartbeat, Worker._send. rewrite Hc, Hr.
  unfold Worker.heartbeat_message. by rewrite (ask_dispatch _ _ (heartbeat_msg w)) by done.
Qed.

(** What they do to queue manager and registry. *)
Lemma consume_action_of env w b :
  Worker.queue_name w ≠ "" → Worker.worker_id w ≠ "" →
  event_action (Control.Request env (consume_msg w)) b =
    Poll (Worker.queue_name w) (Worker.worker_id w) (e_mono env).
Proof.
  intros Hq Hw. transitivity (consume_action env (consume_msg w) b); [done|].
  unfold consume_action. by named.
Qed.

Lemma ack_action_of env w tid b :
  tid ≠ "" →
  event_action (Control.Request env (ack_msg w tid)) b = Finish tid (Worker.worker_id w) (e_mono env).
Proof.
  intros Ht. transitivity (ack_action env (ack_msg w tid) b); [done|].
  unfold ack_action. by named.
Qed.

Lemma nack_action_of env w tid b :
  tid ≠ "" →
  event_action (Control.Request env (nack_msg w tid)) b =
    Refuse tid (Worker.worker_id w) (e_time env) (e_mono env).
Proof.
  intros Ht. transitivity (nack_action env (nack_msg w tid) b); [done|].
  unfold nack_action. by named.
Qed.

Lemma register_action_of env w b :
  Worker.worker_id w ≠ "" →
  event_action (Control.Request env (register_msg w)) b =
    Join (Worker.worker_id w) (e_peer env) [Worker.queue_name w] (e_conn env) (e_time env).
Proof.
  intros Hw. transitivity (register_action env (register_msg w) b); [done|].
  unfold register_action. by named.
Qed.

Lemma heartbeat_action_of env w b :
  Worker.worker_id w ≠ "" →
  event_action (Control.Request env (heartbeat_msg w)) b = Beat (Worker.worker_id w) (e_time env).
Proof.
  intros Hw. transitivity (heartbeat_action env (heartbeat_msg w) b); [done|].
  unfold heartbeat_action. by named.
Qed.
End fleet.
End Fleet.
