(* ===== verification/FleetInvariant.v ===== *)
(** * What a fleet keeps ([worker/base_worker.py], [broker/server.py])

The invariant of a fleet of workers: a worker holds a task exactly while
its consume loop is between fetching and settling it.  It ties the
workers' program points to the broker's in-flight table and their counters
to its statistics. *)

From S2P Require Import Prelude PyDict Json JsonText DeadLetter QueueManager QueueInvariant TaskConservation TaskLifecycle RetryPolicy QueueOrder WorkerRegistry Eviction LoadShedder WalStore Metrics Server Frames Requests Recovery ControlPlane Supervision Leases Wire EndToEnd Worker Coroutines WorkerDrain Fleet.
Import Server Control Supervision Leases Coroutine Fleet.

Module FleetInvariant.

(** ** Identifiers and counters under each action *)

Lemma in_ids_view tid s : tid ∈ QM.ids s → is_Some (view s !! tid).
Proof.
  unfold QM.ids, view, view_list. intros (x&->&Hx)%list_elem_of_fmap.
  destruct (list_to_map _ !! _) eqn:E; [by eexists|]. apply not_elem_of_list_to_map_2 in E.
  destruct E. rewrite <- list_fmap_compose. by apply list_elem_of_fmap_2'  with x.
Qed.

Lemma act_ids a c tid :
  sound c → wf c.1 → fresh a c → a ≠ Wipe → tid ∈ QM.ids (act a c).1 →
  tid ∈ QM.ids c.1 ∨ match a with Submit _ _ u _ => u = tid | _ => False end.
Proof.
  destruct c as [s r]. intros Hc Hw Hf Ha. cbn [fst] in *.
  destruct a as [|qn p u now|qn w mono|w peer qs conn now|w now|t w mono|t w now mono|tids|[qn|]|
    iter now|i now|]; cbn [act fst] in *; try done; auto.
  - rewrite (ids_add _ _ _ (enqueue_adds qn p u now s)). intros [->|?]%elem_of_cons; auto.
  - pose proof (dequeue_ids qn w s Hw) as H. destruct (QM.dequeue qn w s) as [o s']. cbn in *.
    rewrite H. auto.
  - pose proof (acknowledge_ids t s Hw) as H. destruct (QM.acknowledge t s) as [o s']. cbn in *.
    rewrite H. auto.
  - pose proof (negative_acknowledge_ids t now s Hw) as H.
    destruct (QM.negative_acknowledge t now s) as [o s']. cbn in *. rewrite H. auto.
  - assert (wf (retry_each tids s).2 ∧ QM.ids (retry_each tids s).2 ≡ₚ QM.ids s) as [_ ->]; [|auto].
    apply (retry_each_ind (λ s', wf s' ∧ QM.ids s' ≡ₚ QM.ids s)); [|done].
    intros t s' [Hs' Hi]. split; [by apply (exec_wf (ODlqRetry t))|]. by rewrite dlq_retry_ids.
  - unfold purge_queue. cbn [snd]. left. revert H.
    apply (remove_each_ind (λ s', wf s' ∧ (tid ∈ QM.ids s' → tid ∈ QM.ids s))); [|done].
    intros t s' [Hs' Hi]. split; [by apply (exec_wf (ODlqRemove t))|].
    destruct (dlq_remove_cases t s') as [[_ ->]|(x&d&Ex&Ed&->)]; [done|]. cbn [snd].
    rewrite (ids_take _ _ _ (tasks_del_dlq _ _ _ _ Ex Ed)) in Hi. intros ?. apply Hi. by right.
  - intros H. left. unfold QM.ids in *. rewrite (dlq_purge_tasks s), fmap_app.
    apply elem_of_app. by right.
  - unfold Registry.evict_dead_workers.
    destruct (evict_each_view iter (Registry.dead_workers now (Registry._workers r))
      (Registry.with_workers (Registry.del_workers (Registry.dead_workers now (Registry._workers r))) r)
      s Hw) as (r'&s'&->&_&Hv). cbn [fst default]. intros [st Hst]%in_ids_view. left.
    destruct (decide (tid ∈ QM.ids s)) as [|Hn]; [done|]. apply view_none in Hn.
    rewrite Hv, Hn in Hst. by case_decide.
Qed.

(** Settled deliveries, as the queue manager counts them. *)
Definition settled (s : QM.t) : Z * Z := (QM._total_acked s, QM._total_nacked s).

Lemma ensure_settled qn s : settled (QM._ensure_queue qn s) = settled s.
Proof. unfold QM._ensure_queue. by destruct (dget qn (QM._queues s)). Qed.

Lemma settled_bump e d a n l s :
  settled (QM.bump e d a n l s) = (QM._total_acked s + a, QM._total_nacked s + n)%Z.
Proof. done. Qed.

Lemma acknowledge_settled tid s :
  settled (QM.acknowledge tid s).2 =
    (QM._total_acked s + if decide (is_Some (dget tid (QM._in_flight s))) then 1 else 0,
     QM._total_nacked s)%Z.
Proof.
  unfold QM.acknowledge, settled. destruct (dget tid (QM._in_flight s)); cbn.
  - rewrite decide_True by done. by rewrite Z.add_0_r.
  - rewrite decide_False by by intros []. by rewrite Z.add_0_r.
Qed.

Lemma nack_route_settled x now s : settled (QM.nack_route x now s).2 = settled s.
Proof.
  unfold QM.nack_route. case_bool_decide; [done|]. cbn [snd].
  transitivity (settled (QM._ensure_queue (queue_name x) s)); [done|apply ensure_settled].
Qed.

Lemma negative_acknowledge_settled tid now s :
  settled (QM.negative_acknowledge tid now s).2 =
    (QM._total_acked s,
     QM._total_nacked s + if decide (is_Some (dget tid (QM._in_flight s))) then 1 else 0)%Z.
Proof.
  unfold QM.negative_acknowledge, QM.nack_take. destruct (dget tid (QM._in_flight s)) as [x|].
  - rewrite decide_True by done. destruct (_ >=? _)%Z;
      match goal with |- context [QM.nack_route ?x ?n ?s] =>
        pose proof (nack_route_settled x n s) as Hr; destruct (QM.nack_route x n s) end;
      cbn [snd] in *; rewrite Hr; rewrite ?settled_bump; unfold settled; cbn; f_equal; lia.
  - rewrite decide_False by by intros []. cbn. by rewrite Z.add_0_r.
Qed.

Lemma dequeue_settled qn w s : settled (QM.dequeue qn w s).2 = settled s.
Proof.
  assert (Ht : settled (QM.dequeue_target qn s).2 = settled s).
  { unfold QM.dequeue_target. case_bool_decide; [done|]. cbn. apply ensure_settled. }
  unfold QM.dequeue. destruct (QM.dequeue_target qn s) as [[q|] s1]; [|done].
  cbn [snd] in Ht. destruct (QM.queue_of q s1); [done|]. cbn [snd]. rewrite <- Ht.
  rewrite settled_bump. by rewrite !Z.add_0_r.
Qed.

Lemma dlq_retry_settled tid s : settled (QM.dlq_retry tid s).2 = settled s.
Proof.
  destruct (dlq_retry_cases tid s) as [[_ ->]|(x&d&_&_&->)]; [done|]. cbn [snd].
  unfold settled, QM.requeue, QM._ensure_queue. cbn.
  match goal with |- context [dget ?k (QM._queues s)] => by destruct (dget k (QM._queues s)) end.
Qed.

Lemma dlq_remove_settled tid s : settled (QM.dlq_remove tid s).2 = settled s.
Proof. destruct (dlq_remove_cases tid s) as [[_ ->]|(x&d&_&_&->)]; done. Qed.

(** Only settling a task in flight counts. *)
Lemma act_settled a c :
  sound c → a ≠ Wipe →
  settled (act a c).1 =
    match a with
    | Finish tid _ _ =>
        (QM._total_acked c.1 + (if decide (is_Some (dget tid (flight c))) then 1 else 0),
         QM._total_nacked c.1)%Z
    | Refuse tid _ _ _ =>
        (QM._total_acked c.1,
         QM._total_nacked c.1 + (if decide (is_Some (dget tid (flight c))) then 1 else 0))%Z
    | _ => settled c.1
    end.
Proof.
  destruct c as [s r]. intros (Hs&Hw&_) Ha. cbn [fst snd] in *.
  destruct a as [|qn p u now|qn w mono|w peer qs conn now|w now|t w mono|t w now mono|tids|[qn|]|
    iter now|i now|]; cbn [act fst] in *; try done.
  - transitivity (settled (QM._ensure_queue qn s)); [|apply ensure_settled].
    cbn [QM.enqueue snd]. rewrite settled_bump, !Z.add_0_r. done.
  - pose proof (dequeue_settled qn w s) as H. by destruct (QM.dequeue qn w s).
  - pose proof (acknowledge_settled t s) as H. by destruct (QM.acknowledge t s).
  - pose proof (negative_acknowledge_settled t now s) as H. by destruct (QM.negative_acknowledge t now s).
  - apply (retry_each_ind (λ s', settled s' = settled s)); [|done].
    intros t s' H. by rewrite dlq_retry_settled.
  - unfold purge_queue. cbn [snd]. apply (remove_each_ind (λ s', settled s' = settled s)); [|done].
    intros t s' H. by rewrite dlq_remove_settled.
  - destruct (sweep_effect iter now s r Hs Hw) as (s'&r'&E&_&_&_&_&_&_&Ha'&Hn'). cbn [act] in E.
    rewrite E. unfold settled. cbn. by rewrite Ha', Hn'.
Qed.

(** ** The invariant *)

Section invariant.
Context `{codec : JsonCodec} (lost : string).

Implicit Types (f : Fleet.t) (n : Node).

Abbreviation wid n := (Worker.worker_id (proc n)).

(** The task a consume loop has fetched and not settled. *)
Definition doing (p : Point) : option string :=
  match p with
  | Executing tid _ | Acking tid | Nacking tid _ => Some tid
  | _ => None
  end.

Definition busy n : option string :=
  match status n with AtWork p => doing p | _ => None end.

Definition at_work n : Prop :=
  match status n with AtWork _ => True | _ => False end.

#[global] Instance at_work_dec n : Decision (at_work n).
Proof. unfold at_work. destruct (status n); apply _. Defined.

Definition named n : Prop := wid n ≠ "" ∧ Worker.queue_name (proc n) ≠ "".

(** Connected, and the loop has not stopped. *)
Definition looping n : Prop :=
  Worker._connected (proc n) = true ∧ ∀ r, status n ≠ AtWork (Stopped r).

(** The broker may have the task down as this worker's: it is at it, or it
    has died or lost its connection before it could report. *)
Definition may_hold n (tid : string) : Prop :=
  match status n with
  | AtWork p | Cut p => doing p = Some tid
  | Gone | Left (Worker.Stop _) => True
  | Starting | Left Worker.Continue => False
  end.

(** A loop without connection has not noticed yet. *)
Definition adrift n : Prop :=
  match status n with
  | Cut p => Worker._connected (proc n) = true ∧ ∀ r, p ≠ Stopped r
  | _ => True
  end.

(** A node at work and the broker agree. *)
Definition agrees (b : Server.Broker) n : Prop :=
  at_work n →
  looping n ∧
  (∀ tid, holder (ctl b) tid = Some (wid n) ↔ busy n = Some tid) ∧
  ∃ i, Registry.get_worker (wid n) (worker_registry b) = Some i ∧
    Registry.last_heartbeat i = last_beat n.

(** When the broker heard of a worker last. *)
Definition beats (b : Server.Broker) n : Prop :=
  ∀ i, Registry.get_worker (wid n) (worker_registry b) = Some i →
    Registry.last_heartbeat i = last_beat n.

(** Tasks the workers have completed and failed. *)
Definition total (g : Worker.t → Z) (l : list Node) : Z := foldr (λ n z, g (proc n) + z)%Z 0%Z l.
Definition completions f : Z := total Worker._tasks_completed (nodes f).
Definition failures f : Z := total Worker._tasks_failed (nodes f).

(** [off]: how many replies to ACKs and to NACKs have been lost. *)
Record fleet_ok_off (off : Z * Z) f : Prop := {
  ok_supervised : supervised (Fleet.broker f);
  ok_ids : NoDup ((λ n, wid n) <$> nodes f);
  ok_named : Forall named (nodes f);
  ok_tids : "" ∉ QM.ids (queue_manager (Fleet.broker f));
  ok_agrees : Forall (agrees (Fleet.broker f)) (nodes f);
  ok_adrift : Forall adrift (nodes f);
  ok_beats : Forall (beats (Fleet.broker f)) (nodes f);
  ok_held : ∀ tid w, holder (ctl (Fleet.broker f)) tid = Some w →
    ∃ n, n ∈ nodes f ∧ wid n = w ∧ may_hold n tid;
  ok_counts :
    settled (queue_manager (Fleet.broker f)) = (completions f + off.1, failures f + off.2)%Z;
}.

Section off.
Context {off : Z * Z}.
Abbreviation fleet_ok := (fleet_ok_off off).

(** ** What an action leaves alone *)

(** The action is not about worker [u]; a sweep is not when [u] is alive. *)
Definition untouched (a : Action) (c : Ctl) (u : string) : Prop :=
  match a with
  | Poll _ w _ | Join w _ _ _ _ | Control.Beat w _ | Finish _ w _ | Refuse _ w _ _ => w ≠ u
  | Sweep _ now => ∀ i, Registry.get_worker u c.2 = Some i → Registry.is_dead now i = false
  | Age i _ => Registry.worker_id i ≠ u
  | Wipe => False
  | _ => True
  end.

Lemma untouched_kept a c u :
  sound c → wf c.1 → exact c → genuine a c → exclusive a c → untouched a c u →
  Registry.get_worker u (act a c).2 = Registry.get_worker u c.2 ∧
  ∀ tid, holder (act a c) tid = Some u ↔ holder c tid = Some u.
Proof.
  intros Hc Hw Hex Hg [_ Hx] Hu.
  pose proof (λ tid, act_holder a c tid Hc) as Hh. pose proof (act_worker a c u Hc) as Hwk.
  cbn [snd] in Hwk. split.
  - rewrite Hwk. destruct a as [|qn p u' now|qn w mono|w peer qs conn now|w now|t w mono|t w now mono|tids|[qn|]|
      iter now|i now|]; cbn [worker_after untouched] in *; try done;
      try (rewrite decide_False by congruence; done); try (rewrite decide_False by naive_solver; done).
    + destruct (delivered qn w c); [|done]. by rewrite decide_False by congruence.
    + destruct (Registry.get_worker u c.2) as [i|] eqn:E; [|done]. cbn. by rewrite Hu.
  - intros tid. rewrite Hh.
    destruct a as [|qn p u' now|qn w mono|w peer qs conn now|w now|t w mono|t w now mono|tids|[qn|]|
      iter now|i now|]; cbn [holder_after untouched] in *; try done.
    + case_decide as Hd; [|done]. split; [congruence|]. intros Ht%holder_flight.
      apply delivered_idle in Hd; [|done]. destruct Ht as [? ?]. congruence.
    + case_decide; [|done]. subst. rewrite Hx. naive_solver.
    + case_decide; [|done]. subst. rewrite Hx. naive_solver.
    + case_decide as Hd; [|done]. split; [done|]. intros Ht.
      apply released_spec in Hd as (w&i&Hi&Hdead&Hin); [|apply Hc|done].
      assert (Ht' : holder c tid = Some w) by (apply Hex; by exists i).
      rewrite Ht in Ht'. injection Ht' as <-. rewrite (Hu i Hi) in Hdead. done.
Qed.

Lemma agrees_kept e b n :
  supervised b → enumerates e → exclusive (event_action e b) (ctl b) →
  untouched (event_action e b) (ctl b) (wid n) → agrees b n → agrees (handle e b) n.
Proof.
  intros (Hc&Hw&_&Hex) He Hx Hu Hn Hat. destruct (Hn Hat) as (Hl&Hh&i&Hi&Hb).
  destruct (untouched_kept _ _ _ Hc Hw Hex (event_genuine e b Hc He) Hx Hu) as [H1 H2].
  split; [done|]. change (worker_registry (handle e b)) with (ctl (handle e b)).2.
  rewrite handle_acts. split.
  - intros tid. by rewrite H2.
  - exists i. by rewrite H1.
Qed.

(** Only registrations, heartbeats and the crash button change when a
    worker was heard of. *)
Lemma beats_kept e b n :
  sound (ctl b) →
  match event_action e b with
  | Join w _ _ _ _ | Control.Beat w _ => w ≠ wid n
  | Age i _ => Registry.worker_id i ≠ wid n
  | _ => True
  end → beats b n → beats (handle e b) n.
Proof.
  intros Hc Hu Hb i. change (worker_registry (handle e b)) with (ctl (handle e b)).2.
  rewrite handle_acts, act_worker by done. revert Hu.
  assert (Hmap : ∀ g : Registry.WorkerInfo → Registry.WorkerInfo,
    (∀ j, Registry.last_heartbeat (g j) = Registry.last_heartbeat j) → ∀ w, wid n = w →
    g <$> worker w (ctl b) = Some i → Registry.last_heartbeat i = last_beat n).
  { intros g Hg w <-. destruct (worker (wid n) (ctl b)) as [j|] eqn:Hj; [|done].
    cbn. intros [= <-]. rewrite Hg. by apply Hb. }
  destruct (event_action e b) as [|qn p u' now|qn w mono|w peer qs conn now|w now|t w mono|t w now mono|tids|[qn|]|
    iter now|j now|]; cbn [worker_after]; intros Hu; try (by apply Hb).
  - destruct (delivered qn w (ctl b)) as [d|]; [|by apply Hb]. case_decide; [|by apply Hb].
    by apply (Hmap (Registry.track d mono)).
  - rewrite decide_False by congruence. by apply Hb.
  - rewrite decide_False by congruence. by apply Hb.
  - case_decide as Hd; [|by apply Hb]. by apply (Hmap (Registry.untrack t)); [|apply Hd].
  - case_decide as Hd; [|by apply Hb]. by apply (Hmap (Registry.untrack t)); [|apply Hd].
  - destruct (worker (wid n) (ctl b)) as [k|] eqn:Hk; [|done]. cbn.
    destruct (Registry.is_dead now k); [done|]. intros [= <-]. by apply Hb.
  - rewrite decide_False by congruence. by apply Hb.
Qed.

Lemma agrees_beats b n : at_work n → agrees b n → beats b n.
Proof. intros Hat Hn. destruct (Hn Hat) as (_&_&i&Hi&Hb). intros j Hj. rewrite Hi in Hj. by injection Hj as <-. Qed.

(** ** Updating one node *)

Lemma total_insert g (l : list Node) i n n' :
  l !! i = Some n → total g (<[i := n']> l) = (total g l + (g (proc n') - g (proc n)))%Z.
Proof.
  revert i. unfold total. induction l as [|x l IH]; intros [|i] E; [done..| |].
  - injection E as ->. cbn. lia.
  - change (<[S i:=n']> (x :: l)) with (x :: <[i:=n']> l). cbn [foldr]. rewrite (IH i E). lia.
Qed.

Lemma wids_insert (l : list Node) i n n' :
  l !! i = Some n → wid n' = wid n →
  (λ n, wid n) <$> <[i := n']> l = (λ n, wid n) <$> l.
Proof.
  intros E Hid. rewrite list_fmap_insert. apply list_insert_id. rewrite list_lookup_fmap, E. cbn.
  by rewrite Hid.
Qed.

(** Two nodes with the same identifier are one. *)
Lemma wid_inj f i j n m :
  fleet_ok f → nodes f !! i = Some n → nodes f !! j = Some m → wid n = wid m → i = j.
Proof.
  intros Hf Hi Hj Hw. apply (NoDup_lookup _ _ _ (wid n) (ok_ids _ f Hf)).
  - by rewrite list_lookup_fmap, Hi.
  - rewrite list_lookup_fmap, Hj. cbn. by rewrite Hw.
Qed.

Lemma Forall_insert_node (P : Node → Prop) l i n n' :
  l !! i = Some n → P n' → (∀ j m, j ≠ i → l !! j = Some m → P m) → Forall P (<[i := n']> l).
Proof.
  intros E Hn Ho. apply Forall_lookup. intros j m Hj. destruct (decide (j = i)) as [->|Hne].
  - rewrite list_lookup_insert_eq in Hj by by eapply lookup_lt_Some. by injection Hj as <-.
  - rewrite list_lookup_insert_ne in Hj by done. by eapply Ho.
Qed.

(** ** Events *)

Lemma event_tids e b :
  supervised b → exclusive (event_action e b) (ctl b) →
  match event_action e b with Submit _ _ u _ => u ≠ "" | _ => True end →
  "" ∉ QM.ids (queue_manager b) → "" ∉ QM.ids (queue_manager (handle e b)).
Proof.
  intros (Hc&Hw&_) Hx Hu Hn Hin. change (queue_manager (handle e b)) with (ctl (handle e b)).1 in Hin.
  rewrite handle_acts in Hin. apply act_ids in Hin as [?|Hs]; try done.
  - by destruct (event_action e b).
  - by apply exclusive_fresh.
  - intros E. rewrite E in Hx. by destruct Hx.
Qed.

(** What another node holds it still does. *)
Lemma others_held f i n n' tid w :
  fleet_ok f → nodes f !! i = Some n → w ≠ wid n → holder (ctl (Fleet.broker f)) tid = Some w →
  ∃ m, m ∈ <[i:=n']> (nodes f) ∧ wid m = w ∧ may_hold m tid.
Proof.
  intros Hf Hi Hne (m&Hm&Hw&Hst)%(ok_held _ f Hf). apply list_elem_of_lookup in Hm as [j Hj].
  exists m. split_and!; [|done..]. apply list_elem_of_lookup. exists j.
  rewrite list_lookup_insert_ne; [done|]. intros ->. apply Hne. rewrite Hi in Hj. by injection Hj as ->.
Qed.

(** A request of node [i], which becomes [n']. *)
Lemma ok_request off' f e i n n' :
  fleet_ok f → nodes f !! i = Some n → enumerates e →
  let b := Fleet.broker f in let a := event_action e b in
  exclusive a (ctl b) →
  match a with
  | Poll _ w _ | Join w _ _ _ _ | Control.Beat w _ | Finish _ w _ | Refuse _ w _ _ => w = wid n
  | _ => False
  end →
  wid n' = wid n → Worker.queue_name (proc n') = Worker.queue_name (proc n) →
  (∀ tid, holder (ctl (handle e b)) tid = Some (wid n) → may_hold n' tid) →
  agrees (handle e b) n' → adrift n' → beats (handle e b) n' →
  settled (queue_manager (handle e b)) =
    ((QM._total_acked (queue_manager b) +
      (Worker._tasks_completed (proc n') - Worker._tasks_completed (proc n)) + (off'.1 - off.1))%Z,
     (QM._total_nacked (queue_manager b) +
      (Worker._tasks_failed (proc n') - Worker._tasks_failed (proc n)) + (off'.2 - off.2))%Z) →
  fleet_ok_off off' (set_node i n' (handle e b) f).
Proof.
  intros Hf Hi He b a Hx Ha Hid Hq Hat Hagr Had Hbt Hset. pose proof (ok_supervised _ f Hf) as Hsup.
  assert (Hun : ∀ j m, j ≠ i → nodes f !! j = Some m → untouched a (ctl b) (wid m)).
  { intros j m Hne Hj. assert (wid n ≠ wid m) as Hw.
    { intros E. apply Hne. symmetry. by eapply wid_inj. }
    destruct a; try done; cbn; by rewrite Ha. }
  split; cbn [set_node nodes Fleet.broker].
  - by apply supervised_step.
  - rewrite (wids_insert _ _ _ _ Hi Hid). apply Hf.
  - eapply Forall_insert_node; [done| |].
    + unfold named. rewrite Hid, Hq. by apply (Forall_lookup_1 _ _ _ _ (ok_named _ f Hf) Hi).
    + intros j m _ Hj. by apply (Forall_lookup_1 _ _ _ _ (ok_named _ f Hf) Hj).
  - apply event_tids; [done|done| |apply Hf]. fold b. fold a. by destruct a.
  - eapply Forall_insert_node; [done|done|]. intros j m Hne Hj.
    apply agrees_kept; [done..|by eapply Hun|]. by apply (Forall_lookup_1 _ _ _ _ (ok_agrees _ f Hf) Hj).
  - eapply Forall_insert_node; [done|done|]. intros j m _ Hj.
    by apply (Forall_lookup_1 _ _ _ _ (ok_adrift _ f Hf) Hj).
  - eapply Forall_insert_node; [done|done|]. intros j m Hne Hj.
    apply beats_kept; [apply Hsup| |by apply (Forall_lookup_1 _ _ _ _ (ok_beats _ f Hf) Hj)].
    pose proof (Hun j m Hne Hj) as H. fold b. fold a. by destruct a.
  - intros tid w Hh. destruct (decide (w = wid n)) as [->|Hne].
    + exists n'. split_and!; [|done|by apply Hat].
      apply list_elem_of_lookup. exists i. apply list_lookup_insert_eq. by eapply lookup_lt_Some.
    + assert (Hb : holder (ctl b) tid = Some w).
      { revert Hh. rewrite handle_acts, act_holder by apply Hsup. fold b. fold a.
        destruct a; try done; cbn [holder_after]; case_decide; try done. congruence. }
      by apply (others_held f i n n' tid w).
  - rewrite Hset. unfold completions, failures. cbn [set_node nodes].
    pose proof (ok_counts _ f Hf) as Hc. unfold settled in Hc. injection Hc as Hc1 Hc2.
    rewrite !(total_insert _ _ _ _ _ Hi). fold (completions f) (failures f).
    unfold b. rewrite Hc1, Hc2. f_equal; lia.
Qed.

(** ... and is still at work. *)
Lemma ok_request_at_work f e i n n' :
  fleet_ok f → nodes f !! i = Some n → enumerates e →
  let b := Fleet.broker f in let a := event_action e b in
  exclusive a (ctl b) →
  match a with
  | Poll _ w _ | Join w _ _ _ _ | Control.Beat w _ | Finish _ w _ | Refuse _ w _ _ => w = wid n
  | _ => False
  end →
  wid n' = wid n → Worker.queue_name (proc n') = Worker.queue_name (proc n) →
  at_work n' → agrees (handle e b) n' →
  settled (queue_manager (handle e b)) =
    ((QM._total_acked (queue_manager b) +
      (Worker._tasks_completed (proc n') - Worker._tasks_completed (proc n)))%Z,
     (QM._total_nacked (queue_manager b) +
      (Worker._tasks_failed (proc n') - Worker._tasks_failed (proc n)))%Z) →
  fleet_ok (set_node i n' (handle e b) f).
Proof.
  intros Hf Hi He b a Hx Ha Hid Hq Hat Hagr Hset. apply (ok_request off f e i n); try done.
  - intros tid Hh. destruct (Hagr Hat) as (_&Hb&_). rewrite <- Hid in Hh. apply Hb in Hh.
    unfold busy in Hh. unfold may_hold. by destruct (status n').
  - unfold adrift. unfold at_work in Hat. by destruct (status n').
  - by apply agrees_beats.
  - unfold b in Hset. rewrite Hset. f_equal; lia.
Qed.

(** A move that the broker does not see. *)
Lemma ok_local f i n n' :
  fleet_ok f → nodes f !! i = Some n →
  wid n' = wid n → Worker.queue_name (proc n') = Worker.queue_name (proc n) →
  last_beat n' = last_beat n →
  (∀ tid, holder (ctl (Fleet.broker f)) tid = Some (wid n) → may_hold n' tid) →
  agrees (Fleet.broker f) n' → adrift n' →
  Worker._tasks_completed (proc n') = Worker._tasks_completed (proc n) →
  Worker._tasks_failed (proc n') = Worker._tasks_failed (proc n) →
  fleet_ok (set_node i n' (Fleet.broker f) f).
Proof.
  intros Hf Hi Hid Hq Hlb Hst Hagr Had Hcc Hcf. split; cbn [set_node nodes Fleet.broker]; try apply Hf.
  - rewrite (wids_insert _ _ _ _ Hi Hid). apply Hf.
  - eapply Forall_insert_node; [done| |].
    + unfold named. rewrite Hid, Hq. by apply (Forall_lookup_1 _ _ _ _ (ok_named _ f Hf) Hi).
    + intros j m _ Hj. by apply (Forall_lookup_1 _ _ _ _ (ok_named _ f Hf) Hj).
  - eapply Forall_insert_node; [done|done|]. intros j m _ Hj.
    by apply (Forall_lookup_1 _ _ _ _ (ok_agrees _ f Hf) Hj).
  - eapply Forall_insert_node; [done|done|]. intros j m _ Hj.
    by apply (Forall_lookup_1 _ _ _ _ (ok_adrift _ f Hf) Hj).
  - eapply Forall_insert_node; [done| |intros j m _ Hj; by apply (Forall_lookup_1 _ _ _ _ (ok_beats _ f Hf) Hj)].
    unfold beats. rewrite Hid, Hlb. by apply (Forall_lookup_1 _ _ _ _ (ok_beats _ f Hf) Hi).
  - intros tid w Hh. destruct (decide (w = wid n)) as [->|Hne]; [|by apply (others_held f i n n' tid w)].
    exists n'. split_and!; [|done|by apply Hst].
    apply list_elem_of_lookup. exists i. apply list_lookup_insert_eq. by eapply lookup_lt_Some.
  - rewrite (ok_counts _ f Hf). unfold completions, failures. cbn [set_node nodes].
    rewrite !(total_insert _ _ _ _ _ Hi), Hcc, Hcf. f_equal; lia.
Qed.

(** ** Moves *)

(** What else the broker may be busy with: producers (with fresh task
    identifiers), reads, dead letter requests, and sweeps that find no
    worker at work silent for longer than the timeout. *)
Definition overdue (now : Q) n : bool :=
  Qltb Registry.HEARTBEAT_TIMEOUT_SECONDS (now - last_beat n).

Definition foreign f (e : Event) : Prop :=
  match event_action e (Fleet.broker f) with
  | Idle | Revive _ | Forget _ => True
  | Submit _ _ u _ => (u ∉ QM.ids (queue_manager (Fleet.broker f))) ∧ u ≠ ""
  | Sweep _ now => Forall (λ n, at_work n → overdue now n = false) (nodes f)
  | _ => False
  end.

(** A worker that lost its connection registers again when the broker has
    no task of its first life down any more. *)
Definition rejoins f (i : nat) : Prop :=
  match nodes f !! i with
  | Some n =>
      match status n with
      | Left (Worker.Stop _) => empty_handed (wid n) (ctl (Fleet.broker f))
      | _ => True
      end
  | None => True
  end.

Definition admissible (v : Move) f : Prop :=
  match v with Other e => foreign f e | Enrol i _ => rejoins f i | _ => True end.

Fixpoint admissible_all (vs : list Move) f : Prop :=
  match vs with
  | [] => True
  | v :: vs => admissible v f ∧ admissible_all vs (Fleet.step lost v f)
  end.

#[global] Instance admissible_dec v f : Decision (admissible v f).
Proof.
  unfold admissible, foreign, rejoins, empty_handed. destruct v as [i| | | | | | | |e]; try apply _.
  - destruct (nodes f !! i) as [n|]; [|apply _]. destruct (status n) as [| | | |[]]; apply _.
  - destruct (event_action _ _); apply _.
Defined.

#[global] Instance admissible_all_dec vs f : Decision (admissible_all vs f).
Proof. revert f. induction vs; intros f; cbn; apply _. Defined.

(** Sweeps iterate the sets of tasks. *)
Definition genuine_move (v : Move) : Prop :=
  match v with Other e => enumerates e | _ => True end.

Lemma other_ok f e : fleet_ok f → enumerates e → foreign f e → fleet_ok (mk (nodes f) (handle e (Fleet.broker f))).
Proof.
  intros Hf He Ha. unfold foreign in Ha. pose proof (ok_supervised _ f Hf) as Hsup. set (b := Fleet.broker f) in *.
  assert (Hx : exclusive (event_action e b) (ctl b)).
  { split; destruct (event_action e b); try done; by destruct Ha. }
  assert (Hh : ∀ tid w, holder (ctl (handle e b)) tid = Some w → holder (ctl b) tid = Some w).
  { intros tid w. rewrite handle_acts, act_holder by apply Hsup.
    destruct (event_action e b); try done. cbn [holder_after]. by case_decide. }
  split; cbn [nodes Fleet.broker]; try apply Hf.
  - by apply supervised_step.
  - apply event_tids; [done|done| |apply Hf]. destruct (event_action e b); try done. by destruct Ha.
  - apply Forall_lookup. intros j n Hj Hat.
    pose proof (Forall_lookup_1 _ _ _ _ (ok_agrees _ f Hf) Hj) as Hn.
    apply agrees_kept; [done..| |done|done].
    destruct (event_action e b) as [| | | | | | | | |iter now| |]; try done.
    intros i Hi. destruct (Hn Hat) as (_&_&i'&Hi'&Hb).
    change (Registry.get_worker (wid n) (ctl b).2 = Some i') in Hi'. rewrite Hi in Hi'.
    injection Hi' as <-. pose proof (Forall_lookup_1 _ _ _ _ Ha Hj Hat) as Ht. cbn in Ht.
    unfold Registry.is_dead. by rewrite Hb.
  - apply Forall_lookup. intros j n Hj. apply beats_kept; [apply Hsup| |].
    + fold b. by destruct (event_action e b).
    + by apply (Forall_lookup_1 _ _ _ _ (ok_beats _ f Hf) Hj).
  - intros tid w H%Hh. exact (ok_held _ f Hf tid w H).
  - change (queue_manager (handle e b)) with (ctl (handle e b)).1.
    rewrite handle_acts, act_settled; [|apply Hsup|by destruct (event_action e b)].
    transitivity (settled (queue_manager b)); [by destruct (event_action e b)|apply (ok_counts _ f Hf)].
Qed.

Lemma holder_known b tid w : supervised b → holder (ctl b) tid = Some w → tid ∈ QM.ids (queue_manager b).
Proof.
  intros ((Hs&_)&_) [x Hx]%holder_flight. unfold QM.ids.
  destruct (shape_flight_get _ _ _ Hs Hx) as [Hid _].
  apply list_elem_of_fmap. exists x. split; [congruence|]. rewrite (tasks_del_flight _ _ _ Hx). left.
Qed.

Lemma held_by f i n tid :
  fleet_ok f → nodes f !! i = Some n → holder (ctl (Fleet.broker f)) tid = Some (wid n) → may_hold n tid.
Proof.
  intros Hf Hi (m&Hm&Hid&Hs)%(ok_held _ f Hf). apply list_elem_of_lookup in Hm as [j Hj].
  assert (j = i) as -> by by eapply wid_inj. rewrite Hi in Hj. by injection Hj as ->.
Qed.

Lemma none_held f w :
  fleet_ok f → (∀ tid, holder (ctl (Fleet.broker f)) tid ≠ Some w) →
  empty_handed w (ctl (Fleet.broker f)).
Proof.
  intros Hf Hn. apply Forall_forall. intros [k x] Hx Hax. apply (Hn k).
  unfold holder. erewrite dget_in; [exact Hax|apply (ok_supervised _ f Hf)|exact Hx].
Qed.

(** A worker that has not started holds nothing. *)
Lemma starting_empty f i n :
  fleet_ok f → nodes f !! i = Some n → status n = Starting → empty_handed (wid n) (ctl (Fleet.broker f)).
Proof.
  intros Hf Hi Hst. apply none_held; [done|]. intros tid Hh%(held_by f i n); [|done..].
  unfold may_hold in Hh. by rewrite Hst in Hh.
Qed.

Lemma enrol_ok f i env n :
  fleet_ok f → nodes f !! i = Some n → empty_handed (wid n) (ctl (Fleet.broker f)) →
  let w := Worker.set_running true (Worker.set_connected true (proc n)) in
  fleet_ok (set_node i (mkNode w (AtWork Polling) (e_time env))
    (handle (Control.Request env (register_msg (proc n))) (Fleet.broker f)) f).
Proof.
  intros Hf Hi Hemp w. pose proof (ok_supervised _ f Hf) as Hsup.
  destruct (Forall_lookup_1 _ _ _ _ (ok_named _ f Hf) Hi) as [Hw Hq].
  pose proof (λ tid, empty_handed_holder _ _ tid Hemp) as Hno.
  apply (ok_request_at_work f _ i n); try done; rewrite ?(register_action_of env (proc n)) by done; try done.
  - intros _. pose proof (act_worker (event_action (Control.Request env (register_msg (proc n)))
      (Fleet.broker f)) (ctl (Fleet.broker f)) (wid n) (proj1 Hsup)) as Hwk.
    rewrite (register_action_of env (proc n)) in Hwk by done. cbn [worker_after] in Hwk.
    rewrite decide_True in Hwk by done. split_and!; [done|..].
    + intros tid. rewrite handle_acts, act_holder, (register_action_of env (proc n)) by (done || apply Hsup).
      split; [by intros ?%Hno|done].
    + change (worker_registry (handle ?e ?b)) with (ctl (handle e b)).2.
      rewrite handle_acts, (register_action_of env (proc n)) by done. by eexists.
  - change (queue_manager (handle ?e ?b)) with (ctl (handle e b)).1.
    rewrite handle_acts, act_settled, (register_action_of env (proc n)) by (done || apply Hsup || by rewrite register_action_of).
    unfold settled. cbn. f_equal; lia.
Qed.

(** What the two views become when a request of [u] has been handled. *)
Lemma handle_views e b a :
  supervised b → event_action e b = a →
  (∀ tid, holder (ctl (handle e b)) tid = holder_after a (ctl b) tid) ∧
  (∀ u, Registry.get_worker u (worker_registry (handle e b)) = worker_after a (ctl b) u) ∧
  (a ≠ Wipe → settled (queue_manager (handle e b)) =
    match a with
    | Finish tid _ _ =>
        (QM._total_acked (queue_manager b) +
           (if decide (is_Some (dget tid (flight (ctl b)))) then 1 else 0),
         QM._total_nacked (queue_manager b))%Z
    | Refuse tid _ _ _ =>
        (QM._total_acked (queue_manager b),
         QM._total_nacked (queue_manager b) +
           (if decide (is_Some (dget tid (flight (ctl b)))) then 1 else 0))%Z
    | _ => settled (queue_manager b)
    end).
Proof.
  intros (Hc&_) Ha. split_and!.
  - intros tid. by rewrite handle_acts, act_holder, Ha.
  - intros u. change (worker_registry (handle e b)) with (ctl (handle e b)).2.
    by rewrite handle_acts, act_worker, Ha.
  - intros Hw. change (queue_manager (handle e b)) with (ctl (handle e b)).1.
    by rewrite handle_acts, act_settled, Ha by congruence.
Qed.

Lemma pulse_ok f i env n p :
  fleet_ok f → nodes f !! i = Some n → status n = AtWork p →
  fleet_ok (set_node i (mkNode (proc n) (AtWork p) (e_time env))
    (handle (Control.Request env (heartbeat_msg (proc n))) (Fleet.broker f)) f).
Proof.
  intros Hf Hi Hst. pose proof (ok_supervised _ f Hf) as Hsup.
  destruct (Forall_lookup_1 _ _ _ _ (ok_named _ f Hf) Hi) as [Hw Hq].
  destruct (Forall_lookup_1 _ _ _ _ (ok_agrees _ f Hf) Hi) as (Hl&Hh&j&Hj&_);
    [unfold at_work; by rewrite Hst|].
  pose proof (heartbeat_action_of env (proc n) (Fleet.broker f) Hw) as Ha.
  destruct (handle_views _ _ _ Hsup Ha) as (Hv1&Hv2&Hv3).
  apply (ok_request_at_work f _ i n); try done; rewrite ?Ha; try done.
  - intros _. split; [|split].
    + unfold looping in *. cbn. rewrite Hst in Hl. tauto.
    + intros tid. rewrite Hv1. cbn. rewrite Hh. unfold busy. by rewrite Hst.
    + rewrite Hv2. cbn [worker_after proc]. rewrite decide_True by done.
      change (Registry.get_worker (wid n) (ctl (Fleet.broker f)).2 = Some j) in Hj. rewrite Hj.
      by eexists.
  - rewrite Hv3 by done. unfold settled. cbn. f_equal; lia.
Qed.

Lemma poll_ok f i env n :
  fleet_ok f → nodes f !! i = Some n → status n = AtWork Polling →
  fleet_ok (set_node i
    (mkNode (proc n)
       (AtWork (match (QM.dequeue (Worker.queue_name (proc n)) (wid n)
                         (queue_manager (Fleet.broker f))).1 with
                | Some d => Executing (QM.d_task_id d) (QM.d_payload d)
                | None => Pausing
                end)) (last_beat n))
    (handle (Control.Request env (consume_msg (proc n))) (Fleet.broker f)) f).
Proof.
  intros Hf Hi Hst. pose proof (ok_supervised _ f Hf) as Hsup.
  destruct (Forall_lookup_1 _ _ _ _ (ok_named _ f Hf) Hi) as [Hw Hq].
  destruct (Forall_lookup_1 _ _ _ _ (ok_agrees _ f Hf) Hi) as (Hl&Hh&j&Hj&Hb);
    [unfold at_work; by rewrite Hst|].
  pose proof (consume_action_of env (proc n) (Fleet.broker f) Hq Hw) as Ha.
  destruct (handle_views _ _ _ Hsup Ha) as (Hv1&Hv2&Hv3).
  assert (Hno : ∀ tid, holder (ctl (Fleet.broker f)) tid ≠ Some (wid n)).
  { intros tid [=]%Hh. unfold busy in *. rewrite Hst in *. done. }
  set (o := (QM.dequeue _ _ _).1). 
  assert (Hd : delivered (Worker.queue_name (proc n)) (wid n) (ctl (Fleet.broker f)) = QM.d_task_id <$> o) by done.
  apply (ok_request_at_work f _ i n); try done; rewrite ?Ha; try done.
  - split; [|done]. by exists j.
  - intros _. split; [|split].
    + destruct Hl as (?&?). split; [done|]. intros r. by destruct o.
    + intros tid. rewrite Hv1. cbn [holder_after]. rewrite Hd. unfold busy. cbn [status].
      destruct o as [d|]; cbn [fmap option_fmap option_map doing].
      * case_decide as Heq; [by injection Heq as ->|]. split; [by intros ?%Hno|congruence].
      * rewrite decide_False by done. split; [by intros ?%Hno|done].
    + rewrite Hv2. cbn [worker_after]. rewrite Hd.
      change (Registry.get_worker (wid n) (ctl (Fleet.broker f)).2 = Some j) in Hj.
      destruct o; cbn [fmap option_fmap option_map proc]; [rewrite decide_True by done|]; rewrite Hj;
        by eexists.
  - rewrite Hv3 by done. unfold settled. cbn. f_equal; lia.
Qed.

Lemma stand_again w beat :
  stand w (again w) beat =
    if Worker._running w then mkNode w (AtWork Polling) beat
    else mkNode (Worker.close w) (Left Worker.Continue) beat.
Proof. unfold again. by destruct (Worker._running w). Qed.

Lemma settle_ok f i n tid e (ok : bool) now mono :
  fleet_ok f → nodes f !! i = Some n → at_work n → busy n = Some tid → enumerates e →
  event_action e (Fleet.broker f) =
    (if ok then Finish tid (wid n) mono else Refuse tid (wid n) now mono) →
  let w := (if ok then Worker.count_completed else Worker.count_failed) (proc n) in
  fleet_ok (set_node i (stand w (again w) (last_beat n)) (handle e (Fleet.broker f)) f).
Proof.
  intros Hf Hi Hat Hbusy He Ha w. pose proof (ok_supervised _ f Hf) as Hsup.
  destruct (Forall_lookup_1 _ _ _ _ (ok_agrees _ f Hf) Hi Hat) as (Hl&Hh&j&Hj&Hb).
  destruct (handle_views _ _ _ Hsup Ha) as (Hv1&Hv2&Hv3).
  pose proof (proj2 (Hh tid) Hbusy) as Hold. pose proof (holder_flight _ _ _ Hold) as Hfl.
  assert (Hno : ∀ t, holder (ctl (handle e (Fleet.broker f))) t ≠ Some (wid n)).
  { intros t. rewrite Hv1. cut ((if decide (t = tid) then None
      else holder (ctl (Fleet.broker f)) t) ≠ Some (wid n)); [by destruct ok|].
    case_decide as Ht; [done|]. intros H%Hh. congruence. }
  apply (ok_request off f _ i n); try done; rewrite ?Ha; try (by destruct ok); rewrite stand_again;
    try (by destruct (Worker._running w), ok).
  - by intros t ?%Hno.
  - destruct (Worker._running w); [|done]. intros _. split; [|split].
    + destruct Hl as (?&?). unfold w. destruct ok; by split_and!.
    + intros t. split; [|done]. intros H. destruct (Hno t). unfold w in H. by destruct ok.
    + unfold w. rewrite Hv2. change (Registry.get_worker (wid n) (ctl (Fleet.broker f)).2 = Some j) in Hj.
      exists (Registry.untrack tid j). split; [|done].
      transitivity (Registry.untrack tid <$> Registry.get_worker (wid n) (ctl (Fleet.broker f)).2);
        [|by rewrite Hj]. destruct ok; cbn [worker_after proc]; by rewrite decide_True.
  - assert (Hbt : beats (handle e (Fleet.broker f)) n).
    { apply beats_kept; [apply Hsup|rewrite Ha; by destruct ok|].
      by apply (Forall_lookup_1 _ _ _ _ (ok_beats _ f Hf) Hi). }
    unfold beats in *. unfold w. by destruct (Worker._running _), ok.
  - rewrite Hv3 by by destruct ok. unfold w.
    destruct ok, (Worker._running _); cbn [proc]; rewrite decide_True by done; cbn; f_equal; lia.
Qed.

(** What a turn comes to, by the program point. *)
Definition turned (env : Env) (x : string + Json) n (p : Point) (b : Server.Broker) :
    Node * Server.Broker :=
  match p with
  | Polling =>
      (mkNode (proc n)
         (AtWork (match (QM.dequeue (Worker.queue_name (proc n)) (wid n) (queue_manager b)).1 with
                  | Some d => Executing (QM.d_task_id d) (QM.d_payload d)
                  | None => Pausing
                  end)) (last_beat n),
       handle (Control.Request env (consume_msg (proc n))) b)
  | Pausing => (stand (proc n) (again (proc n)) (last_beat n), b)
  | Executing tid _ =>
      (mkNode (proc n) (AtWork (match x with inr _ => Acking tid | inl err => Nacking tid err end))
         (last_beat n), b)
  | Acking tid =>
      (let w := Worker.count_completed (proc n) in stand w (again w) (last_beat n),
       handle (Control.Request env (ack_msg (proc n) tid)) b)
  | Nacking tid _ =>
      (let w := Worker.count_failed (proc n) in stand w (again w) (last_beat n),
       handle (Control.Request env (nack_msg (proc n) tid)) b)
  | Stopped _ => (n, b)
  end.

(** A worker holds what it is busy with. *)
Lemma busy_held f i n tid :
  fleet_ok f → nodes f !! i = Some n → at_work n → busy n = Some tid →
  tid ≠ "" ∧ is_Some (dget tid (flight (ctl (Fleet.broker f)))).
Proof.
  intros Hf Hi Hat Hb. destruct (Forall_lookup_1 _ _ _ _ (ok_agrees _ f Hf) Hi Hat) as (_&Hh&_).
  apply Hh in Hb. split; [|by eapply holder_flight]. intros ->.
  by apply (ok_tids _ f Hf), (holder_known _ _ (wid n)); [apply Hf|].
Qed.

Lemma turn_step f i env x n p :
  fleet_ok f → nodes f !! i = Some n → status n = AtWork p →
  (∀ r, p ≠ Stopped r) ∧
  Fleet.step lost (Turn i env x) f =
    set_node i (turned env x n p (Fleet.broker f)).1 (turned env x n p (Fleet.broker f)).2 f.
Proof.
  intros Hf Hi Hst.
  destruct (Forall_lookup_1 _ _ _ _ (ok_named _ f Hf) Hi) as [Hw Hq].
  assert (Hat : at_work n) by (unfold at_work; by rewrite Hst).
  pose proof (Forall_lookup_1 _ _ _ _ (ok_agrees _ f Hf) Hi Hat) as ((Hc&Hgo)&_).
  split; [intros r ->; by destruct (Hgo r)|].
  pose proof (λ tid, busy_held f i n tid Hf Hi Hat) as Hbusy. unfold busy in Hbusy. rewrite Hst in Hbusy.
  cbn [Fleet.step]. rewrite Hi. unfold step_node. rewrite Hst.
  destruct p as [| |tid q|tid|tid err|r]; cbn [turned fst snd].
  - rewrite poll_turn by done. by destruct (QM.dequeue _ _ _).1.
  - done.
  - rewrite execute_turn. by destruct x.
  - destruct (Hbusy tid eq_refl) as [Ht Hfl].
    destruct (acknowledge_flight tid (queue_manager (Fleet.broker f))) as [_ Ha].
    destruct (QM.acknowledge tid (queue_manager (Fleet.broker f))) as [ok s'] eqn:E. cbn in Ha.
    rewrite bool_decide_true in Ha by done. subst ok.
    by rewrite (ack_turn _ _ _ _ _ _ s') by done.
  - destruct (Hbusy tid eq_refl) as [Ht Hfl].
    destruct (negative_acknowledge_flight tid (e_time env) (queue_manager (Fleet.broker f))) as [_ Ha].
    destruct (QM.negative_acknowledge tid (e_time env) (queue_manager (Fleet.broker f)))
      as [[res|] s'] eqn:E; [|by destruct (proj2 Ha Hfl)].
    by rewrite (nack_turn _ _ _ _ _ _ _ res s') by done.
  - by destruct (Hgo r).
Qed.

Lemma turn_ok f i env x n p :
  fleet_ok f → nodes f !! i = Some n → status n = AtWork p →
  fleet_ok (Fleet.step lost (Turn i env x) f).
Proof.
  intros Hf Hi Hst. destruct (turn_step f i env x n p Hf Hi Hst) as [Hp ->].
  assert (Hat : at_work n) by (unfold at_work; by rewrite Hst).
  pose proof (λ tid, busy_held f i n tid Hf Hi Hat) as Hbusy. unfold busy in Hbusy. rewrite Hst in Hbusy.
  assert (Hloc : ∀ p', (∀ r, p' ≠ Stopped r) → busy (mkNode (proc n) (AtWork p') (last_beat n)) = busy n →
    fleet_ok (set_node i (mkNode (proc n) (AtWork p') (last_beat n)) (Fleet.broker f) f)).
  { intros p' Hp' Hbz.
    pose proof (Forall_lookup_1 _ _ _ _ (ok_agrees _ f Hf) Hi Hat) as ((Hc&Hgo)&Hh&j&Hj&Hb).
    apply (ok_local f i n); try done.
    - intros tid Hb'%Hh. rewrite <- Hbz in Hb'. exact Hb'.
    - intros _. split; [split; [done|cbn; intros r [= ->]; by eapply Hp']|]. split; [|by exists j].
      intros tid. by rewrite Hbz. }
  destruct p as [| |tid q|tid|tid err|r]; cbn [turned fst snd].
  - by apply poll_ok.
  - rewrite stand_again. destruct (Worker._running (proc n)).
    + apply Hloc; [done|]. unfold busy. by rewrite Hst.
    + apply (ok_local f i n); try done. intros tid Hh.
      destruct (Forall_lookup_1 _ _ _ _ (ok_agrees _ f Hf) Hi Hat) as (_&Hb&_).
      apply Hb in Hh. unfold busy in Hh. by rewrite Hst in Hh.
  - apply Hloc; [by destruct x|]. unfold busy. rewrite Hst. by destruct x.
  - destruct (Hbusy tid eq_refl) as [Ht _].
    apply (settle_ok f i n tid _ true 0 (e_mono env)); try done; [unfold busy; by rewrite Hst|].
    by apply ack_action_of.
  - destruct (Hbusy tid eq_refl) as [Ht _].
    apply (settle_ok f i n tid _ false (e_time env) (e_mono env)); try done; [unfold busy; by rewrite Hst|].
    by apply nack_action_of.
  - by destruct (Hp r).
Qed.

(** ** Lost connections *)

Lemma cut_step f i env x n p :
  fleet_ok f → nodes f !! i = Some n → status n = Cut p →
  (∀ r, p ≠ Stopped r) ∧
  Fleet.step lost (Turn i env x) f =
    set_node i (stand_as Cut (proc n) (cut_next lost x (proc n) p) (last_beat n)) (Fleet.broker f) f.
Proof.
  intros Hf Hi Hst. pose proof (Forall_lookup_1 _ _ _ _ (ok_adrift _ f Hf) Hi) as Had.
  unfold adrift in Had. rewrite Hst in Had. destruct Had as [Hc Hp]. split; [done|].
  cbn [Fleet.step]. rewrite Hi. unfold step_node. rewrite Hst. by rewrite cut_turn.
Qed.

Lemma cut_ok f i env x n p :
  fleet_ok f → nodes f !! i = Some n → status n = Cut p → fleet_ok (Fleet.step lost (Turn i env x) f).
Proof.
  intros Hf Hi Hst. destruct (cut_step f i env x n p Hf Hi Hst) as [Hp ->].
  pose proof (Forall_lookup_1 _ _ _ _ (ok_adrift _ f Hf) Hi) as Had.
  unfold adrift in Had. rewrite Hst in Had. destruct Had as [Hc _].
  pose proof (λ tid, held_by f i n tid Hf Hi) as Hh. unfold may_hold in Hh. rewrite Hst in Hh.
  unfold again. destruct p as [| |tid q|tid|tid err|r]; cbn [cut_next];
    [| |destruct x| | |by destruct (Hp r)]; unfold again; try destruct (Worker._running (proc n)); cbn [stand_as];
    apply (ok_local f i n); try done; intros t Ht; by apply Hh in Ht.
Qed.

Lemma sever_ok f i n p :
  fleet_ok f → nodes f !! i = Some n → status n = AtWork p →
  fleet_ok (set_node i (mkNode (proc n) (Cut p) (last_beat n)) (Fleet.broker f) f).
Proof.
  intros Hf Hi Hst. assert (Hat : at_work n) by (unfold at_work; by rewrite Hst).
  destruct (Forall_lookup_1 _ _ _ _ (ok_agrees _ f Hf) Hi Hat) as ((Hc&Hgo)&_). rewrite Hst in Hgo.
  apply (ok_local f i n); try done.
  - intros tid Hh%(held_by f i n); [|done..]. unfold may_hold in Hh. by rewrite Hst in Hh.
  - split; [done|]. intros r ->. by destruct (Hgo r).
Qed.

Lemma press_wid env w n : wid (press env w n) = wid n.
Proof. unfold press. by case_bool_decide. Qed.

Lemma press_proc env w n : proc (press env w n) = proc n.
Proof. unfold press. by case_bool_decide. Qed.

Lemma button_action env b :
  event_action (CrashAction env) b =
    match picked env b with Some i => Age i (e_time env) | None => Idle end.
Proof. done. Qed.

(** The crash button cuts off the worker it makes look dead. *)
Lemma button_ok f env : fleet_ok f → fleet_ok (Fleet.step lost (Button env) f).
Proof.
  intros Hf. pose proof (button_action env (Fleet.broker f)) as Ha. cbn [Fleet.step].
  destruct (picked env (Fleet.broker f)) as [i|]; [|by apply other_ok; [|done|unfold foreign; rewrite Ha]].
  set (b := Fleet.broker f) in *. set (w := Registry.worker_id i) in *.
  pose proof (ok_supervised _ f Hf) as Hsup. fold b in Hsup.
  assert (Hx : exclusive (event_action (CrashAction env) b) (ctl b)) by (rewrite Ha; by split).
  assert (Hg : worker w (ctl b) = Some i).
  { pose proof (event_genuine (CrashAction env) b (proj1 Hsup) I) as Hg. by rewrite Ha in Hg. }
  destruct (handle_views _ _ _ Hsup Ha) as (Hv1&Hv2&Hv3).
  assert (Hne : ∀ n, n ∈ nodes f → wid n ≠ w → agrees (handle (CrashAction env) b) n ∧
    beats (handle (CrashAction env) b) n).
  { intros n Hn Hw. split.
    - apply agrees_kept; [done..| |by apply (proj1 (Forall_forall _ _) (ok_agrees _ f Hf))].
      rewrite Ha. by apply not_eq_sym.
    - apply beats_kept; [apply Hsup| |by apply (proj1 (Forall_forall _ _) (ok_beats _ f Hf))].
      rewrite Ha. by apply not_eq_sym. }
  split; cbn [nodes Fleet.broker].
  - by apply supervised_step.
  - rewrite <- list_fmap_compose. erewrite list_fmap_ext; [apply (ok_ids _ f Hf)|].
    intros j n _. apply press_wid.
  - apply Forall_fmap. eapply Forall_impl; [apply (ok_named _ f Hf)|]. intros n. unfold named, compose.
    by rewrite press_proc.
  - apply event_tids; [done|done|by rewrite Ha|apply Hf].
  - apply Forall_fmap, Forall_forall. intros n Hn. unfold compose, press. case_bool_decide as Hw.
    + unfold agrees, at_work. cbn. by destruct (status n).
    + by apply Hne.
  - apply Forall_fmap, Forall_forall. intros n Hn. unfold compose, press.
    pose proof (proj1 (Forall_forall _ _) (ok_adrift _ f Hf) n Hn) as Had.
    pose proof (proj1 (Forall_forall _ _) (ok_agrees _ f Hf) n Hn) as Hagr.
    case_bool_decide; [|done]. unfold adrift in *. cbn. destruct (status n) as [|p|p| |r] eqn:Hst; try done.
    unfold agrees, at_work, looping in Hagr. rewrite Hst in Hagr. destruct Hagr as ((Hc&Hgo)&_); [done|].
    split; [done|]. intros r ->. by destruct (Hgo r).
  - apply Forall_fmap, Forall_forall. intros n Hn. unfold compose, press. case_bool_decide as Hw.
    + intros j Hj. cbn [last_beat proc] in *. rewrite Hv2 in Hj. cbn [worker_after] in Hj.
      rewrite decide_True in Hj by done. by injection Hj as <-.
    + by apply Hne.
  - intros tid u. rewrite Hv1. cbn [holder_after]. intros (n&Hn&Hid&Hm)%(ok_held _ f Hf).
    exists (press env w n). split_and!; [by apply list_elem_of_fmap_2|by rewrite press_wid|].
    unfold press. case_bool_decide; [|done]. unfold may_hold in *. cbn. by destruct (status n).
  - rewrite Hv3 by done. pose proof (ok_counts _ f Hf) as Hc. fold b in Hc. unfold settled in *. rewrite Hc.
    unfold completions, failures, total. cbn [nodes]. clear -f.
    assert (H : ∀ g, foldr (λ n z, g (proc n) + z)%Z 0%Z (press env w <$> nodes f) =
      foldr (λ n z, g (proc n) + z)%Z 0%Z (nodes f)).
    { intros g. induction (nodes f) as [|n l IH]; cbn; rewrite ?press_proc, ?IH; done. }
    by rewrite !H.
Qed.

(** A reply that is lost: the broker has counted what the worker has not. *)
Definition lost_reply (v : Move) f : Z * Z :=
  match v with
  | Lose i _ =>
      match status <$> nodes f !! i with
      | Some (AtWork (Acking _)) => (1, 0)
      | Some (AtWork (Nacking _ _)) => (0, 1)
      | _ => (0, 0)
      end
  | _ => (0, 0)
  end%Z.

Definition plus (x y : Z * Z) : Z * Z := (x.1 + y.1, x.2 + y.2)%Z.

Lemma plus_zero x : plus x (0, 0)%Z = x.
Proof. destruct x. unfold plus. cbn. f_equal; lia. Qed.

Lemma lose_step f i env n p :
  fleet_ok f → nodes f !! i = Some n → status n = AtWork p →
  Fleet.step lost (Lose i env) f =
    match request_of (proc n) p with
    | Some m => set_node i (stand_as Cut (proc n) (cut_next lost (inr JNull) (proc n) p) (last_beat n))
                  (handle (Control.Request env m) (Fleet.broker f)) f
    | None => set_node i n (Fleet.broker f) f
    end.
Proof.
  intros Hf Hi Hst. assert (Hat : at_work n) by (unfold at_work; by rewrite Hst).
  destruct (Forall_lookup_1 _ _ _ _ (ok_agrees _ f Hf) Hi Hat) as ((Hc&_)&_).
  cbn [Fleet.step]. rewrite Hi, (lose_step_node _ _ _ _ p) by done. by destruct (request_of (proc n) p).
Qed.

Lemma same_ok f i n : fleet_ok f → nodes f !! i = Some n → fleet_ok (set_node i n (Fleet.broker f) f).
Proof. intros Hf Hi. unfold set_node. rewrite list_insert_id by done. by destruct f. Qed.

Lemma lose_ok f i env n p :
  fleet_ok f → nodes f !! i = Some n → status n = AtWork p →
  fleet_ok_off (plus off (lost_reply (Lose i env) f)) (Fleet.step lost (Lose i env) f).
Proof.
  intros Hf Hi Hst. assert (Hat : at_work n) by (unfold at_work; by rewrite Hst).
  rewrite (lose_step f i env n p) by done. unfold lost_reply. rewrite Hi. cbn [fmap option_fmap option_map].
  rewrite Hst. pose proof (ok_supervised _ f Hf) as Hsup.
  destruct (Forall_lookup_1 _ _ _ _ (ok_named _ f Hf) Hi) as [Hw Hq].
  destruct (Forall_lookup_1 _ _ _ _ (ok_agrees _ f Hf) Hi Hat) as ((Hc&_)&Hh&j&Hj&Hb).
  pose proof (Forall_lookup_1 _ _ _ _ (ok_beats _ f Hf) Hi) as Hbt.
  pose proof (λ t, busy_held f i n t Hf Hi Hat) as Hbusy. unfold busy in Hbusy, Hh. rewrite Hst in Hbusy, Hh.
  assert (Hone : ∀ tid, doing p = Some tid → ∀ t e, 
    (∀ t, holder (ctl (handle e (Fleet.broker f))) t = if decide (t = tid) then None
       else holder (ctl (Fleet.broker f)) t) → holder (ctl (handle e (Fleet.broker f))) t ≠ Some (wid n)).
  { intros tid Hd t e ->. case_decide; [done|]. intros Ht%Hh. congruence. }
  destruct p as [| |tid q|tid|tid err|r]; cbn [request_of cut_next stand_as]; rewrite ?plus_zero;
    try (by apply same_ok).
  - pose proof (consume_action_of env (proc n) (Fleet.broker f) Hq Hw) as Ha.
    destruct (handle_views _ _ _ Hsup Ha) as (Hv1&_&Hv3).
    apply (ok_request off f _ i n); try done; rewrite ?Ha; try done.
    + split; [|done]. by exists j.
    + apply (beats_kept _ _ n); [apply Hsup|by rewrite Ha|done].
    + rewrite Hv3 by done. unfold settled. cbn. f_equal; lia.
  - destruct (Hbusy tid eq_refl) as [Ht Hfl]. pose proof (ack_action_of env (proc n) tid (Fleet.broker f) Ht) as Ha.
    destruct (handle_views _ _ _ Hsup Ha) as (Hv1&_&Hv3).
    apply (ok_request _ f _ i n); try done; rewrite ?Ha; try done.
    + split; [done|]. by apply Hh.
    + intros t Hx. by destruct (Hone tid eq_refl t _ Hv1).
    + apply (beats_kept _ _ n); [apply Hsup|by rewrite Ha|done].
    + rewrite Hv3, decide_True by done. cbn. f_equal; lia.
  - destruct (Hbusy tid eq_refl) as [Ht Hfl]. pose proof (nack_action_of env (proc n) tid (Fleet.broker f) Ht) as Ha.
    destruct (handle_views _ _ _ Hsup Ha) as (Hv1&_&Hv3).
    apply (ok_request _ f _ i n); try done; rewrite ?Ha; try done.
    + split; [done|]. by apply Hh.
    + apply (beats_kept _ _ n); [apply Hsup|by rewrite Ha|done].
    + rewrite Hv3, decide_True by done. cbn. f_equal; lia.
Qed.

(** ** Every move keeps the invariant *)

Lemma step_ok v f :
  fleet_ok f → genuine_move v → admissible v f →
  fleet_ok_off (plus off (lost_reply v f)) (Fleet.step lost v f).
Proof.
  intros Hf Hg Hv. pose proof (λ i n, same_ok f i n Hf) as Hsame.
  destruct v as [i env|i env x|i env|i|i|i|i env|env|e]; try (rewrite plus_zero);
    [| | | | | | |by apply button_ok|by apply other_ok];
    (destruct (nodes f !! i) as [n|] eqn:Hi;
     [|unfold lost_reply; cbn [Fleet.step]; rewrite Hi; cbn; rewrite ?plus_zero; done]).
  - cbn [Fleet.step]. rewrite Hi. cbn [step_node]. destruct (to_run n) eqn:Hr; [|by apply Hsame].
    destruct (Forall_lookup_1 _ _ _ _ (ok_named _ f Hf) Hi) as [Hw _].
    unfold enrol. rewrite enrol_connects by done. apply enrol_ok; [done..|].
    cbn in Hv. unfold rejoins in Hv. rewrite Hi in Hv. unfold to_run in Hr.
    destruct (status n) as [| | | |[]] eqn:Hst; try done. by eapply starting_empty.
  - destruct (status n) as [|p|p| |r] eqn:Hst; [|by eapply turn_ok|by eapply cut_ok|..];
      cbn [Fleet.step]; rewrite Hi; unfold step_node; rewrite Hst; by apply Hsame.
  - cbn [Fleet.step]. rewrite Hi. unfold step_node.
    destruct (status n) as [|p|p| |r] eqn:Hst; [by apply Hsame| |rewrite cut_pulse|..]; try by apply Hsame.
    destruct (Worker._running (proc n)) eqn:Hr; [|by apply Hsame].
    destruct (Forall_lookup_1 _ _ _ _ (ok_agrees _ f Hf) Hi) as ((?&_)&_);
      [unfold at_work; by rewrite Hst|].
    rewrite pulse_beats by done. by apply pulse_ok.
  - cbn [Fleet.step]. rewrite Hi. unfold step_node.
    destruct (status n) as [|p|p| |r] eqn:Hst; try (by apply Hsame);
      (apply (ok_local f i n); try done;
       [intros tid Hh%(held_by f i n); [|done..]; unfold may_hold in Hh; by rewrite Hst in Hh|..]).
    + intros _. assert (Hat : at_work n) by (unfold at_work; by rewrite Hst).
      destruct (Forall_lookup_1 _ _ _ _ (ok_agrees _ f Hf) Hi Hat) as ((Hc&Hgo)&Hh&Hreg).
      rewrite Hst in Hgo. unfold busy in Hh. rewrite Hst in Hh. by split.
    + pose proof (Forall_lookup_1 _ _ _ _ (ok_adrift _ f Hf) Hi) as Had. unfold adrift in *.
      by rewrite Hst in Had.
  - cbn [Fleet.step]. rewrite Hi. apply (ok_local f i n); try done; unfold step_node; by destruct (status n).
  - cbn [Fleet.step]. rewrite Hi. unfold step_node.
    destruct (status n) as [|p|p| |r] eqn:Hst; try by apply Hsame. by apply sever_ok.
  - destruct (status n) as [|p|p| |r] eqn:Hst; [|by eapply lose_ok|..];
      unfold lost_reply; cbn [Fleet.step]; rewrite Hi; cbn [fmap option_fmap option_map]; rewrite Hst, plus_zero;
      unfold step_node; rewrite Hst; by apply Hsame.
Qed.
End off.

(** How many replies to ACKs and to NACKs are lost in a history. *)
Fixpoint lost_replies (vs : list Move) f : Z * Z :=
  match vs with
  | [] => (0, 0)%Z
  | v :: vs => plus (lost_reply v f) (lost_replies vs (Fleet.step lost v f))
  end.

Lemma plus_assoc x y z : plus x (plus y z) = plus (plus x y) z.
Proof. unfold plus. cbn. f_equal; lia. Qed.

Lemma steps_ok_off off vs f :
  fleet_ok_off off f → Forall genuine_move vs → admissible_all vs f →
  fleet_ok_off (plus off (lost_replies vs f)) (Fleet.steps lost vs f).
Proof.
  intros Hf Hg. revert off f Hf. induction Hg as [|v vs Hv _ IH]; intros off f Hf Ha.
  { cbn [lost_replies]. by rewrite plus_zero. }
  destruct Ha as [Ha1 Ha]. cbn [lost_replies]. rewrite plus_assoc.
  change (Fleet.steps lost (v :: vs) f) with (Fleet.steps lost vs (Fleet.step lost v f)).
  apply IH; [by apply step_ok|exact Ha].
Qed.

(** No reply is lost in the move. *)
Definition answered (v : Move) : Prop := match v with Lose _ _ => False | _ => True end.

#[global] Instance answered_dec v : Decision (answered v).
Proof. unfold answered. destruct v; apply _. Defined.

Lemma answered_ok off v f :
  answered v → fleet_ok_off off f → genuine_move v → admissible v f →
  fleet_ok_off off (Fleet.step lost v f).
Proof.
  intros Hv Hf Hg Ha. pose proof (step_ok (off := off) v f Hf Hg Ha) as H.
  assert (lost_reply v f = (0, 0)%Z) as E by by destruct v. by rewrite E, plus_zero in H.
Qed.

Lemma answered_steps_ok off vs f :
  Forall answered vs → fleet_ok_off off f → Forall genuine_move vs → admissible_all vs f →
  fleet_ok_off off (Fleet.steps lost vs f).
Proof.
  intros Hv Hf Hg. revert f Hf. induction Hg as [|v vs Hv1 _ IH]; intros f Hf Ha; [done|].
  apply Forall_cons in Hv as [Hv Hvs]. destruct Ha as [Ha1 Ha].
  apply (IH Hvs); [by apply answered_ok|exact Ha].
Qed.

(** A run ends because the worker was shut down or lost its connection. *)
Definition ends_well n : Prop :=
  match status n with Left (Worker.Stop e) => e = Worker.LostConnection | _ => True end.

Lemma step_ends off v f :
  fleet_ok_off off f → Forall ends_well (nodes f) → Forall ends_well (nodes (Fleet.step lost v f)).
Proof.
  intros Hf He.
  assert (Hset : ∀ i n n' b, nodes f !! i = Some n → ends_well n' →
    Forall ends_well (nodes (set_node i n' b f))).
  { intros i n n' b Hi Hn. eapply Forall_insert_node; [done|done|].
    intros j m _ Hj. exact (Forall_lookup_1 _ _ _ _ He Hj). }
  assert (Hagain : ∀ at_ w beat, (∀ p, ends_well (mkNode w (at_ p) beat)) →
    ends_well (stand_as at_ w (again w) beat)).
  { intros at_ w beat H. unfold again. destruct (Worker._running w); [apply H|done]. }
  destruct v as [i env|i env x|i env|i|i|i|i env|env|e]; [| | | | | | | |done];
    [(destruct (nodes f !! i) as [n|] eqn:Hi; [|cbn [Fleet.step]; by rewrite Hi]);
     pose proof (Forall_lookup_1 _ _ _ _ He Hi) as Hn..|].
  2: { destruct (status n) as [|p|p| |r] eqn:Hst.
       2: { destruct (turn_step f i env x n p Hf Hi Hst) as [_ ->].
            apply (Hset i n); [done|]. by destruct p; try by apply Hagain. }
       2: { destruct (cut_step f i env x n p Hf Hi Hst) as [Hp ->].
            apply (Hset i n); [done|]. destruct p; try (by apply Hagain); try done;
              [by destruct x|by destruct (Hp r)]. }
       all: cbn [Fleet.step]; rewrite Hi; unfold step_node; rewrite Hst; by apply (Hset i n). }
  6: { destruct (status n) as [|p|p| |r] eqn:Hst.
       2: { rewrite (lose_step f i env n p) by done.
            destruct p; cbn [request_of cut_next stand_as]; by apply (Hset i n). }
       all: cbn [Fleet.step]; rewrite Hi; unfold step_node; rewrite Hst; by apply (Hset i n). }
  6: { cbn [Fleet.step nodes]. destruct (picked env (Fleet.broker f)); [|done].
       apply Forall_fmap. eapply Forall_impl; [exact He|]. intros n. unfold compose, press, ends_well.
       case_bool_decide; [|done]. cbn. by destruct (status n). }
  all: cbn [Fleet.step]; rewrite Hi; unfold step_node; cbn iota.
  1: { destruct (to_run n); [|by apply (Hset i n)]. unfold enrol.
       destruct (Worker.connect _ _ _) as [[[e|] w] b]; by apply (Hset i n). }
  all: destruct (status n) eqn:Hst; try (by apply (Hset i n)).
  - destruct (Worker._running (proc n)); by apply (Hset i n).
Qed.

Lemma steps_end off vs f :
  fleet_ok_off off f → Forall genuine_move vs → admissible_all vs f → Forall ends_well (nodes f) →
  Forall ends_well (nodes (Fleet.steps lost vs f)).
Proof.
  intros Hf Hg. revert off f Hf. induction Hg as [|v vs Hv _ IH]; intros off f Hf Ha He; [done|].
  destruct Ha as [Ha1 Ha].
  change (Fleet.steps lost (v :: vs) f) with (Fleet.steps lost vs (Fleet.step lost v f)).
  apply (IH (plus off (lost_reply v f))); [by apply step_ok|done|by eapply step_ends].
Qed.

(** A broker that has just started, and workers that are about to. *)
Definition at_start f : Prop :=
  idle_start (Fleet.broker f) ∧ ("" ∉ QM.ids (queue_manager (Fleet.broker f))) ∧
  settled (queue_manager (Fleet.broker f)) = (0, 0)%Z ∧
  NoDup ((λ n, wid n) <$> nodes f) ∧
  Forall (λ n, named n ∧ status n = Starting ∧ Worker._tasks_completed (proc n) = 0%Z ∧
            Worker._tasks_failed (proc n) = 0%Z) (nodes f).

Lemma at_start_ok f : at_start f → fleet_ok_off (0, 0)%Z f.
Proof.
  intros (Hb&Ht&Hs&Hn&Hl). split; try done.
  - by apply idle_start_supervised.
  - eapply Forall_impl; [exact Hl|]. by intros n [? _].
  - eapply Forall_impl; [exact Hl|]. intros n (_&Hst&_) Hat. unfold at_work in Hat. by rewrite Hst in Hat.
  - eapply Forall_impl; [exact Hl|]. intros n (_&Hst&_). unfold adrift. by rewrite Hst.
  - apply Forall_forall. intros n _ i Hi. destruct Hb as (_&_&Hr).
    unfold Registry.get_worker in Hi. by rewrite Hr in Hi.
  - intros tid w Hh. destruct Hb as (_&Hfl&_). unfold holder in Hh. cbn in Hh. by rewrite Hfl in Hh.
  - rewrite Hs. unfold completions, failures, total. clear -Hl. f_equal;
      induction Hl as [|n l (_&_&Hc&Hf) _ IH]; cbn; rewrite ?Hc, ?Hf; done.
Qed.

(** C8.  A fleet of workers shares the queues without interference.  From
    the start of the broker, and for every interleaving of registrations,
    consume loops, heartbeats, shutdowns and crashes of workers, of
    connections lost between two requests or with a reply, of the dashboard's crash button, sweeps that come while no
    connected worker has been silent for six seconds, restarts of workers
    whose old tasks a sweep has returned, and requests of other clients: a
    connected worker stays registered, its run ends by a shutdown or a lost
    connection only, and the broker has it down as the holder of a task
    exactly while its loop is between fetching and settling that task.
    Every task in flight is being worked on by one worker, or its worker
    has crashed or lost its connection -- one that was shut down leaves
    none behind; and the tasks the workers have counted as completed and as
    failed are, but for replies that were lost with a connection, as many as
    the broker has counted as acknowledged and as refused. *)
Theorem fleet_keeps_its_tasks vs f :
  at_start f → Forall genuine_move vs → admissible_all vs f →
  let f' := Fleet.steps lost vs f in let b' := Fleet.broker f' in
  (∀ n, n ∈ nodes f' → at_work n →
     is_Some (Registry.get_worker (wid n) (worker_registry b')) ∧
     ∀ tid, holder (ctl b') tid = Some (wid n) ↔ busy n = Some tid) ∧
  (∀ n e, n ∈ nodes f' → status n = Left (Worker.Stop e) → e = Worker.LostConnection) ∧
  (∀ tid w, holder (ctl b') tid = Some w → ∃ n, n ∈ nodes f' ∧ wid n = w ∧ may_hold n tid) ∧
  QM._total_acked (queue_manager b') = (completions f' + (lost_replies vs f).1)%Z ∧
  QM._total_nacked (queue_manager b') = (failures f' + (lost_replies vs f).2)%Z.
Proof.
  intros Hs Hg Ha f' b'. pose proof (at_start_ok f Hs) as Hf0.
  pose proof (steps_ok_off _ vs f Hf0 Hg Ha) as Hf. fold f' in Hf.
  pose proof (ok_counts _ f' Hf) as Hc. split_and!; [| |apply (ok_held _ f' Hf)|by injection Hc..].
  - intros n Hn Hat. destruct (proj1 (Forall_forall _ _) (ok_agrees _ f' Hf) n Hn Hat) as (_&Hh&i&Hi&_).
    split; [by exists i|done].
  - intros n e Hn E.
    assert (He : Forall ends_well (nodes f')).
    { eapply steps_end; [done..|]. destruct Hs as (_&_&_&_&Hl).
      eapply Forall_impl; [exact Hl|]. intros m (_&Hst&_). unfold ends_well. by rewrite Hst. }
    pose proof (proj1 (Forall_forall _ _) He n Hn) as H. unfold ends_well in H. by rewrite E in H.
Qed.
End invariant.

(** Where no reply has been lost. *)
Abbreviation fleet_ok := (fleet_ok_off (0, 0)%Z).

(** ** Witness *)

#[local] Existing Instance JsonText.codec.

Definition novice (w : string) : Node := mkNode (Worker.init "emails" (Some w) "u") Starting 0.

Definition two_workers : Fleet.t := mk [novice "w1"; novice "w2"] Recovery.empty_broker.

Definition env_of (now : Q) : Env := Recovery.env_at now "u".

Definition produce_at (now : Q) (tid : string) (payload : Z) : Move :=
  Other (Control.Request (Recovery.env_at now tid) (Recovery.produce_msg "emails" (JInt payload))).

(** [w2] loses its connection with a task, which a sweep gives back; [w1]
    completes one task, fetches that one and is cut off by the crash
    button; [w2] starts again, fetches it in turn, is shut down, and still
    reports a failure, whose reply is lost. *)
Definition eventful : list Move :=
  [Enrol 0 (env_of 0); Enrol 1 (env_of 0); produce_at 1 "t1" 1; produce_at 1 "t2" 2;
   Turn 1 (env_of 2) (inr JNull); Turn 0 (env_of 2) (inr JNull); Pulse 0 (env_of 2);
   Sever 1; Turn 1 (env_of 2) (inr JNull); Turn 1 (env_of 2) (inr JNull); Turn 1 (env_of 2) (inr JNull);
   Turn 0 (env_of 3) (inr JNull); Turn 0 (env_of 3) (inr JNull); Pulse 0 (env_of 4); Pulse 0 (env_of 6);
   Other (sweep_at 8); Turn 0 (env_of 9) (inr JNull); Pulse 0 (env_of 10); Button (env_of 12);
   Other (sweep_at 14); Enrol 1 (env_of 17); Turn 1 (env_of 18) (inr JNull);
   Turn 1 (env_of 18) (inl "no"); Quit 1; Lose 1 (env_of 19)].

Lemma fleet_keeps_its_tasks_witness :
  let f' := Fleet.steps "lost" eventful two_workers in let b' := Fleet.broker f' in
  (∀ n, n ∈ nodes f' → at_work n →
     is_Some (Registry.get_worker (Worker.worker_id (proc n)) (worker_registry b')) ∧
     ∀ tid, holder (ctl b') tid = Some (Worker.worker_id (proc n)) ↔ busy n = Some tid) ∧
  (∀ n e, n ∈ nodes f' → status n = Left (Worker.Stop e) → e = Worker.LostConnection) ∧
  (∀ tid w, holder (ctl b') tid = Some w →
     ∃ n, n ∈ nodes f' ∧ Worker.worker_id (proc n) = w ∧ may_hold n tid) ∧
  QM._total_acked (queue_manager b') = (completions f' + (lost_replies "lost" eventful two_workers).1)%Z ∧
  QM._total_nacked (queue_manager b') = (failures f' + (lost_replies "lost" eventful two_workers).2)%Z.
Proof.
  apply (fleet_keeps_its_tasks "lost" eventful two_workers).
  - split; [exact example_idle_start|]. split; [decide_by_compute|]. split; [reflexivity|].
    split; [decide_by_compute|]. repeat constructor; discriminate.
  - repeat first [apply Forall_nil_2 | apply Forall_cons_2; [first [exact I | apply sweep_enumerates]|]].
  - decide_by_compute.
Defined.

Example eventful_outcome :
  let f' := Fleet.steps "lost" eventful two_workers in
  status <$> nodes f' = [Cut (Executing "t1" (JInt 1)); Left (Worker.Stop Worker.LostConnection)] ∧
  (completions f', failures f') = (1, 0)%Z ∧ lost_replies "lost" eventful two_workers = (0, 1)%Z.
Proof. vm_compute. split_and!; reflexivity. Qed.
End FleetInvariant.
