(* ===== verification/Shutdown.v ===== *)
(** * Shutting a worker down in the middle of a task
      ([worker/base_worker.py])

[shutdown] clears [_running], which both loops read.  The consume loop
reads it at the end of its round and so finishes the task it has; the
heartbeat loop reads it when its timer fires and is over by then.  A worker
that needs more than the timeout for its last task is therefore taken for
dead while it still works on it. *)

From S2P Require Import Prelude PyDict Json JsonText DeadLetter QueueManager QueueInvariant TaskConservation TaskLifecycle RetryPolicy QueueOrder WorkerRegistry Eviction LoadShedder WalStore Metrics Server Frames Requests Recovery ControlPlane Supervision Leases Wire EndToEnd Worker Coroutines WorkerDrain Fleet FleetInvariant.
Import Server Control Supervision Leases Coroutine Fleet FleetInvariant.

Module Shutdown.

Section shutdown.
Context `{codec : JsonCodec} (lost : string).

(** ** What the broker does with the task *)

(** A task in flight is running, for the worker that holds it. *)
Lemma holder_running (s : QM.t) (r : Registry.t) tid w :
  wf s → holder (s, r) tid = Some w → ∃ q k, view s !! tid = Some (Running q w k).
Proof.
  intros [Hs Hn] Hw. change (dget tid (QM._in_flight s) ≫= assigned_worker = Some w) in Hw.
  destruct (dget tid (QM._in_flight s)) as [x|] eqn:Hx; [cbn in Hw|done].
  destruct (shape_flight_get _ _ _ Hs Hx) as [-> Hf].
  destruct (lifecycle_flight _ Hf) as (w'&Hw'&Hl). rewrite Hw in Hw'. injection Hw' as <-.
  exists (queue_name x), (attempts x). rewrite <- Hl. by rewrite (view_lookup _ _ _ Hn (tasks_del_flight _ _ _ Hx)).
Qed.

(** A sweep gives back what a silent worker holds. *)
Lemma sweep_takes env iter b tid w i :
  supervised b → enumerates (Eviction env iter) → holder (ctl b) tid = Some w →
  Registry.get_worker w (worker_registry b) = Some i → Registry.is_dead (e_time env) i = true →
  let b' := handle (Eviction env iter) b in
  (∃ q k, view (queue_manager b) !! tid = Some (Running q w k) ∧
     view (queue_manager b') !! tid = Some (Waiting q k)) ∧
  dget tid (QM._in_flight (queue_manager b')) = None ∧
  QM._total_acked (queue_manager b') = QM._total_acked (queue_manager b).
Proof.
  intros (Hc&Hw&Hcov&_) He Hh Hi Hd b'. destruct (holder_running _ _ _ _ Hw Hh) as (q&k&Hv).
  assert (Hr : released iter (Registry.dead_workers (e_time env) (Registry._workers (worker_registry b))) tid).
  { apply released_spec; [apply Hc|done|]. exists w, i. split_and!; [done..|].
    destruct (Hcov _ _ Hh) as (j&Hj&Hin).
    change (Registry.get_worker w (worker_registry b) = Some j) in Hj. rewrite Hi in Hj. by injection Hj as ->. }
  assert (Hb : (queue_manager b', worker_registry b') =
    act (Sweep iter (e_time env)) (queue_manager b, worker_registry b)) by exact (handle_acts (Eviction env iter) b).
  destruct (sweep_effect iter (e_time env) (queue_manager b) (worker_registry b) (proj1 Hw) (proj1 (proj2 Hc)))
    as (s'&r'&E&_&_&_&Hfl&_&_&Ha&_).
  rewrite E in Hb. injection Hb as Hs _. rewrite Hs. split_and!.
  - exists q, k. split; [done|]. cbn [act] in E. unfold Registry.evict_dead_workers in E.
    destruct (evict_each_view iter (Registry.dead_workers (e_time env) (Registry._workers (worker_registry b)))
      (Registry.with_workers (Registry.del_workers
         (Registry.dead_workers (e_time env) (Registry._workers (worker_registry b)))) (worker_registry b))
      (queue_manager b) Hw) as (r2&s2&E2&_&Hv2).
    rewrite E2 in E. cbn in E. injection E as <- _. rewrite Hv2, decide_True by exact Hr. by rewrite Hv.
  - rewrite Hfl. by rewrite decide_True.
  - done.
Qed.

(** An acknowledgement of a task that is not in flight changes nothing. *)
Lemma stale_ack env w tid b :
  tid ≠ "" → dget tid (QM._in_flight (queue_manager b)) = None →
  _dispatch env (ack_msg w tid) b = (Some (error ("Task " +:+ tid +:+ " not found in-flight")), b).
Proof.
  intros Ht Hn. change (_dispatch env (ack_msg w tid) b) with (_handle_ack env (ack_msg w tid) b).
  unfold _handle_ack. cbn [ack_msg m_task_id]. rewrite EndToEnd.given_name by done. unfold mbind, M_bind. rewrite Recovery.on_qm_eq.
  unfold QM.acknowledge. rewrite Hn. by destruct b.
Qed.

(** ** What the worker does *)

(** After [shutdown] the timer of the heartbeat loop fires in vain. *)
Lemma no_more_pulses i n envs f :
  nodes f !! i = Some n → Worker._running (proc n) = false →
  Fleet.steps lost (Pulse i <$> envs) f = f.
Proof.
  intros Hi Hr. unfold Fleet.steps. induction envs as [|env envs IH]; [done|].
  cbn [fmap list_fmap foldl].
  assert (Fleet.step lost (Pulse i env) f = f) as ->; [|done].
  cbn [Fleet.step]. rewrite Hi. unfold step_node, set_node.
  assert (E : mk (<[i:=n]> (nodes f)) (Fleet.broker f) = f)
    by (rewrite list_insert_id by done; by destruct f).
  destruct (status n); try done; [by rewrite Hr|by rewrite cut_pulse].
Qed.

Definition told_to_quit (n : Node) : Node :=
  mkNode (Worker.shutdown (proc n)) (status n) (last_beat n).

(** The last round of a worker whose task was taken away: the error reply
    to its ACK is not looked at. *)
Lemma last_round i n tid p env env' res x f :
  nodes f !! i = Some (told_to_quit n) → status n = AtWork (Executing tid p) →
  Worker._connected (proc n) = true → tid ≠ "" →
  dget tid (QM._in_flight (queue_manager (Fleet.broker f))) = None →
  Fleet.steps lost [Turn i env (inr res); Turn i env' x] f =
    set_node i (mkNode (Worker.close (Worker.count_completed (Worker.shutdown (proc n))))
                  (Left Worker.Continue) (last_beat n)) (Fleet.broker f) f.
Proof.
  intros Hi Hst Hc Ht Hn. unfold Fleet.steps. cbn [foldl]. set (w := Worker.shutdown (proc n)).
  assert (E1 : Fleet.step lost (Turn i env (inr res)) f =
    set_node i (mkNode w (AtWork (Acking tid)) (last_beat n)) (Fleet.broker f) f).
  { cbn [Fleet.step]. rewrite Hi. unfold step_node, told_to_quit. cbn [status proc].
    rewrite Hst. by rewrite execute_turn. }
  rewrite E1. cbn [Fleet.step]. unfold set_node at 1. cbn [nodes].
  rewrite list_lookup_insert_eq by by eapply lookup_lt_Some.
  unfold step_node. cbn [status proc last_beat Fleet.broker set_node].
  unfold turn. cbn [awaits serve]. unfold Worker._send.
  change (Worker._connected w) with (Worker._connected (proc n)). rewrite Hc.
  unfold Worker.ack_message. rewrite (ask_dispatch _ _ (ack_msg w tid)) by done.
  rewrite stale_ack by done. cbn [resume]. unfold set_node. cbn [nodes Fleet.broker].
  by rewrite list_insert_insert_eq.
Qed.

(** C37.  A worker that is shut down while it executes a task stops its
    heartbeats at once.  If the task takes so long that a sweep comes more
    than six seconds after the last of them, then the sweep puts the task
    back into its queue, where another worker will fetch it, while this
    one is still executing it.  And when it has finished, the worker
    counts the task as completed and its [run] returns, although the
    broker has refused the acknowledgement and the task goes on waiting. *)
Theorem shutdown_gives_up_the_task i n tid p pulses env iter env1 env2 res x f :
  fleet_ok f → nodes f !! i = Some n → status n = AtWork (Executing tid p) →
  enumerates (Eviction env iter) → overdue (e_time env) n = true →
  let s := queue_manager (Fleet.broker f) in
  let f1 := Fleet.steps lost (Quit i :: (Pulse i <$> pulses) ++ [Other (Eviction env iter)]) f in
  let s1 := queue_manager (Fleet.broker f1) in
  let f2 := Fleet.steps lost [Turn i env1 (inr res); Turn i env2 x] f1 in
  let s2 := queue_manager (Fleet.broker f2) in
  (∃ q k, view s !! tid = Some (Running q (Worker.worker_id (proc n)) k) ∧
     view s1 !! tid = Some (Waiting q k) ∧ view s2 !! tid = Some (Waiting q k)) ∧
  (status <$> nodes f1 !! i) = Some (AtWork (Executing tid p)) ∧
  (status <$> nodes f2 !! i) = Some (Left Worker.Continue) ∧
  completions f2 = (completions f + 1)%Z ∧ QM._total_acked s2 = QM._total_acked s.
Proof.
  intros Hf Hi Hst He Hd s f1 s1 f2 s2.
  assert (Hat : at_work n) by (unfold at_work; by rewrite Hst).
  pose proof (Forall_lookup_1 _ _ _ _ (ok_agrees _ f Hf) Hi Hat) as ((Hc&_)&Hh&j&Hj&Hb).
  assert (Hbusy : busy n = Some tid) by (unfold busy; by rewrite Hst).
  destruct (busy_held f i n tid Hf Hi Hat Hbusy) as [Ht _].
  assert (Hdead : Registry.is_dead (e_time env) j = true).
  { unfold Registry.is_dead. rewrite Hb. exact Hd. }
  destruct (sweep_takes env iter _ tid _ j (ok_supervised _ f Hf) He (proj2 (Hh tid) Hbusy) Hj Hdead)
    as ((q&k&Hv&Hv')&Hfl&Ha).
  assert (E1 : f1 = set_node i (told_to_quit n) (handle (Eviction env iter) (Fleet.broker f)) f).
  { unfold f1. change (Quit i :: ?l) with ([Quit i] ++ l). rewrite !steps_app.
    assert (Fleet.steps lost [Quit i] f = set_node i (told_to_quit n) (Fleet.broker f) f) as ->.
    { unfold Fleet.steps. cbn [foldl Fleet.step]. rewrite Hi. unfold step_node, told_to_quit. by rewrite Hst. }
    rewrite (no_more_pulses i (told_to_quit n)); [done| |done].
    apply list_lookup_insert_eq. by eapply lookup_lt_Some. }
  assert (Hi1 : nodes f1 !! i = Some (told_to_quit n)).
  { rewrite E1. apply list_lookup_insert_eq. by eapply lookup_lt_Some. }
  assert (Hb1 : Fleet.broker f1 = handle (Eviction env iter) (Fleet.broker f)) by by rewrite E1.
  assert (E2 := last_round i n tid p env1 env2 res x f1 Hi1 Hst Hc Ht).
  rewrite Hb1 in E2. specialize (E2 Hfl). unfold s2, s1, f2. rewrite E2, Hb1. split_and!.
  - by exists q, k.
  - rewrite Hi1. cbn. by rewrite Hst.
  - cbn. by rewrite list_lookup_insert_eq by by eapply lookup_lt_Some.
  - unfold completions. cbn [set_node nodes]. rewrite (total_insert _ _ _ _ _ Hi1), E1.
    cbn [set_node nodes]. rewrite (total_insert _ _ _ _ _ Hi). cbn. lia.
  - exact Ha.
Qed.
End shutdown.

(** ** Witness *)

#[local] Existing Instance JsonText.codec.

(** [w1] has been given a task that takes it seven seconds. *)
Definition long_task : list Move :=
  [Enrol 0 (env_of 0);
   Other (Control.Request (Recovery.env_at 1 "t1") (Recovery.produce_msg "emails" (JInt 1)));
   Turn 0 (env_of 2) (inr JNull); Pulse 0 (env_of 2)].

Definition mid_task : Fleet.t := Fleet.steps "lost" long_task two_workers.

Lemma mid_task_ok : fleet_ok mid_task.
Proof.
  apply (answered_steps_ok "lost" _ long_task two_workers).
  - repeat constructor.
  - apply at_start_ok. split; [exact example_idle_start|]. split; [decide_by_compute|].
    split; [reflexivity|]. split; [decide_by_compute|]. repeat constructor; discriminate.
  - repeat first [apply Forall_nil_2 | apply Forall_cons_2; [exact I|]].
  - decide_by_compute.
Qed.

Definition its_node : Node :=
  default (novice "") (nodes mid_task !! 0).

Lemma shutdown_gives_up_the_task_witness :
  let f1 := Fleet.steps "lost" (Quit 0 :: (Pulse 0 <$> [env_of 4; env_of 6; env_of 8]) ++ [Other (sweep_at 9)])
              mid_task in
  let s1 := queue_manager (Fleet.broker f1) in
  let f2 := Fleet.steps "lost" [Turn 0 (env_of 9) (inr JNull); Turn 0 (env_of 9) (inr JNull)] f1 in
  let s2 := queue_manager (Fleet.broker f2) in
  (∃ q k, view (queue_manager (Fleet.broker mid_task)) !! "t1" = Some (Running q "w1" k) ∧
     view s1 !! "t1" = Some (Waiting q k) ∧ view s2 !! "t1" = Some (Waiting q k)) ∧
  (status <$> nodes f1 !! 0) = Some (AtWork (Executing "t1" (JInt 1))) ∧
  (status <$> nodes f2 !! 0) = Some (Left Worker.Continue) ∧
  completions f2 = (completions mid_task + 1)%Z ∧
  QM._total_acked s2 = QM._total_acked (queue_manager (Fleet.broker mid_task)).
Proof.
  exact (shutdown_gives_up_the_task "lost" 0 its_node "t1" (JInt 1) [env_of 4; env_of 6; env_of 8]
    (Recovery.env_at 9 "u") (λ i, elements (Registry.in_flight_tasks i)) (env_of 9) (env_of 9) JNull
    (inr JNull) mid_task mid_task_ok ltac:(vm_compute; reflexivity) ltac:(vm_compute; reflexivity)
    (sweep_enumerates 9) ltac:(vm_compute; reflexivity)).
Defined.
End Shutdown.
