(* ===== verification/FleetDrain.v ===== *)
(** * A fleet empties its queue ([worker/base_worker.py],
      [broker/queue_manager.py])

Workers on one queue, driven in any order in which none of them is left
out for ever, settle every task of the queue, whatever the executions do.
The proof is a measure: what every turn of a worker that has something to
do takes off the work that is left. *)

From S2P Require Import Prelude PyDict Json JsonText DeadLetter QueueManager QueueInvariant TaskConservation TaskLifecycle RetryPolicy QueueOrder WorkerRegistry Eviction LoadShedder WalStore Metrics Server Frames Requests Recovery ControlPlane Supervision Leases Wire EndToEnd Worker Coroutines WorkerDrain Fleet FleetInvariant.
Import Server Control Supervision Leases Coroutine Fleet FleetInvariant.

Module FleetDrain.

(** ** One request at the queue manager *)

Lemma dequeue_empty qn w s :
  qn ≠ "*" → QM.queue_of qn s = [] → QM.dequeue qn w s = (None, QM._ensure_queue qn s).
Proof.
  intros Hqn E. unfold QM.dequeue, QM.dequeue_target. rewrite bool_decide_false by done.
  by rewrite QM.queue_of_ensure, E, bool_decide_true.
Qed.

Lemma acknowledge_queue qn tid s : QM.queue_of qn (QM.acknowledge tid s).2 = QM.queue_of qn s.
Proof. unfold QM.acknowledge. by destruct (dget tid (QM._in_flight s)). Qed.

Lemma nack_queue qn tid now s y :
  flight_ok y → dget tid (QM._in_flight s) = Some y →
  QM.queue_of qn (QM.negative_acknowledge tid now s).2 =
    (if (attempts y >=? QM.max_retries s)%Z then [] else
     if decide (queue_name y = qn) then [mark_pending y] else []) ++ QM.queue_of qn s.
Proof.
  intros (Hst&_) E. unfold QM.negative_acknowledge, QM.nack_take. rewrite E.
  cbn [QM.max_retries QM.bump QM.with_in_flight attempts].
  destruct (attempts y >=? QM.max_retries s)%Z; unfold QM.nack_route.
  - by rewrite bool_decide_true.
  - rewrite bool_decide_false by by rewrite Hst. cbn [snd].
    change (queue_name (mark_pending y)) with (queue_name y). unfold QM.queue_appendleft.
    case_decide as Hq.
    + subst qn. rewrite QM.queue_of_dset, QM.queue_of_ensure. done.
    + rewrite QM.queue_of_dset_ne, QM.queue_of_ensure_ne by done. done.
Qed.

(** ** The work that is left *)

(** Deliveries a task still needs, at most: waiting, and after the one
    under way. *)
Definition need (r : Z) (x : Task) : nat := Z.to_nat (Z.max 1 (r - attempts x)).
Definition rest (r : Z) (x : Task) : nat := Z.to_nat (Z.max 0 (r - attempts x)).

(** Three turns for each delivery: to fetch, to execute, to settle. *)
Definition queue_work (qn : string) (s : QM.t) : nat :=
  sum_list_with (λ x, 3 * need (QM.max_retries s) x) (QM.queue_of qn s).

Definition rest_of (tid : string) (s : QM.t) : nat :=
  match dget tid (QM._in_flight s) with
  | Some x => 3 * rest (QM.max_retries s) x
  | None => 0
  end.

Definition node_work (s : QM.t) (n : Node) : nat :=
  match status n with
  | AtWork (Executing tid _) => 2 + rest_of tid s
  | AtWork (Nacking tid _) => 1 + rest_of tid s
  | AtWork (Acking _) => 1
  | _ => 0
  end.

Definition work_left (qn : string) (f : Fleet.t) : nat :=
  queue_work qn (queue_manager (Fleet.broker f)) +
  sum_list_with (node_work (queue_manager (Fleet.broker f))) (nodes f).

Lemma sum_update {A} (g g' : A → nat) (l : list A) i x x' :
  l !! i = Some x → (∀ j y, j ≠ i → l !! j = Some y → g' y = g y) →
  sum_list_with g' (<[i := x']> l) + g x = sum_list_with g l + g' x'.
Proof.
  revert i. induction l as [|y l IH]; intros [|i] E Ho; [done..| |].
  - injection E as ->. change (<[0:=x']> (x :: l)) with (x' :: l). cbn [sum_list_with].
    assert (sum_list_with g' l = sum_list_with g l) as ->; [|lia].
    assert (H : ∀ j z, l !! j = Some z → g' z = g z) by (intros j z Hj; by apply (Ho (S j))).
    clear Ho IH. induction l as [|z l IH]; cbn; [done|].
    rewrite (H 0 z eq_refl), IH; [done|]. intros j z' Hj. by apply (H (S j)).
  - change (<[S i:=x']> (y :: l)) with (y :: <[i:=x']> l). cbn [sum_list_with].
    assert (Hy : g' y = g y) by by apply (Ho 0).
    assert (sum_list_with g' (<[i:=x']> l) + g x = sum_list_with g l + g' x'); [|lia].
    apply IH; [done|]. intros j z Hj Hz. apply (Ho (S j)); [lia|done].
Qed.

Lemma sum_zero {A} (g : A → nat) (l : list A) x : sum_list_with g l = 0 → x ∈ l → g x = 0.
Proof. induction 2; cbn in *; lia || eauto with lia. Qed.

Lemma need_deliver r w x : S (2 + 3 * rest r (QM.deliver w x)) = 3 * need r x.
Proof. unfold need, rest. cbn. lia. Qed.

Lemma need_requeued r x :
  (attempts x >=? r)%Z = false → 3 * need r (mark_pending x) = 3 * rest r x.
Proof. unfold need, rest. cbn. lia. Qed.

Section drain.
Context `{codec : JsonCodec} (off : Z * Z) (lost qn : string).
#[local] Abbreviation fleet_ok := (fleet_ok_off off).
Hypothesis named_queue : qn ≠ "*".

Implicit Types (f : Fleet.t) (n : Node).

Abbreviation qm f := (queue_manager (Fleet.broker f)).
Abbreviation wid n := (Worker.worker_id (proc n)).

(** Workers at work on the queue.  In a quiet move nobody else fetches or
    submits, and a sweep finds no worker silent. *)
Definition on_duty n : Prop :=
  at_work n ∧ Worker.queue_name (proc n) = qn ∧ Worker._running (proc n) = true.

#[global] Instance on_duty_dec n : Decision (on_duty n).
Proof. unfold on_duty. apply _. Defined.

Definition crew f : Prop := fleet_ok f ∧ nodes f ≠ [] ∧ Forall on_duty (nodes f).

Lemma stand_running w beat :
  Worker._running w = true → stand w (again w) beat = mkNode w (AtWork Polling) beat.
Proof. intros Hr. by rewrite stand_again, Hr. Qed.

Definition quiet (v : Move) f : Prop :=
  match v with
  | Turn _ _ _ | Pulse _ _ => True
  | Other (Eviction env _) =>
      Registry.dead_workers (e_time env) (Registry._workers (worker_registry (Fleet.broker f))) = []
  | Other e => event_action e (Fleet.broker f) = Idle
  | _ => False
  end.

Fixpoint quiet_all (vs : list Move) f : Prop :=
  match vs with
  | [] => True
  | v :: vs => quiet v f ∧ quiet_all vs (Fleet.step lost v f)
  end.

#[global] Instance quiet_dec v f : Decision (quiet v f).
Proof.
  unfold quiet. destruct v as [| | | | | | | |[]]; try apply _;
    first [destruct (event_action _ _)|destruct (Registry.dead_workers _ _)];
    first [by left|by right; intros [=]].
Defined.

#[global] Instance quiet_all_dec vs f : Decision (quiet_all vs f).
Proof. revert f. induction vs; intros f; cbn; apply _. Defined.

(** A sweep that finds nobody does not enumerate anything. *)
Definition tame (v : Move) : Move :=
  match v with
  | Other (Eviction env _) => Other (Eviction env (λ i, elements (Registry.in_flight_tasks i)))
  | v => v
  end.

Lemma tame_step v f : quiet v f → Fleet.step lost (tame v) f = Fleet.step lost v f.
Proof.
  destruct v as [| | | | | | | |[]]; try done. cbn. intros E. do 2 f_equal. unfold handle, eviction_sweep.
  unfold Registry.evict_dead_workers. by rewrite E.
Qed.

Lemma dead_workers_none now ws u i :
  Registry.dead_workers now ws = [] → dget u ws = Some i → Registry.is_dead now i = false.
Proof.
  intros E Hi%dget_Some_in. destruct (Registry.is_dead now i) eqn:Hd; [|done].
  assert (H : (u, i) ∈ Registry.dead_workers now ws) by by apply list_elem_of_filter.
  rewrite E in H. by apply not_elem_of_nil in H.
Qed.

Lemma quiet_admissible v f :
  fleet_ok f → quiet v f → genuine_move (tame v) ∧ admissible (tame v) f.
Proof.
  intros Hf. destruct v as [| | | | | | | |e]; try done. unfold quiet.
  destruct e as [env m|env iter|env| |env]; cbn [tame genuine_move admissible]; intros E;
    [unfold foreign; rewrite E; by split|idtac|unfold foreign; rewrite E; by split..].
  split; [by intros i|]. unfold foreign. cbn [event_action]. apply Forall_forall. intros n Hn Hat.
  destruct (proj1 (Forall_forall _ _) (ok_agrees _ f Hf) n Hn Hat) as (_&_&i&Hi&Hl).
  pose proof (dead_workers_none _ _ _ _ E Hi) as Hd. unfold Registry.is_dead in Hd.
  unfold overdue. by rewrite <- Hl.
Qed.

Lemma quiet_other e f :
  quiet (Other e) f → queue_manager (handle e (Fleet.broker f)) = qm f.
Proof.
  intros Hv. change (queue_manager (handle e (Fleet.broker f))) with (ctl (handle e (Fleet.broker f))).1.
  rewrite handle_acts. destruct e as [env m|env iter|env| |env]; cbn [quiet] in Hv;
    [by rewrite Hv|idtac|by rewrite Hv..].
  cbn [event_action act ctl fst snd]. unfold Registry.evict_dead_workers. by rewrite Hv.
Qed.

(** The requests of workers, as operations of the queue manager. *)
Lemma handle_exec e b a :
  event_action e b = a →
  queue_manager (handle e b) =
    match a with
    | Poll q w _ => exec (ODequeue q w) (queue_manager b)
    | Finish tid _ _ => exec (OAck tid) (queue_manager b)
    | Refuse tid _ now _ => exec (ONack tid now) (queue_manager b)
    | _ => (act a (ctl b)).1
    end.
Proof.
  intros Ha. change (queue_manager (handle e b)) with (ctl (handle e b)).1. rewrite handle_acts, Ha.
  destruct a; try done; cbn [act ctl exec].
  - by destruct (QM.dequeue qn0 w (queue_manager b)).
  - by destruct (QM.acknowledge tid (queue_manager b)).
  - by destruct (QM.negative_acknowledge tid now (queue_manager b)).
Qed.

(** The operation a turn performs. *)
Definition turn_op (env : Env) n (p : Point) : option Op :=
  match p with
  | Polling => Some (ODequeue qn (wid n))
  | Acking tid => Some (OAck tid)
  | Nacking tid _ => Some (ONack tid (e_time env))
  | _ => None
  end.

Lemma turned_exec f env x i n p :
  crew f → nodes f !! i = Some n → status n = AtWork p →
  queue_manager (turned env x n p (Fleet.broker f)).2 =
    match turn_op env n p with Some o => exec o (qm f) | None => qm f end.
Proof.
  intros (Hf&_&Hall) Hi Hst. destruct (Forall_lookup_1 _ _ _ _ Hall Hi) as (Hat&Hq&Hr).
  destruct (Forall_lookup_1 _ _ _ _ (ok_named _ f Hf) Hi) as [Hw Hqn].
  pose proof (λ tid, busy_held f i n tid Hf Hi Hat) as Hbusy. unfold busy in Hbusy. rewrite Hst in Hbusy.
  destruct p as [| |tid q|tid|tid err|r]; cbn [turned fst snd turn_op]; try done.
  - erewrite handle_exec; [|by apply consume_action_of]. by rewrite Hq.
  - destruct (Hbusy tid eq_refl) as [Ht _]. erewrite handle_exec; [|by apply ack_action_of]. done.
  - destruct (Hbusy tid eq_refl) as [Ht _]. erewrite handle_exec; [|by apply nack_action_of]. done.
Qed.

Lemma crew_step v f : crew f → quiet v f → crew (Fleet.step lost v f).
Proof.
  intros (Hf&Hne&Hall) Hv. destruct (quiet_admissible v f Hf Hv) as [Hg Ha].
  split; [rewrite <- tame_step by done; apply answered_ok; [by destruct v as [| | | | | | | |[]]|done..]|].
  assert (H : ∀ i n n' b, nodes f !! i = Some n → on_duty n' →
    nodes (set_node i n' b f) ≠ [] ∧ Forall on_duty (nodes (set_node i n' b f))).
  { intros i n n' b Hi Hn. cbn [set_node nodes]. split.
    - intros E%(f_equal length). rewrite length_insert in E. by destruct (nodes f).
    - eapply Forall_insert_node; [done|done|].
      intros j m _ Hj. by apply (Forall_lookup_1 _ _ _ _ Hall Hj). }
  destruct v as [|i env x|i env| | | | | |e]; try done.
  - destruct (nodes f !! i) as [n|] eqn:Hi; [|cbn [Fleet.step]; by rewrite Hi].
    destruct (Forall_lookup_1 _ _ _ _ Hall Hi) as (Hat&Hq&Hr).
    unfold at_work in Hat. destruct (status n) as [|p|p| |] eqn:Hst; try done.
    destruct (turn_step lost f i env x n p Hf Hi Hst) as [_ ->].
    apply (H i n); [done|]. destruct p; cbn [turned fst]; try rewrite stand_running by done;
      first [done|by apply (Forall_lookup_1 _ _ _ _ Hall Hi)].
  - cbn [Fleet.step]. destruct (nodes f !! i) as [n|] eqn:Hi; [|done].
    destruct (Forall_lookup_1 _ _ _ _ Hall Hi) as (Hat&Hq&Hr).
    unfold at_work in Hat. unfold step_node. destruct (status n) as [|p|p| |]; try done.
    rewrite Hr. by apply (H i n).
Qed.

(** ** A turn and the work that is left *)

Lemma rest_of_kept o t s :
  dget t (QM._in_flight (exec o s)) = dget t (QM._in_flight s) → rest_of t (exec o s) = rest_of t s.
Proof. unfold rest_of. intros ->. by rewrite exec_max_retries. Qed.

(** The tasks of other workers stay where they are. *)
Lemma others_kept f env i j n m p o :
  crew f → nodes f !! i = Some n → status n = AtWork p → turn_op env n p = Some o →
  j ≠ i → nodes f !! j = Some m → node_work (exec o (qm f)) m = node_work (qm f) m.
Proof.
  intros (Hf&_&Hall) Hi Hst Ho Hne Hj.
  destruct (Forall_lookup_1 _ _ _ _ Hall Hi) as [Hat _], (Forall_lookup_1 _ _ _ _ Hall Hj) as [Hatm _].
  pose proof (ok_supervised _ f Hf) as (Hc&Hw&_).
  assert (Hkey : ∀ t, busy m = Some t → rest_of t (exec o (qm f)) = rest_of t (qm f)).
  { intros t Ht. destruct (busy_held f j m t Hf Hj Hatm Ht) as [_ Hfl].
    destruct (Forall_lookup_1 _ _ _ _ (ok_agrees _ f Hf) Hj Hatm) as (_&Hhm&_).
    destruct (Forall_lookup_1 _ _ _ _ (ok_agrees _ f Hf) Hi Hat) as (_&Hhn&_).
    assert (Hdiff : ∀ tid, busy n = Some tid → t ≠ tid).
    { intros tid Hb ->. apply Hhm in Ht. apply Hhn in Hb. rewrite Ht in Hb. injection Hb as Hb.
      apply Hne. by eapply wid_inj. }
    apply rest_of_kept. unfold busy in Hdiff. rewrite Hst in Hdiff.
    destruct p as [| |tid q|tid|tid err|r]; try done; injection Ho as <-; cbn [exec].
    - pose proof (dequeue_flight qn (wid n) (qm f) (proj1 Hc)) as Hd.
      destruct (QM.dequeue qn (wid n) (qm f)) as [[d|] s'] eqn:E; cbn [snd]; [|by rewrite Hd].
      destruct Hd as (x&Hid&_&->). rewrite dget_dset_ne; [done|]. intros <-.
      pose proof (delivered_idle qn (wid n) (ctl (Fleet.broker f)) (task_id x) Hw) as Hdi.
      unfold delivered in Hdi. cbn [fst ctl] in Hdi. rewrite E in Hdi. cbn in Hdi.
      destruct Hfl as [y Hy]. cbn in Hy. rewrite Hdi in Hy by congruence. done.
    - rewrite (proj1 (acknowledge_flight tid _)). rewrite dget_ddel_ne; [done|].
      intros ->. by apply (Hdiff t).
    - rewrite (proj1 (negative_acknowledge_flight tid _ _)). rewrite dget_ddel_ne; [done|].
      intros ->. by apply (Hdiff t). }
  unfold busy in Hkey. unfold node_work. destruct (status m) as [|q|q| |]; [done| |done..].
  destruct q; by rewrite ?Hkey.
Qed.

(** The change of the measure, reduced to the worker that has its turn. *)
Lemma work_turn f env x i n p :
  crew f → nodes f !! i = Some n → status n = AtWork p →
  let s' := match turn_op env n p with Some o => exec o (qm f) | None => qm f end in
  let n' := (turned env x n p (Fleet.broker f)).1 in
  qm (Fleet.step lost (Turn i env x) f) = s' ∧
  nodes (Fleet.step lost (Turn i env x) f) = <[i := n']> (nodes f) ∧
  work_left qn (Fleet.step lost (Turn i env x) f) + queue_work qn (qm f) + node_work (qm f) n =
    work_left qn f + queue_work qn s' + node_work s' n'.
Proof.
  intros Hcr Hi Hst s' n'. pose proof Hcr as (Hf&_).
  destruct (turn_step lost f i env x n p Hf Hi Hst) as [_ ->].
  pose proof (turned_exec f env x i n p Hcr Hi Hst) as Hs. fold s' in Hs.
  split; [done|]. split; [done|]. unfold work_left. cbn [set_node nodes Fleet.broker].
  rewrite Hs. fold n'.
  assert (Ho : ∀ j m, j ≠ i → nodes f !! j = Some m → node_work s' m = node_work (qm f) m).
  { intros j m Hne Hj. unfold s'. destruct (turn_op env n p) as [o|] eqn:Eo; [|done].
    exact (others_kept f env i j n m p o Hcr Hi Hst Eo Hne Hj). }
  pose proof (sum_update (node_work (qm f)) (node_work s') (nodes f) i n n' Hi Ho) as Hsum.
  unfold n' in *. lia.
Qed.

Lemma queue_work_exec o s q :
  QM.queue_of qn (exec o s) = q →
  queue_work qn (exec o s) = sum_list_with (λ x, 3 * need (QM.max_retries s) x) q.
Proof. unfold queue_work. intros ->. by rewrite exec_max_retries. Qed.

Lemma poll_fetches s w y q :
  qn ≠ "*" → QM.queue_of qn s = y :: q →
  QM.queue_of qn (exec (ODequeue qn w) s) = q ∧
  dget (task_id y) (QM._in_flight (exec (ODequeue qn w) s)) = Some (QM.deliver w y) ∧
  (QM.dequeue qn w s).1 = Some (QM.delivery (QM.deliver w y)).
Proof.
  intros Hqn E. cbn [exec]. split_and!.
  - rewrite (queue_of_dequeue qn qn w s y q Hqn E). by rewrite decide_True.
  - rewrite (dequeue_named qn w s y q Hqn E). cbn. by rewrite dget_dset_eq.
  - by rewrite (dequeue_named qn w s y q Hqn E).
Qed.

(** A turn takes work off, unless there is nothing to fetch or it only ends
    a pause. *)
Lemma turn_progress f env x i n p :
  crew f → nodes f !! i = Some n → status n = AtWork p →
  let f' := Fleet.step lost (Turn i env x) f in
  match p with
  | Polling =>
      match QM.queue_of qn (qm f) with
      | [] => work_left qn f' = work_left qn f ∧ QM.queue_of qn (qm f') = []
      | _ :: _ => work_left qn f' < work_left qn f
      end
  | Pausing =>
      work_left qn f' = work_left qn f ∧ qm f' = qm f ∧
      status <$> nodes f' !! i = Some (AtWork Polling)
  | _ => work_left qn f' < work_left qn f
  end.
Proof.
  intros Hcr Hi Hst f'. destruct (work_turn f env x i n p Hcr Hi Hst) as (Hq&Hn&Hw).
  pose proof Hcr as (Hf&_&Hall). destruct (Forall_lookup_1 _ _ _ _ Hall Hi) as (Hat&Hqn&Hr).
  pose proof (λ tid, busy_held f i n tid Hf Hi Hat) as Hbusy. unfold busy in Hbusy. rewrite Hst in Hbusy.
  fold f' in Hq, Hn, Hw. unfold node_work at 1 in Hw. rewrite Hst in Hw.
  destruct p as [| |tid q|tid|tid err|r]; cbn [turn_op turned fst] in Hq, Hn, Hw;
    try rewrite stand_running in Hn, Hw by done.
  - unfold node_work in Hw. cbn [status] in Hw. rewrite Hqn in Hw.
    destruct (QM.queue_of qn (qm f)) as [|y q] eqn:E.
    + rewrite (dequeue_empty qn (wid n) (qm f) named_queue E) in Hw. cbn [fst] in Hw.
      assert (Eq : QM.queue_of qn (exec (ODequeue qn (wid n)) (qm f)) = []).
      { cbn [exec]. rewrite (dequeue_empty _ _ _ named_queue E). cbn [snd].
        by rewrite QM.queue_of_ensure. }
      rewrite (queue_work_exec _ _ _ Eq) in Hw. unfold queue_work in Hw. rewrite E in Hw.
      cbn [sum_list_with] in Hw. split; [lia|]. by rewrite Hq.
    + destruct (poll_fetches (qm f) (wid n) y q named_queue E) as (Eq&Ef&Ed).
      rewrite Ed in Hw. cbn [QM.delivery QM.d_task_id] in Hw.
      change (task_id (QM.deliver _ y)) with (task_id y) in Hw.
      rewrite (queue_work_exec _ _ _ Eq) in Hw. unfold queue_work, rest_of in Hw.
      rewrite E, Ef, exec_max_retries in Hw.
      cbn [sum_list_with] in Hw. pose proof (need_deliver (QM.max_retries (qm f)) (wid n) y). lia.
  - split_and!; [|done|].
    + unfold node_work in Hw. cbn [status] in Hw. lia.
    + rewrite Hn, list_lookup_insert_eq by by eapply lookup_lt_Some. done.
  - unfold node_work in Hw. cbn [status] in Hw. destruct x; lia.
  - unfold node_work in Hw. cbn [status] in Hw.
    rewrite (queue_work_exec (OAck tid) (qm f) (QM.queue_of qn (qm f))) in Hw
      by apply acknowledge_queue. unfold queue_work in Hw. lia.
  - destruct (Hbusy tid eq_refl) as [_ [y Hy]]. cbn in Hy.
    pose proof (ok_supervised _ f Hf) as ((Hs&_)&_).
    destruct (shape_flight_get _ _ _ Hs Hy) as [_ Hfl].
    pose proof (nack_queue qn tid (e_time env) (qm f) y Hfl Hy) as Eq.
    unfold node_work in Hw. cbn [status] in Hw. rewrite (queue_work_exec (ONack tid (e_time env)) _ _ Eq) in Hw.
    unfold queue_work, rest_of in Hw. rewrite Hy in Hw.
    destruct (attempts y >=? QM.max_retries (qm f))%Z eqn:Ea; [cbn [app] in Hw; lia|].
    pose proof (need_requeued _ _ Ea). case_decide; cbn [app sum_list_with] in Hw; lia.
  - by destruct (proj1 (turn_step lost f i env x n _ Hf Hi Hst) r).
Qed.

(** ** Schedules *)

Lemma status_insert (l : list Node) i j n n' m :
  l !! i = Some n → status n' = status n → l !! j = Some m →
  ∃ m', <[i := n']> l !! j = Some m' ∧ status m' = status m.
Proof.
  intros Hi Hst Hj. destruct (decide (j = i)) as [->|Hne].
  - exists n'. rewrite list_lookup_insert_eq by by eapply lookup_lt_Some. split; [done|].
    rewrite Hi in Hj. by injection Hj as <-.
  - exists m. by rewrite list_lookup_insert_ne by done.
Qed.

(** No quiet move adds work; one that takes none off leaves the queue as it
    is, and the points of the workers whose turn it is not. *)
Lemma quiet_progress v f :
  crew f → quiet v f →
  let f' := Fleet.step lost v f in
  work_left qn f' ≤ work_left qn f ∧
  (work_left qn f' = work_left qn f → QM.queue_of qn (qm f') = QM.queue_of qn (qm f)) ∧
  ∀ j n, nodes f !! j = Some n → (∀ env x, v ≠ Turn j env x) →
    ∃ n', nodes f' !! j = Some n' ∧ status n' = status n.
Proof.
  intros Hcr Hv f'. pose proof Hcr as (Hf&_&Hall). unfold f'. clear f'.
  destruct v as [|i env x|i env| | | | | |e]; try done.
  - destruct (nodes f !! i) as [n|] eqn:Hi; [|cbn [Fleet.step]; rewrite Hi; split_and!; eauto].
    destruct (Forall_lookup_1 _ _ _ _ Hall Hi) as [Hat _]. unfold at_work in Hat.
    destruct (status n) as [|p|p| |] eqn:Hst; try done.
    pose proof (turn_progress f env x i n p Hcr Hi Hst) as Hp.
    destruct (work_turn f env x i n p Hcr Hi Hst) as (_&Hn&_).
    assert (Hp' : work_left qn (Fleet.step lost (Turn i env x) f) < work_left qn f ∨
      work_left qn (Fleet.step lost (Turn i env x) f) = work_left qn f ∧
      QM.queue_of qn (qm (Fleet.step lost (Turn i env x) f)) = QM.queue_of qn (qm f)).
    { destruct p; try (by left); [|by right; destruct Hp as (?&->&_)].
      destruct (QM.queue_of qn (qm f)); [right|left]; done. }
    split_and!; [destruct Hp'; lia|destruct Hp' as [?|[_ ?]]; [lia|done]|].
    + intros j m Hj Hne. exists m. split; [|done]. rewrite Hn, list_lookup_insert_ne; [done|].
      intros ->. by eapply Hne.
  - cbn [Fleet.step]. destruct (nodes f !! i) as [n|] eqn:Hi; [|split_and!; eauto].
    pose proof (Forall_lookup_1 _ _ _ _ Hall Hi) as (Hat&_&Hr).
    destruct (Forall_lookup_1 _ _ _ _ (ok_agrees _ f Hf) Hi Hat) as ((Hc&_)&_).
    destruct (Forall_lookup_1 _ _ _ _ (ok_named _ f Hf) Hi) as [Hw _].
    unfold at_work in Hat. unfold step_node. destruct (status n) as [|p|p| |] eqn:Hst; try done.
    rewrite Hr, pulse_beats by done. cbn [set_node nodes Fleet.broker].
    assert (Hq : queue_manager (handle (Control.Request env (heartbeat_msg (proc n))) (Fleet.broker f))
      = qm f) by by rewrite (handle_exec _ _ _ (heartbeat_action_of env (proc n) _ Hw)).
    assert (Hwl : work_left qn (set_node i (mkNode (proc n) (AtWork p) (e_time env))
      (handle (Control.Request env (heartbeat_msg (proc n))) (Fleet.broker f)) f) = work_left qn f).
    { unfold work_left. cbn [set_node nodes Fleet.broker]. rewrite Hq. f_equal.
      pose proof (sum_update (node_work (qm f)) (node_work (qm f)) (nodes f) i n
        (mkNode (proc n) (AtWork p) (e_time env)) Hi (λ _ _ _ _, eq_refl)) as H.
      assert (node_work (qm f) (mkNode (proc n) (AtWork p) (e_time env)) = node_work (qm f) n) as Hnw
        by (unfold node_work; cbn [status]; by rewrite Hst).
      lia. }
    rewrite Hwl, Hq. split_and!; [done|done|]. intros j m Hj _.
    by apply (status_insert _ i _ n).
  - cbn [Fleet.step nodes Fleet.broker]. pose proof (quiet_other e f Hv) as Hq.
    unfold work_left. cbn [nodes Fleet.broker]. rewrite Hq. split_and!; [done|done|]. eauto.
Qed.

Lemma quiet_run vs f :
  crew f → quiet_all vs f →
  crew (Fleet.steps lost vs f) ∧ work_left qn (Fleet.steps lost vs f) ≤ work_left qn f.
Proof.
  revert f. induction vs as [|v vs IH]; intros f Hcr Hv; [done|]. destruct Hv as [Hv Hvs].
  pose proof (quiet_progress v f Hcr Hv) as (Hle&_).
  change (Fleet.steps lost (v :: vs) f) with (Fleet.steps lost vs (Fleet.step lost v f)).
  destruct (IH _ (crew_step v f Hcr Hv) Hvs) as [? ?]. split; [done|lia].
Qed.

(** Worker [i] has its turn. *)
Definition has_turn (i : nat) (v : Move) : Prop :=
  match v with Turn j _ _ => j = i | _ => False end.

#[global] Instance has_turn_dec i v : Decision (has_turn i v).
Proof. unfold has_turn. destruct v; apply _. Defined.

(** A worker that holds a task takes work off when it has its turn. *)
Lemma busy_segment i n vs f :
  crew f → quiet_all vs f → nodes f !! i = Some n → is_Some (busy n) → Exists (has_turn i) vs →
  work_left qn (Fleet.steps lost vs f) < work_left qn f.
Proof.
  intros Hcr Hv Hi Hb Hex. revert f n Hcr Hv Hi Hb.
  induction vs as [|v vs IH]; intros f n Hcr Hv Hi Hb; [by apply Exists_nil in Hex|].
  destruct Hv as [Hv Hvs]. pose proof (quiet_progress v f Hcr Hv) as (Hle&_&Hkeep).
  pose proof (crew_step v f Hcr Hv) as Hcr'.
  destruct (quiet_run vs _ Hcr' Hvs) as [_ Hle'].
  change (Fleet.steps lost (v :: vs) f) with (Fleet.steps lost vs (Fleet.step lost v f)).
  destruct (decide (has_turn i v)) as [Ht|Ht].
  - destruct v as [|j env x| | | | | | |]; try done. cbn in Ht. subst j. clear IH Hkeep.
    unfold busy in Hb. destruct (status n) as [|p|p| |] eqn:Hst; [by destruct Hb| |by destruct Hb..].
    pose proof (turn_progress f env x i n p Hcr Hi Hst) as Hp.
    destruct p; try (by destruct Hb); cbn [Fleet.step] in *; lia.
  - destruct (Hkeep i n Hi) as (n'&Hi'&Hst); [intros env x ->; by apply Ht|].
    assert (Hb' : is_Some (busy n')) by (unfold busy; by rewrite Hst).
    apply Exists_cons in Hex as [?|Hex]; [done|]. specialize (IH Hex _ _ Hcr' Hvs Hi' Hb'). lia.
Qed.

Lemma poll_progress f env x i n :
  crew f → nodes f !! i = Some n → status n = AtWork Polling → QM.queue_of qn (qm f) ≠ [] →
  work_left qn (Fleet.step lost (Turn i env x) f) < work_left qn f.
Proof.
  intros Hcr Hi Hst Hq. pose proof (turn_progress f env x i n Polling Hcr Hi Hst) as Hp. revert Hp.
  cbn beta iota. by destruct (QM.queue_of qn (qm f)).
Qed.

Definition between_tasks (i : nat) f (ps : list Point) : Prop :=
  ∃ n p, nodes f !! i = Some n ∧ status n = AtWork p ∧ p ∈ ps.

(** A worker about to poll takes work off when it has its turn. *)
Lemma polling_segment i vs f :
  crew f → quiet_all vs f → QM.queue_of qn (qm f) ≠ [] → between_tasks i f [Polling] →
  Exists (has_turn i) vs → work_left qn (Fleet.steps lost vs f) < work_left qn f.
Proof.
  intros Hcr Hv Hq Hi Hex. revert f Hcr Hv Hq Hi.
  induction vs as [|v vs IH]; intros f Hcr Hv Hq (n&p&Hi&Hst&Hp); [by apply Exists_nil in Hex|].
  apply list_elem_of_singleton in Hp as ->. destruct Hv as [Hv Hvs].
  pose proof (quiet_progress v f Hcr Hv) as (Hle&Heq&Hkeep). pose proof (crew_step v f Hcr Hv) as Hcr'.
  destruct (quiet_run vs _ Hcr' Hvs) as [_ Hle'].
  change (Fleet.steps lost (v :: vs) f) with (Fleet.steps lost vs (Fleet.step lost v f)).
  destruct (decide (has_turn i v)) as [Ht|Ht].
  - destruct v as [|j env x| | | | | | |]; try done. cbn in Ht. subst j.
    pose proof (poll_progress f env x i n Hcr Hi Hst Hq). lia.
  - destruct (decide (work_left qn (Fleet.step lost v f) = work_left qn f)) as [Hw|]; [|lia].
    destruct (Hkeep i n Hi) as (n'&Hi'&Hst'); [intros env x ->; by apply Ht|].
    apply Exists_cons in Hex as [?|Hex]; [done|]. rewrite <- Hw.
    apply IH; [done|done|done|by rewrite Heq|]. exists n', Polling. rewrite Hst'.
    split_and!; [done..|by left].
Qed.

(** One between tasks does, or is about to poll afterwards. *)
Lemma idle_segment i vs f :
  crew f → quiet_all vs f → QM.queue_of qn (qm f) ≠ [] → between_tasks i f [Polling; Pausing] →
  let f' := Fleet.steps lost vs f in
  work_left qn f' < work_left qn f ∨
  (QM.queue_of qn (qm f') = QM.queue_of qn (qm f) ∧
   (Exists (has_turn i) vs ∨ between_tasks i f [Polling] → between_tasks i f' [Polling])).
Proof.
  revert f. induction vs as [|v vs IH]; intros f Hcr Hv Hq Hi f'.
  { right. split; [done|]. by intros [?%Exists_nil|?]. }
  destruct Hv as [Hv Hvs].
  pose proof (quiet_progress v f Hcr Hv) as (Hle&Heq&Hkeep). pose proof (crew_step v f Hcr Hv) as Hcr'.
  destruct (quiet_run vs _ Hcr' Hvs) as [_ Hle'].
  change f' with (Fleet.steps lost vs (Fleet.step lost v f)).
  destruct (decide (work_left qn (Fleet.step lost v f) = work_left qn f)) as [Hw|]; [|left; lia].
  destruct Hi as (n&p&Hi&Hst&Hp). specialize (Heq Hw).
  assert (Hn : (∃ q, between_tasks i (Fleet.step lost v f) [q] ∧ q ∈ [Polling; Pausing] ∧
    (has_turn i v ∨ p = Polling → q = Polling))).
  { destruct (decide (has_turn i v)) as [Ht|Ht].
    - destruct v as [|j env x| | | | | | |]; try done. cbn in Ht. subst j.
      pose proof (turn_progress f env x i n p Hcr Hi Hst) as Ht. exists Polling.
      repeat apply elem_of_cons in Hp as [->|Hp]; [| |by apply not_elem_of_nil in Hp]; cbn beta iota in Ht.
      + pose proof (poll_progress f env x i n Hcr Hi Hst Hq). lia.
      + destruct Ht as (_&_&(n'&Hn'&Hi')%fmap_Some). split_and!; [|by left|done].
        exists n', Polling. by split_and!; [..|left].
    - destruct (Hkeep i n Hi) as (n'&Hi'&Hst'); [intros env x ->; by apply Ht|].
      exists p. split_and!; [|done|by intros [?|?]]. exists n', p. rewrite Hst'.
      by split_and!; [..|left]. }
  destruct Hn as (q&(n'&q'&Hn'&Hst'&->%list_elem_of_singleton)&Hq'&Hpol).
  destruct (IH _ Hcr' Hvs) as [?|[Hqe Hb]].
  - by rewrite Heq.
  - by exists n', q.
  - left. lia.
  - right. rewrite Hqe. split; [done|]. intros Hor. apply Hb.
    assert (Hcase : Exists (has_turn i) vs ∨ has_turn i v ∨ p = Polling).
    { destruct Hor as [[?|?]%Exists_cons|(n1&p1&Hi1&Hst1&->%list_elem_of_singleton)]; [auto..|].
      right. right. rewrite Hi in Hi1. injection Hi1 as <-. rewrite Hst in Hst1. by injection Hst1. }
    destruct Hcase as [?|Hcase]; [by left|]. right. exists n', q. rewrite (Hpol Hcase).
    split_and!; [done| |by left]. by rewrite Hst', (Hpol Hcase).
Qed.

(** ** Rounds *)

(** Every one of [k] workers has its turn. *)
Definition fair_round (k : nat) (vs : list Move) : Prop :=
  Forall (λ i, Exists (has_turn i) vs) (seq 0 k).

Lemma fair_round_turn k vs i : fair_round k vs → i < k → Exists (has_turn i) vs.
Proof. intros H Hi. by apply (proj1 (Forall_forall _ _) H), elem_of_seq; lia. Qed.

Lemma quiet_app vs vs' f :
  quiet_all (vs ++ vs') f ↔ quiet_all vs f ∧ quiet_all vs' (Fleet.steps lost vs f).
Proof. revert f. induction vs as [|v vs IH]; intros f; cbn; [by rewrite (left_id True and)|]. by rewrite IH, (assoc and). Qed.

Lemma steps_length vs f : length (nodes (Fleet.steps lost vs f)) = length (nodes f).
Proof.
  revert f. induction vs as [|v vs IH]; intros f; [done|].
  change (Fleet.steps lost (v :: vs) f) with (Fleet.steps lost vs (Fleet.step lost v f)). rewrite IH.
  destruct v as [i|i|i|i|i|i|i|env|e]; cbn [Fleet.step]; [..|cbn [nodes]|done];
    [(destruct (nodes f !! i); [destruct (step_node _ _ _ _); apply length_insert|done])..|].
  destruct (picked _ _); [apply length_fmap|done].
Qed.

Lemma not_busy_work s n : busy n = None → node_work s n = 0.
Proof. unfold busy, node_work. destruct (status n) as [|p|p| |]; [done| |done..]. by destruct p. Qed.

(** Two rounds take work off, as long as there is any. *)
Lemma two_rounds vs1 vs2 f :
  crew f → quiet_all (vs1 ++ vs2) f →
  fair_round (length (nodes f)) vs1 → fair_round (length (nodes f)) vs2 → work_left qn f ≠ 0 →
  work_left qn (Fleet.steps lost (vs1 ++ vs2) f) < work_left qn f.
Proof.
  intros Hcr [Hv1 Hv2]%quiet_app Hr1 Hr2 Hw. rewrite steps_app.
  destruct (quiet_run vs1 f Hcr Hv1) as [Hcr1 Hle1]. destruct (quiet_run vs2 _ Hcr1 Hv2) as [_ Hle2].
  destruct (decide (Exists (λ n, is_Some (busy n)) (nodes f))) as [Hb|Hb].
  - apply Exists_exists in Hb as (n&[i Hi]%list_elem_of_lookup&Hb).
    pose proof (busy_segment i n vs1 f Hcr Hv1 Hi Hb
      (fair_round_turn _ _ i Hr1 (lookup_lt_Some _ _ _ Hi))). lia.
  - assert (Hidle : Forall (λ n, busy n = None) (nodes f)).
    { apply Forall_forall. intros n Hn. apply eq_None_not_Some. intros ?. apply Hb, Exists_exists. eauto. }
    assert (Hz : sum_list_with (node_work (qm f)) (nodes f) = 0).
    { clear -Hidle. induction Hidle as [|n l Hn _ IH]; [done|]. cbn. by rewrite not_busy_work, IH. }
    unfold work_left in Hw. rewrite Hz in Hw.
    assert (Hq : QM.queue_of qn (qm f) ≠ []) by (intros E; apply Hw; unfold queue_work; by rewrite E).
    destruct Hcr as (Hf&Hne&Hall). destruct (nodes f) as [|n l] eqn:En; [done|].
    assert (Hi : nodes f !! 0 = Some n) by by rewrite En.
    assert (Hat : at_work n) by by apply Forall_cons in Hall as [[? _] _].
    assert (Hp : between_tasks 0 f [Polling; Pausing]).
    { unfold at_work in Hat. destruct (status n) as [|p|p| |] eqn:Hst; try done. exists n, p.
      split_and!; [done..|]. apply Forall_cons in Hidle as [Hnb _]. unfold busy in Hnb. rewrite Hst in Hnb.
      destruct (turn_step lost f 0 (mkEnv 0 0 "" ("", 0%Z) 0 0 "") (inl "") n p Hf Hi Hst) as [Hgo _].
      destruct p; try done; [by left|by right; left|by destruct (Hgo r)]. }
    assert (Hcr : crew f) by (split; [done|]; by rewrite En).
    destruct (idle_segment 0 vs1 f Hcr Hv1 Hq Hp) as [?|[Hqe Hpol]]; [lia|].
    assert (Hlt : work_left qn (Fleet.steps lost vs2 (Fleet.steps lost vs1 f)) <
      work_left qn (Fleet.steps lost vs1 f)); [|lia].
    apply (polling_segment 0); [done|done|by rewrite Hqe| |].
    + apply Hpol. left. eapply fair_round_turn; [exact Hr1|cbn; lia].
    + eapply fair_round_turn; [exact Hr2|cbn; lia].
Qed.

Lemma rounds_drain k vss f :
  crew f → quiet_all (concat vss) f → Forall (fair_round (length (nodes f))) vss →
  work_left qn f ≤ k → 2 * k ≤ length vss →
  crew (Fleet.steps lost (concat vss) f) ∧ work_left qn (Fleet.steps lost (concat vss) f) = 0.
Proof.
  intros Hcr Hv Hr Hk Hl. split; [by apply quiet_run|].
  revert vss f Hcr Hv Hr Hk Hl. induction k as [|k IH]; intros vss f Hcr Hv Hr Hk Hl.
  { destruct (quiet_run _ _ Hcr Hv). lia. }
  destruct vss as [|vs1 [|vs2 vss]]; [cbn in Hl; lia..|]. cbn [concat] in *.
  rewrite app_assoc in Hv |- *. apply quiet_app in Hv as [Hv12 Hv]. rewrite steps_app.
  apply Forall_cons in Hr as [Hr1 [Hr2 Hr]%Forall_cons].
  destruct (quiet_run _ _ Hcr Hv12) as [Hcr' Hle].
  destruct (decide (work_left qn f = 0)) as [Hz|Hz].
  { destruct (quiet_run _ _ Hcr' Hv). lia. }
  pose proof (two_rounds vs1 vs2 f Hcr Hv12 Hr1 Hr2 Hz).
  apply IH; [done|done|by rewrite steps_length|lia|cbn in Hl; lia].
Qed.

(** ** Where the tasks end up *)

(** Waiting or running in the queue, or settled: completed, or dead with its
    attempts used up. *)
Definition in_good_hands (r : Z) (st : TState) : Prop :=
  match st with
  | Waiting q _ | Running q _ _ => q = qn
  | Completed => True
  | Dead q n => q = qn ∧ (r <= n)%Z
  end.

Definition kept (s : QM.t) (tid : string) : Prop :=
  ∃ st, view s !! tid = Some st ∧ in_good_hands (QM.max_retries s) st.

Lemma in_view_ids s tid st : view s !! tid = Some st → tid ∈ QM.ids s.
Proof.
  intros Hv. destruct (decide (tid ∈ QM.ids s)) as [|Hn]; [done|]. apply view_none in Hn. congruence.
Qed.

Lemma exec_kept o s tid :
  wf s → match o with ODequeue _ _ | OAck _ | ONack _ _ => True | _ => False end →
  kept s tid → kept (exec o s) tid.
Proof.
  intros Hw Ho (st&Hv&Hst). assert (Hfr : op_fresh o s) by by destruct o.
  assert (Hids : QM.ids (exec o s) ≡ₚ QM.ids s).
  { destruct o; try done; cbn [exec];
      auto using dequeue_ids, acknowledge_ids, negative_acknowledge_ids. }
  assert (Hin : is_Some (view (exec o s) !! tid)).
  { apply in_ids_view. rewrite Hids. by eapply in_view_ids. }
  pose proof (exec_astep o s Hw Hfr) as Ha. unfold kept. rewrite exec_max_retries.
  destruct Ha; try done; try (by eauto);
    (match goal with |- context [<[?k := _]> _] => destruct (decide (k = tid)) as [->|Hne] end;
      [rewrite lookup_insert_eq in *|rewrite ?lookup_insert_ne in * by done; by eauto]); simplify_eq;
    (eexists; split; [done|]); cbn in *; by intuition.
Qed.

Lemma step_kept v f tid : crew f → quiet v f → kept (qm f) tid → kept (qm (Fleet.step lost v f)) tid.
Proof.
  intros Hcr Hv Hk. pose proof Hcr as (Hf&_&Hall). pose proof (ok_supervised _ f Hf) as (_&Hw&_).
  destruct v as [|i env x|i env| | | | | |e]; try done.
  - destruct (nodes f !! i) as [n|] eqn:Hi; [|cbn [Fleet.step]; by rewrite Hi].
    destruct (Forall_lookup_1 _ _ _ _ Hall Hi) as [Hat _]. unfold at_work in Hat.
    destruct (status n) as [|p|p| |] eqn:Hst; try done.
    destruct (work_turn f env x i n p Hcr Hi Hst) as (->&_). destruct p; cbn [turn_op]; try done;
      by apply exec_kept.
  - cbn [Fleet.step]. destruct (nodes f !! i) as [n|] eqn:Hi; [|done].
    pose proof (Forall_lookup_1 _ _ _ _ Hall Hi) as (Hat&_&Hr).
    destruct (Forall_lookup_1 _ _ _ _ (ok_agrees _ f Hf) Hi Hat) as ((Hc&_)&_).
    destruct (Forall_lookup_1 _ _ _ _ (ok_named _ f Hf) Hi) as [Hwd _].
    unfold at_work in Hat. unfold step_node. destruct (status n) as [|p|p| |] eqn:Hst; try done.
    rewrite Hr, pulse_beats by done. cbn [set_node Fleet.broker].
    by rewrite (handle_exec _ _ _ (heartbeat_action_of env (proc n) _ Hwd)).
  - cbn [Fleet.step Fleet.broker]. by rewrite quiet_other.
Qed.

Lemma steps_kept vs f tid :
  crew f → quiet_all vs f → kept (qm f) tid → kept (qm (Fleet.steps lost vs f)) tid.
Proof.
  revert f. induction vs as [|v vs IH]; intros f Hcr Hv Hk; [done|]. destruct Hv as [Hv Hvs].
  apply IH; [by apply crew_step|done|by apply step_kept].
Qed.

(** Waiting and running tasks are in the queues and in the table. *)
Lemma view_place s tid st :
  wf s → view s !! tid = Some st →
  match st with
  | Waiting q _ => QM.queue_of q s ≠ []
  | Running _ _ _ => QM._in_flight s ≠ []
  | _ => True
  end.
Proof.
  intros Hw Hv. pose proof (view_home s tid st Hw Hv) as Hh. destruct st; try done.
  - destruct Hh as (x&Hx&_). intros E. rewrite E in Hx. by apply not_elem_of_nil in Hx.
  - intros E. rewrite E in Hh. by destruct Hh.
Qed.

(** Nothing left: the queue is empty and nobody is at a task. *)
Lemma no_work_left f :
  crew f → work_left qn f = 0 → QM.queue_of qn (qm f) = [] ∧ QM._in_flight (qm f) = [].
Proof.
  intros (Hf&_&Hall) Hz. unfold work_left in Hz. split.
  - unfold queue_work in Hz. destruct (QM.queue_of qn (qm f)) as [|x l]; [done|].
    cbn [sum_list_with] in Hz. unfold need in Hz. lia.
  - destruct (QM._in_flight (qm f)) as [|[tid x] l] eqn:E; [done|]. exfalso.
    assert (is_Some (holder (ctl (Fleet.broker f)) tid)) as [w Hh].
    { apply flight_holder; [apply (ok_supervised _ f Hf)|].
      cbn. rewrite E. cbn. by rewrite decide_True. }
    destruct (ok_held _ f Hf tid w Hh) as (n&Hn&Hw&_).
    destruct (proj1 (Forall_forall _ _) Hall n Hn) as [Hat _].
    destruct (proj1 (Forall_forall _ _) (ok_agrees _ f Hf) n Hn Hat) as (_&Hb&_).
    rewrite <- Hw in Hh. apply Hb in Hh.
    assert (Hn0 : node_work (qm f) n = 0) by (apply (sum_zero _ (nodes f)); [lia|done]).
    unfold busy in Hh. unfold node_work in Hn0. destruct (status n) as [|p|p| |]; try done.
    destruct p; lia || done.
Qed.

(** C7.  Workers that keep running empty their queue.  Whatever the
    executions return, and in whatever order the workers' coroutines, their
    heartbeats, sweeps that find no worker silent and requests that neither
    fetch nor submit come: once every worker has had a turn in each of
    [2 * work_left] rounds -- three turns for every delivery the tasks of
    the queue may still need -- the queue is empty, nothing is in flight,
    and every task that was waiting or running in the queue has been
    completed or is in the dead-letter queue with its attempts used up. *)
Theorem fleet_drains vss f :
  crew f → quiet_all (concat vss) f → Forall (fair_round (length (nodes f))) vss →
  2 * work_left qn f ≤ length vss →
  let s' := qm (Fleet.steps lost (concat vss) f) in
  QM.queue_of qn s' = [] ∧ QM._in_flight s' = [] ∧
  ∀ tid st, view (qm f) !! tid = Some st →
    match st with Waiting q _ | Running q _ _ => q = qn | _ => False end →
    view s' !! tid = Some Completed ∨
    ∃ k, view s' !! tid = Some (Dead qn k) ∧ (QM.max_retries s' <= k)%Z.
Proof.
  intros Hcr Hv Hr Hl s'.
  destruct (rounds_drain (work_left qn f) vss f Hcr Hv Hr (le_n _) Hl) as [Hcr' Hz].
  destruct (no_work_left _ Hcr' Hz) as [Hq Hfl]. fold s' in Hq, Hfl. split_and!; [done..|].
  intros tid st Hst Hin.
  assert (Hk : kept (qm f) tid) by (exists st; split; [done|]; by destruct st).
  destruct (steps_kept _ _ tid Hcr Hv Hk) as (st'&Hst'&Hgood). fold s' in Hst', Hgood.
  pose proof (view_place s' tid st' ltac:(by apply (ok_supervised _ _ (proj1 Hcr'))) Hst') as Hp.
  destruct st' as [q k|q w k| |q k]; cbn in Hgood; subst; try done; [by left|].
  destruct Hgood as [-> ?]. right. by exists k.
Qed.
End drain.

(** ** Witness *)

#[local] Existing Instance JsonText.codec.

(** Two workers have just enrolled; a task waits. *)
Definition enrolled : Fleet.t :=
  Fleet.steps "lost" [Enrol 0 (env_of 0); Enrol 1 (env_of 0);
    Other (Control.Request (Recovery.env_at 1 "t1") (Recovery.produce_msg "emails" (JInt 1)))] two_workers.

(** The task is refused each time, until it is dead. *)
Definition refusals : list (list Move) :=
  (λ k : nat, let now := inject_Z (1 + Z.of_nat k / 8) in
     [Turn 1 (env_of now) (inl "no"); Pulse 0 (env_of now); Turn 0 (env_of now) (inl "no");
      Pulse 1 (env_of now); Other (sweep_at now)]) <$> seq 0 18.

Lemma fleet_drains_witness :
  let s' := queue_manager (Fleet.broker (Fleet.steps "lost" (concat refusals) enrolled)) in
  QM.queue_of "emails" s' = [] ∧ QM._in_flight s' = [] ∧
  ∀ tid st, view (queue_manager (Fleet.broker enrolled)) !! tid = Some st →
    match st with Waiting q _ | Running q _ _ => q = "emails" | _ => False end →
    view s' !! tid = Some Completed ∨
    ∃ n, view s' !! tid = Some (Dead "emails" n) ∧ (QM.max_retries s' <= n)%Z.
Proof.
  apply (fleet_drains (0, 0)%Z "lost" "emails"); [done| | | |].
  - split; [|split; [by vm_compute|decide_by_compute]].
    apply (answered_steps_ok "lost"); [repeat constructor|apply at_start_ok|repeat constructor|decide_by_compute].
    split; [exact example_idle_start|]. split; [decide_by_compute|]. split; [reflexivity|].
    split; [decide_by_compute|]. repeat constructor; discriminate.
  - decide_by_compute.
  - decide_by_compute.
  - apply leb_complete. vm_compute. reflexivity.
Defined.

Example refusals_outcome :
  view (queue_manager (Fleet.broker (Fleet.steps "lost" (concat refusals) enrolled))) !! "t1" =
    Some (Dead "emails" 3).
Proof. vm_compute. reflexivity. Qed.
End FleetDrain.
