(* ===== verification/Loaders.v ===== *)
(** * Load producers as coroutines ([producer/client.py], [run_load.py],
      [benchmarks/raw_throughput.py], [tests/load/load_simulator.py])

The producers of the load generators run at once, under [asyncio.gather]:
each is a coroutine that waits in [_send] and in [asyncio.sleep].  The
three differ in what they submit and in what they note down, which are
parameters here ([Plan], [Board]); driven alone, each is shown to be the
loop of [LoadGen], where connecting and closing are. *)

From S2P Require Import Prelude PyDict Json QueueManager Server Producer LoadGen Worker Coroutines.
Import Coroutine.

Module Loader.

(** ** [ProducerClient.produce] *)

Inductive Submission :=
  | Submitting (b : Backoff.t)
  | Backing (b : Backoff.t) (wait : Q)
  | Ended (out : Client.Outcome).

Definition submit_awaits (qn : string) (p : Json) (pt : Submission) : Await :=
  match pt with
  | Submitting _ => Request (Client.request qn p)
  | Backing _ wait => Timer wait
  | Ended _ => Returned
  end.

(** The response to PRODUCE; [u] is what [random.random()] returns. *)
Definition answered (u : Q) (b : Backoff.t) (o : option Json) : Submission :=
  match o with
  | None => Ended Client.ConnectionLost
  | Some r =>
      match obj_get "status" r with
      | None => Ended Client.BadResponse
      | Some st =>
          if bool_decide (st = JStr "ok") then
            match obj_get "task_id" r with
            | Some (JStr tid) => Ended (Client.Submitted tid)
            | _ => Ended Client.BadResponse
            end
          else if bool_decide (st = JStr "rate_limited") then
            match Client.retry_hint r with
            | None => Ended Client.BadResponse
            | Some h =>
                match Backoff.next_wait u (Some h) b with
                | None => Ended Client.Exhausted
                | Some (w, b) => Backing b w
                end
            end
          else Ended (Client.Rejected (default (JStr "Unknown error") (obj_get "reason" r)))
      end
  end.

Definition submit_resume (u : Q) (pt : Submission) (a : Answer) : Submission :=
  match pt, a with
  | Submitting b, Reply o => answered u b o
  | Backing b _, Woken => Submitting b
  | pt, _ => pt
  end.

(** ** The loop of a generator *)

(** What is submitted as the [i]-th task, how long to pause after it, and
    which outcomes the loop does not catch. *)
Record Plan := mkPlan {
  plan_queue : nat → string;
  plan_payload : nat → Json;
  plan_retries : Z;
  plan_delay : Q;
  uncaught : Client.Outcome → bool;
}.

(** Where the outcomes of all producers are noted: [accept j] and [reject j]
    are for producer [j]. *)
Class Board (R : Type) := {
  accept : nat → Q → R → R;
  reject : nat → nat → R → R;
  accepted_total : R → nat;
  rejected_total : R → nat;
}.

(** The [i]-th task, with the clock at its start. *)
Inductive Point :=
  | Producing (i : nat) (start : Q) (s : Submission)
  | Resting (i : nat)
  | Finished (e : option Client.Outcome).

Section loader.
Context `{Board R} (pl : Plan) (n j : nat) (us : nat → nat → Q).

(** [for i in range(n)] *)
Definition next (now : Q) (i : nat) : Point :=
  if i <? n then Producing i now (Submitting (Backoff.init (plan_retries pl))) else Finished None.

Definition awaits (pt : Point) : Await :=
  match pt with
  | Producing i _ s => submit_awaits (plan_queue pl i) (plan_payload pl i) s
  | Resting _ => Timer (plan_delay pl)
  | Finished _ => Returned
  end.

(** The end of a round of the loop; [now] is read after it. *)
Definition settle (now : Q) (i : nat) (start : Q) (out : Client.Outcome) (r : R) : Point * R :=
  if uncaught pl out then (Finished (Some out), r)
  else
    (if Qltb 0 (plan_delay pl) then Resting i else next now (S i),
     match out with
     | Client.Submitted _ => accept j ((now - start) * 1000)%Q r
     | _ => reject j i r
     end).

(** The random readings are indexed by task and attempt. *)
Definition reading (i : nat) (s : Submission) : Q :=
  match s with Submitting b | Backing b _ => us i (Z.to_nat (Backoff._attempt b)) | Ended _ => 0%Q end.

Definition resume (now : Q) (pt : Point) (a : Answer) (r : R) : Point * R :=
  match pt with
  | Producing i start s =>
      match submit_resume (reading i s) s a with
      | Ended out => settle now i start out r
      | s => (Producing i start s, r)
      end
  | Resting i => (match a with Woken => next now (S i) | _ => pt end, r)
  | Finished _ => (pt, r)
  end.

(** ** Every turn brings the end nearer *)

(** Attempts a call of [produce] still has after the next one. *)
Definition attempts_left (b : Backoff.t) : nat := Z.to_nat (Backoff.max_attempts b - Backoff._attempt b).

(** Turns that are enough for one task: an attempt and a wait for each time
    it may be submitted, and the pause after it. *)
Definition task_turns : nat := 2 * Z.to_nat (plan_retries pl) + 3.

Definition turns_left (pt : Point) : nat :=
  match pt with
  | Producing i _ (Submitting b) => 2 * attempts_left b + 2 + (n - S i) * task_turns
  | Producing i _ (Backing b _) => 2 * attempts_left b + 3 + (n - S i) * task_turns
  | Producing i _ (Ended _) => 0
  | Resting i => 1 + (n - S i) * task_turns
  | Finished _ => 0
  end.

Definition going (pt : Point) : Prop :=
  match pt with Producing i _ (Ended _) => False | Producing i _ _ | Resting i => i < n | Finished _ => True end.

Lemma next_going now i : going (next now i) ∧ turns_left (next now i) ≤ (n - i) * task_turns.
Proof.
  unfold next. destruct (Nat.ltb_spec i n) as [Hi|Hi]; cbn [going turns_left]; [|lia]. split; [done|].
  unfold attempts_left. cbn [Backoff.init Backoff.max_attempts Backoff._attempt]. rewrite Z.sub_0_r.
  replace (n - i) with (S (n - S i)) by lia. unfold task_turns. lia.
Qed.

Lemma settle_going now i start out r :
  i < n → going (settle now i start out r).1 ∧
  turns_left (settle now i start out r).1 ≤ 1 + (n - S i) * task_turns.
Proof.
  intros Hi. unfold settle. destruct (uncaught pl out); cbn [fst]; [split; [done|apply Nat.le_0_l]|].
  destruct (Qltb 0 _); [by split|]. destruct (next_going now (S i)). split; [done|lia].
Qed.

Lemma answered_left u b o :
  match answered u b o with
  | Submitting _ => False
  | Backing b' _ => S (attempts_left b') = attempts_left b
  | Ended _ => True
  end.
Proof.
  unfold answered. destruct o as [r|]; [|done]. destruct (obj_get "status" r) as [st|]; [|done].
  case_bool_decide; [by destruct (obj_get "task_id" r) as [[]|]|]. case_bool_decide; [|done].
  destruct (Client.retry_hint r) as [h|]; [|done]. unfold Backoff.next_wait.
  destruct (Backoff.exhausted b) eqn:E; [done|]. unfold Backoff.exhausted in E. unfold attempts_left.
  cbn [Backoff.advance Backoff.max_attempts Backoff._attempt]. lia.
Qed.

(** Whatever is answered, and whenever the timers fire. *)
Lemma resume_nearer now pt a r :
  going pt → match awaits pt, a with Request _, Reply _ | Timer _, Woken => True | _, _ => False end →
  going (resume now pt a r).1 ∧ turns_left (resume now pt a r).1 < turns_left pt.
Proof.
  intros Hp Ha. destruct pt as [i start [b|b w|out]|i|e]; [| |done| |done]; destruct a as [o| |]; try done;
    cbn [resume submit_resume reading].
  - pose proof (answered_left (us i (Z.to_nat (Backoff._attempt b))) b o) as Hl.
    destruct (answered _ b o) as [b'|b' w|out]; [done|cbn [fst going turns_left] in *; lia|].
    destruct (settle_going now i start out r Hp) as [Hg Hle]. cbn [turns_left]. split; [done|lia].
  - cbn [fst going turns_left] in *. lia.
  - destruct (next_going now (S i)) as [Hg Hle]. cbn [fst turns_left]. split; [done|lia].
Qed.

Lemma no_turns_left pt : going pt → turns_left pt = 0 → ∃ e, pt = Finished e.
Proof.
  destruct pt as [i start []|i|e]; cbn [going turns_left]; try done;
    try (generalize ((n - S i) * task_turns); lia). by exists e.
Qed.

(** ** On its own *)

Section alone.
Context {S : Type} (send : Json → S → option Json * S) (sleep : Q → S → S) (monotonic : S → Q).

Definition turn (c : Point * R * S) : Point * R * S :=
  let '(pt, r, s) := c in
  match awaits pt with
  | Request m => let '(o, s) := send m s in (resume (monotonic s) pt (Reply o) r, s)
  | Timer d => let s := sleep d s in (resume (monotonic s) pt Woken r, s)
  | Work _ | Returned => c
  end.

Definition turns (k : nat) : Point * R * S → Point * R * S := Nat.iter k turn.

Lemma load_turns_add k k' c : turns (k + k') c = turns k (turns k' c).
Proof. apply Nat.iter_add. Qed.

(** A call of [produce], as turns of the loop around it. *)
Lemma produce_turns fuel i start us' b r s out trace s' :
  (∀ k, us' k = us i (Z.to_nat (Backoff._attempt b) + k)) → (0 <= Backoff._attempt b)%Z →
  Client.produce_loop send sleep fuel us' (plan_queue pl i) (plan_payload pl i) b s =
    Some (out, trace, s') →
  ∃ k, turns k (Producing i start (Submitting b), r, s) =
    (settle (monotonic s') i start out r, s').
Proof.
  revert us' b s trace. induction fuel as [|fuel IH]; intros us' b s trace Hus Hb E; [done|].
  cbn [Client.produce_loop] in E.
  assert (Ht : turn (Producing i start (Submitting b), r, s) =
    let '(o, s1) := send (Client.request (plan_queue pl i) (plan_payload pl i)) s in
    (match answered (us' 0) b o with
     | Ended out => settle (monotonic s1) i start out r
     | p => (Producing i start p, r)
     end, s1)).
  { unfold turn. cbn [awaits submit_awaits]. destruct (send _ s) as [o s1].
    cbn [resume submit_resume reading]. by rewrite Hus, Nat.add_0_r. }
  destruct (send _ s) as [[m|] s1]; [|simplify_eq; by exists 1].
  assert (Hone : answered (us' 0) b (Some m) = Ended out → s1 = s' →
    ∃ k, turns k (Producing i start (Submitting b), r, s) = (settle (monotonic s') i start out r, s')).
  { intros Ha ->. rewrite Ha in Ht. by exists 1. }
  unfold answered in Ht, Hone. destruct (obj_get "status" m) as [st|]; [|simplify_eq; by apply Hone].
  case_bool_decide; [destruct (obj_get "task_id" m) as [[]|]; simplify_eq; by apply Hone|].
  case_bool_decide; [|simplify_eq; by apply Hone].
  destruct (Client.retry_hint m) as [h|]; [|simplify_eq; by apply Hone].
  destruct (Backoff.next_wait (us' 0) (Some h) b) as [[w b']|] eqn:Ew; [|simplify_eq; by apply Hone].
  assert (Hb' : Backoff._attempt b' = (Backoff._attempt b + 1)%Z) 
    by (unfold Backoff.next_wait in Ew; destruct (Backoff.exhausted b); by simplify_eq).
  destruct (Client.produce_loop _ _ fuel _ _ _ _ _) as [[[out' trace'] s2]|] eqn:El; [|done].
  cbn in E. simplify_eq. destruct (IH (λ k, us' (Datatypes.S k)) b' (sleep w s1) trace') as [k Hk]; [|lia|done|].
  { intros k. rewrite Hus, Hb'. f_equal. lia. }
  exists (k + 2). rewrite load_turns_add. rewrite <- Hk. f_equal.
  change (turns 2 ?c) with (turn (turn c)). by rewrite Ht.
Qed.

(** One round of the loop, for an outcome that is caught. *)
Lemma job_turns i now r s out trace s' :
  i < n →
  Client.produce send sleep (us i) (plan_queue pl i) (plan_payload pl i) (plan_retries pl) s =
    Some (out, trace, s') →
  uncaught pl out = false →
  let s1 := if Qltb 0 (plan_delay pl) then sleep (plan_delay pl) s' else s' in
  let r1 := match out with
            | Client.Submitted _ => accept j ((monotonic s' - now) * 1000)%Q r
            | _ => reject j i r
            end in
  ∃ k, turns k (next now i, r, s) = (next (monotonic s1) (Datatypes.S i), r1, s1).
Proof.
  intros Hi E Hc s1 r1. unfold next at 1. rewrite (proj2 (Nat.ltb_lt i n)) by done.
  destruct (produce_turns _ i now (us i) (Backoff.init (plan_retries pl)) r s out trace s'
    (λ _, eq_refl) (Z.le_refl 0) E) as [k Hk].
  unfold settle in Hk. rewrite Hc in Hk. unfold s1. destruct (Qltb 0 (plan_delay pl)).
  - exists (1 + k). rewrite load_turns_add, Hk. done.
  - by exists k.
Qed.
End alone.
End loader.

(** ** The three generators *)

(** [run_load.run_producer] notes nothing down. *)
#[export] Instance no_board : Board unit :=
  {| accept _ _ r := r; reject _ _ r := r; accepted_total _ := 0; rejected_total _ := 0 |}.

Definition flood_plan (prod_id : Z) (prefix : string) (delay : Q) : Plan :=
  mkPlan (LoadGen.flood_queue prefix) (LoadGen.flood_payload prod_id) 0 delay
    (λ out, match out with Client.ConnectionLost | Client.BadResponse => true | _ => false end).

(** The command line of [run_load]: producer [j] of the flood on the queues
    that [--queue] names. *)
Definition queue_prefix (queue : string) : string :=
  if bool_decide (queue = "") then "" else queue +:+ "_".

Definition flood_plans (queue : string) (delay : Q) (j : nat) : Plan :=
  flood_plan (Z.of_nat j) (queue_prefix queue) delay.

(** [raw_throughput.producer] appends to two lists that all producers share. *)
Record Shared := mkShared { latencies : list Q; failures : list nat }.

#[export] Instance shared_board : Board Shared := {|
  accept _ l r := mkShared (latencies r ++ [l]) (failures r);
  reject _ i r := mkShared (latencies r) (failures r ++ [i]);
  accepted_total r := length (latencies r);
  rejected_total r := length (failures r);
|}.

Definition bench_plan : Plan :=
  mkPlan (λ _, "bench") LoadGen.bench_payload 5 0 (λ _, false).

(** [load_simulator.simulate_producer] keeps a report of its own, which it
    appends to the results at the end; here the reports are in the order of
    the producers, and the test only uses sums and sorted latencies. *)
Abbreviation Reports := (list LoadGen.Report).

Definition no_report : LoadGen.Report := LoadGen.mkReport [] 0 0.

Definition note_accepted (l : Q) (r : LoadGen.Report) : LoadGen.Report :=
  LoadGen.mkReport (LoadGen.latencies r ++ [l]) (LoadGen.accepted r + 1) (LoadGen.rate_limited r).
Definition note_rejected (r : LoadGen.Report) : LoadGen.Report :=
  LoadGen.mkReport (LoadGen.latencies r) (LoadGen.accepted r) (LoadGen.rate_limited r + 1).

#[export] Instance reports_board : Board Reports := {|
  accept j l := alter (note_accepted l) j;
  reject j _ := alter note_rejected j;
  accepted_total := sum_list_with LoadGen.accepted;
  rejected_total := sum_list_with LoadGen.rate_limited;
|}.

Definition simulate_plan (producer_id : Z) : Plan :=
  mkPlan (λ _, "load_test") (LoadGen.simulate_payload producer_id) 5 0 (λ _, false).

(** *** They are the loops of the sources *)

Section adequate.
Context {S : Type} (send : Json → S → option Json * S) (sleep : Q → S → S) (monotonic : S → Q).
Context (us : nat → nat → Q) (j : nat).

Lemma flood_turns prod_id prefix delay m n i now s e s' :
  i + m = n → LoadGen.flood send sleep us prod_id prefix delay m i s = Some (e, s') →
  ∃ k, turns (flood_plan prod_id prefix delay) n j us send sleep monotonic k
    (next (flood_plan prod_id prefix delay) n now i, tt, s) = (Finished e, tt, s').
Proof.
  revert i now s. induction m as [|m IH]; intros i now s Hn E; cbn [LoadGen.flood] in E.
  { simplify_eq. exists 0. cbn. unfold next. by rewrite (proj2 (Nat.ltb_ge _ _)) by lia. }
  destruct (Client.produce _ _ _ _ _ _ _) as [[[out trace] s1]|] eqn:Ep; [|done].
  destruct (uncaught (flood_plan prod_id prefix delay) out) eqn:Hc.
  - destruct (produce_turns (flood_plan prod_id prefix delay) n j us send sleep monotonic
      _ i now (us i) (Backoff.init 0) tt s out trace s1 (λ _, eq_refl) (Z.le_refl 0) Ep) as [k Hk].
    unfold settle in Hk. rewrite Hc in Hk. exists k. unfold next at 1.
    rewrite (proj2 (Nat.ltb_lt i n)) by lia. destruct out; simplify_eq; done.
  - destruct (job_turns (flood_plan prod_id prefix delay) n j us send sleep monotonic
      i now tt s out trace s1 ltac:(lia) Ep Hc) as [k Hk].
    cbn [plan_delay flood_plan] in Hk. set (s2 := if Qltb 0 delay then _ else _) in *.
    destruct (IH (Datatypes.S i) (monotonic s2) s2) as [k' Hk']; [lia|by destruct out|].
    exists (k' + k). rewrite load_turns_add, Hk, <- Hk'. by destruct out.
Qed.

Lemma bench_turns m n i now lat fail s lat' fail' s' :
  i + m = n → now = monotonic s →
  LoadGen.bench send sleep monotonic us m i lat fail s = Some (lat', fail', s') →
  ∃ k, turns bench_plan n j us send sleep monotonic k
    (next bench_plan n now i, mkShared lat fail, s) = (Finished None, mkShared lat' fail', s').
Proof.
  revert i now lat fail s. induction m as [|m IH]; intros i now lat fail s Hn -> E;
    cbn [LoadGen.bench] in E.
  { simplify_eq. exists 0. cbn. unfold next. by rewrite (proj2 (Nat.ltb_ge _ _)) by lia. }
  destruct (Client.produce _ _ _ _ _ _ _) as [[[out trace] s1]|] eqn:Ep; [|done].
  destruct (job_turns bench_plan n j us send sleep monotonic i (monotonic s) (mkShared lat fail) s
    out trace s1 ltac:(lia) Ep eq_refl) as [k Hk]. cbn [plan_delay bench_plan] in Hk.
  change (Qltb 0 0) with false in Hk. cbv iota zeta in Hk.
  destruct out; (eapply IH in E as [k' Hk']; [|lia|done]);
    exists (k' + k); by rewrite load_turns_add, Hk, <- Hk'.
Qed.

Lemma simulate_turns producer_id m n i now r rs s r' s' :
  i + m = n → now = monotonic s → rs !! j = Some r →
  LoadGen.simulate send sleep monotonic us producer_id m i r s = Some (r', s') →
  ∃ k, turns (simulate_plan producer_id) n j us send sleep monotonic k
    (next (simulate_plan producer_id) n now i, rs, s) = (Finished None, <[j := r']> rs, s').
Proof.
  revert i now r rs s. induction m as [|m IH]; intros i now r rs s Hn -> Hr E;
    cbn [LoadGen.simulate] in E.
  { simplify_eq. exists 0. rewrite list_insert_id by done. cbn. unfold next.
    by rewrite (proj2 (Nat.ltb_ge _ _)) by lia. }
  destruct (Client.produce _ _ _ _ _ _ _) as [[[out trace] s1]|] eqn:Ep; [|done].
  destruct (job_turns (simulate_plan producer_id) n j us send sleep monotonic i (monotonic s) rs s
    out trace s1 ltac:(lia) Ep eq_refl) as [k Hk]. cbn [plan_delay simulate_plan] in Hk.
  change (Qltb 0 0) with false in Hk. cbv iota zeta in Hk.
  assert (Hgo : ∀ g, (match out with
    | Client.Submitted _ => accept j ((monotonic s1 - monotonic s) * 1000)%Q rs
    | _ => reject j i rs end) = alter g j rs →
    LoadGen.simulate send sleep monotonic us producer_id m (Datatypes.S i) (g r) s1 = Some (r', s') →
    ∃ k, turns (simulate_plan producer_id) n j us send sleep monotonic k
      (next (simulate_plan producer_id) n (monotonic s) i, rs, s) = (Finished None, <[j := r']> rs, s')).
  { intros g Hg Es. rewrite Hg in Hk.
    destruct (IH (Datatypes.S i) (monotonic s1) (g r) (alter g j rs) s1) as [k' Hk'];
      [lia|done|by rewrite list_lookup_alter_eq, Hr|done|].
    exists (k' + k). rewrite load_turns_add, Hk, Hk'. f_equal. f_equal.
    apply list_eq. intros l. destruct (decide (l = j)) as [->|Hl].
    - rewrite !list_lookup_insert_eq; [done|..]; rewrite ?length_alter; by eapply lookup_lt_Some.
    - by rewrite !list_lookup_insert_ne, list_lookup_alter_ne by done. }
  destruct out as [tid| | | |];
    [by eapply (Hgo (note_accepted ((monotonic s1 - monotonic s) * 1000)%Q))|
     by eapply (Hgo note_rejected)..].
Qed.
End adequate.
End Loader.
