(* ===== verification/LoadTest.v ===== *)
(** * The load tests ([tests/load/load_simulator.py],
      [benchmarks/raw_throughput.py])

Producers and workers against one broker, all at once: the producers are
the coroutines of [Loader], the workers a [Fleet].  Shown is that the
figures a load test ends with are right, whatever the interleaving, and
that its wait for the queue to drain ends. *)

From S2P Require Import Prelude PyDict Json JsonText DeadLetter QueueManager QueueInvariant TaskConservation TaskLifecycle RetryPolicy QueueOrder WorkerRegistry Eviction LoadShedder WalStore Metrics Server Frames Requests Recovery ControlPlane Supervision Leases Ledger Wire Producer EndToEnd Worker Coroutines Conversation WorkerDrain LoadGen Fleet FleetInvariant FleetDrain Loaders.
Import Server Control Supervision Leases Ledger FleetInvariant.

Module LoadTest.

(** ** Submissions and burials *)

(** What eviction gives back it gives back one task at a time. *)
Lemma reassign_all_ind (P : QM.t → Prop) tids r s :
  (∀ tid s, P s → P (QM.requeue_by_id tid s).2) → P s → P (Registry.reassign_all tids r s).2.
Proof.
  intros HP. revert r s. induction tids as [|tid tids IH]; intros r s Hs; [done|].
  cbn [Registry.reassign_all]. change (reassign tid s) with (QM.requeue_by_id tid s).
  pose proof (HP tid s Hs) as H. destruct (QM.requeue_by_id tid s). by apply IH.
Qed.

Lemma evict_each_ind (P : QM.t → Prop) iter dead r s :
  (∀ tid s, P s → P (QM.requeue_by_id tid s).2) → P s →
  P (default s (Registry.evict_each iter dead r (Some s)).2).
Proof.
  intros HP Hs.
  assert (H : ∃ s', (Registry.evict_each iter dead r (Some s)).2 = Some s' ∧ P s');
    [|by destruct H as (s'&->&?)].
  revert r s Hs. induction dead as [|[k i] dead IH]; intros r s Hs; [by exists s|].
  cbn [Registry.evict_each]. pose proof (reassign_all_ind P (iter i) r s HP Hs) as H.
  destruct (Registry.reassign_all (iter i) r s). by apply IH.
Qed.

(** Submissions, and tasks buried and revived. *)
Definition flows (s : QM.t) : Z * (Z * Z) :=
  (QM._total_enqueued s, (QM._total_dead_lettered s, DLQ._total_retried (QM.dead_letter_queue s))).

Lemma ensure_flows qn s : flows (QM._ensure_queue qn s) = flows s.
Proof. unfold QM._ensure_queue. by destruct (dget qn (QM._queues s)). Qed.

Lemma appendleft_flows qn x s : flows (QM.queue_appendleft qn x (QM._ensure_queue qn s)) = flows s.
Proof. apply (ensure_flows qn s). Qed.

Lemma bump_flows e d a n l s :
  flows (QM.bump e d a n l s) = ((flows s).1 + e, ((flows s).2.1 + l, (flows s).2.2))%Z.
Proof. done. Qed.

Lemma bump_no_flows d a n s : flows (QM.bump 0 d a n 0 s) = flows s.
Proof. rewrite bump_flows, !Z.add_0_r. by destruct (flows s) as [? []]. Qed.

(** A refused task may be buried, and a dead letter revived; neither is
    submitted. *)
Lemma nack_enqueued tid now s : (flows (QM.negative_acknowledge tid now s).2).1 = (flows s).1.
Proof.
  unfold QM.negative_acknowledge, QM.nack_take. destruct (dget tid (QM._in_flight s)) as [x|]; [|done].
  assert (Hr : ∀ y s', (flows (QM.nack_route y now s').2).1 = (flows s').1).
  { intros y s'. unfold QM.nack_route. case_bool_decide; [done|]. cbn [snd].
    by rewrite appendleft_flows. }
  destruct (_ >=? _)%Z;
    match goal with |- context [QM.nack_route ?x ?n ?s] =>
      pose proof (Hr x s) as Hx; destruct (QM.nack_route x n s) end;
    cbn [snd] in *; rewrite Hx, !bump_flows; cbn [fst]; rewrite ?Z.add_0_r; done.
Qed.

Lemma retry_enqueued tids s : (flows (retry_each tids s).2).1 = (flows s).1.
Proof.
  apply (retry_each_ind (λ s', (flows s').1 = (flows s).1)); [|done].
  intros t s' <-. destruct (dlq_retry_cases t s') as [[_ ->]|(x&d&_&_&->)]; [done|].
  unfold QM.requeue. exact (f_equal fst (ensure_flows (queue_name x) s')).
Qed.

Lemma dequeue_flows qn w s : flows (QM.dequeue qn w s).2 = flows s.
Proof.
  assert (Ht : flows (QM.dequeue_target qn s).2 = flows s).
  { unfold QM.dequeue_target. case_bool_decide; [done|]. apply ensure_flows. }
  unfold QM.dequeue. destruct (QM.dequeue_target qn s) as [[q|] s1]; [|done].
  cbn [snd] in Ht. destruct (QM.queue_of q s1); [done|]. cbn [snd]. rewrite bump_no_flows. exact Ht.
Qed.

Lemma requeue_by_id_flows tid s : flows (QM.requeue_by_id tid s).2 = flows s.
Proof.
  unfold QM.requeue_by_id. destruct (dget tid (QM._in_flight s)); [|done].
  cbn [snd]. by rewrite appendleft_flows.
Qed.

(** A sweep preserves what giving back a task preserves. *)
Lemma sweep_ind (P : QM.t → Prop) iter now s r :
  (∀ tid s, P s → P (QM.requeue_by_id tid s).2) → P s → P (act (Sweep iter now) (s, r)).1.
Proof.
  intros HP Hs. cbn [act]. unfold Registry.evict_dead_workers.
  pose proof (evict_each_ind P iter (Registry.dead_workers now (Registry._workers r))
    (Registry.with_workers (Registry.del_workers (Registry.dead_workers now (Registry._workers r))) r) s
    HP Hs) as H.
  by destruct (Registry.evict_each _ _ _ _) as [r' o].
Qed.

Lemma act_flows a c :
  a ≠ Wipe →
  flows (act a c).1 =
    match a with
    | Submit _ _ _ _ => ((flows c.1).1 + 1, (flows c.1).2)%Z
    | Refuse tid _ now _ => flows (QM.negative_acknowledge tid now c.1).2
    | Revive tids => flows (retry_each tids c.1).2
    | _ => flows c.1
    end.
Proof.
  destruct c as [s r]. intros Ha.
  destruct a as [|qn p u now|qn w mono|w peer qs conn now|w now|t w mono|t w now mono|tids|[qn|]|
    iter now|i now|]; cbn [act fst] in *; try done.
  - cbn [QM.enqueue snd]. rewrite bump_flows, Z.add_0_r.
    transitivity ((flows (QM._ensure_queue qn s)).1 + 1, (flows (QM._ensure_queue qn s)).2)%Z;
      [done|]. by rewrite ensure_flows.
  - pose proof (dequeue_flows qn w s) as H. by destruct (QM.dequeue qn w s).
  - assert (H : flows (QM.acknowledge t s).2 = flows s); [|by destruct (QM.acknowledge t s)].
    unfold QM.acknowledge. destruct (dget t (QM._in_flight s)); [|done]. cbn [snd]. by rewrite bump_no_flows.
  - by destruct (QM.negative_acknowledge t now s).
  - unfold purge_queue. cbn [snd]. apply (remove_each_ind (λ s', flows s' = flows s)); [|done].
    intros t s' <-. unfold QM.dlq_remove, DLQ.remove.
    by destruct (dget t (DLQ._tasks (QM.dead_letter_queue s'))).
  - apply (sweep_ind (λ s', flows s' = flows s)); [|done]. intros t s' <-. apply requeue_by_id_flows.
Qed.

(** A queue nothing went wrong in: nothing was buried or revived, and all
    tasks are of this queue, waiting, running or completed. *)
Definition tidy_state (qn : string) (st : TState) : Prop :=
  match st with Waiting q _ | Running q _ _ => q = qn | Completed => True | Dead _ _ => False end.

Definition tidy_view (qn : string) (s : QM.t) : Prop :=
  ∀ tid st, view s !! tid = Some st → tidy_state qn st.

Definition tidy (qn : string) (s : QM.t) : Prop :=
  (flows s).2 = (0, 0)%Z ∧ tidy_view qn s.

(** A move of one task between tidy states. *)
Lemma tidy_moved qn s s' x y rest :
  wf s → NoDup (QM.ids s') → tidy_view qn s →
  QM.all_tasks s ≡ₚ x :: rest → QM.all_tasks s' ≡ₚ y :: rest → task_id y = task_id x →
  (tidy_state qn (lifecycle x) → tidy_state qn (lifecycle y)) → tidy_view qn s'.
Proof.
  intros Hw Hn Hv E1 E2 Hid Hst tid st. destruct (moved_view _ _ _ _ _ Hw Hn E1 E2 Hid) as [Hl ->].
  intros [[_ <-]|[_ H]]%lookup_insert_Some; [apply Hst, (Hv _ _ Hl)|by eapply Hv].
Qed.

Lemma enqueue_tidy qn p u now s :
  wf s → (u ∉ QM.ids s) → tidy_view qn s → tidy_view qn (QM.enqueue qn p u now s).2.
Proof.
  intros Hw Hu Hv tid st. pose proof (exec_wf (OEnqueue qn p u now) s Hw Hu) as [_ Hn].
  cbn [exec] in Hn. rewrite (view_add _ _ _ Hn (enqueue_adds qn p u now s)).
  intros [[_ <-]|[_ H]]%lookup_insert_Some; [done|by eapply Hv].
Qed.

Lemma dequeue_tidy qn q w s : wf s → tidy_view qn s → tidy_view qn (QM.dequeue q w s).2.
Proof.
  intros Hw Hv. pose proof (exec_wf (ODequeue q w) s Hw I) as [_ Hn]. cbn [exec] in Hn.
  destruct (dequeue_cases q w s (proj1 Hw)) as [(s'&E&_&Ht)|(q'&s1&x&rest&_&_&_&E)].
  - rewrite E. cbn [snd]. unfold tidy_view. by rewrite (view_same _ _ (proj2 Hw) Ht).
  - destruct (dequeue_moves _ _ _ _ _ Hw E) as (y&rest'&E1&E2&_&_&Hy). rewrite E in *. cbn [snd] in *.
    eapply tidy_moved; [done..|]. rewrite (lifecycle_pending _ _ Hy). done.
Qed.

Lemma acknowledge_tidy qn tid s : wf s → tidy_view qn s → tidy_view qn (QM.acknowledge tid s).2.
Proof.
  intros Hw Hv. pose proof (exec_wf (OAck tid) s Hw I) as [_ Hn]. cbn [exec] in Hn.
  destruct (QM.acknowledge tid s) as [[] s'] eqn:E; cbn [snd] in *.
  - destruct (acknowledge_moves _ _ _ Hw E) as (x&rest&_&_&E1&E2).
    by eapply tidy_moved.
  - unfold QM.acknowledge in E. by destruct (dget tid (QM._in_flight s)); simplify_eq.
Qed.

Lemma requeue_by_id_tidy qn tid s :
  wf s → tidy_view qn s → tidy_view qn (QM.requeue_by_id tid s).2.
Proof.
  intros Hw Hv x st. rewrite requeue_by_id_view by done. case_decide; [|apply Hv].
  destruct (view s !! x) as [st0|] eqn:E; [|done]. pose proof (Hv _ _ E) as H0.
  destruct st0; intros [= <-]; exact H0.
Qed.

Lemma act_tidy qn a c :
  wf c.1 → fresh a c →
  match a with
  | Idle | Poll _ _ _ | Join _ _ _ _ _ | Control.Beat _ _ | Finish _ _ _ | Sweep _ _ | Age _ _ => True
  | Submit q _ _ _ => q = qn
  | _ => False
  end →
  tidy qn c.1 → tidy qn (act a c).1.
Proof.
  intros Hw Hf Ha [Hfl Hv].
  assert (Hw' : a ≠ Wipe) by by destruct a.
  pose proof (act_flows a c Hw') as Hflow. split.
  { rewrite Hflow. by destruct a. }
  clear Hflow Hw' Hfl. destruct c as [s r]. cbn [fst] in *. change (tidy_view qn s) in Hv.
  change (tidy_view qn (act a (s, r)).1).
  destruct a as [|q p u now|q w mono|w peer qs conn now|w now|t w mono|t w now mono|tids|o|
    iter now|i now|]; try done.
  - cbn [act fst]. subst q. by apply enqueue_tidy.
  - cbn [act]. pose proof (dequeue_tidy qn q w s Hw Hv) as H. by destruct (QM.dequeue q w s).
  - cbn [act]. pose proof (acknowledge_tidy qn t s Hw Hv) as H. by destruct (QM.acknowledge t s).
  - apply (sweep_ind (λ s, wf s ∧ tidy_view qn s)); [|done].
    intros t s' [Hs' Hv']. split; [by apply (exec_wf (ORequeueById t))|by apply requeue_by_id_tidy].
Qed.

(** ** The workers *)

Section workers.
Context `{codec : JsonCodec} (lost : string).

Implicit Types (f : Fleet.t) (n : Fleet.Node).

Abbreviation qm f := (queue_manager (Fleet.broker f)).

(** A move of the fleet is at most one action on its broker; only somebody
    else submits or acts on dead letters, and only a worker that failed
    refuses. *)
Lemma step_act v f :
  fleet_ok f → answered v → admissible v f →
  ∃ a, ctl (Fleet.broker (Fleet.step lost v f)) = act a (ctl (Fleet.broker f)) ∧ a ≠ Wipe ∧
    match a with
    | Submit _ _ _ _ | Revive _ | Forget _ =>
        ∃ e, v = Fleet.Other e ∧ event_action e (Fleet.broker f) = a
    | Refuse _ _ _ _ => ∃ i n tid err, Fleet.nodes f !! i = Some n ∧
        Fleet.status n = Fleet.AtWork (Coroutine.Nacking tid err)
    | _ => True
    end.
Proof.
  intros Hf Hre Ha. set (b := Fleet.broker f).
  assert (Hone : ∀ e a, event_action e b = a → ctl (handle e b) = act a (ctl b)).
  { intros e a <-. apply handle_acts. }
  assert (Hnone : ∃ a, ctl b = act a (ctl b) ∧ a ≠ Wipe ∧
    match a with
    | Submit _ _ _ _ | Revive _ | Forget _ =>
        ∃ e, v = Fleet.Other e ∧ event_action e (Fleet.broker f) = a
    | Refuse _ _ _ _ => ∃ i n tid err, Fleet.nodes f !! i = Some n ∧
        Fleet.status n = Fleet.AtWork (Coroutine.Nacking tid err)
    | _ => True
    end) by by exists Idle.
  destruct v as [i env|i env x|i env|i|i|i|i env|env|e]; cbn [Fleet.step];
    [| | | | | |done|cbn [Fleet.broker]; fold b; exists (event_action (CrashAction env) b);
       split; [apply handle_acts|]; rewrite button_action; by destruct (Fleet.picked env b)
     |exists (event_action e b); split; [apply handle_acts|];
       cbn in Ha; unfold foreign in Ha; fold b in Ha; destruct (event_action e b) eqn:E; try done;
       (split; [done|by exists e])];
    (destruct (Fleet.nodes f !! i) as [n|] eqn:Hi; [|done]);
    (destruct (Forall_lookup_1 _ _ _ _ (ok_named _ f Hf) Hi) as [Hw Hq]).
  - cbn [Fleet.step_node]. destruct (Fleet.to_run n); [|done].
    unfold Fleet.enrol. rewrite Fleet.enrol_connects by done. cbn [Fleet.set_node Fleet.broker]. eexists.
    split; [by apply Hone, Fleet.register_action_of|done].
  - destruct (Fleet.status n) as [|p|p| |r] eqn:Hst; [by unfold Fleet.step_node; rewrite Hst| | |
      by unfold Fleet.step_node; rewrite Hst..].
    2: { pose proof (cut_step lost f i env x n p Hf Hi Hst) as [_ Ht]. cbn [Fleet.step] in Ht.
         rewrite Hi in Ht. by rewrite Ht. }
    pose proof (turn_step lost f i env x n p Hf Hi Hst) as [_ Ht]. cbn [Fleet.step] in Ht.
    rewrite Hi in Ht. rewrite Ht. cbn [Fleet.set_node Fleet.broker]. fold b.
    assert (Hat : at_work n) by (unfold at_work; by rewrite Hst).
    pose proof (λ tid, busy_held f i n tid Hf Hi Hat) as Hbusy. unfold busy in Hbusy. rewrite Hst in Hbusy.
    destruct p as [| |tid q|tid|tid err|r]; cbn [turned snd]; try done; eexists;
      (split; [apply Hone|]).
    + by apply Fleet.consume_action_of.
    + done.
    + by apply Fleet.ack_action_of, (Hbusy tid).
    + done.
    + by apply Fleet.nack_action_of, (Hbusy tid).
    + split; [done|]. by exists i, n, tid, err.
  - destruct (Fleet.status n) as [|p|p| |r] eqn:Hst; unfold Fleet.step_node; rewrite Hst;
      rewrite ?Fleet.cut_pulse; [done| |done..].
    destruct (Worker._running (Fleet.proc n)) eqn:Hr; [|done].
    destruct (Forall_lookup_1 _ _ _ _ (ok_agrees _ f Hf) Hi) as ((?&_)&_);
      [unfold at_work; by rewrite Hst|].
    rewrite Fleet.pulse_beats by done. cbn [Fleet.set_node Fleet.broker]. eexists.
    split; [by apply Hone, Fleet.heartbeat_action_of|done].
  - unfold Fleet.step_node. by destruct (Fleet.status n).
  - unfold Fleet.step_node. by destruct (Fleet.status n).
  - unfold Fleet.step_node. by destruct (Fleet.status n).
Qed.

(** Nobody but the load producers submits, and no reply is lost. *)
Definition passive (v : Fleet.Move) f : Prop :=
  match v with
  | Fleet.Other e =>
      match event_action e (Fleet.broker f) with Submit _ _ _ _ => False | _ => True end
  | v => answered v
  end.

#[global] Instance passive_dec v f : Decision (passive v f).
Proof. unfold passive. destruct v; try apply _. destruct (event_action _ _); apply _. Defined.

(** Nobody is about to report a failure. *)
Definition unfailing f : Prop :=
  Forall (λ n, match Fleet.status n with
               | Fleet.AtWork (Coroutine.Nacking _ _) => False | _ => True end) (Fleet.nodes f).

Definition succeeding (v : Fleet.Move) : Prop :=
  match v with Fleet.Turn _ _ (inl _) => False | _ => True end.

#[global] Instance succeeding_dec v : Decision (succeeding v).
Proof. unfold succeeding. destruct v as [| ? ? []| | | | | | |]; apply _. Defined.

Lemma step_flows v f :
  fleet_ok f → admissible v f → passive v f →
  QM._total_enqueued (qm (Fleet.step lost v f)) = QM._total_enqueued (qm f) ∧
  missing (tally (qm (Fleet.step lost v f))) = missing (tally (qm f)).
Proof.
  intros Hf Ha Hp. assert (Hre : answered v) by by destruct v.
  destruct (step_act v f Hf Hre Ha) as (a&E&Hw&Hcase).
  change (qm (Fleet.step lost v f)) with (ctl (Fleet.broker (Fleet.step lost v f))).1. rewrite E.
  pose proof (f_equal snd (act_books a (ctl (Fleet.broker f)) (proj1 (proj2 (ok_supervised _ f Hf))) Hw)) as Hm.
  pose proof (act_flows a (ctl (Fleet.broker f)) Hw) as Hfl. split; [|exact Hm].
  apply (f_equal fst) in Hfl. destruct a; try exact Hfl.
  - destruct Hcase as (e&->&He). unfold passive in Hp. by rewrite He in Hp.
  - by rewrite nack_enqueued in Hfl.
  - by rewrite retry_enqueued in Hfl.
Qed.

Lemma step_unfailing v f :
  fleet_ok f → succeeding v → unfailing f → unfailing (Fleet.step lost v f).
Proof.
  intros Hf Hs Hu.
  assert (Hset : ∀ i n n' b, Fleet.nodes f !! i = Some n →
    match Fleet.status n' with Fleet.AtWork (Coroutine.Nacking _ _) => False | _ => True end →
    unfailing (Fleet.set_node i n' b f)).
  { intros i n n' b Hi Hn. eapply Forall_insert_node; [done|done|].
    intros j m _ Hj. exact (Forall_lookup_1 _ _ _ _ Hu Hj). }
  destruct v as [i env|i env x|i env|i|i|i|i env|env|e]; [| | | | | | | |done];
    [((destruct (Fleet.nodes f !! i) as [n|] eqn:Hi; [|cbn [Fleet.step]; by rewrite Hi]);
      pose proof (Forall_lookup_1 _ _ _ _ Hu Hi) as Hn; cbn in Hn)..|].
  - cbn [Fleet.step]. rewrite Hi. cbn [Fleet.step_node]. destruct (Fleet.to_run n); [|by apply (Hset i n)].
    destruct (Forall_lookup_1 _ _ _ _ (ok_named _ f Hf) Hi) as [Hw _].
    unfold Fleet.enrol. rewrite Fleet.enrol_connects by done. by apply (Hset i n).
  - destruct (Fleet.status n) as [|p|p| |r] eqn:Hst.
    2: { destruct (turn_step lost f i env x n p Hf Hi Hst) as [_ ->]. apply (Hset i n); [done|].
         destruct p; cbn [turned fst]; rewrite ?stand_again; try (by destruct (Worker._running _));
           cbn [Fleet.status]; [by destruct (QM.dequeue _ _ _).1|by destruct x|]. by rewrite Hst. }
    2: { destruct (cut_step lost f i env x n p Hf Hi Hst) as [Hp ->]. apply (Hset i n); [done|].
         unfold Coroutine.again.
         destruct p; cbn [Fleet.cut_next]; try done; [|by destruct x].
         unfold Coroutine.again. by destruct (Worker._running (Fleet.proc n)). }
    all: cbn [Fleet.step]; rewrite Hi; unfold Fleet.step_node; rewrite Hst; by apply (Hset i n); rewrite ?Hst.
  - cbn [Fleet.step]. rewrite Hi. unfold Fleet.step_node. destruct (Fleet.status n) as [|p|p| |r] eqn:Hst;
      try (by apply (Hset i n); rewrite ?Hst).
    destruct (Worker._running (Fleet.proc n)); by apply (Hset i n); rewrite ?Hst.
  - cbn [Fleet.step]. rewrite Hi. unfold Fleet.step_node.
    destruct (Fleet.status n) as [|p|p| |r] eqn:Hst; by apply (Hset i n); rewrite ?Hst.
  - cbn [Fleet.step]. rewrite Hi. by apply (Hset i n).
  - cbn [Fleet.step]. rewrite Hi. unfold Fleet.step_node.
    destruct (Fleet.status n) as [|p|p| |r] eqn:Hst; by apply (Hset i n); rewrite ?Hst.
  - destruct (Fleet.status n) as [|p|p| |r] eqn:Hst.
    2: { rewrite (lose_step lost f i env n p) by done.
         destruct p; cbn [Fleet.request_of Fleet.cut_next Fleet.stand_as]; apply (Hset i n); rewrite ?Hst; done. }
    all: cbn [Fleet.step]; rewrite Hi; unfold Fleet.step_node; rewrite Hst; by apply (Hset i n); rewrite ?Hst.
  - unfold unfailing. cbn [Fleet.step Fleet.nodes]. destruct (Fleet.picked env (Fleet.broker f)); [|done].
    apply Forall_fmap. eapply Forall_impl; [exact Hu|]. intros n. unfold compose, Fleet.press.
    case_bool_decide; [|done]. cbn. by destruct (Fleet.status n).
Qed.
End workers.

(** ** The test *)

Record t (R : Type) := mk { loaders : list Loader.Point; board : R; fleet : Fleet.t }.
Arguments mk {R} _ _ _.
Arguments loaders {R} _.
Arguments board {R} _.
Arguments fleet {R} _.

(** The next turn of a producer, with the readings of its random generator
    and clock in the environment, or a move of the fleet. *)
Inductive Move :=
  | Load (j : nat) (env : Env)
  | Work (v : Fleet.Move).

#[export] Existing Instances Loader.shared_board Loader.reports_board.

(** There is a place on the board for each of [k] producers. *)
Class Tallied (R : Type) `{Loader.Board R} := {
  room : nat → R → Prop;
  accept_tally k j l r : room k r → j < k →
    room k (Loader.accept j l r) ∧
    Loader.accepted_total (Loader.accept j l r) = S (Loader.accepted_total r) ∧
    Loader.rejected_total (Loader.accept j l r) = Loader.rejected_total r;
  reject_tally k j i r : room k r → j < k →
    room k (Loader.reject j i r) ∧
    Loader.accepted_total (Loader.reject j i r) = Loader.accepted_total r ∧
    Loader.rejected_total (Loader.reject j i r) = S (Loader.rejected_total r);
}.

#[export] Instance shared_tallied : Tallied Loader.Shared.
Proof.
  refine {| room _ _ := True |}; intros; cbn; rewrite length_app; cbn; split_and!; lia || done.
Defined.

Lemma sum_alter (g : LoadGen.Report → nat) (h : LoadGen.Report → LoadGen.Report) c j (l : Loader.Reports) :
  (∀ r, g (h r) = c + g r) → j < length l →
  sum_list_with g (alter h j l) = c + sum_list_with g l.
Proof.
  intros Hg Hj. apply lookup_lt_is_Some in Hj as [r Hr].
  assert (E : alter h j l = <[j := h r]> l).
  { apply list_eq. intros i. destruct (decide (i = j)) as [->|Hi].
    - rewrite list_lookup_alter_eq, list_lookup_insert_eq, Hr; [done|]. by eapply lookup_lt_Some.
    - by rewrite list_lookup_alter_ne, list_lookup_insert_ne. }
  rewrite E. pose proof (FleetDrain.sum_update g g l j r (h r) Hr (λ _ _ _ _, eq_refl)) as H.
  rewrite Hg in H. lia.
Qed.

#[export] Instance reports_tallied : Tallied Loader.Reports.
Proof.
  refine {| room k l := k ≤ length l |};
    intros k j x l Hl Hj; cbn; (split; [by rewrite length_alter|]); split;
    first [apply (sum_alter _ _ 1); [intros r; cbn; lia|lia]
          |apply (sum_alter _ _ 0); [intros r; cbn; lia|lia]].
Defined.

Section test.
Context `{codec : JsonCodec} (lost : string) {R : Type}.
Context {board_ops : Loader.Board R} {board_laws : Tallied R}.
Context (plans : nat → Loader.Plan) (n : nat) (us : nat → nat → nat → Q).

Implicit Types (s : t R) (f : Fleet.t).

Abbreviation qm f := (queue_manager (Fleet.broker f)).

Definition load_turn (env : Env) (j : nat) (pt : Loader.Point) (r : R) (b : Server.Broker) :
    Loader.Point * R * Server.Broker :=
  match Loader.awaits (plans j) pt with
  | Coroutine.Request m =>
      let '(o, b) := Fleet.ask env m b in
      (Loader.resume (plans j) n j (us j) (e_mono env) pt (Coroutine.Reply o) r, b)
  | Coroutine.Timer _ => (Loader.resume (plans j) n j (us j) (e_mono env) pt Coroutine.Woken r, b)
  | Coroutine.Work _ | Coroutine.Returned => (pt, r, b)
  end.

Definition step (v : Move) s : t R :=
  match v with
  | Load j env =>
      match loaders s !! j with
      | Some pt =>
          let '(pt, r, b) := load_turn env j pt (board s) (Fleet.broker (fleet s)) in
          mk (<[j := pt]> (loaders s)) r (Fleet.mk (Fleet.nodes (fleet s)) b)
      | None => s
      end
  | Work v => mk (loaders s) (board s) (Fleet.step lost v (fleet s))
  end.

Definition steps (vs : list Move) s : t R := foldl (λ s v, step v s) s vs.

(** Task identifiers are fresh, and the producers are the only ones. *)
Definition load_admissible (v : Move) s : Prop :=
  match v with
  | Load _ env => (e_uuid env ∉ QM.ids (qm (fleet s))) ∧ e_uuid env ≠ ""
  | Work v => admissible v (fleet s) ∧ passive v (fleet s)
  end.

Fixpoint all_admissible (vs : list Move) s : Prop :=
  match vs with
  | [] => True
  | v :: vs => load_admissible v s ∧ all_admissible vs (step v s)
  end.

#[global] Instance load_admissible_dec v s : Decision (load_admissible v s).
Proof. unfold load_admissible. destruct v; apply _. Defined.
#[global] Instance all_admissible_dec vs s : Decision (all_admissible vs s).
Proof. revert s. induction vs; intros s; cbn; apply _. Defined.

Definition genuine_load (v : Move) : Prop :=
  match v with Work v => genuine_move v | _ => True end.

(** ** A request of a producer *)

Lemma produce_asked env qn p u bo b :
  ∃ o, let e := Control.Request env (EndToEnd.produce_message qn p) in
    Fleet.ask env (Client.request qn p) b = (o, handle e b) ∧
    match event_action e b with
    | Submit q _ tid _ => q = qn ∧ tid = e_uuid env ∧ Loader.answered u bo o = Loader.Ended (Client.Submitted tid)
    | Idle =>
        match Loader.answered u bo o with
        | Loader.Submitting _ | Loader.Backing _ _
        | Loader.Ended Client.Exhausted | Loader.Ended (Client.Rejected _) => True
        | _ => False
        end
    | _ => False
    end.
Proof.
  set (m := EndToEnd.produce_message qn p). cbn zeta.
  unfold Client.request. rewrite (Fleet.ask_dispatch _ _ m) by done. cbn [handle].
  change (event_action _ b) with (produce_action env m b).
  change (_dispatch env m b) with (_handle_produce env m b).
  assert (Herr : ∀ reason, Loader.answered u bo (Some (error reason)) =
    Loader.Ended (Client.Rejected (JStr reason))).
  { intros reason. unfold Loader.answered, error. rewrite Conversation.obj_get_head.
    by rewrite !bool_decide_eq_false_2 by done. }
  unfold produce_action.
  destruct (given (m_queue m)) as [q|] eqn:Eq; [destruct (task_given (m_task m)) as [x|] eqn:Ex|].
  - destruct (Requests.handle_produce_spec env m b q x Eq Ex) as (al&ra&sh&->&->). cbn [fst].
    destruct al; eexists; (split; [done|]).
    { split; [|done]. cbn in Eq. destruct (truthy_str qn); by simplify_eq. }
    unfold Loader.answered, Requests.rate_limited_reply. rewrite Conversation.obj_get_head.
    rewrite bool_decide_eq_false_2, bool_decide_eq_true_2 by done.
    change (Client.retry_hint _) with (Some ra). cbv beta iota.
    by destruct (Backoff.next_wait u (Some ra) bo) as [[]|].
  - unfold _handle_produce. rewrite Eq, Ex. eexists. split; [done|]. by rewrite Herr.
  - unfold _handle_produce. rewrite Eq. eexists. split; [done|]. by rewrite Herr.
Qed.

(** ** The figures *)

(** Tasks whose outcome the producer has noted. *)
Definition tried (pt : Loader.Point) : nat :=
  match pt with Loader.Producing i _ _ => i | Loader.Resting i => S i | Loader.Finished _ => n end.

(** In the loop, or past its end without an exception. *)
Definition in_order (pt : Loader.Point) : Prop :=
  match pt with
  | Loader.Producing i _ (Loader.Submitting _) | Loader.Producing i _ (Loader.Backing _ _)
  | Loader.Resting i => i < n
  | Loader.Finished None => True
  | _ => False
  end.

(** Errors of the broker are caught. *)
Definition catches (pl : Loader.Plan) : Prop :=
  ∀ out, Loader.uncaught pl out = true → out = Client.ConnectionLost ∨ out = Client.BadResponse.

Record test_ok s : Prop := {
  ok_fleet : fleet_ok (fleet s);
  ok_loaders : Forall in_order (loaders s);
  ok_room : room (length (loaders s)) (board s);
  ok_tried : Loader.accepted_total (board s) + Loader.rejected_total (board s) =
    sum_list_with tried (loaders s);
  ok_enqueued : QM._total_enqueued (qm (fleet s)) = Z.of_nat (Loader.accepted_total (board s));
  ok_missing : missing (tally (qm (fleet s))) = 0%Z;
}.

Hypothesis all_catch : ∀ j, catches (plans j).

Lemma next_in_order pl now i : i ≤ n → in_order (Loader.next pl n now i) ∧ tried (Loader.next pl n now i) = i.
Proof. intros Hi. unfold Loader.next. destruct (Nat.ltb_spec i n); cbn; [done|]. split; [done|lia]. Qed.

(** A producer moves on; [k] tasks were accepted and [l] rejected. *)
Lemma load_ok s j pt pt' r b k l :
  test_ok s → loaders s !! j = Some pt → in_order pt' → tried pt' = tried pt + k + l →
  fleet_ok (Fleet.mk (Fleet.nodes (fleet s)) b) →
  room (length (loaders s)) r →
  Loader.accepted_total r = Loader.accepted_total (board s) + k →
  Loader.rejected_total r = Loader.rejected_total (board s) + l →
  QM._total_enqueued (queue_manager b) = (QM._total_enqueued (qm (fleet s)) + Z.of_nat k)%Z →
  missing (tally (queue_manager b)) = missing (tally (qm (fleet s))) →
  test_ok (mk (<[j := pt']> (loaders s)) r (Fleet.mk (Fleet.nodes (fleet s)) b)).
Proof.
  intros Hs Hj Hpt Ht Hf Hr Ha Hre He Hm. split; cbn [loaders board fleet Fleet.broker].
  - done.
  - apply Forall_insert; [apply Hs|done].
  - by rewrite length_insert.
  - pose proof (FleetDrain.sum_update tried tried (loaders s) j pt pt' Hj (λ _ _ _ _, eq_refl)) as H1.
    pose proof (ok_tried s Hs). lia.
  - rewrite He, (ok_enqueued s Hs). lia.
  - rewrite Hm. apply Hs.
Qed.

(** One more outcome noted: the loop goes on to the next task. *)
Lemma noted_ok s j i start bo now out b :
  test_ok s → loaders s !! j = Some (Loader.Producing i start (Loader.Submitting bo)) →
  Loader.uncaught (plans j) out = false →
  fleet_ok (Fleet.mk (Fleet.nodes (fleet s)) b) →
  QM._total_enqueued (queue_manager b) =
    (QM._total_enqueued (qm (fleet s)) + match out with Client.Submitted _ => 1 | _ => 0 end)%Z →
  missing (tally (queue_manager b)) = missing (tally (qm (fleet s))) →
  let '(pt, r) := Loader.settle (plans j) n j now i start out (board s) in
  test_ok (mk (<[j := pt]> (loaders s)) r (Fleet.mk (Fleet.nodes (fleet s)) b)).
Proof.
  intros Hs Hj Hc Hf He Hm. unfold Loader.settle. rewrite Hc.
  pose proof (Forall_lookup_1 _ _ _ _ (ok_loaders s Hs) Hj) as Hi. cbn in Hi.
  set (pt := if Qltb 0 _ then _ else _).
  assert (in_order pt ∧ tried pt = S i) as [Hpt Ht].
  { unfold pt. destruct (Qltb 0 _); [done|]. apply next_in_order. lia. }
  pose proof (lookup_lt_Some _ _ _ Hj) as Hlt.
  destruct (accept_tally _ j ((now - start) * 1000)%Q _ (ok_room s Hs) Hlt) as (Hr&Ha&Hre).
  destruct (reject_tally _ j i _ (ok_room s Hs) Hlt) as (Hr'&Ha'&Hre').
  destruct out; [apply (load_ok s j _ _ _ _ 1 0 Hs Hj)|apply (load_ok s j _ _ _ _ 0 1 Hs Hj)..];
    try done; rewrite ?Ht; cbn [tried]; lia.
Qed.

(** What a request of a producer does to the counters of the broker. *)
Lemma submitted_counts f e :
  fleet_ok f →
  match event_action e (Fleet.broker f) with Submit _ _ _ _ | Idle => True | _ => False end →
  let s' := queue_manager (handle e (Fleet.broker f)) in
  QM._total_enqueued s' =
    (QM._total_enqueued (qm f) +
     match event_action e (Fleet.broker f) with Submit _ _ _ _ => 1 | _ => 0 end)%Z ∧
  missing (tally s') = missing (tally (qm f)).
Proof.
  intros Hf Ha s'. pose proof (handle_acts e (Fleet.broker f)) as Hc.
  assert (Hw : event_action e (Fleet.broker f) ≠ Wipe) by by destruct (event_action e (Fleet.broker f)).
  pose proof (f_equal snd (act_books _ (ctl (Fleet.broker f)) (proj1 (proj2 (ok_supervised _ f Hf))) Hw)) as Hm.
  pose proof (f_equal fst (act_flows _ (ctl (Fleet.broker f)) Hw)) as He. rewrite <- Hc in Hm, He.
  split; [|exact Hm]. transitivity (flows (ctl (handle e (Fleet.broker f))).1).1; [done|].
  rewrite He. clear -Ha. destruct (event_action e (Fleet.broker f)); try done. symmetry. apply Z.add_0_r.
Qed.

Lemma submit_ok env s j i start bo :
  test_ok s → load_admissible (Load j env) s →
  loaders s !! j = Some (Loader.Producing i start (Loader.Submitting bo)) →
  test_ok (step (Load j env) s).
Proof.
  intros Hs [Hfr Hne] Hj. cbn [step]. rewrite Hj. unfold load_turn. cbn [Loader.awaits Loader.submit_awaits].
  set (u := us j i (Z.to_nat (Backoff._attempt bo))).
  destruct (produce_asked env (Loader.plan_queue (plans j) i) (Loader.plan_payload (plans j) i) u bo
    (Fleet.broker (fleet s))) as (o&->&Ho).
  set (e := Control.Request env _) in *. pose proof (submitted_counts (fleet s) e (ok_fleet s Hs)) as Hct.
  assert (Hf : fleet_ok (Fleet.mk (Fleet.nodes (fleet s)) (handle e (Fleet.broker (fleet s))))).
  { apply other_ok; [apply Hs|done|]. unfold foreign. revert Ho.
    destruct (event_action e (Fleet.broker (fleet s))); try done. by intros (_&->&_). }
  assert (Hset : ∀ out, Loader.answered u bo o = Loader.Ended out →
    out ≠ Client.ConnectionLost → out ≠ Client.BadResponse →
    QM._total_enqueued (queue_manager (handle e (Fleet.broker (fleet s)))) =
      (QM._total_enqueued (qm (fleet s)) + match out with Client.Submitted _ => 1 | _ => 0 end)%Z →
    missing (tally (queue_manager (handle e (Fleet.broker (fleet s))))) = missing (tally (qm (fleet s))) →
    let '(pt, r) := Loader.settle (plans j) n j (e_mono env) i start out (board s) in
    test_ok (mk (<[j := pt]> (loaders s)) r
      (Fleet.mk (Fleet.nodes (fleet s)) (handle e (Fleet.broker (fleet s)))))).
  { intros out _ Ho1 Ho2 He Hm. apply (noted_ok s j i start bo); try done.
    destruct (Loader.uncaught (plans j) out) eqn:Eu; [|done]. by apply all_catch in Eu as [|]. }
  cbn [Loader.resume Loader.submit_resume Loader.reading]. fold u. revert Ho Hct.
  destruct (event_action e (Fleet.broker (fleet s))) eqn:Ea; try done.
  - intros Ho [He Hm]; [done|].
    destruct (Loader.answered u bo o) as [bo'|bo' w|out] eqn:Eo.
    1-2: apply (load_ok s j _ _ _ _ 0 0 Hs Hj); try done;
      [by pose proof (Forall_lookup_1 _ _ _ _ (ok_loaders s Hs) Hj)|cbn; lia|apply Hs|lia..].
    specialize (Hset out eq_refl). destruct (Loader.settle _ _ _ _ _ _ _ _) as [pt r].
    apply Hset; [by destruct out..|done].
  - intros (_&->&Hans) [He Hm]; [done|]. rewrite Hans. specialize (Hset _ Hans).
    destruct (Loader.settle _ _ _ _ _ _ _ _) as [pt r]. by apply Hset.
Qed.

Lemma load_step_ok v s : test_ok s → load_admissible v s → genuine_load v → test_ok (step v s).
Proof.
  intros Hs Hv Hg. destruct v as [j env|v].
  - destruct (loaders s !! j) as [pt|] eqn:Hj; [|cbn [step]; by rewrite Hj].
    pose proof (Forall_lookup_1 _ _ _ _ (ok_loaders s Hs) Hj) as Hpt.
    assert (Hsame : ∀ pt', in_order pt' → tried pt' = tried pt →
      test_ok (mk (<[j := pt']> (loaders s)) (board s)
        (Fleet.mk (Fleet.nodes (fleet s)) (Fleet.broker (fleet s))))).
    { intros pt' Hpt' Ht. apply (load_ok s j pt _ _ _ 0 0 Hs Hj); try done; try lia; [|apply Hs].
      pose proof (ok_fleet s Hs). by destruct (fleet s). }
    destruct pt as [i start [bo|bo w|out]|i|e]; try done; [by eapply submit_ok|..];
      cbn [step]; rewrite Hj; [by apply Hsame| |by apply Hsame].
    destruct (next_in_order (plans j) (e_mono env) (S i) Hpt) as [? Ht]. by apply Hsame.
  - destruct Hv as [Ha Hp]. cbn [step].
    destruct (step_flows lost v (fleet s) (ok_fleet s Hs) Ha Hp) as (He&Hm).
    split; cbn [loaders board fleet]; [apply answered_ok; [by destruct v|apply Hs|done..]|apply Hs..| |].
    + rewrite He. apply Hs.
    + rewrite Hm. apply Hs.
Qed.

Lemma test_steps_ok vs s :
  test_ok s → Forall genuine_load vs → all_admissible vs s → test_ok (steps vs s).
Proof.
  intros Hs Hg. revert s Hs. induction Hg as [|v vs Hv _ IH]; intros s Hs Ha; [done|].
  destruct Ha as [Ha1 Ha]. apply (IH (step v s)); [by apply load_step_ok|done].
Qed.

(** The benchmark lifts the load shedding of its broker. *)
Definition lift_shedding (b : Server.Broker) : Server.Broker :=
  let s := load_shedder b in
  let u := Shedder.tuning s in
  set_shedder
    (Shedder.mk
       (Shedder.mkTuning 1000000000 (Shedder.MIN_FILL_RATE u) (Shedder.QUEUE_DEPTH_THRESHOLD u)
          (Shedder.LATENCY_THRESHOLD_MS u) 1000000000)
       (Shedder._buckets s) (Shedder._total_allowed s) (Shedder._total_rejected s)) b.

Definition bench_broker (shedding : bool) (mono : Q) : Server.Broker :=
  let b := new_broker None mono in if shedding then b else lift_shedding b.

(** [k] producers about to submit [n] tasks each, workers that have not
    connected yet, and the broker. *)
Definition test_start (k : nat) (r0 : R) (ws : list Fleet.Node) (b : Server.Broker) (t0 : Q) : t R :=
  mk ((λ j, Loader.next (plans j) n t0 0) <$> seq 0 k) r0 (Fleet.mk ws b).

Definition ready (k : nat) (r0 : R) (ws : list Fleet.Node) (b : Server.Broker) : Prop :=
  room k r0 ∧ Loader.accepted_total r0 = 0 ∧ Loader.rejected_total r0 = 0 ∧
  queue_manager b = QM.init max_retries_default ∧ at_start (Fleet.mk ws b).

Lemma sum_tried_start t0 k a :
  sum_list_with tried ((λ j, Loader.next (plans j) n t0 0) <$> seq a k) = 0.
Proof.
  revert a. induction k as [|k IH]; intros a; cbn; [done|].
  rewrite IH. by destruct (next_in_order (plans a) t0 0) as [_ ->]; [lia|].
Qed.

Lemma test_start_ok k r0 ws b t0 : ready k r0 ws b → test_ok (test_start k r0 ws b t0).
Proof.
  intros (Hr&Ha&Hre&Hq&Hat). split; cbn [test_start loaders board fleet Fleet.broker].
  - by apply at_start_ok.
  - apply Forall_fmap, Forall_forall. intros j _. by apply next_in_order; lia.
  - by rewrite length_fmap, length_seq.
  - by rewrite Ha, Hre, sum_tried_start.
  - by rewrite Ha, Hq.
  - by rewrite Hq.
Qed.

Lemma steps_loaders vs s : length (loaders (steps vs s)) = length (loaders s).
Proof.
  revert s. induction vs as [|v vs IH]; intros s; [done|].
  change (steps (v :: vs) s) with (steps vs (step v s)). rewrite IH.
  destruct v as [j env|v]; cbn [step]; [|done]. destruct (loaders s !! j); [|done].
  destruct (load_turn _ _ _ _ _) as [[pt r] b]. apply length_insert.
Qed.

Lemma sum_finished (l : list Loader.Point) :
  Forall (λ pt, pt = Loader.Finished None) l → sum_list_with tried l = length l * n.
Proof. induction 1 as [|pt l -> _ IH]; cbn; [done|]. by rewrite IH. Qed.

(** ** The producers come to their end *)

(** How many turns producer [j] has. *)
Definition loads (j : nat) (v : Move) : Prop := match v with Load k _ => k = j | _ => False end.

#[global] Instance loads_dec j v : Decision (loads j v).
Proof. unfold loads. destruct v; apply _. Defined.

Definition turns_of (j : nat) (vs : list Move) : nat := length (filter (loads j) vs).

Definition turns_needed (j : nat) : nat := n * Loader.task_turns (plans j).

Lemma load_turn_nearer env j pt r b :
  Loader.going n pt → Loader.turns_left (plans j) n pt ≠ 0 →
  let pt' := (load_turn env j pt r b).1.1 in
  Loader.going n pt' ∧ Loader.turns_left (plans j) n pt' < Loader.turns_left (plans j) n pt.
Proof.
  intros Hp Hl. unfold load_turn.
  pose proof (Loader.resume_nearer (plans j) n j (us j) (e_mono env) pt) as Hn.
  destruct (Loader.awaits (plans j) pt) as [m| | |] eqn:Ea.
  - destruct (Fleet.ask env m b) as [o b']. cbn zeta. specialize (Hn (Coroutine.Reply o) r Hp I).
    by destruct (Loader.resume _ _ _ _ _ _ _ _).
  - specialize (Hn Coroutine.Woken r Hp I). cbn zeta. by destruct (Loader.resume _ _ _ _ _ _ _ _).
  - destruct pt as [i start []|i|e]; done.
  - destruct pt as [i start []|i|e]; done.
Qed.

Lemma load_turn_still env j pt r b :
  Loader.turns_left (plans j) n pt = 0 → Loader.going n pt → (load_turn env j pt r b).1.1 = pt.
Proof. intros Hl Hg. by destruct (Loader.no_turns_left _ _ _ Hg Hl) as [e ->]. Qed.

Lemma producer_nearer vs s j pt :
  loaders s !! j = Some pt → Loader.going n pt →
  ∃ pt', loaders (steps vs s) !! j = Some pt' ∧ Loader.going n pt' ∧
    Loader.turns_left (plans j) n pt' ≤ Loader.turns_left (plans j) n pt - turns_of j vs.
Proof.
  revert s pt. induction vs as [|v vs IH]; intros s pt Hj Hg.
  { exists pt. cbn. split_and!; [done..|lia]. }
  change (steps (v :: vs) s) with (steps vs (step v s)).
  assert (Hv : ∃ pt1, loaders (step v s) !! j = Some pt1 ∧ Loader.going n pt1 ∧
    Loader.turns_left (plans j) n pt1 ≤
      Loader.turns_left (plans j) n pt - turns_of j [v]).
  { unfold turns_of. destruct v as [k env|v]; cbn [step];
      [|exists pt; rewrite filter_cons_False by (by intros []); split_and!; [done..|cbn; lia]].
    destruct (decide (k = j)) as [->|Hne].
    - rewrite Hj, filter_cons_True by done. cbn [length filter list_filter].
      destruct (load_turn env j pt (board s) (Fleet.broker (fleet s))) as [[pt1 r1] b1] eqn:E.
      cbn [loaders]. exists pt1. rewrite list_lookup_insert_eq by by eapply lookup_lt_Some. split; [done|].
      destruct (decide (Loader.turns_left (plans j) n pt = 0)) as [Hz|Hz].
      + pose proof (load_turn_still env j pt (board s) (Fleet.broker (fleet s)) Hz Hg) as Hs.
        rewrite E in Hs. cbn in Hs. subst pt1. split; [done|lia].
      + pose proof (load_turn_nearer env j pt (board s) (Fleet.broker (fleet s)) Hg Hz) as Hn.
        rewrite E in Hn. cbn in Hn. destruct Hn. split; [done|]. cbn. lia.
    - exists pt. rewrite filter_cons_False by done. split_and!; [|done|cbn; lia].
      destruct (loaders s !! k) as [ptk|]; [|done].
      destruct (load_turn _ _ _ _ _) as [[pt1 r1] b1]. cbn [loaders]. by rewrite list_lookup_insert_ne. }
  destruct Hv as (pt1&Hj1&Hg1&Hl1). destruct (IH (step v s) pt1 Hj1 Hg1) as (pt'&Hj'&Hg'&Hl').
  exists pt'. split_and!; [done..|].
  assert (turns_of j (v :: vs) = turns_of j [v] + turns_of j vs) as ->; [|lia].
  unfold turns_of. rewrite <- length_app, <- filter_app. done.
Qed.

(** After enough turns every producer is through; that it was not
    interrupted is [in_order]. *)
Lemma producers_finish k r0 ws b t0 vs :
  let s := steps vs (test_start k r0 ws b t0) in
  Forall in_order (loaders s) → (∀ j, j < k → turns_needed j ≤ turns_of j vs) →
  Forall (λ pt, pt = Loader.Finished None) (loaders s).
Proof.
  intros s Ho Ht. apply Forall_lookup. intros j pt Hj.
  assert (Hk : j < k).
  { apply lookup_lt_Some in Hj. unfold s in Hj. rewrite steps_loaders in Hj. cbn in Hj.
    by rewrite length_fmap, length_seq in Hj. }
  assert (Hj0 : loaders (test_start k r0 ws b t0) !! j = Some (Loader.next (plans j) n t0 0)).
  { cbn. by rewrite list_lookup_fmap, lookup_seq_lt. }
  destruct (Loader.next_going (plans j) n t0 0) as [Hg Hl].
  destruct (producer_nearer vs _ j _ Hj0 Hg) as (pt'&Hj'&Hg'&Hl'). fold s in Hj'.
  rewrite Hj in Hj'. injection Hj' as <-. specialize (Ht j Hk). unfold turns_needed in Ht.
  destruct (Loader.no_turns_left (plans j) n pt Hg') as [e ->]; [lia|].
  pose proof (Forall_lookup_1 _ _ _ _ Ho Hj) as He. by destruct e.
Qed.

(** The broker's books, in terms of the producers and the workers. *)
Lemma test_books s :
  test_ok s →
  let q := qm (fleet s) in
  (Z.of_nat (Loader.accepted_total (board s)) + DLQ._total_retried (QM.dead_letter_queue q) =
   Z.of_nat (length (QM.pending q)) + Z.of_nat (QM.in_flight_count q) + completions (fleet s)
   + QM._total_dead_lettered q)%Z.
Proof.
  intros Hs q. pose proof (ok_missing s Hs) as Hm. pose proof (ok_enqueued s Hs) as He.
  pose proof (f_equal fst (ok_counts _ _ (ok_fleet s Hs))) as Hc. cbn [fst settled] in Hc.
  unfold missing, tally in Hm. cbn [enqueued revived waiting running acked buried] in Hm.
  fold q in Hm, He, Hc. unfold QM.in_flight_count. lia.
Qed.

(** C10.  The figures of a load test are right.  Interleave in any way the
    producers' requests and waits, the workers' loops and heartbeats,
    crashes and shutdowns of workers, connections lost between two
    requests, restarts of workers that left no task behind, sweeps that
    find no connected worker silent for six seconds, reads and dead letter
    requests; but let no reply be lost, nobody reset the broker, and nobody
    else submit, fetch or report on tasks.  Then no producer is
    interrupted; every task whose turn has come was counted as accepted or
    as rejected, all of them once the producers are through; the broker has
    enqueued as many tasks as the producers counted as accepted; and these,
    counting a task again for each time it was revived from the dead
    letters, are waiting, in flight, completed -- by the workers' own count
    -- or dead-lettered. *)
Theorem load_test_figures k r0 ws b t0 vs :
  ready k r0 ws b → Forall genuine_load vs → all_admissible vs (test_start k r0 ws b t0) →
  let s := steps vs (test_start k r0 ws b t0) in let q := qm (fleet s) in
  let ok := Loader.accepted_total (board s) in let no := Loader.rejected_total (board s) in
  (∀ out, Loader.Finished (Some out) ∉ loaders s) ∧
  ok + no = sum_list_with tried (loaders s) ∧
  (Forall (λ pt, pt = Loader.Finished None) (loaders s) → ok + no = k * n) ∧
  QM._total_enqueued q = Z.of_nat ok ∧
  (Z.of_nat ok + DLQ._total_retried (QM.dead_letter_queue q) =
   Z.of_nat (length (QM.pending q)) + Z.of_nat (QM.in_flight_count q) + completions (fleet s)
   + QM._total_dead_lettered q)%Z.
Proof.
  intros Hr Hg Ha s q ok no.
  assert (Hs : test_ok s) by (apply test_steps_ok; [by apply test_start_ok|done..]).
  split_and!; [|by apply Hs| |by apply Hs|by apply test_books].
  - intros out Hin. by pose proof (proj1 (Forall_forall _ _) (ok_loaders s Hs) _ Hin).
  - intros Hfin. unfold ok, no. rewrite (ok_tried s Hs), sum_finished by done.
    unfold s. rewrite steps_loaders. cbn. by rewrite length_fmap, length_seq.
Qed.

(** ** Waiting for the queue to drain *)

(** [while queue_depth(qn) > 0 or in_flight_count() > 0: await sleep(0.01)]
    of the benchmark; a nap is what the workers and the broker do during
    one [sleep]. *)
Definition drained (qn : string) f : bool :=
  (QM.queue_depth qn (qm f) =? 0) && (QM.in_flight_count (qm f) =? 0).

Fixpoint wait_drained (qn : string) (naps : list (list Fleet.Move)) f : option Fleet.t :=
  if drained qn f then Some f
  else match naps with
       | [] => None
       | vs :: naps => wait_drained qn naps (Fleet.steps lost vs f)
       end.

(** The simulator looks at the queue only and gives up after 30 seconds; the
    clock is read when it is not empty. *)
Inductive Waited := Drained | TimedOut.

Fixpoint wait_queue (drain_start : Q) (qn : string) (naps : list (Q * list Fleet.Move)) f :
    option (Waited * Fleet.t) :=
  if QM.queue_depth qn (qm f) =? 0 then Some (Drained, f)
  else match naps with
       | [] => None
       | (now, vs) :: naps =>
           if Qltb 30 (now - drain_start) then Some (TimedOut, f)
           else wait_queue drain_start qn naps (Fleet.steps lost vs f)
       end.

(** The simulator's wait is over when its time is. *)
Lemma wait_queue_ends drain_start qn naps f :
  Exists (λ nap, Qltb 30 (nap.1 - drain_start) = true) naps →
  is_Some (wait_queue drain_start qn naps f).
Proof.
  intros H. revert f. induction naps as [|[now vs] naps IH]; intros f; [by apply Exists_nil in H|].
  cbn. destruct (_ =? 0); [by eexists|]. destruct (Qltb 30 _) eqn:E; [by eexists|].
  apply IH. by apply Exists_cons in H as [H|H]; [cbn in H; congruence|].
Qed.

Lemma wait_drained_stops qn naps f f' :
  wait_drained qn naps f = Some f' →
  drained qn f' = true ∧ ∃ m, f' = Fleet.steps lost (concat (take m naps)) f.
Proof.
  revert f. induction naps as [|vs naps IH]; intros f; cbn;
    (destruct (drained qn f) eqn:E; [intros [= <-]; by split; [|exists 0]|]); [done|].
  intros (Hd&m&->)%IH. split; [done|]. exists (S m).
  symmetry. apply (Fleet.steps_app lost vs (concat (take m naps)) f).
Qed.

Lemma wait_drained_returns qn naps f :
  drained qn (Fleet.steps lost (concat naps) f) = true → is_Some (wait_drained qn naps f).
Proof.
  revert f. induction naps as [|vs naps IH]; intros f; cbn [concat wait_drained];
    [intros E; change (Fleet.steps lost [] f) with f in E; rewrite E; by eexists|].
  rewrite Fleet.steps_app. intros H. destruct (drained qn f); [by eexists|]. by apply IH.
Qed.

(** [total_accepted / max(0.001, load_elapsed)]: the simulator does not
    divide by zero, however fast it was. *)
Definition submit_throughput (load_elapsed : Q) s : Q :=
  (inject_Z (Z.of_nat (Loader.accepted_total (board s))) / py_max (1 # 1000) load_elapsed)%Q.

Lemma submit_throughput_divisor load_elapsed : (0 < py_max (1 # 1000) load_elapsed)%Q.
Proof. eapply Qlt_le_trans; [|apply py_max_ge_l]. done. Qed.

(** ** When nothing goes wrong *)

Context (qn : string).
Hypothesis named_queue : qn ≠ "*".
Hypothesis one_queue : ∀ j i, Loader.plan_queue (plans j) i = qn.

(** Nobody else but sweeps, no reply lost, and executions that succeed. *)
Definition solitary (v : Fleet.Move) f : Prop :=
  match v with
  | Fleet.Other e => match event_action e (Fleet.broker f) with Idle | Sweep _ _ => True | _ => False end
  | v => answered v
  end.

#[global] Instance solitary_dec v f : Decision (solitary v f).
Proof. unfold solitary. destruct v; try apply _. destruct (event_action _ _); apply _. Defined.

Record smooth f : Prop := {
  smooth_fleet : fleet_ok f;
  smooth_nodes : unfailing f;
  smooth_queue : tidy qn (qm f);
}.

Lemma smooth_step v f :
  smooth f → genuine_move v → admissible v f → solitary v f → succeeding v →
  smooth (Fleet.step lost v f) ∧
  QM._total_enqueued (qm (Fleet.step lost v f)) = QM._total_enqueued (qm f) ∧
  missing (tally (qm (Fleet.step lost v f))) = missing (tally (qm f)).
Proof.
  intros [Hf Hu Ht] Hg Ha Hso Hsu.
  assert (Hp : passive v f).
  { unfold passive. destruct v; try done. cbn in Hso. by destruct (event_action _ _). }
  split; [|by apply step_flows]. assert (Hre : answered v) by by destruct v.
  split; [by apply answered_ok|by apply step_unfailing|].
  destruct (step_act lost v f Hf Hre Ha) as (a&E&Hw&Hcase).
  change (qm (Fleet.step lost v f)) with (ctl (Fleet.broker (Fleet.step lost v f))).1. rewrite E.
  apply act_tidy; [apply (ok_supervised _ f Hf)| | |done].
  - destruct a; try done. destruct Hcase as (e&->&He). cbn in Hso. by rewrite He in Hso.
  - destruct a; try done.
    + destruct Hcase as (e&->&He). cbn in Hso. by rewrite He in Hso.
    + destruct Hcase as (i&n'&t&err&Hi&Hst). pose proof (Forall_lookup_1 _ _ _ _ Hu Hi) as H1.
      cbn in H1. by rewrite Hst in H1.
    + destruct Hcase as (e&->&He). cbn in Hso. by rewrite He in Hso.
    + destruct Hcase as (e&->&He). cbn in Hso. by rewrite He in Hso.
Qed.

(** A producer's turn is at most one submission to the queue. *)
Lemma load_smooth j env s :
  test_ok s → load_admissible (Load j env) s → smooth (fleet s) →
  smooth (fleet (step (Load j env) s)).
Proof.
  intros Hs Hv [Hf Hu Ht]. pose proof (load_step_ok (Load j env) s Hs Hv I) as Hs'.
  assert (Hx : Fleet.nodes (fleet (step (Load j env) s)) = Fleet.nodes (fleet s) ∧
    tidy qn (qm (fleet (step (Load j env) s)))).
  { cbn [step]. destruct (loaders s !! j) as [pt|]; [|done]. unfold load_turn.
    destruct (Loader.awaits (plans j) pt) as [m| | |] eqn:Ew; cbn [fleet Fleet.nodes Fleet.broker];
      [|by destruct (Loader.resume _ _ _ _ _ _ _ _)|done..].
    assert (∃ i, m = Client.request (Loader.plan_queue (plans j) i) (Loader.plan_payload (plans j) i))
      as [i ->] by (destruct pt as [i st []|i|]; simplify_eq/=; by eexists).
    destruct (produce_asked env (Loader.plan_queue (plans j) i) (Loader.plan_payload (plans j) i) 0%Q
      (Backoff.init 0) (Fleet.broker (fleet s))) as (o&->&Ho).
    destruct (Loader.resume _ _ _ _ _ _ _ _) as [pt' r]. cbn [fleet Fleet.nodes Fleet.broker].
    split; [done|]. set (e := Control.Request env _) in *.
    change (tidy qn (ctl (handle e (Fleet.broker (fleet s)))).1). rewrite handle_acts.
    destruct Hv as [Hfr _].
    apply (act_tidy qn); [apply (ok_supervised _ _ Hf)|..|done]; revert Ho Hfr;
      destruct (event_action e (Fleet.broker (fleet s))); try done; intros (Hq&->&_) Hfr; [done|].
    by rewrite Hq. }
  destruct Hx as [Hn Hq]. split; [apply Hs'| |done]. unfold unfailing. by rewrite Hn.
Qed.

Definition smooth_move (v : Move) s : Prop :=
  match v with Work v => solitary v (fleet s) ∧ succeeding v | _ => True end.

Fixpoint all_smooth (vs : list Move) s : Prop :=
  match vs with
  | [] => True
  | v :: vs => smooth_move v s ∧ all_smooth vs (step v s)
  end.

#[global] Instance smooth_move_dec v s : Decision (smooth_move v s).
Proof. unfold smooth_move. destruct v; apply _. Defined.
#[global] Instance all_smooth_dec vs s : Decision (all_smooth vs s).
Proof. revert s. induction vs; intros s; cbn; apply _. Defined.

Lemma steps_smooth vs s :
  test_ok s → smooth (fleet s) → Forall genuine_load vs → all_admissible vs s → all_smooth vs s →
  smooth (fleet (steps vs s)).
Proof.
  intros Hs Hsm Hg. revert s Hs Hsm. induction Hg as [|v vs Hv _ IH]; intros s Hs Hsm Ha Hsv; [done|].
  destruct Ha as [Ha1 Ha], Hsv as [Hs1 Hsv].
  apply (IH (step v s)); [by apply load_step_ok| |done..].
  destruct v as [j env|v]; [by apply load_smooth|]. destruct Ha1 as [? _], Hs1 as [? ?].
  by apply smooth_step.
Qed.

Lemma quiet_smooth vs f :
  smooth f → FleetDrain.crew (0, 0)%Z qn f → FleetDrain.quiet_all lost vs f → Forall succeeding vs →
  let f' := Fleet.steps lost vs f in
  smooth f' ∧ QM._total_enqueued (qm f') = QM._total_enqueued (qm f) ∧
  missing (tally (qm f')) = missing (tally (qm f)).
Proof.
  revert f. induction vs as [|v vs IH]; intros f Hsm Hcr Hq Hs; [done|].
  destruct Hq as [Hq Hqs]. apply Forall_cons in Hs as [Hs Hss].
  destruct (FleetDrain.quiet_admissible _ v f (smooth_fleet f Hsm) Hq) as [Hg Ha].
  assert (Hso : solitary (FleetDrain.tame v) f ∧ succeeding (FleetDrain.tame v)).
  { destruct v as [| ? ? []| | | | | | |[]]; try done; cbn in Hq |- *; rewrite ?Hq; done. }
  destruct (smooth_step _ f Hsm Hg Ha) as (Hsm'&He&Hm); [apply Hso..|].
  rewrite FleetDrain.tame_step in Hsm', He, Hm by done.
  destruct (IH _ Hsm') as (?&He'&Hm'); [by apply FleetDrain.crew_step|done..|].
  cbn zeta in *. change (Fleet.steps lost (v :: vs) f) with (Fleet.steps lost vs (Fleet.step lost v f)).
  by rewrite He', Hm'.
Qed.

(** A tidy queue that is empty is all there is. *)
Lemma tidy_pending (q : QM.t) : wf q → tidy qn q → QM.queue_of qn q = [] → QM.pending q = [].
Proof.
  intros Hw [_ Hv] Hq. destruct (QM.pending q) as [|x l] eqn:E; [done|]. exfalso.
  assert (Hx : x ∈ QM.all_tasks q) by (unfold QM.all_tasks; rewrite E; left).
  pose proof Hx as [k Hk]%elem_of_Permutation.
  pose proof (view_lookup _ _ _ (proj2 Hw) Hk) as Hl.
  pose proof (Hv _ _ Hl) as Ht. pose proof (FleetDrain.view_place q _ _ Hw Hl) as Hp.
  assert (Hpo : ∃ o, pending_ok o x).
  { assert (Hin : x ∈ QM.pending q) by (rewrite E; left). destruct (proj1 Hw) as (_&_&_&_&Hpend&_).
    unfold QM.pending in Hin. apply list_elem_of_In, in_concat in Hin as (k'&Hk'&Hxk%list_elem_of_In).
    apply list_elem_of_In in Hk'. unfold dvalues in Hk'.
    apply list_elem_of_fmap in Hk' as ([o ks]&->&Hqk). exists o.
    by apply (proj1 (Forall_forall _ _) (proj1 (Forall_forall _ _) Hpend _ Hqk)). }
  destruct Hpo as [o Hpo]. rewrite (lifecycle_pending _ _ Hpo) in Ht, Hp. cbn in Ht, Hp. by rewrite Ht in Hp.
Qed.

(** Once the wait is over, everything was completed. *)
Lemma drained_books f ok :
  smooth f → drained qn f = true → QM._total_enqueued (qm f) = Z.of_nat ok →
  missing (tally (qm f)) = 0%Z →
  completions f = Z.of_nat ok ∧ QM._total_acked (qm f) = Z.of_nat ok ∧
  QM._total_dead_lettered (qm f) = 0%Z.
Proof.
  intros [Hf _ Ht] Hd He Hm. apply andb_prop in Hd as [Hq%Nat.eqb_eq Hi%Nat.eqb_eq].
  apply nil_length_inv in Hq. pose proof (f_equal fst (ok_counts _ _ Hf)) as Hc. cbn [fst settled] in Hc.
  pose proof (tidy_pending _ (proj1 (proj2 (ok_supervised _ f Hf))) Ht Hq) as Hp.
  destruct Ht as [Hfl _]. injection Hfl as Hb Hr. unfold QM.in_flight_count in Hi.
  unfold missing, tally in Hm. cbn [enqueued revived waiting running acked buried] in Hm.
  rewrite Hp, Hi, Hb, Hr, He in Hm. cbn [length Z.of_nat] in Hm. split_and!; [lia|lia|done].
Qed.

(** C9.  A load test finishes, with every accepted task completed.  Let the
    executions succeed, no reply be lost, nobody else use the broker, and no
    sweep find a connected worker silent.  If every producer gets a turn for
    each request and each wait it may make -- at most [2 * retries + 3] for
    each of its tasks --, they are all through then, and every task of every
    producer was accepted or rejected.  If at that time all workers are
    connected and serve the queue, and if then every one of them gets a turn
    in each of enough naps -- twice the work that is left -- the wait for
    the queue to drain ends within these naps; by then the workers have
    completed, and the broker has acknowledged, exactly the accepted tasks,
    and none is dead-lettered. *)
Theorem load_test_completes k r0 ws b t0 vs naps :
  ready k r0 ws b → Forall genuine_load vs →
  all_admissible vs (test_start k r0 ws b t0) → all_smooth vs (test_start k r0 ws b t0) →
  let s := steps vs (test_start k r0 ws b t0) in let f := fleet s in
  (∀ j, j < k → turns_needed j ≤ turns_of j vs) →
  Fleet.nodes f ≠ [] →
  Forall (FleetDrain.on_duty qn) (Fleet.nodes f) →
  FleetDrain.quiet_all lost (concat naps) f → Forall succeeding (concat naps) →
  Forall (FleetDrain.fair_round (length (Fleet.nodes f))) naps →
  2 * FleetDrain.work_left qn f ≤ length naps →
  let ok := Loader.accepted_total (board s) in
  Forall (λ pt, pt = Loader.Finished None) (loaders s) ∧
  ok + Loader.rejected_total (board s) = k * n ∧
  ∃ f', wait_drained qn naps f = Some f' ∧ drained qn f' = true ∧
    completions f' = Z.of_nat ok ∧ QM._total_acked (qm f') = Z.of_nat ok ∧
    QM._total_dead_lettered (qm f') = 0%Z.
Proof.
  intros Hr Hg Ha Hsv s f Hturns Hne Hall Hq Hsu Hfair Hlen ok.
  pose proof (test_start_ok k r0 ws b t0 Hr) as Hs0.
  assert (Hs : test_ok s) by by apply test_steps_ok.
  assert (Hfin : Forall (λ pt, pt = Loader.Finished None) (loaders s))
    by (apply producers_finish; [apply Hs|done]).
  split; [done|].
  assert (Hsm : smooth f).
  { apply steps_smooth; try done. split; [apply Hs0| |].
    - destruct Hr as (_&_&_&_&_&_&_&_&Hws). eapply Forall_impl; [exact Hws|]. by intros m (_&->&_).
    - destruct Hr as (_&_&_&Hqm&_). cbn [test_start fleet Fleet.broker]. rewrite Hqm. by split. }
  assert (Hcr : FleetDrain.crew (0, 0)%Z qn f) by by split; [apply Hs|].
  split.
  { unfold ok. rewrite (ok_tried s Hs), sum_finished by done.
    unfold s. rewrite steps_loaders. cbn. by rewrite length_fmap, length_seq. }
  destruct (FleetDrain.rounds_drain (0, 0)%Z lost qn named_queue _ naps f Hcr Hq Hfair (le_n _) Hlen) as [Hcr' Hz].
  destruct (FleetDrain.no_work_left (0, 0)%Z qn _ Hcr' Hz) as [Hqe Hfe].
  assert (is_Some (wait_drained qn naps f)) as [f' Hw].
  { apply wait_drained_returns. unfold drained, QM.queue_depth, QM.in_flight_count. by rewrite Hqe, Hfe. }
  exists f'. split; [done|]. destruct (wait_drained_stops _ _ _ _ Hw) as [Hd [m ->]]. split; [done|].
  assert (Hcut : concat naps = concat (take m naps) ++ concat (drop m naps)) by by rewrite <- concat_app, take_drop.
  rewrite Hcut in Hq, Hsu. apply FleetDrain.quiet_app in Hq as [Hq _]. apply Forall_app in Hsu as [Hsu _].
  destruct (quiet_smooth _ f Hsm Hcr Hq Hsu) as (Hsm'&He&Hm).
  apply drained_books; [exact Hsm'|exact Hd| |].
  - rewrite He. apply Hs.
  - rewrite Hm. apply Hs.
Qed.
End test.

(** ** Witnesses *)

#[local] Existing Instance JsonText.codec.

Definition sim_plans (j : nat) : Loader.Plan := Loader.simulate_plan (Z.of_nat j).

Lemma sim_catches j : catches (sim_plans j).
Proof. by intros out. Qed.

Definition hand (q w : string) : Fleet.Node :=
  Fleet.mkNode (Worker.init q (Some w) "u") Fleet.Starting 0.

Definition crew_of_two (q : string) : list Fleet.Node := [hand q "w1"; hand q "w2"].

Definition at_time (now : Q) (uuid : string) : Env := Recovery.env_at now uuid.

Definition sim_start : t Loader.Reports :=
  test_start sim_plans 2 2 [Loader.no_report; Loader.no_report] (crew_of_two "load_test")
    (new_broker None 0) 1.

Lemma sim_ready :
  ready 2 [Loader.no_report; Loader.no_report] (crew_of_two "load_test") (new_broker None 0).
Proof.
  split; [by cbn|]. split; [done|]. split; [done|]. split; [done|]. split; [exact example_idle_start|].
  split; [decide_by_compute|]. split; [reflexivity|].
  split; [decide_by_compute|]. repeat constructor; discriminate.
Qed.

(** Two producers of two tasks each, and two workers, one of which dies with
    a task; the other one fails once. *)
Definition rough : list Move :=
  [Work (Fleet.Enrol 0 (at_time 0 "u")); Work (Fleet.Enrol 1 (at_time 0 "u"));
   Load 0 (at_time 1 "a"); Load 1 (at_time 1 "b"); Work (Fleet.Turn 1 (at_time 1 "u") (inr JNull));
   Work (Fleet.Crash 1); Load 0 (at_time 2 "c"); Work (Fleet.Turn 0 (at_time 2 "u") (inr JNull));
   Work (Fleet.Turn 0 (at_time 2 "u") (inl "no")); Load 1 (at_time 3 "d");
   Work (Fleet.Pulse 0 (at_time 4 "u")); Work (Fleet.Turn 0 (at_time 4 "u") (inl "no"));
   Work (Fleet.Other (sweep_at 8))].

Lemma load_test_figures_witness :
  let s := steps "lost" sim_plans 2 (λ _ _ _, 0%Q) rough sim_start in let q := queue_manager (Fleet.broker (fleet s)) in
  let ok := Loader.accepted_total (board s) in let no := Loader.rejected_total (board s) in
  (∀ out, Loader.Finished (Some out) ∉ loaders s) ∧
  ok + no = sum_list_with (tried 2) (loaders s) ∧
  (Forall (λ pt, pt = Loader.Finished None) (loaders s) → ok + no = 2 * 2) ∧
  QM._total_enqueued q = Z.of_nat ok ∧
  (Z.of_nat ok + DLQ._total_retried (QM.dead_letter_queue q) =
   Z.of_nat (length (QM.pending q)) + Z.of_nat (QM.in_flight_count q) + completions (fleet s)
   + QM._total_dead_lettered q)%Z.
Proof.
  apply (load_test_figures (R := Loader.Reports) "lost" sim_plans 2 (λ _ _ _, 0%Q) sim_catches 2
    [Loader.no_report; Loader.no_report] (crew_of_two "load_test") (new_broker None 0) 1 rough).
  - exact sim_ready.
  - repeat first [apply Forall_nil_2 | apply Forall_cons_2; [first [exact I | apply sweep_enumerates]|]].
  - decide_by_compute.
Defined.

(** The benchmark: both producers are through; then the workers drain the
    queue. *)
Definition bench_plans (j : nat) : Loader.Plan := Loader.bench_plan.

Lemma bench_catches j : catches (bench_plans j).
Proof. by intros out. Qed.

Definition bench_start : t Loader.Shared :=
  test_start bench_plans 2 2 (Loader.mkShared [] []) (crew_of_two "bench") (bench_broker false 0) 1.

Lemma bench_ready : ready (R := Loader.Shared) 2 (Loader.mkShared [] []) (crew_of_two "bench") (bench_broker false 0).
Proof.
  split; [by cbn|]. split; [done|]. split; [done|]. split; [done|].
  split; [split_and!; [apply init_wf|done..]|].
  split; [decide_by_compute|]. split; [reflexivity|].
  split; [decide_by_compute|]. repeat constructor; discriminate.
Qed.

Definition smooth_run : list Move :=
  [Work (Fleet.Enrol 0 (at_time 0 "u")); Work (Fleet.Enrol 1 (at_time 0 "u"));
   Load 0 (at_time 1 "a"); Load 1 (at_time 1 "b"); Work (Fleet.Turn 1 (at_time 1 "u") (inr JNull));
   Load 0 (at_time 2 "c"); Load 1 (at_time 2 "d")] ++
  concat (replicate 24 [Load 0 (at_time 2 "e"); Load 1 (at_time 2 "f")]).

Definition naps : list (list Fleet.Move) :=
  (λ m : nat, let now := (200 + Z.of_nat m # 100)%Q in
     [Fleet.Turn 0 (at_time now "u") (inr JNull); Fleet.Turn 1 (at_time now "u") (inr JNull);
      Fleet.Other (sweep_at now)]) <$> seq 0 80.

Lemma load_test_completes_witness :
  let s := steps "lost" bench_plans 2 (λ _ _ _, 0%Q) smooth_run bench_start in let f := fleet s in
  let ok := Loader.accepted_total (board s) in
  Forall (λ pt, pt = Loader.Finished None) (loaders s) ∧
  ok + Loader.rejected_total (board s) = 2 * 2 ∧
  ∃ f', wait_drained "lost" "bench" naps f = Some f' ∧ drained "bench" f' = true ∧
    completions f' = Z.of_nat ok ∧ QM._total_acked (queue_manager (Fleet.broker f')) = Z.of_nat ok ∧
    QM._total_dead_lettered (queue_manager (Fleet.broker f')) = 0%Z.
Proof.
  apply (load_test_completes (R := Loader.Shared) "lost" bench_plans 2 (λ _ _ _, 0%Q) bench_catches "bench"
    ltac:(discriminate) (λ _ _, eq_refl) 2 (Loader.mkShared [] []) (crew_of_two "bench")
    (bench_broker false 0) 1 smooth_run naps).
  - exact bench_ready.
  - repeat first [apply Forall_nil_2 | apply Forall_cons_2; [exact I|]].
  - decide_by_compute.
  - decide_by_compute.
  - intros j Hj. apply leb_complete. by destruct j as [|[|j]]; [vm_compute..|lia].
  - by vm_compute.
  - decide_by_compute.
  - decide_by_compute.
  - decide_by_compute.
  - decide_by_compute.
  - apply leb_complete. vm_compute. reflexivity.
Defined.

Example smooth_accepted :
  Loader.accepted_total (board (steps "lost" bench_plans 2 (λ _ _ _, 0%Q) smooth_run bench_start)) = 4.
Proof. vm_compute. reflexivity. Qed.
End LoadTest.
