(* ===== verification/PyString.v ===== *)
(** * Python strings and POSIX paths

The [str] methods the HTTP server uses ([split], [startswith], [in],
[lower]), [os.path.join] and [os.path.splitext], and, as the yardstick for
path confinement, the lexical resolution of a path into its components. *)

From Stdlib Require Import Ascii.
From S2P Require Import Prelude.

Module PyString.

(** ** [str] *)

Fixpoint of_rev (l : list ascii) (acc : string) : string :=
  match l with
  | [] => acc
  | c :: l => of_rev l (String c acc)
  end.

(** [s.split(sep)] for a non-empty separator: [cur] is the current piece,
    reversed, and [skip] the characters of a separator still to be passed. *)
Fixpoint split_go (sep : string) (skip : nat) (cur : list ascii) (s : string) : list string :=
  match s with
  | EmptyString => [of_rev cur ""]
  | String c s' =>
      match skip with
      | S k => split_go sep k cur s'
      | O =>
          if String.prefix sep s then of_rev cur "" :: split_go sep (String.length sep - 1) [] s'
          else split_go sep 0 (c :: cur) s'
      end
  end.

Definition split (sep s : string) : list string := split_go sep 0 [] s.

Definition startswith (s p : string) : bool := String.prefix p s.

(** [sub in s] *)
Fixpoint contains (sub s : string) : bool :=
  String.prefix sub s || match s with EmptyString => false | String _ s' => contains sub s' end.

Definition lower_char (c : ascii) : ascii :=
  let n := Ascii.nat_of_ascii c in
  if (65 <=? n) && (n <=? 90) then Ascii.ascii_of_nat (n + 32) else c.

(** [s.lower()], on ASCII letters. *)
Fixpoint lower (s : string) : string :=
  match s with EmptyString => "" | String c s => String (lower_char c) (lower s) end.

(** [s.strip()], on ASCII white space. *)
Definition is_space (c : ascii) : bool :=
  let n := Ascii.nat_of_ascii c in ((9 <=? n) && (n <=? 13)) || ((28 <=? n) && (n <=? 32)).

Fixpoint lstrip (s : string) : string :=
  match s with
  | EmptyString => ""
  | String c s' => if is_space c then lstrip s' else s
  end.

Fixpoint rstrip (s : string) : string :=
  match s with
  | EmptyString => ""
  | String c s =>
      match rstrip s with
      | EmptyString => if is_space c then "" else String c ""
      | s => String c s
      end
  end.

Definition strip (s : string) : string := rstrip (lstrip s).

(** [s.split(c, 1)], for a character that occurs in [s]: what is before and
    after its first occurrence. *)
Fixpoint split_once (c : ascii) (s : string) : option (string * string) :=
  match s with
  | EmptyString => None
  | String d s =>
      if bool_decide (d = c) then Some ("", s)
      else '(a, b) ← split_once c s; Some (String d a, b)
  end.

Definition crlf : string := String (Ascii.ascii_of_nat 13) (String (Ascii.ascii_of_nat 10) "").

(** ** [os.path] *)

Fixpoint endswith_slash (s : string) : bool :=
  match s with
  | EmptyString => false
  | String c EmptyString => bool_decide (c = "/"%char)
  | String _ s => endswith_slash s
  end.

(** [os.path.join(a, b)]: an absolute [b] replaces [a]. *)
Definition path_join (a b : string) : string :=
  if startswith b "/" then b
  else if bool_decide (a = "") || endswith_slash a then a +:+ b
  else a +:+ "/" +:+ b.

(** The text from the last dot on, without that of leading dots: the
    extension of a file name. *)
Fixpoint extension_of (name : string) : string :=
  match name with
  | EmptyString => ""
  | String c rest =>
      let e := extension_of rest in
      if bool_decide (e = "") && bool_decide (c = "."%char) then name else e
  end.

Fixpoint drop_leading_dots (name : string) : string :=
  match name with
  | String c rest => if bool_decide (c = "."%char) then drop_leading_dots rest else name
  | EmptyString => ""
  end.

(** [os.path.splitext(p)[1]] *)
Definition splitext_ext (p : string) : string :=
  extension_of (drop_leading_dots (List.last (split "/" p) "")).

(** ** Lexical resolution *)

(** The pieces between slashes; [cur] is the piece being read. *)
Fixpoint pieces (cur s : string) : list string :=
  match s with
  | EmptyString => [cur]
  | String c s' =>
      if bool_decide (c = "/"%char) then cur :: pieces "" s'
      else pieces (cur +:+ String c "") s'
  end.

(** Empty pieces and ["."] stay, [".."] goes up. *)
Definition walk (dir : list string) (piece : string) : list string :=
  if bool_decide (piece = "") || bool_decide (piece = ".") then dir
  else if bool_decide (piece = "..") then removelast dir
  else dir ++ [piece].

Definition resolve (p : string) : list string := foldl walk [] (pieces "" p).

(** [p] names [dir] or something below it. *)
Definition inside (dir p : string) : Prop := resolve dir `prefix_of` resolve p.

(** ** Lemmas *)

Lemma app_cons_assoc cur c s : (cur +:+ String c "") +:+ s = cur +:+ String c s.
Proof. induction cur as [|d cur IH]; [done|]. exact (f_equal (String d) IH). Qed.

Lemma prefix_app a b : String.prefix a (a +:+ b) = true.
Proof. induction a as [|c a IH]; simpl; [by destruct b|]. by destruct (Ascii.ascii_dec c c). Qed.

Lemma contains_unfold sub s :
  contains sub s = String.prefix sub s || match s with EmptyString => false | String _ s' => contains sub s' end.
Proof. by destruct s. Qed.

Lemma contains_app_l sub a b : contains sub b = true → contains sub (a +:+ b) = true.
Proof.
  intros H. induction a as [|c a IH]; [done|].
  change (String c a +:+ b) with (String c (a +:+ b)). rewrite contains_unfold, IH.
  apply orb_true_r.
Qed.

Lemma contains_prefix a b : contains a (a +:+ b) = true.
Proof. rewrite contains_unfold, prefix_app. done. Qed.

Lemma pieces_contained x cur s : x ∈ pieces cur s → contains x (cur +:+ s) = true.
Proof.
  revert cur. induction s as [|c s IH]; intros cur; cbn [pieces].
  - intros ->%list_elem_of_singleton. apply contains_prefix.
  - case_bool_decide as Hc.
    + intros [->|Hx]%elem_of_cons; [apply contains_prefix|].
      apply IH in Hx. rewrite <- app_cons_assoc. by apply contains_app_l.
    + intros Hx%IH. by rewrite app_cons_assoc in Hx.
Qed.

Lemma pieces_join cur a b : pieces cur (a +:+ String "/" b) = pieces cur a ++ pieces "" b.
Proof.
  revert cur. induction a as [|c a IH]; intros cur; [done|].
  change (String c a +:+ String "/" b) with (String c (a +:+ String "/" b)). cbn [pieces].
  case_bool_decide; [by rewrite IH|apply IH].
Qed.

Lemma endswith_slash_split a : endswith_slash a = true → ∃ a', a = a' +:+ "/".
Proof.
  induction a as [|c [|d a] IH]; intros H; [done| |].
  - apply bool_decide_eq_true in H as ->. by exists "".
  - destruct (IH H) as [a' E]. exists (String c a'). exact (f_equal (String c) E).
Qed.

(** Without [".."] a walk only goes down. *)
Lemma walk_down l dir : (".." ∉ l) → dir `prefix_of` foldl walk dir l.
Proof.
  revert dir. induction l as [|x l IH]; intros dir Hl; [done|].
  apply not_elem_of_cons in Hl as [Hx Hl]. cbn. etrans; [|by apply IH].
  unfold walk. destruct (_ || _); [done|]. rewrite bool_decide_eq_false_2 by done.
  by apply prefix_app_r.
Qed.

(** A relative path without [".."] cannot leave the directory it is joined to. *)
Lemma join_inside dir rel :
  contains ".." rel = false → startswith rel "/" = false → inside dir (path_join dir rel).
Proof.
  intros Hd Hs. assert (".." ∉ pieces "" rel) as Hp
    by (intros Hx%pieces_contained; change ("" +:+ rel) with rel in Hx; congruence).
  unfold inside, path_join. rewrite Hs.
  assert (∀ a, resolve (a +:+ String "/" rel) = foldl walk (resolve a) (pieces "" rel)) as Hj
    by (intros a; unfold resolve; by rewrite pieces_join, foldl_app).
  case_bool_decide as He; cbn [orb]; [subst dir; apply prefix_nil|].
  destruct (endswith_slash dir) eqn:E.
  - apply endswith_slash_split in E as [a ->].
    replace (resolve (a +:+ "/")) with (resolve a) by (unfold resolve; by rewrite pieces_join, foldl_app).
    rewrite app_cons_assoc, Hj. by apply walk_down.
  - change ("/" +:+ rel) with (String "/" rel). rewrite Hj. by apply walk_down.
Qed.

Example split_request : split " " "GET /metrics?x=1 HTTP/1.1" = ["GET"; "/metrics?x=1"; "HTTP/1.1"].
Proof. reflexivity. Qed.

Example split_crlf : split crlf ("a" +:+ crlf +:+ "b" +:+ crlf) = ["a"; "b"; ""].
Proof. reflexivity. Qed.

Example ext_css : splitext_ext "/srv/dash.d/style.min.css" = ".css" ∧ splitext_ext "/srv/.hidden" = "".
Proof. split; reflexivity. Qed.
End PyString.
