(* ===== verification/Http.v ===== *)
(** * HTTP API ([broker/http_api.py])

One request per connection: the request line is parsed, dispatched to a
dashboard handler of the broker, to a load generator or to a file, and
answered with one response, after which the connection is closed.

The request is given as decoded text; the file system, the result of
starting a process and the indented text form of JSON are parameters.  The
text form is ASCII, so the length of the body in bytes is its length. *)

From Stdlib Require Import Ascii.
From S2P Require Import Prelude PyDict Json JsonText DeadLetter QueueManager WorkerRegistry LoadShedder WalStore Metrics Server PyString.
Import Server PyString.

Module Http.

(** ** State *)

(** [processes] are the load generators running on the machine, by process
    id; [_active_loads] is the server's list of those it has started. *)
Record World := mkWorld {
  broker : Broker;
  _active_loads : list nat;
  processes : list nat;
}.

Definition set_broker (b : Broker) (w : World) : World :=
  mkWorld b (_active_loads w) (processes w).

(** The callbacks given to the constructor. *)
Record Handlers := mkHandlers {
  _metrics_handler : option (M Json);
  _dlq_handler : option (M Json);
  _stats_handler : option (M Json);
  _crash_worker_handler : option (M Json);
  _replay_dlq_handler : option (M Json);
  _reset_handler : option (M Json);
}.

Inductive File := Regular (contents : string) | Directory.

(** ** Requests *)

(** The method and the path without its query string; [None] is a request
    line with fewer than two words. *)
Definition parse_request (request_text : string) : option (string * string) :=
  let request_line := hd "" (split crlf request_text) in
  match split " " request_line with
  | method :: target :: _ => Some (method, hd "" (split "?" target))
  | _ => None
  end.

(** A dictionary, in order of first appearance, where a repeated name keeps
    its last value.  The header lines end at the first empty line; nothing
    in the server looks at the result. *)
Fixpoint header_entries (lines : list string) (headers : dict string string) : dict string string :=
  match lines with
  | [] => headers
  | line :: lines =>
      if bool_decide (line = "") then headers
      else
        header_entries lines
          (match split_once ":" line with
           | Some (key, val) => dset (lower (strip key)) (strip val) headers
           | None => headers
           end)
  end.

Definition _parse_headers (request_text : string) : dict string string :=
  header_entries (tl (split crlf request_text)) [].

Example parse_headers_example :
  _parse_headers ("GET / HTTP/1.1" +:+ crlf +:+ "Host: a:80 " +:+ crlf +:+ "X-Y : 1" +:+ crlf +:+
    "junk" +:+ crlf +:+ "host: b" +:+ crlf +:+ crlf +:+ "Body: no") = [("host", "b"); ("x-y", "1")].
Proof. reflexivity. Qed.

Definition method_allowed (m : string) : bool :=
  bool_decide (m = "GET") || bool_decide (m = "POST") || bool_decide (m = "HEAD").

(** ** Responses *)

Definition status_text (code : Z) : string :=
  default "Unknown"
    (dget code [(200%Z, "OK"); (400%Z, "Bad Request"); (404%Z, "Not Found");
                (405%Z, "Method Not Allowed"); (500%Z, "Internal Server Error")]).

Definition header_lines (l : list string) : string :=
  foldr (λ line rest, line +:+ crlf +:+ rest) crlf l.

Definition head_response : string :=
  header_lines ["HTTP/1.1 200 OK"; "Content-Type: text/html"; "Connection: close"].

Definition file_response (content_type body : string) : string :=
  header_lines ["HTTP/1.1 200 OK"; "Content-Type: " +:+ content_type;
                "Content-Length: " +:+ pretty (String.length body);
                "Access-Control-Allow-Origin: *"; "Connection: close"] +:+ body.

Definition _send_html_response (html : string) : string :=
  header_lines ["HTTP/1.1 200 OK"; "Content-Type: text/html; charset=utf-8";
                "Content-Length: " +:+ pretty (String.length html);
                "Access-Control-Allow-Origin: *"; "Cache-Control: no-cache";
                "Connection: close"] +:+ html.

(** Reading in text mode turns every line end into a newline. *)
Fixpoint universal_newlines (s : string) : string :=
  let cr := Ascii.ascii_of_nat 13 in
  let nl := Ascii.ascii_of_nat 10 in
  match s with
  | EmptyString => ""
  | String c s' =>
      if bool_decide (c = cr) then
        match s' with
        | String d s'' =>
            if bool_decide (d = nl) then String nl (universal_newlines s'')
            else String nl (universal_newlines s')
        | EmptyString => String nl ""
        end
      else String c (universal_newlines s')
  end.

Definition content_types : dict string string :=
  [(".css", "text/css"); (".js", "application/javascript"); (".png", "image/png");
   (".svg", "image/svg+xml"); (".ico", "image/x-icon")].

Section http.
Context (dumps_indented : Json → string).
Context (fs : string → option File) (_dashboard_dir : string).
Context (popen : list string → string + nat) (sys_executable load_script : string).
Context (h : Handlers).

Definition _send_response (code : Z) (body : Json) : string :=
  let body_bytes := dumps_indented body in
  header_lines ["HTTP/1.1 " +:+ pretty code +:+ " " +:+ status_text code;
                "Content-Type: application/json";
                "Content-Length: " +:+ pretty (String.length body_bytes);
                "Access-Control-Allow-Origin: *"; "Connection: close"] +:+ body_bytes.

Definition json_error (e : string) : Json := JObj [("error", JStr e)].

(** ** Handlers: what is written to the socket, [None] when an exception is
    raised before anything is written *)

Definition Served : Type := option string * World.

(** [await handler()], then one response with its result. *)
Definition respond_with (handler : M Json) (w : World) : Served :=
  let '(o, b) := handler (broker w) in
  (_send_response 200 <$> o, set_broker b w).

Definition _serve_metrics (w : World) : Served :=
  match _metrics_handler h with
  | Some f => respond_with f w
  | None => (Some (_send_response 200 (json_error "Metrics handler not configured")), w)
  end.

Definition _serve_dlq (w : World) : Served :=
  match _dlq_handler h with
  | Some f => respond_with f w
  | None => (Some (_send_response 200 (json_error "DLQ handler not configured")), w)
  end.

(** The coroutine is not awaited: it never runs, and a coroutine object is
    not serialisable, so [json.dumps] raises. *)
Definition _serve_stats (w : World) : Served :=
  match _stats_handler h with
  | Some _ => (None, w)
  | None => (Some (_send_response 200 (json_error "Stats handler not registered")), w)
  end.

Definition configured (o : option (M Json)) (w : World) : Served :=
  match o with
  | Some f => respond_with f w
  | None => (Some (_send_response 500 (json_error "Handler not configured")), w)
  end.

Definition _crash_worker : World → Served := configured (_crash_worker_handler h).
Definition _replay_dlq : World → Served := configured (_replay_dlq_handler h).

(** [p.kill()] for every load generator started so far. *)
Definition kill_loads (w : World) : World :=
  mkWorld (broker w) [] (filter (λ p, p ∉ _active_loads w) (processes w)).

Definition _handle_reset (w : World) : Served := configured (_reset_handler h) (kill_loads w).

Definition started (p : nat) (w : World) : World :=
  mkWorld (broker w) (_active_loads w ++ [p]) (processes w ++ [p]).

Definition trigger (args : list string) (message : string) (w : World) : Served :=
  match popen args with
  | inr p =>
      (Some (_send_response 200 (JObj [("status", JStr "ok"); ("message", JStr message)])),
       started p w)
  | inl e =>
      (Some (_send_response 500 (JObj [("status", JStr "error"); ("error", JStr e)])), w)
  end.

Definition _trigger_load_test : World → Served :=
  trigger [sys_executable; load_script; "--port"; "5555"; "--delay"; "0.6"] "Load test started".

Definition _trigger_flood : World → Served :=
  trigger [sys_executable; load_script; "--producers"; "200"; "--tasks"; "500"; "--port"; "5555"]
    "Flood test started".

Definition _serve_dashboard (w : World) : Served :=
  match fs (path_join _dashboard_dir "index.html") with
  | None =>
      (Some (_send_response 404 (json_error "Dashboard not found. Create dashboard/index.html")), w)
  | Some (Regular html) => (Some (_send_html_response (universal_newlines html)), w)
  | Some Directory => (None, w)
  end.

Definition _serve_static (path : string) (w : World) : Served :=
  let relative := String.substring (String.length "/static/")
                    (String.length path - String.length "/static/") path in
  let not_found := (Some (_send_response 404 (json_error "Not found")), w) in
  if contains ".." relative || startswith relative "/" then not_found
  else
    let file_path := path_join _dashboard_dir relative in
    match fs file_path with
    | Some (Regular body) =>
        let ext := lower (splitext_ext file_path) in
        (Some (file_response (default "application/octet-stream" (dget ext content_types)) body), w)
    | _ => not_found
    end.

(** ** Routing *)

Definition eqs (x y : string) : bool := bool_decide (x = y).

Definition dispatch (method path : string) (w : World) : Served :=
  if eqs method "HEAD" then (Some head_response, w)
  else if eqs method "GET" && (eqs path "/" || eqs path "/dashboard") then _serve_dashboard w
  else if eqs method "GET" && (eqs path "/metrics" || eqs path "/metrics/") then _serve_metrics w
  else if eqs method "POST" && eqs path "/admin/load-test" then _trigger_load_test w
  else if eqs method "POST" && eqs path "/admin/flood" then _trigger_flood w
  else if eqs method "POST" && eqs path "/admin/crash-worker" then _crash_worker w
  else if eqs method "POST" && eqs path "/admin/dlq/replay-all" then _replay_dlq w
  else if eqs method "POST" && eqs path "/admin/reset" then _handle_reset w
  else if eqs path "/metrics/dlq" then _serve_dlq w
  else if eqs path "/stats" then _serve_stats w
  else if eqs path "/health" then
    (Some (_send_response 200 (JObj [("status", JStr "healthy");
                                     ("service", JStr "distrosync-broker")])), w)
  else if startswith path "/static/" then _serve_static path w
  else (Some (_send_response 404 (json_error ("Not found: " +:+ path))), w).

Definition handle_request (request_text : string) (w : World) : Served :=
  match parse_request request_text with
  | None => (Some (_send_response 400 (json_error "Bad request")), w)
  | Some (method, path) =>
      if negb (method_allowed method)
      then (Some (_send_response 405 (json_error "Method not allowed")), w)
      else dispatch method path w
  end.

(** [data]: [None] when nothing arrives in five seconds, otherwise the text
    of the first read, empty at the end of the stream.  The result is what
    is written before the connection is closed. *)
Definition handle_connection (data : option string) (w : World) : option string * World :=
  match data with
  | None => (None, w)
  | Some text =>
      if negb (truthy_str text) then (None, w)
      else
        let '(o, w) := handle_request text w in
        (Some (default (_send_response 500 (json_error "Internal server error")) o), w)
  end.
End http.

(** The handlers [BrokerServer.start] registers. *)
Definition broker_handlers `{codec : JsonCodec} (env : Env) : Handlers :=
  mkHandlers (Some (_get_metrics_snapshot env)) (Some _get_dlq_listing)
    (Some (_get_stats_snapshot env)) (Some (Server._crash_worker_handler env))
    (Some Server._replay_dlq_handler) (Some (Server._reset_handler env)).
End Http.
