(* ===== verification/HttpSafety.v ===== *)
(** * What an HTTP request can do ([broker/http_api.py])

Only the five administrative POST requests change anything but the sliding
windows of the metrics and the refill times of the token buckets; the
static file handler cannot be led out of the dashboard directory; and a
reset leaves neither tasks nor load generators behind. *)

From S2P Require Import Prelude PyDict Json JsonText DeadLetter QueueManager QueueInvariant WorkerRegistry LoadShedder WalStore Durability Metrics Server Frames Recovery PyString Http.
Import Server PyString Http.

Module HttpSafety.

(** ** Handlers that only observe *)

Section observers.
Context `{codec : JsonCodec} (env : Env).

Lemma snapshot_keeps_registry : keeps worker_registry (_get_metrics_snapshot env).
Proof. unfold _get_metrics_snapshot. keep. Qed.

Lemma listing_keeps_registry : keeps worker_registry _get_dlq_listing.
Proof. unfold _get_dlq_listing, _handle_dlq_list. keep. Qed.

(** The parts of the world an observing request must not touch. *)
Definition same_tasks (w w' : World) : Prop :=
  queue_manager (broker w') = queue_manager (broker w) ∧
  wal_store (broker w') = wal_store (broker w) ∧
  worker_registry (broker w') = worker_registry (broker w) ∧
  _active_loads w' = _active_loads w ∧ processes w' = processes w.

Context (dumps_indented : Json → string).

Lemma same_tasks_refl w : same_tasks w w.
Proof. done. Qed.

Lemma respond_observes (f : M Json) w :
  Recovery.frames f → keeps worker_registry f →
  same_tasks w (respond_with dumps_indented f w).2.
Proof.
  intros Hf Hk. unfold respond_with. pose proof (Hf (broker w)) as [= H1 H2].
  specialize (Hk (broker w)). by destruct (f (broker w)) as [o b].
Qed.

(** ** Requests *)

Context (fs : string → option File) (dir : string).
Context (popen : list string → string + nat) (exe script : string).

Abbreviation handle data :=
  (handle_connection dumps_indented fs dir popen exe script (broker_handlers env) data).

Lemma dashboard_observes w : same_tasks w (_serve_dashboard dumps_indented fs dir w).2.
Proof. unfold _serve_dashboard. by destruct (fs _) as [[]|]. Qed.

Lemma static_observes path w : same_tasks w (_serve_static dumps_indented fs dir path w).2.
Proof. unfold _serve_static. destruct (_ || _); [done|]. by destruct (fs _) as [[]|]. Qed.

Lemma metrics_observes w :
  same_tasks w (_serve_metrics dumps_indented (broker_handlers env) w).2.
Proof.
  apply respond_observes; [apply Recovery.frames_metrics_snapshot|apply snapshot_keeps_registry].
Qed.

Lemma dlq_observes w : same_tasks w (_serve_dlq dumps_indented (broker_handlers env) w).2.
Proof. apply respond_observes; [apply Recovery.frames_dlq_list|apply listing_keeps_registry]. Qed.

Lemma dispatch_observes method path w :
  (method = "POST" → startswith path "/admin/" = false) →
  same_tasks w
    (dispatch dumps_indented fs dir popen exe script (broker_handlers env) method path w).2.
Proof.
  intros Hadm. unfold dispatch, eqs.
  repeat (case_bool_decide; subst; cbn [andb orb negb]);
    try apply same_tasks_refl; try by (exfalso; specialize (Hadm eq_refl)).
  all: try destruct (startswith path "/static/");
    auto using dashboard_observes, static_observes, metrics_observes, dlq_observes, same_tasks_refl;
    discriminate.
Qed.

(** C32.  Read requests are safe.  Whatever bytes an HTTP client sends, unless
    they parse as a POST to a path under [/admin/], the queues, the running
    and dead tasks, the database, the worker registry and the load
    generators are as before, whether the request is answered, refused or
    fails. *)
Theorem http_reads_are_safe data w :
  (∀ text path, data = Some text → parse_request text = Some ("POST", path) →
     startswith path "/admin/" = false) →
  same_tasks w (handle data w).2.
Proof.
  intros Hadm. unfold handle_connection. destruct data as [text|]; [|done].
  destruct (negb _); [done|]. unfold handle_request.
  destruct (parse_request text) as [[method path]|] eqn:E; [|done].
  destruct (negb _); [done|].
  pose proof (dispatch_observes method path w) as Hd.
  destruct (dispatch _ _ _ _ _ _ _ method path w) as [o w'].
  apply Hd. intros ->. by apply (Hadm text path).
Qed.

(** The stats endpoint of a broker always answers with an internal error. *)
Theorem stats_endpoint_fails text method w :
  parse_request text = Some (method, "/stats") → method ∈ ["GET"; "POST"] →
  handle (Some text) w =
    (Some (_send_response dumps_indented 500 (json_error "Internal server error")), w).
Proof.
  intros E Hm. assert (truthy_str text = true) as Ht.
  { apply truthy_str_true. intros ->. by vm_compute in E. }
  unfold handle_connection. rewrite Ht. cbn [negb]. unfold handle_request. rewrite E.
  apply elem_of_cons in Hm as [->|[->|Hm%not_elem_of_nil]%elem_of_cons]; [done..|done].
Qed.
End observers.

(** ** Files *)

Section files.
Context (dumps_indented : Json → string) (dir : string).
Context (popen : list string → string + nat) (exe script : string) (h : Handlers).
Context (fs1 fs2 : string → option File).
Hypothesis same_inside : ∀ p, inside dir p → fs1 p = fs2 p.

Lemma dashboard_confined w :
  _serve_dashboard dumps_indented fs1 dir w = _serve_dashboard dumps_indented fs2 dir w.
Proof. unfold _serve_dashboard. by rewrite same_inside by (by apply join_inside). Qed.

Lemma static_confined path w :
  _serve_static dumps_indented fs1 dir path w = _serve_static dumps_indented fs2 dir path w.
Proof.
  unfold _serve_static. set (rel := String.substring _ _ path).
  destruct (contains ".." rel) eqn:E1; [done|]. destruct (startswith rel "/") eqn:E2; [done|].
  cbn [orb]. by rewrite same_inside by (by apply join_inside).
Qed.

(** C33.  No directory traversal.  The response to any request, and what it
    does, depend only on files below the dashboard directory: two file
    systems that agree there are indistinguishable to HTTP clients.  Paths
    are compared after lexical resolution. *)
Theorem file_access_is_confined data w :
  handle_connection dumps_indented fs1 dir popen exe script h data w =
    handle_connection dumps_indented fs2 dir popen exe script h data w.
Proof.
  unfold handle_connection, handle_request, dispatch. destruct data as [text|]; [|done].
  destruct (negb _); [done|]. destruct (parse_request text) as [[method path]|]; [|done].
  by rewrite dashboard_confined, static_confined.
Qed.
End files.
(** ** Load generators *)

Section loads.
Context `{codec : JsonCodec} (dumps_indented : Json → string).
Context (fs : string → option File) (dir exe script : string).

(** A request is served, something else happens in the broker, or a load
    generator finishes. *)
Inductive world_step : World → World → Prop :=
  | http_step env popen data w :
      world_step w
        (handle_connection dumps_indented fs dir popen exe script (broker_handlers env) data w).2
  | other_step b w : world_step w (set_broker b w)
  | exit_step p w :
      world_step w (mkWorld (broker w) (_active_loads w) (filter (.≠ p) (processes w))).

Inductive served : World → Prop :=
  | served_start b : served (mkWorld b [] [])
  | served_step w w' : served w → world_step w w' → served w'.

(** Every running load generator is on the list. *)
Definition tracked (w : World) : Prop := ∀ p, p ∈ processes w → p ∈ _active_loads w.

Lemma kill_loads_processes w : tracked w → processes (kill_loads w) = [].
Proof.
  intros Ht. cbn. apply Metrics.filter_none, Forall_forall. intros p Hp Hn. by apply Hn, Ht.
Qed.

Lemma respond_tracked f w : tracked w → tracked (respond_with dumps_indented f w).2.
Proof. unfold respond_with. by destruct (f (broker w)). Qed.

Lemma trigger_tracked popen args msg w : tracked w → tracked (trigger dumps_indented popen args msg w).2.
Proof.
  intros Ht. unfold trigger. destruct (popen args) as [e|p]; [done|]. cbn.
  intros q [Hq|Hq]%elem_of_app; apply elem_of_app; [left; by apply Ht|by right].
Qed.

Lemma same_tasks_tracked w w' : same_tasks w w' → tracked w → tracked w'.
Proof. unfold tracked. by intros (_&_&_&->&->). Qed.

Lemma dispatch_tracked env popen method path w :
  tracked w →
  tracked (dispatch dumps_indented fs dir popen exe script (broker_handlers env) method path w).2.
Proof.
  intros Ht. unfold dispatch.
  repeat match goal with |- tracked (if ?c then _ else _).2 => destruct c end; try done;
    try (by apply trigger_tracked); try (by apply respond_tracked).
  - apply (same_tasks_tracked w); [apply dashboard_observes|done].
  - apply respond_tracked. intros p. rewrite kill_loads_processes by done.
    by intros ?%not_elem_of_nil.
  - apply (same_tasks_tracked w); [apply static_observes|done].
Qed.

Lemma served_tracked w : served w → tracked w.
Proof.
  induction 1 as [b|w w' _ IH Hs]; [intros p Hp; by apply not_elem_of_nil in Hp|].
  destruct Hs as [env popen data w|b w|p w]; [|done|].
  - unfold handle_connection, handle_request. destruct data as [text|]; [|done].
    destruct (negb _); [done|]. destruct (parse_request text) as [[method path]|]; [|done].
    destruct (negb _); [done|].
    pose proof (dispatch_tracked env popen method path w IH) as Hd.
    by destruct (dispatch _ _ _ _ _ _ _ method path w).
  - intros q [_ Hq]%list_elem_of_filter. by apply IH.
Qed.

Lemma reset_request env popen text w :
  parse_request text = Some ("POST", "/admin/reset") →
  (handle_connection dumps_indented fs dir popen exe script (broker_handlers env) (Some text) w).2
    = set_broker (Server._reset_handler env (broker w)).2 (kill_loads w).
Proof.
  intros E. assert (truthy_str text = true) as Ht.
  { apply truthy_str_true. intros ->. by vm_compute in E. }
  unfold handle_connection. rewrite Ht. cbn [negb]. unfold handle_request. rewrite E.
  change (negb (method_allowed "POST")) with false. cbv iota.
  change (dispatch _ _ _ _ _ _ _ "POST" "/admin/reset" w) with
    (respond_with dumps_indented (Server._reset_handler env) (kill_loads w)).
  unfold respond_with. cbn [broker kill_loads].
  by destruct (Server._reset_handler env (broker w)).
Qed.

(** A reset from the dashboard leaves nothing behind.  Whatever was
    served before, after a POST to [/admin/reset] no task is left in memory,
    the database is empty, and no load generator the server ever started is
    still running. *)
Theorem reset_leaves_nothing_running env popen text w :
  served w → parse_request text = Some ("POST", "/admin/reset") →
  let w' := (handle_connection dumps_indented fs dir popen exe script (broker_handlers env)
               (Some text) w).2 in
  processes w' = [] ∧ _active_loads w' = [] ∧ QM.all_tasks (queue_manager (broker w')) = [] ∧
  ∀ db, wal_store (broker w) = Some db → wal_store (broker w') = Some Wal.empty_db.
Proof.
  intros Hs E w'. unfold w'. rewrite reset_request by done. clear w'. split_and!.
  - by apply kill_loads_processes, served_tracked.
  - done.
  - cbn [broker set_broker]. unfold Server._reset_handler, if_wal, on_wal, mbind, M_bind. cbn.
    by destruct (wal_store (broker w)) eqn:E'; cbn; rewrite ?E'.
  - intros db Hdb. cbn [broker set_broker].
    unfold Server._reset_handler, if_wal, on_wal, mbind, M_bind. cbn. by rewrite Hdb.
Qed.
End loads.

(** ** Witnesses *)

#[local] Existing Instance JsonText.codec.

Definition get_metrics : string := "GET /metrics?fresh=1 HTTP/1.1" +:+ crlf +:+ crlf.

Definition post_reset : string := "POST /admin/reset HTTP/1.1" +:+ crlf +:+ crlf.

Definition post_flood : string := "POST /admin/flood HTTP/1.1" +:+ crlf +:+ crlf.

Definition no_files (p : string) : option File := None.

(** A file outside the dashboard directory, and none at all. *)
Definition secret_file (p : string) : option File :=
  if bool_decide (p = "/etc/passwd") then Some (Regular "root") else None.

Lemma http_reads_are_safe_witness :
  same_tasks (mkWorld Recovery.example_operated [] [])
    (handle_connection dumps no_files "/srv/dashboard" (λ _, inr 7) "python" "run_load.py"
       (broker_handlers (Recovery.env_at 9 "u9")) (Some get_metrics)
       (mkWorld Recovery.example_operated [] [])).2.
Proof.
  apply (http_reads_are_safe (Recovery.env_at 9 "u9") dumps no_files "/srv/dashboard" (λ _, inr 7)
    "python" "run_load.py" (Some get_metrics) (mkWorld Recovery.example_operated [] [])).
  intros text path [= <-] Hp. by vm_compute in Hp.
Defined.

Lemma file_access_is_confined_witness :
  handle_connection dumps secret_file "/srv/dashboard" (λ _, inr 7) "python" "run_load.py"
      (broker_handlers (Recovery.env_at 9 "u9")) (Some "GET /static/../../../etc/passwd HTTP/1.1")
      (mkWorld Recovery.example_operated [] []) =
    handle_connection dumps no_files "/srv/dashboard" (λ _, inr 7) "python" "run_load.py"
      (broker_handlers (Recovery.env_at 9 "u9")) (Some "GET /static/../../../etc/passwd HTTP/1.1")
      (mkWorld Recovery.example_operated [] []).
Proof.
  apply (file_access_is_confined dumps "/srv/dashboard" (λ _, inr 7) "python" "run_load.py"
    (broker_handlers (Recovery.env_at 9 "u9")) secret_file no_files).
  intros p Hp. unfold secret_file, no_files. case_bool_decide; [|done]. subst p.
  exfalso. destruct Hp as [l Hl]. vm_compute in Hl. discriminate Hl.
Defined.

(** A reset after a flood was started. *)
Definition flooded : World :=
  (handle_connection dumps no_files "/srv/dashboard" (λ _, inr 7) "python" "run_load.py"
     (broker_handlers (Recovery.env_at 8 "u8")) (Some post_flood)
     (mkWorld Recovery.example_operated [] [])).2.

Example flood_runs : processes flooded = [7].
Proof. vm_compute. reflexivity. Qed.

Lemma reset_leaves_nothing_running_witness :
  let w' := (handle_connection dumps no_files "/srv/dashboard" (λ _, inr 8) "python" "run_load.py"
               (broker_handlers (Recovery.env_at 9 "u9")) (Some post_reset) flooded).2 in
  processes w' = [] ∧ _active_loads w' = [] ∧ QM.all_tasks (queue_manager (broker w')) = [] ∧
  ∀ db, wal_store (broker flooded) = Some db → wal_store (broker w') = Some Wal.empty_db.
Proof.
  apply (reset_leaves_nothing_running dumps no_files "/srv/dashboard" "python" "run_load.py"
    (Recovery.env_at 9 "u9") (λ _, inr 8) post_reset flooded).
  - eapply served_step; [apply served_start|apply http_step].
  - vm_compute. reflexivity.
Defined.
End HttpSafety.
