(* ===== verification/TaskExecutor.v ===== *)
(** * Task functions of the process pool ([worker/task_executor.py])

[cpu_bound_task], which a child process runs on a task's payload, and
[ProcessPoolWorker.execute], which hands its result or its exception to the
worker loop.  Numbers follow Python: booleans are integers, an operation
with a float operand is a float operation (exact here), and [x <= y]
compares integers and floats by value.  The pool itself is a library. *)

From Stdlib Require Import Ascii.
From S2P Require Import Prelude PyDict Json.

Module Executor.

(** [Raises]: an exception, reported to the broker by a NACK.
    [NotModelled]: sorting nested lists. *)
Inductive TaskResult := Returns (j : Json) | Raises | NotModelled.

(** ** Numbers *)

Inductive Num := NInt (z : Z) | NFloat (q : Q).

Definition num_of (j : Json) : option Num :=
  match j with
  | JInt z => Some (NInt z)
  | JBool b => Some (NInt (if b then 1 else 0))
  | JFloat q => Some (NFloat q)
  | _ => None
  end.

Definition num_json (n : Num) : Json := match n with NInt z => JInt z | NFloat q => JFloat q end.

Definition num_value (n : Num) : Q := match n with NInt z => inject_Z z | NFloat q => q end.

Definition num_add (a b : Num) : Num :=
  match a, b with
  | NInt x, NInt y => NInt (x + y)
  | _, _ => NFloat (num_value a + num_value b)
  end.

Definition num_square (a : Num) : Num :=
  match a with NInt x => NInt (x * x) | NFloat q => NFloat (q * q) end.

(** [x - k] *)
Definition num_minus (a : Num) (k : Z) : Num :=
  match a with NInt x => NInt (x - k) | NFloat q => NFloat (q - inject_Z k) end.

(** ** Iteration *)

Fixpoint chars (s : string) : list Json :=
  match s with EmptyString => [] | String c s => JStr (String c "") :: chars s end.

(** [for x in data]; [None] is the [TypeError] of a value that cannot be
    iterated. *)
Definition iterate (data : Json) : option (list Json) :=
  match data with
  | JArr l => Some l
  | JStr s => Some (chars s)
  | JObj o => Some (JStr <$> dkeys o)
  | _ => None
  end.

(** ** The three computations *)

(** [sum(x ** 2 for x in data)] *)
Definition sum_squares (l : list Json) : option Num :=
  foldl (λ acc x, a ← acc; n ← num_of x; Some (num_add a (num_square n))) (Some (NInt 0)) l.

(** The recursive [fib] on a number; the fuel bounds the depth. *)
Fixpoint fib (fuel : nat) (x : Num) : option Num :=
  match fuel with
  | O => None
  | S fuel =>
      if Qle_bool (num_value x) 1 then Some x
      else
        a ← fib fuel (num_minus x 1);
        b ← fib fuel (num_minus x 2);
        Some (num_add a b)
  end.

Definition fib_depth (x : Num) : nat := S (Z.to_nat (Qceiling (num_value x))).

(** [sorted]: stable, by insertion. *)
Section sorting.
Context {A} (lt : A → A → bool).

Fixpoint insert_sorted (x : A) (l : list A) : list A :=
  match l with
  | [] => [x]
  | y :: l' => if lt y x then y :: insert_sorted x l' else x :: l
  end.

Definition sorted (l : list A) : list A := foldr insert_sorted [] l.
End sorting.

Definition num_lt (a b : Json) : bool :=
  match num_of a, num_of b with
  | Some a, Some b => Qltb (num_value a) (num_value b)
  | _, _ => false
  end.

Definition str_lt (a b : Json) : bool :=
  match a, b with
  | JStr a, JStr b => match String.compare a b with Lt => true | _ => false end
  | _, _ => false
  end.

Definition is_num (j : Json) : bool := match num_of j with Some _ => true | None => false end.
Definition is_str (j : Json) : bool := match j with JStr _ => true | _ => false end.
Definition is_arr (j : Json) : bool := match j with JArr _ => true | _ => false end.

Definition sorted_json (l : list Json) : TaskResult + list Json :=
  match l with
  | [] | [_] => inr l
  | _ =>
      if forallb is_num l then inr (sorted num_lt l)
      else if forallb is_str l then inr (sorted str_lt l)
      else if forallb is_arr l then inl NotModelled
      else inl Raises
  end.

(** ** [cpu_bound_task] *)

Definition compute_task (pid : Z) (o : dict string Json) : TaskResult :=
  let data := default (JArr []) (dget "data" o) in
  match iterate data with
  | None => Raises
  | Some l =>
      match sum_squares l with
      | None => Raises
      | Some n =>
          Returns (JObj [("result", num_json n); ("processed_count", JInt (Z.of_nat (length l)));
                         ("pid", JInt pid)])
      end
  end.

(** A number up to one is returned as it is, a boolean as a boolean. *)
Definition fibonacci_task (pid : Z) (o : dict string Json) : TaskResult :=
  let n := default (JInt 10) (dget "n" o) in
  match num_of n with
  | None => Raises
  | Some x =>
      match fib (fib_depth x) x with
      | None => NotModelled
      | Some r =>
          Returns (JObj [("result", if Qle_bool (num_value x) 1 then n else num_json r);
                         ("n", n); ("pid", JInt pid)])
      end
  end.

Definition sort_task (pid : Z) (o : dict string Json) : TaskResult :=
  let data := default (JArr []) (dget "data" o) in
  match iterate data with
  | None => Raises
  | Some l =>
      match sorted_json l with
      | inl r => r
      | inr l =>
          Returns (JObj [("sorted", JArr (take 10 l)); ("length", JInt (Z.of_nat (length l)));
                         ("pid", JInt pid)])
      end
  end.

Definition cpu_bound_task (pid : Z) (payload : Json) : TaskResult :=
  match payload with
  | JObj o =>
      let task_type := default (JStr "compute") (dget "type" o) in
      if bool_decide (task_type = JStr "compute") then compute_task pid o
      else if bool_decide (task_type = JStr "fibonacci") then fibonacci_task pid o
      else if bool_decide (task_type = JStr "sort") then sort_task pid o
      else Returns (JObj [("echoed", payload); ("pid", JInt pid)])
  | _ => Raises
  end.

Definition _execute_task_func {A} (func : Json → A) (payload : Json) : A := func payload.

(** [ProcessPoolWorker.execute]: the function's result, or its exception,
    raised again in the parent process. *)
Definition execute (task_func : option (Json → TaskResult)) (pid : Z) (payload : Json) :
    TaskResult :=
  default (cpu_bound_task pid) task_func payload.

(** ** Correctness *)

(** The Fibonacci numbers, by iteration. *)
Fixpoint fib_iter (n : nat) (a b : Z) : Z :=
  match n with O => a | S n => fib_iter n b (a + b) end.

Definition fibonacci (n : nat) : Z := fib_iter n 0 1.

Lemma fib_iter_add n a b c d :
  (fib_iter n a b + fib_iter n c d = fib_iter n (a + c) (b + d))%Z.
Proof.
  revert a b c d. induction n as [|n IH]; intros; [done|]. cbn. rewrite IH. f_equal. lia.
Qed.

Lemma fibonacci_step n : fibonacci (S (S n)) = (fibonacci (S n) + fibonacci n)%Z.
Proof. unfold fibonacci. cbn [fib_iter]. by rewrite fib_iter_add. Qed.

Lemma fib_spec n fuel :
  n < fuel → fib fuel (NInt (Z.of_nat n)) = Some (NInt (fibonacci n)).
Proof.
  revert fuel. induction n as [n IH] using lt_wf_ind. intros [|fuel] Hf; [lia|]. cbn [fib].
  destruct n as [|[|n]]; [done..|].
  replace (Qle_bool _ 1) with false.
  2: { symmetry. apply not_true_is_false. rewrite Qle_bool_iff. unfold Qle. cbn. lia. }
  replace (num_minus (NInt (Z.of_nat (S (S n)))) 1) with (NInt (Z.of_nat (S n)))
    by (cbn [num_minus]; f_equal; lia).
  replace (num_minus (NInt (Z.of_nat (S (S n)))) 2) with (NInt (Z.of_nat n))
    by (cbn [num_minus]; f_equal; lia).
  rewrite !IH by lia. cbn [mbind option_bind num_add]. by rewrite fibonacci_step.
Qed.

(** The fuel suffices for every number. *)
Lemma fib_terminates x : ∃ r, fib (fib_depth x) x = Some r.
Proof.
  assert (∀ fuel x, (Qceiling (num_value x) < Z.of_nat fuel)%Z → fuel ≠ 0 →
    ∃ r, fib fuel x = Some r) as H.
  { induction fuel as [|fuel IH]; intros y Hy Hf; [done|]. cbn [fib].
    destruct (Qle_bool (num_value y) 1) eqn:E; [by eexists|].
    assert (1 < num_value y)%Q as Hgt
      by (apply Qnot_le_lt; intros Hle; apply Qle_bool_iff in Hle; congruence).
    assert (1 < Qceiling (num_value y))%Z as Hc.
    { apply Z.lt_nge. intros Hle. pose proof (Qle_ceiling (num_value y)) as Hq.
      apply (Qlt_not_le _ _ Hgt). eapply Qle_trans; [exact Hq|]. unfold Qle. cbn. lia. }
    assert (∀ k, (1 <= k)%Z → (Qceiling (num_value (num_minus y k)) < Z.of_nat fuel)%Z) as Hk.
    { intros k Hk1. enough (Qceiling (num_value (num_minus y k)) <= Qceiling (num_value y) - k)%Z by lia.
      replace (Qceiling (num_value y) - k)%Z with (Qceiling (inject_Z (Qceiling (num_value y) - k)))
        by apply Qceiling_Z.
      apply Qceiling_resp_le. destruct y as [z|q]; cbn [num_value num_minus].
      - rewrite Qceiling_Z. apply Qle_refl.
      - pose proof (Qle_ceiling q) as Hq. unfold Z.sub. rewrite inject_Z_plus, inject_Z_opp. lra. }
    destruct (IH (num_minus y 1)) as [a ->]; [apply Hk; lia|lia|].
    destruct (IH (num_minus y 2)) as [b ->]; [apply Hk; lia|lia|]. by eexists. }
  apply H; [|done]. unfold fib_depth. lia.
Qed.
(** Sorting. *)
Lemma insert_sorted_perm {A} (lt : A → A → bool) x l : insert_sorted lt x l ≡ₚ x :: l.
Proof.
  induction l as [|y l IH]; cbn; [done|]. destruct (lt y x); [|done]. by rewrite IH, Permutation_swap.
Qed.

Lemma sorted_perm {A} (lt : A → A → bool) l : sorted lt l ≡ₚ l.
Proof. induction l as [|x l IH]; cbn; [done|]. by rewrite insert_sorted_perm, IH. Qed.

Lemma num_lt_int x y : num_lt (JInt x) (JInt y) = (x <? y)%Z.
Proof.
  unfold num_lt. cbn. unfold Qltb, Qle_bool. cbn. rewrite !Z.mul_1_r, Z.leb_antisym.
  apply negb_involutive.
Qed.

Lemma insert_sorted_int x l :
  insert_sorted num_lt (JInt x) (JInt <$> l) = JInt <$> insert_sorted Z.ltb x l.
Proof.
  induction l as [|y l IH]; [done|]. rewrite fmap_cons. cbn [insert_sorted].
  rewrite num_lt_int. destruct (y <? x)%Z; [|done]. by rewrite IH.
Qed.

Lemma sorted_int l : sorted num_lt (JInt <$> l) = JInt <$> sorted Z.ltb l.
Proof.
  induction l as [|x l IH]; [done|]. rewrite fmap_cons. cbn [sorted foldr].
  unfold sorted in IH. by rewrite IH, insert_sorted_int.
Qed.

Lemma insert_sorted_sorted x l : Sorted Z.le l → Sorted Z.le (insert_sorted Z.ltb x l).
Proof.
  induction 1 as [|y l Hl IH Hy]; cbn; [by repeat constructor|].
  destruct (Z.ltb_spec y x) as [Hlt|Hge]; constructor; try done; try (by constructor).
  destruct l as [|z l]; cbn; [constructor; lia|]. destruct (z <? x)%Z; constructor; [|lia].
  by inversion Hy.
Qed.

Lemma sorted_sorted l : Sorted Z.le (sorted Z.ltb l).
Proof. induction l as [|x l IH]; [constructor|]. by apply insert_sorted_sorted. Qed.

Lemma sorted_json_ints l : sorted_json (JInt <$> l) = inr (JInt <$> sorted Z.ltb l).
Proof.
  assert (forallb is_num (JInt <$> l) = true) as Hn by (by induction l).
  rewrite <- sorted_int. unfold sorted_json. destruct l as [|x [|y l]]; [done..|].
  rewrite Hn. done.
Qed.

(** Sums. *)
Lemma sum_squares_ints l :
  sum_squares (JInt <$> l) = Some (NInt (foldr (λ x s, x * x + s)%Z 0%Z l)).
Proof.
  unfold sum_squares.
  enough (∀ z, foldl (λ acc x, a ← acc; n ← num_of x; Some (num_add a (num_square n)))
    (Some (NInt z)) (JInt <$> l) = Some (NInt (z + foldr (λ x s, x * x + s) 0 l))%Z) as H
    by apply (H 0%Z).
  induction l as [|x l IH]; intros z; cbn; [by rewrite Z.add_0_r|].
  rewrite IH. do 2 f_equal. lia.
Qed.

(** The built-in task types compute what they are named after, on
    integers: ["sort"] returns the ten smallest elements in order and the
    number of elements; ["fibonacci"], by its doubly recursive definition,
    the [n]-th Fibonacci number; ["compute"] the sum of the squares.  And
    the recursion ends on every number, negative and fractional ones
    included. *)
Theorem builtin_tasks_compute pid :
  (∀ l, ∃ k, k ≡ₚ l ∧ Sorted Z.le k ∧
     cpu_bound_task pid (JObj [("type", JStr "sort"); ("data", JArr (JInt <$> l))]) =
       Returns (JObj [("sorted", JArr (JInt <$> take 10 k));
                      ("length", JInt (Z.of_nat (length l))); ("pid", JInt pid)])) ∧
  (∀ n, cpu_bound_task pid (JObj [("type", JStr "fibonacci"); ("n", JInt (Z.of_nat n))]) =
     Returns (JObj [("result", JInt (fibonacci n)); ("n", JInt (Z.of_nat n)); ("pid", JInt pid)])) ∧
  (∀ l, cpu_bound_task pid (JObj [("data", JArr (JInt <$> l))]) =
     Returns (JObj [("result", JInt (foldr (λ x s, x * x + s)%Z 0%Z l));
                    ("processed_count", JInt (Z.of_nat (length l))); ("pid", JInt pid)])) ∧
  (∀ x, ∃ r, fib (fib_depth x) x = Some r).
Proof.
  split_and!; [intros l|intros n|intros l|apply fib_terminates].
  - exists (sorted Z.ltb l). split_and!; [apply sorted_perm|apply sorted_sorted|].
    change (cpu_bound_task _ _) with
      (sort_task pid [("type", JStr "sort"); ("data", JArr (JInt <$> l))]).
    unfold sort_task. change (dget "data" _) with (Some (JArr (JInt <$> l))).
    change (iterate _) with (Some (JInt <$> l)). cbv iota zeta.
    rewrite sorted_json_ints, <- fmap_take, length_fmap.
    by rewrite (Permutation_length (sorted_perm Z.ltb l)).
  - change (cpu_bound_task _ _) with
      (fibonacci_task pid [("type", JStr "fibonacci"); ("n", JInt (Z.of_nat n))]).
    unfold fibonacci_task. change (dget "n" _) with (Some (JInt (Z.of_nat n))).
    cbn [default num_of from_option id]. rewrite fib_spec by (unfold fib_depth; cbn [num_value]; rewrite Qceiling_Z; lia).
    destruct (Qle_bool _ 1) eqn:E; [|done].
    apply Qle_bool_iff in E. unfold Qle in E. cbn in E. by destruct n as [|[|n]]; [..|lia].
  - change (cpu_bound_task _ _) with (compute_task pid [("data", JArr (JInt <$> l))]).
    unfold compute_task. change (dget "data" _) with (Some (JArr (JInt <$> l))).
    change (iterate _) with (Some (JInt <$> l)). cbv iota zeta.
    by rewrite sum_squares_ints, length_fmap.
Qed.
End Executor.
