(* ===== verification/Deployment.v ===== *)
(** * Running workers ([worker/base_worker.py], [worker/task_executor.py],
      [run_worker.py])

The worker of [Worker] with its socket, the worker that runs its tasks in a
process pool, and the launcher that restarts a worker whenever its [run]
fails.  Sockets and pools are handles of [Os]. *)

From S2P Require Import Prelude PyDict Json Producer Session Worker TaskExecutor.

Module Deployment.

(** ** The worker and its socket *)

Record t := mk { base : Worker.t; _writer : option nat }.

(** [BaseWorker.__init__] *)
Definition init (w : Worker.t) : t := mk w None.

(** How [run] ends: normally; [ConnectionRefusedError]; another [OSError] of
    [open_connection]; the peer resets the connection during the
    registration; the registration fails otherwise; the loop fails;
    [wait_closed] fails; the pool cannot be built. *)
Inductive End :=
  | Returned
  | Refused
  | NetworkError
  | ResetByPeer
  | Unregistered (e : Worker.RunError)
  | Failed (e : Worker.RunError)
  | CloseError
  | BadPoolSize.

Section worker.
Context {S : Type} (dial : string → Z → S → Session.Dial).
Context (send : Json → S → option Json * S) (sleep : Q → S → S).

Abbreviation World := (Os.table * S)%type.

(** [open_connection], then the registration.  A connection that is lost
    during it has been reset by the peer or ended by it ([reset]); asyncio
    closes the socket by itself in the first case only. *)
Definition connect (reset : bool) (w : t) (x : World) : End * t * World :=
  match Session.open_connection dial (Worker.host (base w)) (Worker.port (base w)) x with
  | (inl Session.Refused, x) => (Refused, w, x)
  | (inl _, x) => (NetworkError, w, x)
  | (inr fd, x) =>
      let '(e, b, s) := Worker.connect send (base w) x.2 in
      let w := mk b (Some fd) in
      match e with
      | None => (Returned, w, (x.1, s))
      | Some Worker.LostConnection =>
          (if reset then ResetByPeer else Unregistered Worker.LostConnection, w,
           (Os.lose reset (Some fd) x.1, s))
      | Some e => (Unregistered e, w, (x.1, s))
      end
  end.

(** [flushed]: whether [wait_closed] returns. *)
Definition _close (flushed : bool) (w : t) (x : World) : bool * t * World :=
  match _writer w with
  | Some fd =>
      if Worker._connected (base w) then
        let x := (Os.release fd x.1, x.2) in
        if flushed then (true, mk (Worker.set_connected false (base w)) (_writer w), x)
        else (false, w, x)
      else (true, w, x)
  | None => (true, w, x)
  end.

(** [run], stopped after [n] rounds: [connect] is outside the [try]; an
    exception of [_close] in the [finally] block replaces the loop's. *)
Definition run (execute : Json → string + Json) (lost : string) (n : nat)
    (reset flushed : bool) (w : t) (x : World) : End * t * World :=
  match connect reset w x with
  | (Returned, w, x) =>
      let '(r, b, s) := Worker.work send sleep execute lost n (Worker.set_running true (base w)) x.2 in
      let w := mk (Worker.set_running false b) (_writer w) in
      let '(ok, w, x) := _close flushed w (x.1, s) in
      (if ok : bool
       then match r with Worker.Continue => Returned | Worker.Stop e => Failed e end
       else CloseError, w, x)
  | r => r
  end.

(** ** What the loop leaves alone *)

Section kept.
Context {A} (f : Worker.t → A) (execute : Json → string + Json) (lost : string).
Hypothesis completed_kept : ∀ w, f (Worker.count_completed w) = f w.
Hypothesis failed_kept : ∀ w, f (Worker.count_failed w) = f w.

Lemma report_failure_kept w tid err s : f (Worker.report_failure send w tid err s).1.2 = f w.
Proof. unfold Worker.report_failure. destruct (Worker._send _ _ _ _) as [[r|] s1]; cbn; auto. Qed.

Lemma round_kept w s : f (Worker.round send sleep execute lost w s).1.2 = f w.
Proof.
  unfold Worker.round. destruct (Worker._send _ _ _ _) as [[r|] s1]; [|done].
  destruct (obj_get "status" r) as [st|]; [|done]. case_bool_decide; [done|].
  destruct (negb _); [done|]. destruct (Worker.received_task r) as [[tid p]|]; [|done].
  destruct (match p with Some p => execute p | None => _ end) as [err|res];
    [apply report_failure_kept|].
  destruct (Worker._send _ _ _ _) as [[r'|] s2]; [cbn; auto|apply report_failure_kept].
Qed.

Lemma work_kept n w s : f (Worker.work send sleep execute lost n w s).1.2 = f w.
Proof.
  revert w s. induction n as [|n IH]; intros w s; [done|]. cbn [Worker.work].
  destruct (Worker._running w); [|done]. rewrite <- (round_kept w s).
  destruct (Worker.round send sleep execute lost w s) as [[[|e] w'] s']; [apply IH|done].
Qed.
End kept.

Lemma connect_base w s : (Worker.connect send w s).1.2 = Worker.set_connected true w.
Proof. unfold Worker.connect. destruct (Worker._send _ _ _ _) as [[r|] s1]; [|done]. by case_bool_decide. Qed.

(** What a worker is registered under. *)
Definition identity (w : t) : string * string * string * Z :=
  (Worker.worker_id (base w), Worker.queue_name (base w), Worker.host (base w), Worker.port (base w)).

Lemma run_spec execute lost n reset flushed w x :
  Os.wf x.1 →
  let '(e, w', x') := run execute lost n reset flushed w x in
  identity w' = identity w ∧ Os.wf x'.1 ∧
  Os.open_handles x'.1 =
    match e with
    | Unregistered _ => {[Os.next_handle x.1]} ∪ Os.open_handles x.1
    | _ => Os.open_handles x.1
    end.
Proof.
  intros Hx. unfold run, connect, Session.open_connection.
  destruct (dial _ _ _); [|done..]. cbn.
  pose proof (connect_base (base w) x.2) as Hb. pose proof (Os.acquire_wf x.1 Hx) as Hwf.
  destruct (Worker.connect send (base w) x.2) as [[[e|] b] s]; cbn in Hb; subst b; cbn.
  { destruct e; try done. destruct reset; [|done].
    split_and!; [done|by apply (Os.lose_wf true (Some _) (Os.acquire x.1).2)|by apply Os.acquire_release]. }
  set (b1 := Worker.set_running true _).
  pose proof (work_kept Worker._connected execute lost (λ _, eq_refl) (λ _, eq_refl) n b1 s) as Hc.
  pose proof (work_kept (λ w, identity (init w)) execute lost (λ _, eq_refl) (λ _, eq_refl) n b1 s) as Hi.
  destruct (Worker.work send sleep execute lost n b1 s) as [[r b2] s2]. cbn in Hc, Hi.
  unfold _close. cbn. rewrite Hc.
  destruct flushed; cbn; (split_and!; [exact Hi|by apply (Os.release_wf _ (Os.acquire x.1).2)|]);
    [destruct r|]; by apply Os.acquire_release.
Qed.

(** A worker's [run] closes the socket it opened however its loop ends
    (a shutdown, a lost connection, a reply it cannot read, an error while
    closing); the one path that leaves a socket open is a registration that
    fails on a connection that is not reset, since [connect] runs before the
    [try]. *)
Theorem run_closes_its_socket execute lost n reset flushed w x :
  Os.wf x.1 →
  let '(e, _, x') := run execute lost n reset flushed w x in
  Os.open_handles x'.1 =
    match e with
    | Unregistered _ => {[Os.next_handle x.1]} ∪ Os.open_handles x.1
    | _ => Os.open_handles x.1
    end.
Proof.
  intros Hx. pose proof (run_spec execute lost n reset flushed w x Hx) as H.
  destruct (run execute lost n reset flushed w x) as [[e w'] x']. apply H.
Qed.

(** ** The process pool *)

(** [_task_func] is the custom function, [None] for [cpu_bound_task]. *)
Record PoolWorker := mkPoolWorker {
  worker : t;
  max_workers : Z;
  _task_func : option (Json → Executor.TaskResult);
  _executor : option nat;
}.

(** The default size is four. *)
Definition pool_init (w : t) (size : Z) (f : option (Json → Executor.TaskResult)) : PoolWorker :=
  mkPoolWorker w size f None.

(** [execute] as the loop sees it; [raised] is the text of the exception and
    [other] stands for the one computation outside the model. *)
Definition pool_execute (raised : Json → string) (other : Json → string + Json) (pid : Z)
    (f : option (Json → Executor.TaskResult)) (payload : Json) : string + Json :=
  match Executor.execute f pid payload with
  | Executor.Returns j => inr j
  | Executor.Raises => inl (raised payload)
  | Executor.NotModelled => other payload
  end.

(** [ProcessPoolWorker.run]; [ProcessPoolExecutor] refuses a size below one. *)
Definition pool_run (raised : Json → string) (other : Json → string + Json) (pid : Z)
    (lost : string) (n : nat) (reset flushed : bool) (w : PoolWorker) (pools : Os.table) (x : World) :
    End * PoolWorker * Os.table * World :=
  if (max_workers w <=? 0)%Z then (BadPoolSize, w, pools, x)
  else
    let '(h, pools) := Os.acquire pools in
    let '(e, b, x) := run (pool_execute raised other pid (_task_func w)) lost n reset flushed (worker w) x in
    (e, mkPoolWorker b (max_workers w) (_task_func w) (Some h), Os.release h pools, x).

Lemma pool_run_spec raised other pid lost n reset flushed w pools x :
  Os.wf pools → Os.wf x.1 →
  let '(e, w', pools', x') := pool_run raised other pid lost n reset flushed w pools x in
  Os.open_handles pools' = Os.open_handles pools ∧
  Os.open_handles x'.1 =
    match e with
    | Unregistered _ => {[Os.next_handle x.1]} ∪ Os.open_handles x.1
    | _ => Os.open_handles x.1
    end.
Proof.
  intros Hp Hx. unfold pool_run. destruct (max_workers w <=? 0)%Z; [done|]. cbn [Os.acquire].
  pose proof (run_spec (pool_execute raised other pid (_task_func w)) lost n reset flushed (worker w) x Hx) as H.
  destruct (run _ lost n reset flushed (worker w) x) as [[e b] x']. destruct H as (_&_&H).
  split; [by apply (Os.acquire_release pools)|done].
Qed.

(** ** The launcher *)

(** [DockerWorker.execute], with the reading of [random.random()] and the
    text of the [AttributeError] of a payload that is not an object. *)
Definition docker_execute (no_get : Json → string) (u : Q) (payload : Json) : string + Json :=
  if Qltb u (20 # 100) then inl "Random simulation failure"
  else
    match payload with
    | JObj o => inr (JObj [("status", JStr "completed");
                           ("task_id", default (JStr "unknown") (dget "task_id" o))])
    | _ => inl (no_get payload)
    end.

Definition pause (e : End) : Q := match e with Refused => 5 | _ => 15 end.

(** The first [k] turns of [while True]; [attempt i] is how the [i]-th [run]
    goes, a [run] of the same worker each time. *)
Fixpoint main_loop (attempt : nat → t → World → End * t * World) (k i : nat) (w : t) (x : World) :
    bool * list (End * Q) * t * World :=
  match k with
  | O => (false, [], w, x)
  | Datatypes.S k =>
      match attempt i w x with
      | (Returned, w, x) => (true, [], w, x)
      | (e, w, x) =>
          let '(fin, log, w, x) :=
            main_loop attempt k (Datatypes.S i) w (x.1, sleep (pause e) x.2) in
          (fin, (e, pause e) :: log, w, x)
      end
  end.

Definition is_unregistered (p : End * Q) : bool :=
  match p.1 with Unregistered _ => true | _ => false end.

Definition launched (execute : nat → Json → string + Json) (lost : string) (rounds : nat → nat)
    (reset flushed : nat → bool) (i : nat) : t → World → End * t * World :=
  run (execute i) lost (rounds i) (reset i) (flushed i).

(** C35.  The launcher keeps restarting the same worker (same identifier,
    queue and broker) until one [run] returns normally: after [k] turns it
    has either stopped, or made [k] attempts that all failed and paused
    five seconds after each refused connection and fifteen after any other
    failure.  The sockets nobody has closed then, left to the garbage
    collector if they are closed at all, are exactly one per registration
    that failed -- it was refused, the reply was not understood, or the peer
    ended the stream -- without the peer resetting the connection, upon
    which asyncio closes the socket itself. *)
Theorem launcher_restarts execute lost rounds reset flushed k i w x :
  Os.wf x.1 →
  let '(fin, log, w', x') := main_loop (launched execute lost rounds reset flushed) k i w x in
  (if fin : bool then length log < k else length log = k) ∧
  Forall (λ p, p.1 ≠ Returned ∧ p.2 = match p.1 with Refused => 5 | _ => 15 end)%Q log ∧
  identity w' = identity w ∧
  size (Os.open_handles x'.1) =
    size (Os.open_handles x.1) + length (List.filter is_unregistered log).
Proof.
  revert i w x. induction k as [|k IH]; intros i w x Hx; cbn [main_loop].
  { split_and!; done. }
  pose proof (run_spec (execute i) lost (rounds i) (reset i) (flushed i) w x Hx) as H.
  unfold launched at 1. destruct (run (execute i) lost (rounds i) (reset i) (flushed i) w x) as [[e w1] x1].
  destruct H as (Hid&Hwf&Ho). specialize (IH (Datatypes.S i) w1 (x1.1, sleep (pause e) x1.2) Hwf).
  destruct (main_loop _ k (Datatypes.S i) w1 _) as [[[fin log] w'] x'].
  destruct IH as (Hl&Hf&Hid'&Hs). cbn [fst] in Hs.
  assert (size (Os.open_handles x1.1) =
    size (Os.open_handles x.1) + if is_unregistered (e, pause e) then 1 else 0) as Hs1.
  { rewrite Ho. destruct e; cbn; try lia. rewrite size_union, size_singleton; [lia|].
    intros h ->%elem_of_singleton ?%Hx. lia. }
  destruct e as [| | | |e|e| |]; [split_and!; [cbn; lia|done|done|cbn in *; lia]|..];
    (split_and!; [destruct fin; cbn; lia|by constructor|congruence|cbn in *; lia]).
Qed.
End worker.

(** A broker that is down at first, then loses the connection, then refuses
    the registration, then sends a reply without a task, and is well
    afterwards. *)
Definition moody (m : Json) (n : nat) : option Json * nat :=
  (if n <=? 1 then None
   else Some (JObj [("status", JStr (if n <=? 2 then "error" else "ok"))]), n).

Definition up (h : string) (p : Z) (n : nat) : Session.Dial :=
  if n =? 0 then Session.TurnedAway else Session.Answered.

Definition moody_worker : t := init (Worker.init "tasks" (Some "w1") "u").

Definition handles : Os.table := Os.mkTable ∅ 3.

Lemma handles_wf : Os.wf handles.
Proof. intros h Hh. by apply not_elem_of_empty in Hh. Qed.

Definition moody_run (n : nat) : End * t * (Os.table * nat) :=
  run up moody (λ _, S) (λ _, inr JNull) "lost" 1 true true moody_worker (handles, n).

Lemma run_closes_its_socket_witness :
  let '(e, _, x') := moody_run 2 in
  Os.open_handles x'.1 =
    match e with
    | Unregistered _ => {[Os.next_handle handles]} ∪ Os.open_handles handles
    | _ => Os.open_handles handles
    end.
Proof.
  apply (run_closes_its_socket up moody (λ _, S) (λ _, inr JNull) "lost" 1 true true moody_worker
    (handles, 2)).
  apply handles_wf.
Defined.

(** The five attempts. *)
Example launcher_log :
  (main_loop (λ _, S) (launched up moody (λ _, S) (λ _ _, inr JNull) "lost" (λ i, 4 - i) (λ _, true) (λ _, true))
     9 0 moody_worker (handles, 0)).1.1 =
  (true, [(Refused, 5%Q); (ResetByPeer, 15%Q);
          (Unregistered (Worker.RegistrationFailed (JStr "unknown")), 15%Q); (Failed Worker.BadResponse, 15%Q)]).
Proof. vm_compute. reflexivity. Qed.

Lemma launcher_restarts_witness :
  let '(fin, log, w', x') :=
    main_loop (λ _, S) (launched up moody (λ _, S) (λ _ _, inr JNull) "lost" (λ i, 4 - i) (λ _, true) (λ _, true))
      9 0 moody_worker (handles, 0) in
  (if fin : bool then length log < 9 else length log = 9) ∧
  Forall (λ p, p.1 ≠ Returned ∧ p.2 = match p.1 with Refused => 5 | _ => 15 end)%Q log ∧
  identity w' = identity moody_worker ∧
  size (Os.open_handles x'.1) =
    size (Os.open_handles handles) + length (List.filter is_unregistered log).
Proof.
  apply (launcher_restarts up moody (λ _, S) (λ _ _, inr JNull) "lost" (λ i, 4 - i) (λ _, true) (λ _, true)
    9 0 moody_worker (handles, 0)).
  apply handles_wf.
Defined.
End Deployment.
