(* ===== verification/Restart.v ===== *)
(** * Workers that come back ([run_worker.py], [broker/worker_registry.py])

A worker whose connection was lost is started again by the launcher,
fifteen seconds later, and registers under its old name with a new, empty
record of its tasks.  A task of its first life that is still down as its
own would then be nobody's.  It never is: the sweeps come every two
seconds, and the worker is taken for dead after six. *)

From S2P Require Import Prelude PyDict Json JsonText DeadLetter QueueManager QueueInvariant TaskConservation TaskLifecycle RetryPolicy QueueOrder WorkerRegistry Eviction LoadShedder WalStore Metrics Server Frames Requests Recovery ControlPlane Supervision Leases Wire EndToEnd Worker Coroutines WorkerDrain Fleet FleetInvariant Deployment.
Import Server Control Supervision Leases Coroutine Fleet FleetInvariant.

Module Restart.

#[local] Existing Instance Metrics.Qle_dec.

(** How long the launcher waits when the connection was lost. *)
Definition RESTART_PAUSE : Q := Deployment.pause (Deployment.Failed Worker.LostConnection).

Section restart.
Context `{codec : JsonCodec} (lost : string).
Implicit Types (off : Z * Z) (f : Fleet.t) (n : Node).

Abbreviation wid n := (Worker.worker_id (proc n)).

(** The broker has no task down as this worker's. *)
Definition handless (w : string) f : Prop := ∀ tid, holder (ctl (Fleet.broker f)) tid ≠ Some w.

(** ** Who may get hold of a task *)

Lemma handle_holder e b tid :
  supervised b → holder (ctl (handle e b)) tid = holder_after (event_action e b) (ctl b) tid.
Proof. intros (Hc&_). by rewrite handle_acts, act_holder. Qed.

(** Only a worker whose loop is at work on a connection. *)
Lemma step_holder off v f tid w :
  fleet_ok_off off f → admissible v f → holder (ctl (Fleet.broker (Fleet.step lost v f))) tid = Some w →
  holder (ctl (Fleet.broker f)) tid = Some w ∨ ∃ n, n ∈ nodes f ∧ wid n = w ∧ at_work n.
Proof.
  intros Hf Ha. pose proof (ok_supervised _ f Hf) as Hsup. set (b := Fleet.broker f) in *.
  assert (Hpoll : ∀ i n env, nodes f !! i = Some n → at_work n →
    holder_after (Poll (Worker.queue_name (proc n)) (wid n) (e_time env)) (ctl b) tid = Some w →
    holder (ctl b) tid = Some w ∨ ∃ n, n ∈ nodes f ∧ wid n = w ∧ at_work n).
  { intros i n env Hi Hat. cbn [holder_after]. case_decide; [|by left]. intros [= <-]. right. exists n.
    split_and!; [by eapply list_elem_of_lookup_2|done..]. }
  destruct v as [i env|i env x|i env|i|i|i|i env|env|e]; cbn [Fleet.step];
    [| | | | | | |cbn [Fleet.broker]; rewrite handle_holder by done; fold b; rewrite button_action;
       destruct (picked env b); by left
     |cbn [Fleet.broker]; fold b; rewrite handle_holder by done; cbn in Ha; unfold foreign in Ha; fold b in Ha;
      destruct (event_action e b); try done; cbn [holder_after]; try (by left); case_decide; [done|by left]];
    (destruct (nodes f !! i) as [n|] eqn:Hi; [|by left]);
    (destruct (Forall_lookup_1 _ _ _ _ (ok_named _ f Hf) Hi) as [Hw Hq]).
  - cbn [step_node]. destruct (to_run n); [|by left]. unfold enrol. rewrite enrol_connects by done.
    cbn [set_node Fleet.broker]. rewrite handle_holder by done. fold b. rewrite register_action_of by done.
    by left.
  - destruct (status n) as [|p|p| |r] eqn:Hst.
    2: { intros Hh. destruct (turn_step lost f i env x n p Hf Hi Hst) as [_ Ht].
         cbn [Fleet.step] in Ht. rewrite Hi in Ht. rewrite Ht in Hh. cbn [set_node Fleet.broker] in Hh.
         assert (Hat : at_work n) by (unfold at_work; by rewrite Hst).
         pose proof (λ t, busy_held f i n t Hf Hi Hat) as Hb. unfold busy in Hb. rewrite Hst in Hb.
         destruct p as [| |t q|t|t err|r]; cbn [turned snd] in Hh; try (by left);
           rewrite handle_holder in Hh by done; fold b in Hh.
         - rewrite consume_action_of in Hh by done. by apply (Hpoll i n env).
         - rewrite ack_action_of in Hh by by apply Hb. cbn [holder_after] in Hh. case_decide; [done|by left].
         - rewrite nack_action_of in Hh by by apply Hb. cbn [holder_after] in Hh. case_decide; [done|by left]. }
    2: { pose proof (cut_step lost f i env x n p Hf Hi Hst) as [_ Ht]. cbn [Fleet.step] in Ht.
         rewrite Hi in Ht. rewrite Ht. by left. }
    all: unfold step_node; rewrite Hst; by left.
  - unfold step_node. destruct (status n) as [|p|p| |r] eqn:Hst; rewrite ?cut_pulse; try (by left).
    destruct (Worker._running (proc n)) eqn:Hr; [|by left].
    destruct (Forall_lookup_1 _ _ _ _ (ok_agrees _ f Hf) Hi) as ((?&_)&_); [unfold at_work; by rewrite Hst|].
    rewrite pulse_beats by done. cbn [set_node Fleet.broker]. rewrite handle_holder by done. fold b.
    rewrite heartbeat_action_of by done. by left.
  - unfold step_node. destruct (status n); by left.
  - unfold step_node. destruct (status n); by left.
  - unfold step_node. destruct (status n); by left.
  - destruct (status n) as [|p|p| |r] eqn:Hst.
    2: { intros Hh. pose proof (lose_step lost f i env n p Hf Hi Hst) as Ht. cbn [Fleet.step] in Ht.
         rewrite Hi in Ht. rewrite Ht in Hh.
         assert (Hat : at_work n) by (unfold at_work; by rewrite Hst).
         pose proof (λ t, busy_held f i n t Hf Hi Hat) as Hb. unfold busy in Hb. rewrite Hst in Hb.
         destruct p as [| |t q|t|t err|r]; cbn [request_of set_node Fleet.broker] in Hh; try (by left);
           rewrite handle_holder in Hh by done; fold b in Hh.
         - rewrite consume_action_of in Hh by done. by apply (Hpoll i n env).
         - rewrite ack_action_of in Hh by by apply Hb. cbn [holder_after] in Hh. case_decide; [done|by left].
         - rewrite nack_action_of in Hh by by apply Hb. cbn [holder_after] in Hh. case_decide; [done|by left]. }
    all: unfold step_node; rewrite Hst; by left.
Qed.


(** ** What a move does to the other workers *)

(** Moves that change when a worker was heard of. *)
Definition beat_time (v : Move) : option Q :=
  match v with
  | Enrol _ env | Pulse _ env | Button env => Some (e_time env)
  | _ => None
  end.

Definition follows (v : Move) n n' : Prop :=
  wid n' = wid n ∧
  (last_beat n' = last_beat n ∧ (at_work n' → at_work n) ∨
   ∃ t, beat_time v = Some t ∧ (t - 10 <= last_beat n')%Q).

Lemma follows_refl v n : follows v n n.
Proof. split; [done|by left]. Qed.

Lemma stand_follows v w p at_ n :
  Worker.worker_id w = wid n → at_work n ∨ (∀ p, ¬ at_work (mkNode w (at_ p) (last_beat n))) →
  follows v n (stand_as at_ w p (last_beat n)).
Proof.
  intros Hw H. destruct p as [| | | | |r]; (split; [done|left; split; [done|]]);
    (destruct H as [H|H]; [done|]); first [by intros ?%H|done].
Qed.

Lemma turned_follows off env x i n p f :
  fleet_ok_off off f → nodes f !! i = Some n → status n = AtWork p →
  follows (Turn i env x) n (turned env x n p (Fleet.broker f)).1.
Proof.
  intros Hf Hi Hst. assert (Hat : at_work n) by (unfold at_work; by rewrite Hst).
  destruct p; cbn [turned fst]; first [by apply stand_follows; [|left]|by apply follows_refl|by split; [|left]].
Qed.

Lemma step_follows off v f j n' :
  fleet_ok_off off f → nodes (Fleet.step lost v f) !! j = Some n' →
  ∃ n, nodes f !! j = Some n ∧ follows v n n'.
Proof.
  intros Hf.
  assert (Hone : ∀ i n m b, nodes f !! i = Some n → follows v n m →
    nodes (set_node i m b f) !! j = Some n' → ∃ n, nodes f !! j = Some n ∧ follows v n n').
  { intros i n m b Hi Hm Hj. cbn [set_node nodes] in Hj. destruct (decide (j = i)) as [->|Hne].
    - rewrite list_lookup_insert_eq in Hj by by eapply lookup_lt_Some. injection Hj as <-. by exists n.
    - rewrite list_lookup_insert_ne in Hj by done. exists n'. split; [done|apply follows_refl]. }
  destruct v as [i env|i env x|i env|i|i|i|i env|env|e]; [| | | | | | | |
    intros Hj; exists n'; split; [done|apply follows_refl]];
    [(destruct (nodes f !! i) as [n|] eqn:Hi;
       [|cbn [Fleet.step]; rewrite Hi; intros Hj; exists n'; split; [done|apply follows_refl]])..|].
  - cbn [Fleet.step]. rewrite Hi. cbn [step_node]. destruct (Forall_lookup_1 _ _ _ _ (ok_named _ f Hf) Hi) as [Hw _].
    destruct (to_run n); [|apply (Hone i n); [done|apply follows_refl]].
    unfold enrol. rewrite enrol_connects by done. apply (Hone i n); [done|]. split; [done|]. right.
    exists (e_time env). split; [done|]. cbn. lra.
  - destruct (status n) as [|p|p| |r] eqn:Hst.
    2: { destruct (turn_step lost f i env x n p Hf Hi Hst) as [_ ->]. apply (Hone i n); [done|].
         by eapply turned_follows. }
    2: { destruct (cut_step lost f i env x n p Hf Hi Hst) as [_ ->]. apply (Hone i n); [done|].
         apply stand_follows; [done|]. right. by intros q []. }
    all: cbn [Fleet.step]; rewrite Hi; unfold step_node; rewrite Hst; apply (Hone i n); [done|apply follows_refl].
  - cbn [Fleet.step]. rewrite Hi. unfold step_node. destruct (status n) as [|p|p| |r] eqn:Hst;
      try (apply (Hone i n); [done|apply follows_refl]).
    destruct (Worker._running (proc n)); apply (Hone i n); try done; [|apply follows_refl].
    split; [done|]. right. exists (e_time env). split; [done|]. cbn. lra.
  - cbn [Fleet.step]. rewrite Hi. unfold step_node. destruct (status n) as [|p|p| |r] eqn:Hst;
      apply (Hone i n); try done; try apply follows_refl; (split; [done|left; split; [done|]]);
      unfold at_work; by rewrite Hst.
  - cbn [Fleet.step]. rewrite Hi. apply (Hone i n); [done|]. unfold step_node.
    split; [by destruct (status n)|left; split; by destruct (status n)].
  - cbn [Fleet.step]. rewrite Hi. unfold step_node. destruct (status n) as [|p|p| |r] eqn:Hst;
      apply (Hone i n); try done; try apply follows_refl. by split; [|left].
  - destruct (status n) as [|p|p| |r] eqn:Hst.
    2: { rewrite (lose_step lost f i env n p) by done.
         destruct (request_of (proc n) p); (apply (Hone i n); [done|]); [|apply follows_refl].
         apply stand_follows; [done|]. right. by intros q []. }
    all: cbn [Fleet.step]; rewrite Hi; unfold step_node; rewrite Hst; apply (Hone i n); [done|apply follows_refl].
  - cbn [Fleet.step nodes]. destruct (picked env (Fleet.broker f)) as [w|];
      [|intros Hj; exists n'; split; [done|apply follows_refl]].
    rewrite list_lookup_fmap. destruct (nodes f !! j) as [n|]; [|done]. cbn. intros [= <-].
    exists n. split; [done|]. unfold press. case_bool_decide; [|apply follows_refl].
    split; [done|]. right. exists (e_time env). split; [done|]. cbn. lra.
Qed.

(** ** Regular sweeps *)

(** At most so long after a sweep comes the next one: the program's
    interval is two seconds, and a delay of three more does no harm. *)
Context (gap : Q).

Definition sweep_time (v : Move) : option Q :=
  match v with Other (Eviction env _) => Some (e_time env) | _ => None end.

Definition next_sweep (last : Q) (v : Move) : Q := default last (sweep_time v).
Definition last_sweep (last : Q) (vs : list Move) : Q := foldl next_sweep last vs.

(** [v] happens between the last sweep and the time of the next. *)
Definition on_time (last : Q) (v : Move) : Prop :=
  match sweep_time v, beat_time v with
  | Some t, _ | None, Some t => (last <= t <= last + gap)%Q
  | None, None => True
  end.

(** The launcher waits before it starts the worker again. *)
Definition patient f (v : Move) : Prop :=
  match v with
  | Enrol i env =>
      match nodes f !! i with
      | Some n =>
          match status n with
          | Left (Worker.Stop _) => (RESTART_PAUSE <= e_time env - last_beat n)%Q
          | _ => True
          end
      | None => True
      end
  | _ => True
  end.

(** No sweep finds a connected worker silent for longer than the timeout,
    nobody else fetches tasks or reports on them, submitted identifiers are
    fresh, and there is no reset. *)
Definition undisturbed f (v : Move) : Prop :=
  match v with Other e => foreign f e | _ => True end.

Fixpoint undisturbed_all (vs : list Move) f : Prop :=
  match vs with
  | [] => True
  | v :: vs => undisturbed f v ∧ undisturbed_all vs (Fleet.step lost v f)
  end.

Fixpoint tended (last : Q) (vs : list Move) f : Prop :=
  match vs with
  | [] => True
  | v :: vs => on_time last v ∧ patient f v ∧ tended (next_sweep last v) vs (Fleet.step lost v f)
  end.

#[global] Instance patient_dec f v : Decision (patient f v).
Proof.
  unfold patient. destruct v as [i| | | | | | | |e]; try apply _.
  destruct (nodes f !! i) as [n|]; [|apply _]. destruct (status n) as [| | | |[]]; apply _.
Defined.

#[global] Instance undisturbed_dec f v : Decision (undisturbed f v).
Proof. unfold undisturbed, foreign. destruct v as [| | | | | | | |e]; try apply _. destruct (event_action _ _); apply _. Defined.

#[global] Instance undisturbed_all_dec vs f : Decision (undisturbed_all vs f).
Proof. revert f. induction vs; intros f; cbn; apply _. Defined.

#[global] Instance on_time_dec last v : Decision (on_time last v).
Proof. unfold on_time. destruct (sweep_time v), (beat_time v); apply _. Defined.

#[global] Instance tended_dec last vs f : Decision (tended last vs f).
Proof. revert last f. induction vs; intros last f; cbn; apply _. Defined.

(** Whoever was last heard of long before the last sweep has nothing. *)
Definition settled_or_recent (last : Q) f n : Prop :=
  (¬ at_work n ∧ handless (wid n) f) ∨ (last - 10 <= last_beat n)%Q.

Definition swept (last : Q) f : Prop := Forall (settled_or_recent last f) (nodes f).

(** A sweep takes back everything a silent worker has. *)
Lemma sweep_frees off f env iter n :
  fleet_ok_off off f → enumerates (Eviction env iter) → n ∈ nodes f → overdue (e_time env) n = true →
  handless (wid n) (Fleet.step lost (Other (Eviction env iter)) f).
Proof.
  intros Hf He Hn Ho tid. pose proof (ok_supervised _ f Hf) as (Hc&Hw&Hcov&_).
  cbn [Fleet.step Fleet.broker]. rewrite handle_holder by apply (ok_supervised _ f Hf).
  cbn [event_action holder_after]. case_decide as Hr; [done|]. intros Hh. apply Hr.
  destruct (Hcov _ _ Hh) as (j&Hj&Hin). apply released_spec; [apply Hc|done|].
  exists (wid n), j. split_and!; [done| |done]. unfold Registry.is_dead.
  by rewrite (proj1 (Forall_forall _ _) (ok_beats _ f Hf) n Hn j Hj).
Qed.

Lemma handless_step off v f n :
  fleet_ok_off off f → admissible v f → n ∈ nodes f → ¬ at_work n → handless (wid n) f →
  handless (wid n) (Fleet.step lost v f).
Proof.
  intros Hf Ha Hn Hat Hh tid H. apply (step_holder off) in H as [H|(m&Hm&Hid&Hw)]; [by apply (Hh tid)| |done..].
  apply Hat. apply list_elem_of_lookup in Hn as [i Hi], Hm as [j Hj].
  assert (j = i) as -> by by eapply wid_inj. rewrite Hi in Hj. by injection Hj as ->.
Qed.

Lemma swept_step off last v f :
  fleet_ok_off off f → genuine_move v → admissible v f → on_time last v → swept last f →
  swept (next_sweep last v) (Fleet.step lost v f).
Proof.
  intros Hf Hg Ha Ht Hs. apply Forall_lookup. intros j n' Hj.
  destruct (step_follows _ v f j n' Hf Hj) as (n&Hi&Hid&H).
  pose proof (Forall_lookup_1 _ _ _ _ Hs Hi) as Hn. pose proof (list_elem_of_lookup_2 _ _ _ Hi) as Hin.
  destruct H as [[Hl Hat]|(t&Hbt&Hle)].
  2: { right. unfold on_time in Ht. rewrite Hbt in Ht.
       assert (next_sweep last v = last) as -> by by destruct v. destruct v; cbn in Ht, Hbt; try done; lra. }
  destruct (sweep_time v) as [t|] eqn:Est.
  - destruct v as [| | | | | | | |[|env iter| | |]]; try done. injection Est as <-.
    cbn [next_sweep sweep_time default from_option id]. unfold settled_or_recent. rewrite Hid, Hl.
    cbn [Fleet.step nodes] in Hj. rewrite Hi in Hj. injection Hj as <-.
    destruct (overdue (e_time env) n) eqn:Ho.
    + left. split; [|by eapply sweep_frees]. intros Hw. cbn in Ha. unfold foreign in Ha.
      cbn [event_action] in Ha. by rewrite (Forall_lookup_1 _ _ _ _ Ha Hi Hw) in Ho.
    + right. apply Qltb_ge in Ho. unfold Registry.HEARTBEAT_TIMEOUT_SECONDS in Ho. cbn. lra.
  - assert (next_sweep last v = last) as -> by (unfold next_sweep; by rewrite Est).
    unfold settled_or_recent. rewrite Hid, Hl. destruct Hn as [[Hnw Hh]|Hr]; [left|by right].
    split; [by intros ?%Hat|by eapply handless_step].
Qed.

(** By the time the launcher is done waiting, a sweep has come. *)
Lemma pause_is_long_enough last f n now :
  (gap < 5)%Q → swept last f → n ∈ nodes f → (now <= last + gap)%Q →
  (RESTART_PAUSE <= now - last_beat n)%Q → handless (wid n) f.
Proof.
  intros Hg Hs Hn Ht Hp. destruct (proj1 (Forall_forall _ _) Hs n Hn) as [[_ H]|H]; [done|].
  unfold RESTART_PAUSE in Hp. cbn in Hp. lra.
Qed.

Lemma patient_admissible off last v f :
  (gap < 5)%Q → fleet_ok_off off f → swept last f → on_time last v → patient f v →
  undisturbed f v → admissible v f.
Proof.
  intros Hgap Hf Hs Ht Hp Hu. destruct v as [i env| | | | | | | |e]; try done. cbn. unfold rejoins.
  cbn in Hp, Ht. destruct (nodes f !! i) as [n|] eqn:Hi; [|done]. destruct (status n) as [| | | |[]]; try done.
  eapply none_held; [done|]. apply (pause_is_long_enough last f n (e_time env)); try done; [|apply Ht].
  by eapply list_elem_of_lookup_2.
Qed.

Lemma tended_admissible off last vs f :
  (gap < 5)%Q → fleet_ok_off off f → swept last f → Forall genuine_move vs → tended last vs f →
  undisturbed_all vs f →
  admissible_all lost vs f ∧ swept (last_sweep last vs) (Fleet.steps lost vs f).
Proof.
  intros Hgap Hf Hs Hg. revert off last f Hf Hs. induction Hg as [|v vs Hv _ IH]; intros off last f Hf Hs Ht Hu; [done|].
  destruct Ht as (Ht&Hp&Hrest), Hu as [Hu Hus].
  pose proof (patient_admissible off last v f Hgap Hf Hs Ht Hp Hu) as Ha.
  destruct (IH (plus off (lost_reply v f)) (next_sweep last v) (Fleet.step lost v f)) as [H1 H2];
    [by apply step_ok|by eapply swept_step|done..|]. done.
Qed.

Lemma start_swept last f : at_start f → swept last f.
Proof.
  intros Hs. pose proof (at_start_ok f Hs) as Hf. destruct Hs as (Hb&_&_&_&Hl).
  eapply Forall_impl; [exact Hl|]. intros n (_&Hst&_). left. split.
  - unfold at_work. rewrite Hst. by intros [].
  - intros tid. destruct Hb as (_&Hfl&_). unfold holder. cbn. by rewrite Hfl.
Qed.

(** C14.  A worker that comes back leaves nothing behind, as long as no
    connected worker is overdue.  Suppose that no sweep finds a connected
    worker silent for more than six seconds -- one that misses its
    heartbeats is evicted and may go on fetching tasks nobody tracks --,
    that nobody else fetches tasks or reports on them, and that there is no
    reset.  When sweeps come at least every five seconds -- the program's
    come every two -- and the launcher starts a worker that has lost its
    connection again only fifteen seconds after it was last heard of, then
    at each such restart the broker has no task down as that worker's any more, whatever it was
    doing when it was cut off.  So every move of the history is one of
    those a fleet is sound under, and every connected worker, restarted or
    not, holds exactly the task it is working on. *)
Theorem restarts_strand_no_task last vs f :
  (gap < 5)%Q → at_start f → Forall genuine_move vs → tended last vs f →
  undisturbed_all vs f →
  let f' := Fleet.steps lost vs f in
  admissible_all lost vs f ∧
  (∀ n now, n ∈ nodes f' → (now <= last_sweep last vs + gap)%Q →
     (RESTART_PAUSE <= now - last_beat n)%Q →
     ∀ tid, holder (ctl (Fleet.broker f')) tid ≠ Some (wid n)) ∧
  (∀ n tid, n ∈ nodes f' → at_work n →
     holder (ctl (Fleet.broker f')) tid = Some (wid n) ↔ busy n = Some tid).
Proof.
  intros Hgap Hs Hg Ht Hu f'. pose proof (at_start_ok f Hs) as Hf.
  destruct (tended_admissible _ last vs f Hgap Hf (start_swept last f Hs) Hg Ht Hu) as [Ha Hsw].
  split_and!; [done|intros n now Hn Hnow Hp; by eapply pause_is_long_enough|].
  intros n tid Hn Hat. pose proof (steps_ok_off lost _ vs f Hf Hg Ha) as Hf'.
  destruct (proj1 (Forall_forall _ _) (ok_agrees _ _ Hf') n Hn Hat) as (_&Hh&_). apply Hh.
Qed.
End restart.

(** ** Witness *)

#[local] Existing Instance JsonText.codec.

(** [w1] is cut off by the crash button while it executes a task; two
    sweeps later [w2] has that task, and fifteen seconds later [w1] is
    back. *)
Definition comeback : list Move :=
  [Enrol 0 (env_of 0); Enrol 1 (env_of 0); produce_at 1 "t1" 1; Turn 0 (env_of 1) (inr JNull);
   Button (env_of 2); Other (sweep_at 2); Pulse 1 (env_of 2); Turn 1 (env_of 3) (inr JNull);
   Turn 0 (env_of 3) (inr JNull); Turn 0 (env_of 3) (inr JNull); Turn 0 (env_of 3) (inr JNull)] ++
  concat ((λ k, let t := inject_Z (2 * Z.of_nat k) in [Other (sweep_at t); Pulse 1 (env_of t)]) <$> seq 2 8) ++
  [Enrol 0 (env_of 19)].

Lemma restarts_strand_no_task_witness :
  let f' := Fleet.steps "lost" comeback two_workers in
  admissible_all "lost" comeback two_workers ∧
  (∀ n now, n ∈ nodes f' → (now <= last_sweep 0 comeback + 2)%Q →
     (RESTART_PAUSE <= now - last_beat n)%Q →
     ∀ tid, holder (ctl (Fleet.broker f')) tid ≠ Some (Worker.worker_id (proc n))) ∧
  (∀ n tid, n ∈ nodes f' → at_work n →
     holder (ctl (Fleet.broker f')) tid = Some (Worker.worker_id (proc n)) ↔ busy n = Some tid).
Proof.
  apply (restarts_strand_no_task "lost" 2 0 comeback two_workers).
  - reflexivity.
  - split; [exact example_idle_start|]. split; [decide_by_compute|]. split; [reflexivity|].
    split; [decide_by_compute|]. repeat constructor; discriminate.
  - repeat first [apply Forall_nil_2 | apply Forall_cons_2; [first [exact I | apply sweep_enumerates]|]].
  - decide_by_compute.
  - decide_by_compute.
Defined.

Example comeback_outcome :
  status <$> nodes (Fleet.steps "lost" comeback two_workers) =
    [AtWork Polling; AtWork (Executing "t1" (JInt 1))].
Proof. vm_compute. reflexivity. Qed.
End Restart.
